(* ===== verification/_CoqProject ===== *)
-Q . S2P
Prelude.v
StableSort.v
Text.v
Http.v
Config.v
CheapExpr.v
Cel.v
CelSession.v
TraceId.v
Ip.v
CelRegex.v
CelFunctions.v
Precheck.v
CelEngine.v
Matcher.v
RuleEval.v
RouteTable.v
VjsSocket.v
VjsRegistry.v
VjsThreads.v
LoadBalancer.v
Pingora.v
ErrorPages.v
Ctx.v
Cache.v
Upstream.v
Response.v
Frame.v
Proxy.v
Request.v
Filter.v
Middleware.v
MwCache.v
MwGuards.v
MwJwt.v
MwInterceptor.v
MwAccessLog.v
MwCompression.v
MwRequest.v
MwHeaders.v
MwContent.v
CertStore.v
Server.v
System.v
Bindings.v
MwRegistry.v
Protected.v
Breaker.v
JsApi.v
