(* ===== verification/Prelude.v ===== *)
(** * Verification of lonesome-js

    lonesome-js is an HTTP proxy library for JavaScript runtimes, written in Rust
    on the [pingora] framework. A JavaScript program creates a server object,
    adds routes, error pages and certificates to it, and starts it; a thread then
    serves requests. A route has a CEL rule, middlewares and upstreams, and an
    upstream may be a TCP address, a Unix socket, or a listener implemented in
    JavaScript. Paths below are relative to the crate, [src/src/].

    ** How a request runs, and where it is modelled

    - [proxy/proxy.rs] (file [Proxy]) is what the framework calls.
      [early_request_filter] clears the context of the connection ([proxy/ctx.rs],
      file [Ctx]), reads the request ([matcher/cel_session_context.rs], file
      [CelSession], its trace ids in [TraceId]) and looks up the route table ([route/route_table.rs], file
      [RouteTable]); [request_filter] enforces the policy on SNI and [Host] and
      runs the middlewares; [upstream_peer] asks the route's pool for a peer;
      response filters follow; errors end in [fail_to_proxy]. The cache
      callbacks go to the handler a middleware has installed ([proxy/cache.rs],
      file [Cache], has the handler trait with its default methods). What no
      callback changes of a request is its frame (file [Frame]); the callbacks
      as the framework may call them, in any order, are [Request], with the
      hooks of single middlewares; [Filter] is [request_filter] as a machine
      that runs one middleware at a time.
    - A route's rule is a matcher ([matcher/matcher.rs], [matcher/rule_eval.rs],
      file [Matcher]): a three-valued pre-check ([matcher/precheck/expr.rs], file
      [CheapExpr]) built from the parsed rule ([matcher/precheck/cel.rs], file
      [Precheck]) decides what it can, and the full CEL program the rest. The rule
      functions are [CelFunctions] and [Ip] ([matcher/cel_common.rs]) and
      [CelRegex] ([matcher/cel_regex.rs]); the syntax and values of CEL are [Cel];
      [RuleEval] is the evaluation of expressions outside a request, with the
      conversion of values to JSON.
    - The pool ([upstream/upstream.rs], file [Upstream]) picks a backend with the
      framework's balancers, gated by passive health ([upstream/lb.rs], file
      [LoadBalancer]), and builds the peer. A JavaScript upstream is a listener of
      the registry ([virtual_js/], file [VjsRegistry]), whose connections are
      byte streams with wakers ([virtual_js/socket.rs], file [VjsSocket]);
      [VjsThreads] cuts the registry's functions into what happens under one
      lock or atomic access and interleaves them on any number of threads.
    - Generated responses ([proxy/response.rs], file [Response]) consult the
      error pages ([server/error_page_store.rs], file [ErrorPages]).
    - The middlewares: the trait and its default methods
      ([middlewares/middleware.rs], file [Middleware]); health check, rate limit
      and basic authentication (file [MwGuards]); redirect, redirect to HTTPS,
      rewrite and method rewrite (file [MwRequest]); request headers, response
      headers and CORS (file [MwHeaders]); fixed responses, variables and error
      page rewriting (file [MwContent]); the cache middleware and its handler
      (file [MwCache]); JWT and JWE authentication (file [MwJwt]); interceptors
      implemented in JavaScript with their registry ([interceptor/], file
      [MwInterceptor]); the access log with its writer task (file [MwAccessLog]);
      compression (file [MwCompression]); the registry that builds all eighteen
      ([middlewares/registry.rs], [config/middleware_config.rs], file
      [MwRegistry]).
    - The server object ([bindings/server.rs], [server/server.rs],
      [route/route.rs], file [Server]) owns the tables, the certificates
      ([server/cert_store.rs], [server/tls_callbacks.rs], file [CertStore]) and the
      life cycle of the thread; the configuration records and their validators
      are [Config] ([config/]). The objects JavaScript passes and gets back,
      their conversions, and the exported functions are [Bindings]
      ([bindings/]); every exported call that changes something is a constructor
      of [JsApi.JsCall].
    - [System] is the whole: a server, the requests it is serving and the rest
      of the process take steps in any order ([System.system_step]). The task of
      a request may wait between two middlewares, so [request_filter] takes one
      step per middleware ([System.sys_filter]), and a hook of any other
      callback that is suspended there is a step of its own
      ([System.sys_hook]); a callback other than [request_filter] that is not
      suspended is one step. A single hook is not interrupted: the points inside
      it where the Rust code waits (a write to the client, a call to JavaScript)
      are not interleaved with other steps. [Protected] and [Breaker] compose
      the system with the middlewares of the registry.

    ** How the code is represented

    A Rust [Result] is [result] and [?] is [let?]. Handlers that take the context
    and the session by mutable reference are functions of a state and error monad
    ([Ctx.M]) over the context, the downstream session and the state shared by
    all requests. The session has the outcomes of the writes to the client one by
    one, so a write may fail after others went out. Building a route changes the
    shared state: an access log registers its sink. Objects shared by reference (health states, balancers,
    listeners, sockets) live in heaps and are named by locations. Integers are
    [Z] with the wrap-around of their width written out where it can be reached
    (health counters, retry counters, connection ids, status counts, the limiter's
    [f64] product as an IEEE double of the Standard Library's specification).
    Strings and bodies are byte strings. A function that recurses on something
    other than its argument's structure ([trim], number printing, the drain of
    a listener) has fuel that is the length of its input, which its lemmas show
    to be enough; the loop that draws a trace id has a unit of fuel per draw,
    and its theorem says which amount suffices and when none does.

    Code outside the repository is an argument: a class with the operations the
    sources call and, where a theorem needs it, a class of laws that state the
    documented behaviour ([Http.HttpLib] and [HttpLaws], [CelEngine.CelLib] and
    [CelLaws], [CelRegex.RegexLib], [CelFunctions.RuleLib], [LoadBalancer.TlsLib],
    [LbLib] and [LbLaws], [Upstream.PeerLib], [CertStore.CertLib],
    [MwGuards.RateLib] and [RateLaws], [MwGuards.AuthLib], [MwRequest.MethodLib],
    [Cache.CacheLib] and [CacheLaws], [MwJwt.JoseLib], [MwInterceptor.JsCalls],
    [MwAccessLog.LogLib] and [LogLaws], [MwCompression.CompressionLaws],
    [RuleEval.JsonLib] and [JsonLaws], [Bindings.MwJson]).
    Each has a concrete instance on which the examples and witnesses evaluate.

    ** What the theorems show

    - The running system: in every state that operations, callbacks and other
      requests can reach, the tables are well formed and every pool, also that of
      a route that was removed while a request holds it, covers its endpoints;
      a request is served by the best route of the table it arrived at and keeps
      it; asking for its peer takes no internal-error path; a peer chosen under
      the health check is healthy, and one of a JavaScript upstream leads to the
      active listener of its key; a request passes the filters of a guarded
      route only with the credentials or the token it arrived with, also when
      other steps run between two of them; an endpoint that has used up its
      failures is not chosen again within its failure window, not by the retry
      either, when its route has more than one; no call from JavaScript breaks
      the invariants, and one that throws changed nothing but that a refused
      route may leave the sinks of its access logs.
    - Routing: the fast path of a rule never contradicts CEL; the table refines
      a map and is in priority order.
    - Isolation: nothing of one request reaches the next on a connection; under
      [strict] a TLS request cannot name another host than its SNI; under
      [strict_rewrite_header] the forwarded host is the SNI; middlewares cannot
      change what a request was routed by.
    - Upstreams: the health state has a closed form, retries are bounded.
    - JavaScript upstreams: a socket is a faithful byte queue without lost
      wake-ups; over every interleaving of threads the listeners, their
      connections and the socket map agree but for what an operation under way
      is about to put right, the operations end, and every operation of
      [VjsRegistry] is its thread running alone; unregistering cuts off every
      connection of the listener and no other.
    - Responses: the error page of highest priority that applies is served, a
      generated response is well formed on the wire, a replaced body is sent
      exactly once.
    - Middlewares: what each lets pass, answers, edits and bounds. Only a token
      that a key of the set accepts, and that is in time, passes [jwt]; an entry
      is stale exactly when it was stored up to the time of the last purge of
      its route; cache keys name the route, the host and the path, for hosts
      without a slash; lifetimes are capped; log lines are
      written whole and in order; every middleware of a route that can be
      installed is well formed.
    - Certificates: the three tables refine one map of patterns.
    - The server: its life cycle and the atomicity of updates.
    - JavaScript: what a program starts the server with, and each route it adds,
      is what the status reports; offline evaluation of an expression succeeds
      exactly on values that have a JSON form and agrees with them.

    Interfaces between components are classes: [RouteTable.RouteLike] and
    [Precheck.Source] for the traits of the sources, [Ctx.Middleware] with
    [Proxy.MiddlewareLaws] for what the proxy relies on, which
    [MwRegistry.registry_laws] discharges for all middlewares, and
    [Cache.CacheOps] with [Proxy.CacheFramed] for the cache handler, which
    [MwRegistry.cache_ops] implements and [MwRegistry.registry_cache_framed]
    discharges.

    ** What is not modelled

    Not modelled: the bodies of the framework and of the TLS, HTTP, CEL, JOSE,
    JSON and regular expression libraries, which are parameters; the decoding of
    a middleware's JSON configuration, which is derived by [serde]; the module
    declarations ([mod.rs], [lib.rs]) and the tests. Neither are the errors of a
    lock that a panicking thread has poisoned. Nor is a hook
    suspended half way: its effects on the state of the request are those of
    its whole body, because the request is borrowed by the task that waits,
    but another request may change the shared state in between, which the
    model lets happen only before or after the hook. *)

From stdpp Require Import base tactics gmap strings list sorting fin_maps.
From Stdlib Require Import ZArith Lia.

(** ** Results: Rust's [Result<A, E>] *)

Inductive result (A E : Type) : Type :=
| Ok (a : A)
| Err (e : E).
Arguments Ok {A E} a.
Arguments Err {A E} e.

Declare Scope rust_scope.
Delimit Scope rust_scope with rust.

(** The [?] operator of Rust: continue with the value, or return the error. *)
Definition result_bind {A B E} (r : result A E) (k : A → result B E) : result B E :=
  match r with
  | Ok a => k a
  | Err e => Err e
  end.

Notation "'let?' x ':=' c 'in' k" := (result_bind c (λ x, k))
  (at level 10, x binder, c at level 100, k at level 200)
  : rust_scope.
Notation "c ';?' k" := (result_bind c (λ _, k))
  (at level 100, right associativity) : rust_scope.
Open Scope rust_scope.

(** [Result::map_err], [Result::ok], [Option::ok_or]. *)
Definition map_err {A E F} (f : E → F) (r : result A E) : result A F :=
  match r with Ok a => Ok a | Err e => Err (f e) end.
Definition result_ok {A E} (r : result A E) : option A :=
  match r with Ok a => Some a | Err _ => None end.
Definition ok_or {A E} (o : option A) (e : E) : result A E :=
  match o with Some a => Ok a | None => Err e end.
Definition is_ok {A E} (r : result A E) : bool :=
  match r with Ok _ => true | Err _ => false end.

(** [iter().map(f).collect::<Result<Vec<_>, _>>()]: the first error wins. *)
Fixpoint try_map {A B E} (f : A → result B E) (l : list A) : result (list B) E :=
  match l with
  | [] => Ok []
  | x :: l' => let? y := f x in let? ys := try_map f l' in Ok (y :: ys)
  end.

(** [for x in l { f(x)?; }]. *)
Fixpoint try_iter {A E} (f : A → result unit E) (l : list A) : result unit E :=
  match l with
  | [] => Ok tt
  | x :: l' => f x ;? try_iter f l'
  end.

(** [Option<A>::map(f).transpose()]. *)
Definition transpose {A B E} (f : A → result B E) (o : option A) : result (option B) E :=
  match o with
  | None => Ok None
  | Some a => let? b := f a in Ok (Some b)
  end.

(** Early return of a validator: [if c { return Err(e); }]. *)
Definition guard_err {E} (c : bool) (e : E) : result unit E :=
  if c then Err e else Ok tt.

(** ** Machine integers *)

(** Two's complement wrap-around at width [w], the result of [as iN] casts and
    of the wrapping arithmetic that the release profile and the atomics use. *)
Definition wrap_signed (w : Z) (z : Z) : Z :=
  ((z + 2 ^ (w - 1)) mod 2 ^ w - 2 ^ (w - 1))%Z.
Definition wrap_unsigned (w : Z) (z : Z) : Z := (z mod 2 ^ w)%Z.

Abbreviation wrap_i32 := (wrap_signed 32).
Abbreviation wrap_i64 := (wrap_signed 64).
Abbreviation wrap_u64 := (wrap_unsigned 64).

Definition in_i64 (z : Z) : Prop := (- 2 ^ 63 ≤ z < 2 ^ 63)%Z.
Definition in_i32 (z : Z) : Prop := (- 2 ^ 31 ≤ z < 2 ^ 31)%Z.

Lemma wrap_signed_id w z :
  (0 < w)%Z → (- 2 ^ (w - 1) ≤ z < 2 ^ (w - 1))%Z → wrap_signed w z = z.
Proof.
  intros Hw Hz. unfold wrap_signed.
  assert (2 ^ w = 2 * 2 ^ (w - 1))%Z as Hp.
  { rewrite <-Z.pow_succ_r by lia. f_equal. lia. }
  rewrite Z.mod_small by lia. lia.
Qed.

Lemma wrap_i64_id z : in_i64 z → wrap_i64 z = z.
Proof. intros Hz. apply wrap_signed_id; unfold in_i64 in *; lia. Qed.

Lemma wrap_signed_range w z :
  (0 < w)%Z → (- 2 ^ (w - 1) ≤ wrap_signed w z < 2 ^ (w - 1))%Z.
Proof.
  intros Hw. unfold wrap_signed.
  assert (2 ^ w = 2 * 2 ^ (w - 1))%Z as Hp.
  { rewrite <-Z.pow_succ_r by lia. f_equal. lia. }
  assert (0 < 2 ^ (w - 1))%Z by (apply Z.pow_pos_nonneg; lia).
  pose proof (Z.mod_pos_bound (z + 2 ^ (w - 1)) (2 ^ w)). lia.
Qed.

(** ** Automation *)

Create HintDb lonesome.

(** Case analysis on every [match] and [if] of the goal and the hypotheses,
    then the substitution that stdpp's [simplify_eq] does. *)
Ltac crush_match :=
  repeat (first [case_match | case_decide]; simplify_eq/=); try done.

(** Invert a [let?] chain known to end in [Ok]. *)
Ltac invert_ok :=
  repeat match goal with
  | H : result_bind ?c _ = Ok _ |- _ =>
      let E := fresh "E" in destruct c eqn:E; simpl in H; [|discriminate]
  | H : guard_err ?c _ = Ok _ |- _ =>
      let E := fresh "E" in unfold guard_err in H; destruct c eqn:E; [discriminate|]
  | H : Ok _ = Ok _ |- _ => injection H as H; subst
  end.

(** ** List lemmas shared by the components *)

Section Lists.
Context {A : Type}.
Implicit Types l : list A.

Lemma NoDup_fmap_elem_of {B} (f : A → B) l x y :
  NoDup (f <$> l) → x ∈ l → y ∈ l → f x = f y → x = y.
Proof.
  induction l as [|z l IH]; intros Hnd Hx Hy Hf; [by apply elem_of_nil in Hx|].
  apply NoDup_cons in Hnd as [Hz Hnd].
  apply elem_of_cons in Hx as [->|Hx]; apply elem_of_cons in Hy as [->|Hy]; auto.
  - destruct Hz. rewrite Hf. by apply list_elem_of_fmap_2.
  - destruct Hz. rewrite <-Hf. by apply list_elem_of_fmap_2.
Qed.

Lemma NoDup_fmap_filter {B} (f : A → B) (P : A → Prop) `{∀ x, Decision (P x)} l :
  NoDup (f <$> l) → NoDup (f <$> filter P l).
Proof.
  induction l as [|x l IH]; intros Hnd; [done|].
  apply NoDup_cons in Hnd as [Hx Hnd]. rewrite filter_cons.
  case_decide; [|by apply IH].
  rewrite fmap_cons. apply NoDup_cons. split; [|by apply IH].
  intros (y & Hy & Hin)%list_elem_of_fmap. destruct Hx.
  apply list_elem_of_filter in Hin as [_ Hin].
  rewrite Hy. by apply list_elem_of_fmap_2.
Qed.

Lemma filter_all (P : A → Prop) `{∀ x, Decision (P x)} l :
  (∀ x, x ∈ l → P x) → filter P l = l.
Proof.
  induction l as [|x l IH]; intros HP; [done|].
  rewrite filter_cons, decide_True by (apply HP; by left).
  f_equal. apply IH. intros y Hy. apply HP. by right.
Qed.

Lemma filter_none (P : A → Prop) `{∀ x, Decision (P x)} l :
  (∀ x, x ∈ l → ¬ P x) → filter P l = [].
Proof.
  induction l as [|x l IH]; intros HP; [done|].
  rewrite filter_cons, decide_False by (apply HP; by left).
  apply IH. intros y Hy. apply HP. by right.
Qed.

Lemma Forall_filter_keep (P Q : A → Prop) `{∀ x, Decision (P x)} l :
  Forall Q l → Forall Q (filter P l).
Proof.
  rewrite !Forall_forall. intros HQ x [_ Hx]%list_elem_of_filter. by apply HQ.
Qed.

Lemma filter_length_lt_iff (P : A → Prop) `{∀ x, Decision (P x)} l :
  length l ≠ length (filter P l) ↔ ∃ x, x ∈ l ∧ ¬ P x.
Proof.
  split.
  - intros Hlen. induction l as [|x l IH]; [done|].
    rewrite filter_cons in Hlen. case_decide as HP; simpl in Hlen.
    + destruct IH as (y & ? & ?); [lia|]. exists y. by rewrite elem_of_cons; auto.
    + exists x. by rewrite elem_of_cons; auto.
  - intros (x & Hin & HP).
    pose proof (length_filter_lt P l x Hin HP) as Hlt. lia.
Qed.
End Lists.
