(* ===== verification/StableSort.v ===== *)
(** * Stable sorting

    [slice::sort_by] of the Rust standard library, which [RouteTable] and
    [ErrorPageStore] use: a stable sort by a total preorder. The model is
    insertion sort; the lemmas show that it permutes, orders, and keeps the
    relative order of every class of equivalent elements, which together
    determine the result of any stable sort. *)

From S2P Require Import Prelude.
From stdpp Require Import base tactics list sorting.

Section StableSort.
Context {A : Type} (R : relation A) `{!RelDecision R}.
Implicit Types l : list A.

Fixpoint insert_sorted (x : A) (l : list A) : list A :=
  match l with
  | [] => [x]
  | y :: l' => if decide (R x y) then x :: y :: l' else y :: insert_sorted x l'
  end.

Fixpoint sort_by (l : list A) : list A :=
  match l with
  | [] => []
  | x :: l' => insert_sorted x (sort_by l')
  end.

Lemma insert_sorted_perm x l : insert_sorted x l ≡ₚ x :: l.
Proof.
  induction l as [|y l IH]; simpl; [done|].
  case_decide; [done|]. rewrite IH. apply Permutation_swap.
Qed.

Lemma sort_by_perm l : sort_by l ≡ₚ l.
Proof.
  induction l as [|x l IH]; simpl; [done|].
  by rewrite insert_sorted_perm, IH.
Qed.

Lemma sort_by_elem_of x l : x ∈ sort_by l ↔ x ∈ l.
Proof. by rewrite sort_by_perm. Qed.

Lemma sort_by_length l : length (sort_by l) = length l.
Proof. by rewrite sort_by_perm. Qed.

Section Ordered.
Context `{!Transitive R, !Total R}.

Lemma insert_sorted_sorted x l :
  StronglySorted R l → StronglySorted R (insert_sorted x l).
Proof.
  induction 1 as [|y l Hl IH Hy]; simpl; [repeat constructor|].
  case_decide as HR.
  - repeat constructor; auto.
    eapply Forall_impl; [exact Hy|]. intros z Hz. by transitivity y.
  - destruct (total R x y) as [?|Hyx]; [done|].
    constructor; [done|]. rewrite insert_sorted_perm. by constructor.
Qed.

Lemma sort_by_sorted l : StronglySorted R (sort_by l).
Proof. induction l; simpl; [constructor|]. by apply insert_sorted_sorted. Qed.
End Ordered.

Lemma sorted_filter (P : A → Prop) `{∀ x, Decision (P x)} l :
  StronglySorted R l → StronglySorted R (filter P l).
Proof.
  induction 1 as [|x l Hl IH Hx]; [constructor|]. rewrite filter_cons.
  case_decide; [|done]. constructor; [done|]. by apply Forall_filter_keep.
Qed.

(** Stability: a class of pairwise [R]-related elements keeps its order. *)
Lemma insert_sorted_stable (P : A → Prop) `{∀ x, Decision (P x)} x l :
  (∀ y, y ∈ l → P x → P y → R x y) →
  filter P (insert_sorted x l) = filter P (x :: l).
Proof.
  induction l as [|y l IH]; intros HP; [done|]. simpl.
  case_decide as HR; [done|].
  rewrite (filter_cons P y), IH by (intros; apply HP; auto; by right).
  rewrite !filter_cons. repeat case_decide; try done.
  destruct HR. apply HP; auto. by left.
Qed.

Lemma sort_by_stable (P : A → Prop) `{∀ x, Decision (P x)} l :
  (∀ x y, x ∈ l → y ∈ l → P x → P y → R x y) →
  filter P (sort_by l) = filter P l.
Proof.
  induction l as [|x l IH]; intros HP; [done|]. simpl.
  rewrite insert_sorted_stable.
  - rewrite !filter_cons, IH; [done|].
    intros y z ??. apply HP; by right.
  - intros y Hy Hx. apply HP; [by left| |done].
    right. by apply sort_by_elem_of.
Qed.

(** Sorting a sorted list changes nothing, so repeated updates are stable. *)
Lemma sort_by_id l : StronglySorted R l → sort_by l = l.
Proof.
  induction 1 as [|x l Hl IH Hx]; simpl; [done|]. rewrite IH.
  destruct l as [|y l]; simpl; [done|]. apply Forall_cons in Hx as [Hxy _].
  by rewrite decide_True.
Qed.

Lemma insert_sorted_head x l : Forall (R x) l → insert_sorted x l = x :: l.
Proof. destruct 1; simpl; [done|]. by rewrite decide_True. Qed.

(** Sorting after a push: the new element goes behind everything that is not
    after it, and the others keep their order. *)
Lemma sort_by_snoc `{!Transitive R} l e :
  StronglySorted R l →
  sort_by (l ++ [e]) = filter (λ x, R x e) l ++ e :: filter (λ x, ¬ R x e) l.
Proof.
  induction 1 as [|x l Hl IH Hx]; [done|]. simpl. rewrite IH, !filter_cons.
  destruct (decide (R x e)) as [Hxe|Hxe].
  - rewrite (decide_False (P := ¬ R x e)) by tauto. apply insert_sorted_head, Forall_app.
    split; [by apply Forall_filter_keep|]. constructor; [done|]. by apply Forall_filter_keep.
  - rewrite decide_True by done. rewrite Forall_forall in Hx.
    assert (filter (λ y, R y e) l = []) as ->.
    { apply filter_none. intros y Hy Hye. destruct Hxe. transitivity y; auto. }
    assert (filter (λ y, ¬ R y e) l = l) as ->.
    { apply filter_all. intros y Hy Hye. destruct Hxe. transitivity y; auto. }
    simpl. rewrite decide_False by done. f_equal. by apply insert_sorted_head, Forall_forall.
Qed.

(** On lists where [R] is antisymmetric the sorted order is unique. *)
Lemma sort_by_unique l1 l2 `{!Transitive R, !Total R} :
  (∀ x y, x ∈ l1 → y ∈ l1 → R x y → R y x → x = y) →
  StronglySorted R l2 → l1 ≡ₚ l2 → sort_by l1 = l2.
Proof.
  intros Hanti Hs Hp. eapply StronglySorted_unique_strong with (R := R).
  - intros x y Hx Hy. rewrite sort_by_elem_of in Hx. rewrite <-Hp in Hy. by apply Hanti.
  - by apply sort_by_sorted.
  - done.
  - by rewrite sort_by_perm.
Qed.
End StableSort.

#[export] Hint Resolve sort_by_sorted sort_by_perm : lonesome.
