(* ===== verification/Text.v ===== *)
(** * Text

    The [str] operations the sources use, on byte strings: a Rust [String] is
    its UTF-8 encoding, a [string] of 8-bit [ascii] characters. Delimiters in
    the sources are ASCII, so splitting by byte and by [char] agree. [trim]
    removes Unicode White_Space, recognised on its UTF-8 encoding. *)

From S2P Require Import Prelude.
From stdpp Require Import base tactics strings list.
From Stdlib Require Import NArith ZArith Ascii Lia.

(** ** Prefixes and splitting *)

(** [str::strip_prefix]. *)
Fixpoint str_strip_prefix (p s : string) : option string :=
  match p, s with
  | EmptyString, _ => Some s
  | String a p', String b s' => if decide (a = b) then str_strip_prefix p' s' else None
  | String _ _, EmptyString => None
  end.

(** [str::starts_with]. *)
Definition starts_with (p s : string) : bool :=
  match str_strip_prefix p s with Some _ => true | None => false end.

(** [str::split_once(c)]: before and after the first [c]. *)
Fixpoint split_once (c : ascii) (s : string) : option (string * string) :=
  match s with
  | EmptyString => None
  | String a s' =>
      if decide (a = c) then Some (EmptyString, s')
      else match split_once c s' with
           | Some (x, y) => Some (String a x, y)
           | None => None
           end
  end.

(** [str::split(c)]: the segments between the [c]s, always at least one. *)
Fixpoint split_on (c : ascii) (s : string) : string * list string :=
  match s with
  | EmptyString => (EmptyString, [])
  | String a s' =>
      let '(x, xs) := split_on c s' in
      if decide (a = c) then (EmptyString, x :: xs) else (String a x, xs)
  end.
Definition str_split (c : ascii) (s : string) : list string :=
  let '(x, xs) := split_on c s in x :: xs.

(** [str::contains(char)]. *)
Fixpoint str_contains (c : ascii) (s : string) : bool :=
  match s with
  | EmptyString => false
  | String a s' => if decide (a = c) then true else str_contains c s'
  end.

Definition is_empty (s : string) : bool :=
  match s with EmptyString => true | String _ _ => false end.

(** [slice::join(sep)]. *)
Fixpoint join (sep : string) (l : list string) : string :=
  match l with
  | [] => ""
  | [x] => x
  | x :: l' => x +:+ sep +:+ join sep l'
  end.

(** ** White space *)

Definition code (c : ascii) : N := N_of_ascii c.

Definition ascii_ws (x : N) : bool := ((9 <=? x) && (x <=? 13) || (x =? 32))%N.
(** U+0085 and U+00A0. *)
Definition ws2 (x y : N) : bool := ((x =? 194) && ((y =? 133) || (y =? 160)))%N.
(** U+1680, U+2000-U+200A, U+2028, U+2029, U+202F, U+205F, U+3000. *)
Definition ws3 (x y z : N) : bool :=
  ((x =? 225) && (y =? 154) && (z =? 128)
   || (x =? 226) && (y =? 128)
      && ((128 <=? z) && (z <=? 138) || (z =? 168) || (z =? 169) || (z =? 175))
   || (x =? 226) && (y =? 129) && (z =? 159)
   || (x =? 227) && (y =? 128) && (z =? 128))%N.

(** Drop one leading white space character, if there is one. *)
Definition drop_ws (s : string) : option string :=
  match s with
  | EmptyString => None
  | String a r =>
      if ascii_ws (code a) then Some r
      else match r with
           | EmptyString => None
           | String b r2 =>
               if ws2 (code a) (code b) then Some r2
               else match r2 with
                    | EmptyString => None
                    | String d r3 =>
                        if ws3 (code a) (code b) (code d) then Some r3 else None
                    end
           end
  end.

(** The same on the reversed string: drop one trailing character. *)
Definition drop_ws_rev (s : string) : option string :=
  match s with
  | EmptyString => None
  | String a r =>
      if ascii_ws (code a) then Some r
      else match r with
           | EmptyString => None
           | String b r2 =>
               if ws2 (code b) (code a) then Some r2
               else match r2 with
                    | EmptyString => None
                    | String d r3 =>
                        if ws3 (code d) (code b) (code a) then Some r3 else None
                    end
           end
  end.

(** Each drop shortens the string, so [String.length s] steps are enough. *)
Fixpoint drop_while (f : string → option string) (n : nat) (s : string) : string :=
  match n with
  | O => s
  | S n' => match f s with Some r => drop_while f n' r | None => s end
  end.

Definition trim_start (s : string) : string := drop_while drop_ws (String.length s) s.
Definition trim_end (s : string) : string :=
  String.rev (drop_while drop_ws_rev (String.length s) (String.rev s)).
(** [str::trim]. *)
Definition trim (s : string) : string := trim_end (trim_start s).

(** [str::trim_end_matches(char)]. *)
Definition drop_char (c : ascii) (s : string) : option string :=
  match s with
  | EmptyString => None
  | String a r => if decide (a = c) then Some r else None
  end.
Definition trim_end_matches (c : ascii) (s : string) : string :=
  String.rev (drop_while (drop_char c) (String.length s) (String.rev s)).

(** [str::trim_start_matches(&str)]: every leading copy of a non-empty [p]. *)
Definition trim_start_matches (p s : string) : string :=
  drop_while (str_strip_prefix p) (String.length s) s.

(** ** Letter case *)

Definition lower_char (c : ascii) : ascii :=
  let x := code c in
  if ((65 <=? x) && (x <=? 90))%N then ascii_of_N (x + 32)%N else c.
Fixpoint to_ascii_lowercase (s : string) : string :=
  match s with
  | EmptyString => EmptyString
  | String a r => String (lower_char a) (to_ascii_lowercase r)
  end.

(** [str::eq_ignore_ascii_case]. *)
Definition eq_ignore_ascii_case (a b : string) : bool :=
  bool_decide (to_ascii_lowercase a = to_ascii_lowercase b).

Definition is_ascii_char (c : ascii) : bool := (code c <? 128)%N.
Fixpoint is_ascii (s : string) : bool :=
  match s with
  | EmptyString => true
  | String a r => is_ascii_char a && is_ascii r
  end.

(** [str::to_lowercase] agrees with the ASCII lower case on ASCII strings;
    outside ASCII this model keeps the bytes, and every theorem that depends
    on it asks for [is_ascii]. *)
Definition to_lowercase (s : string) : string := to_ascii_lowercase s.

(** ** Decimal numbers *)

Definition digit_value (c : ascii) : option Z :=
  let x := code c in
  if ((48 <=? x) && (x <=? 57))%N then Some (Z.of_N x - 48)%Z else None.

Fixpoint parse_digits (acc : Z) (s : string) : option Z :=
  match s with
  | EmptyString => Some acc
  | String a r =>
      match digit_value a with
      | Some d => parse_digits (10 * acc + d) r
      | None => None
      end
  end.

(** [str::parse::<u16>()]: an optional [+], at least one digit, no overflow. *)
Definition parse_u16 (s : string) : option Z :=
  let body := match s with
              | String "+"%char r => r
              | _ => s
              end in
  if is_empty body then None
  else match parse_digits 0 body with
       | Some v => if (v <=? 65535)%Z then Some v else None
       | None => None
       end.

(** Decimal digits of a non-negative number, most significant first; [n] digits
    are enough for any number below [10 ^ n]. *)
Fixpoint digits_fuel (n : nat) (z : Z) (acc : string) : string :=
  match n with
  | O => acc
  | S n' =>
      let acc' := String (ascii_of_N (Z.to_N (48 + z mod 10))) acc in
      if (z <? 10)%Z then acc' else digits_fuel n' (z / 10) acc'
  end.

(** [ToString] of the integer types: [Z.log2 z + 1] digits are enough. *)
Definition to_string_Z (z : Z) : string :=
  if (z <? 0)%Z then String "-"%char (digits_fuel (Z.to_nat (Z.log2 (- z)) + 1) (- z) "")
  else digits_fuel (Z.to_nat (Z.log2 z) + 1) z "".

Definition to_string_bool (b : bool) : string := if b then "true" else "false".

(** ** Lemmas *)

Lemma append_String a x y : String a x +:+ y = String a (x +:+ y).
Proof. reflexivity. Qed.

Lemma append_empty x : "" +:+ x = x.
Proof. reflexivity. Qed.

Lemma append_assoc_str (x y z : string) : (x +:+ y) +:+ z = x +:+ (y +:+ z).
Proof. induction x as [|a x IH]; [done|]. by rewrite !append_String, IH. Qed.

Lemma append_empty_r (x : string) : x +:+ "" = x.
Proof. induction x as [|a x IH]; [done|]. by rewrite append_String, IH. Qed.

Lemma str_strip_prefix_Some p s r : str_strip_prefix p s = Some r ↔ s = p +:+ r.
Proof.
  revert s. induction p as [|a p IH]; intros s; simpl.
  - rewrite append_empty. naive_solver.
  - destruct s as [|b s]; [split; [done|by intros ?]|].
    rewrite append_String. case_decide; subst.
    + rewrite IH. naive_solver.
    + split; [done|]. intros [=]; congruence.
Qed.

Lemma starts_with_spec p s : starts_with p s = true ↔ ∃ r, s = p +:+ r.
Proof.
  unfold starts_with. split.
  - destruct (str_strip_prefix p s) as [r|] eqn:E; [|done].
    exists r. by apply str_strip_prefix_Some.
  - intros [r Hr%str_strip_prefix_Some]. by rewrite Hr.
Qed.

Lemma str_contains_app c x y : str_contains c (x +:+ y) = str_contains c x || str_contains c y.
Proof.
  induction x as [|a x IH]; [done|]. rewrite append_String. simpl.
  case_decide; [done|]. exact IH.
Qed.

Lemma split_once_Some c s x y :
  split_once c s = Some (x, y) ↔ s = x +:+ String c y ∧ str_contains c x = false.
Proof.
  revert x y. induction s as [|a s IH]; intros x y; simpl.
  - split; [done|]. intros [Heq _]. by destruct x.
  - case_decide as Ha; subst.
    + split; [by intros [= <- <-]|].
      intros [Heq Hx]. destruct x as [|b x]; [by injection Heq as <-|].
      rewrite append_String in Heq. injection Heq as <- _.
      simpl in Hx. by rewrite decide_True in Hx.
    + destruct (split_once c s) as [[u v]|] eqn:E.
      * destruct (IH u v) as [IH1 _]. destruct IH1 as [-> Hu]; [done|].
        split.
        -- intros [= <- <-]. split; [done|]. simpl. by rewrite decide_False.
        -- intros [Heq Hx]. destruct x as [|b x]; [by injection Heq as ?|].
           rewrite append_String in Heq. injection Heq as <- Heq.
           simpl in Hx. rewrite decide_False in Hx by done.
           apply eq_sym in Heq.
           destruct (IH x y) as [_ IH2]. rewrite <-Heq in IH2.
           assert (Some (u, v) = Some (x, y)) as [= -> ->] by (apply IH2; done). done.
      * split; [done|]. intros [Heq Hx]. destruct x as [|b x]; [by injection Heq as ?|].
        rewrite append_String in Heq. injection Heq as <- Heq.
        simpl in Hx. rewrite decide_False in Hx by done.
        destruct (IH x y) as [_ IH2]. by assert (None = Some (x, y)) by (apply IH2; done).
Qed.

Lemma split_once_None c s : split_once c s = None ↔ str_contains c s = false.
Proof.
  induction s as [|a s IH]; simpl; [done|].
  case_decide; [done|]. rewrite <-IH. by destruct (split_once c s) as [[]|].
Qed.

(** Lower case is idempotent and commutes with splitting at a non-letter. *)
Lemma lower_char_idem c : lower_char (lower_char c) = lower_char c.
Proof. by destruct c as [[][][][][][][][]]. Qed.

Lemma to_ascii_lowercase_idem s :
  to_ascii_lowercase (to_ascii_lowercase s) = to_ascii_lowercase s.
Proof. induction s as [|a s IH]; simpl; [done|]. by rewrite lower_char_idem, IH. Qed.

Lemma to_ascii_lowercase_app x y :
  to_ascii_lowercase (x +:+ y) = to_ascii_lowercase x +:+ to_ascii_lowercase y.
Proof.
  induction x as [|a x IH]; [done|].
  rewrite append_String. simpl. by rewrite IH.
Qed.

Lemma lower_char_dot c : lower_char c = "."%char ↔ c = "."%char.
Proof. destruct c as [[][][][][][][][]]; vm_compute; naive_solver. Qed.

Lemma str_contains_dot_lower s :
  str_contains "." (to_ascii_lowercase s) = str_contains "." s.
Proof.
  induction s as [|a s IH]; simpl; [done|].
  repeat case_decide; try done; by rewrite lower_char_dot in *.
Qed.

Lemma split_once_dot_lower s :
  split_once "." (to_ascii_lowercase s)
  = prod_map to_ascii_lowercase to_ascii_lowercase <$> split_once "." s.
Proof.
  destruct (split_once "." s) as [[x y]|] eqn:E; simpl.
  - apply split_once_Some in E as [-> Hx]. apply split_once_Some.
    rewrite to_ascii_lowercase_app, str_contains_dot_lower. done.
  - apply split_once_None in E. apply split_once_None.
    by rewrite str_contains_dot_lower.
Qed.

(** [eq_ignore_ascii_case] is an equivalence. *)
Lemma eq_ignore_ascii_case_spec a b :
  eq_ignore_ascii_case a b = true ↔ to_ascii_lowercase a = to_ascii_lowercase b.
Proof. unfold eq_ignore_ascii_case. apply bool_decide_eq_true. Qed.
Lemma eq_ignore_ascii_case_refl n : eq_ignore_ascii_case n n = true.
Proof. by apply eq_ignore_ascii_case_spec. Qed.

Lemma eq_ignore_ascii_case_sym a b : eq_ignore_ascii_case a b = eq_ignore_ascii_case b a.
Proof. apply bool_decide_ext. naive_solver. Qed.

(** Printing a number and reading it back. *)
Lemma digit_value_of d : (0 ≤ d < 10)%Z → digit_value (ascii_of_N (Z.to_N (48 + d))) = Some d.
Proof.
  intros Hd.
  assert (d = 0 ∨ d = 1 ∨ d = 2 ∨ d = 3 ∨ d = 4 ∨ d = 5 ∨ d = 6 ∨ d = 7 ∨ d = 8 ∨ d = 9)%Z
    as Hcases by lia.
  repeat destruct Hcases as [-> | Hcases]; [reflexivity..|]. by subst d.
Qed.

Lemma parse_digits_digits_fuel n z acc :
  (0 ≤ z < 2 ^ Z.of_nat n)%Z → n ≠ 0 →
  parse_digits 0 (digits_fuel n z acc) = parse_digits z acc.
Proof.
  revert z acc. induction n as [|n IH]; intros z acc Hz Hn; [done|]. cbn [digits_fuel].
  pose proof (Z.mod_pos_bound z 10 ltac:(lia)) as Hm.
  pose proof (Z.div_mod z 10 ltac:(lia)) as Hdm.
  destruct (Z.ltb_spec z 10) as [Hlt|Hge].
  - cbn [parse_digits]. rewrite digit_value_of by done. f_equal.
    rewrite Z.mod_small by lia. lia.
  - rewrite Nat2Z.inj_succ, Z.pow_succ_r in Hz by lia.
    rewrite IH; [|lia|].
    + cbn [parse_digits]. rewrite digit_value_of by done. f_equal. lia.
    + intros ->. simpl in Hz. lia.
Qed.

(** Decimal printing and parsing of a non-negative number are inverse. *)
Lemma parse_to_string_Z z : (0 ≤ z)%Z → parse_digits 0 (to_string_Z z) = Some z.
Proof.
  intros Hz. unfold to_string_Z. destruct (Z.ltb_spec z 0); [lia|].
  rewrite parse_digits_digits_fuel; [done| |lia].
  destruct (decide (z = 0%Z)) as [->|Hnz]; [done|].
  pose proof (Z.log2_spec z ltac:(lia)) as [_ Hlt].
  rewrite Nat2Z.inj_add, Z2Nat.id by apply Z.log2_nonneg. done.
Qed.

Lemma to_string_Z_inj a b :
  (0 ≤ a)%Z → (0 ≤ b)%Z → to_string_Z a = to_string_Z b → a = b.
Proof.
  intros Ha Hb Heq. apply parse_to_string_Z in Ha, Hb. congruence.
Qed.

Lemma parse_digits_no_colon a s v : parse_digits a s = Some v → str_contains ":" s = false.
Proof.
  revert a. induction s as [|c s IH]; intros a; simpl; [done|].
  destruct (digit_value c) as [d|] eqn:E; [|done]. intros Hp.
  rewrite decide_False; [by eapply IH|]. intros ->. by vm_compute in E.
Qed.

Lemma to_string_Z_no_colon z : (0 ≤ z)%Z → str_contains ":" (to_string_Z z) = false.
Proof. intros Hz%parse_to_string_Z. by eapply parse_digits_no_colon. Qed.

(** The text after the last delimiter is determined. *)
Lemma append_last_inj c x y u v :
  x +:+ String c u = y +:+ String c v →
  str_contains c u = false → str_contains c v = false → u = v.
Proof.
  revert y. induction x as [|a x IH]; intros [|b y] Heq Hu Hv.
  - by injection Heq.
  - rewrite append_String in Heq. injection Heq as -> ->.
    rewrite str_contains_app in Hu. simpl in Hu. rewrite decide_True, orb_true_r in Hu by done. done.
  - rewrite append_String in Heq. injection Heq as -> <-.
    rewrite str_contains_app in Hv. simpl in Hv. rewrite decide_True, orb_true_r in Hv by done. done.
  - rewrite !append_String in Heq. injection Heq as _ Heq. by eapply IH.
Qed.

Create Rewrite HintDb text.
#[export] Hint Rewrite to_ascii_lowercase_idem to_ascii_lowercase_app : text.

(** Concrete checks of the library operations against their Rust results. *)
Example trim_ex : trim (" 	a b  ") = "a b".
Proof. reflexivity. Qed.
Example split_ex : str_split "," "a,,b" = ["a"; ""; "b"].
Proof. reflexivity. Qed.
Example split_once_ex : split_once ":" "user:pa:ss" = Some ("user", "pa:ss").
Proof. reflexivity. Qed.
Example trim_end_matches_ex : trim_end_matches "." "a.b.." = "a.b".
Proof. reflexivity. Qed.
Example parse_u16_ex : parse_u16 "404" = Some 404%Z ∧ parse_u16 "65536" = None
  ∧ parse_u16 "+5" = Some 5%Z ∧ parse_u16 "" = None ∧ parse_u16 "4x" = None.
Proof. repeat split; reflexivity. Qed.
Example to_string_Z_ex : to_string_Z 0 = "0" ∧ to_string_Z 1203 = "1203"
  ∧ to_string_Z (-45) = "-45".
Proof. repeat split; reflexivity. Qed.
