(* ===== verification/Http.v ===== *)
(** * HTTP data and the interface to the HTTP libraries

    The parts of the [http], [pingora], [percent-encoding] and
    [form_urlencoded] crates that the sources call. Those crates are outside
    the repository: their operations are fields of the class [HttpLib] and what
    the sources rely on is stated by the class [HttpLaws]. The data types the
    sources take apart (a request header and its URI) are records of what the
    accessors return. [AssocHttp] is a small concrete instance that the
    examples and witnesses run on. *)

From S2P Require Import Prelude Text.
From stdpp Require Import base tactics strings list.
From Stdlib Require Import ZArith Ascii.

(** [http::uri::Authority]: its text and the host part of it. *)
Record Authority := mkAuthority {
  authority_as_str : string;
  authority_host : string;
}.

(** [http::Uri], by its accessors. *)
Record Uri := mkUri {
  uri_scheme_str : option string;
  uri_authority : option Authority;
  uri_path_and_query : option string;
  uri_path : string;
  uri_query : option string;
}.

(** [pingora::cache::NoCacheReason], as far as the sources name it. *)
Inductive NoCacheReason :=
| NoCacheCustom (reason : string)
| OriginNotCache
| NoCacheOther (reason : string).

(** [pingora::cache::CachePhase]. *)
Inductive CachePhase :=
| PhaseDisabled (reason : NoCacheReason)
| PhaseUninit
| PhaseBypass
| PhaseCacheKey
| PhaseHit
| PhaseMiss
| PhaseStale
| PhaseStaleUpdating
| PhaseExpired
| PhaseRevalidated
| PhaseRevalidatedNoCache (reason : NoCacheReason).

(** [pingora]'s compression [Algorithm]s that can be configured. *)
Inductive Algorithm := Gzip | Brotli | Zstd.
#[export] Instance Algorithm_eq_dec : EqDecision Algorithm.
Proof. solve_decision. Defined.

Class HttpLib := {
  (** [http::HeaderMap] with the header value as its bytes. *)
  HM : Type;
  hm_empty : HM;
  hm_get_all : string → HM → list string;
  hm_insert : string → string → HM → HM;
  hm_append : string → string → HM → HM;
  hm_remove : string → HM → HM;
  (** [HeaderValue::to_str], [HeaderName::from_str], [HeaderValue::from_str]. *)
  hv_to_str : string → option string;
  hn_from_str : string → result string string;
  hv_from_str : string → result string string;
  (** [percent_decode_str(..).decode_utf8_lossy()] and [form_urlencoded::parse]. *)
  percent_decode_utf8_lossy : string → string;
  form_urlencoded_parse : string → list (string * string);
  (** [RequestHeader::build]: the method and target of a request without headers. *)
  request_build : string → string → result (string * Uri) string;
  (** [StatusCode::from_u16], which [ResponseHeader::build] checks. *)
  status_from_u16 : Z → result unit string;
  (** [Uri::builder()] with an optional scheme and authority, a path and query. *)
  uri_build : option string → option string → string → result Uri string;
  (** [session.cache]: [enable] with the process's storage, eviction manager,
      predictor and lock and a wait timeout in seconds; [set_max_file_size_bytes],
      [phase] and [cache_miss]. *)
  HttpCache : Type;
  cache_disabled : HttpCache;
  cache_enable : option Z → HttpCache → HttpCache;
  cache_set_max_file_size : Z → HttpCache → HttpCache;
  cache_phase : HttpCache → CachePhase;
  cache_mark_miss : HttpCache → HttpCache;
  (** [ResponseCompressionCtx] of the downstream module and of the upstream. *)
  CompressionCtx : Type;
  adjust_algorithm_level : Algorithm → Z → CompressionCtx → CompressionCtx;
  adjust_decompression : bool → CompressionCtx → CompressionCtx;
  adjust_preserve_etag : bool → CompressionCtx → CompressionCtx;
  compression_new : CompressionCtx;
}.

(** [HeaderMap::get]: the first value of a name. *)
Definition hm_get `{HttpLib} (name : string) (m : HM) : option string :=
  head (hm_get_all name m).

(** Header names compare without case; the documented multimap behaviour. *)
Class HttpLaws `{HttpLib} := {
  hm_get_all_name n n' m :
    to_ascii_lowercase n = to_ascii_lowercase n' → hm_get_all n m = hm_get_all n' m;
  hm_get_all_empty n : hm_get_all n hm_empty = [];
  hm_get_all_insert n n' v m :
    hm_get_all n' (hm_insert n v m) =
      if eq_ignore_ascii_case n n' then [v] else hm_get_all n' m;
  hm_get_all_append n n' v m :
    hm_get_all n' (hm_append n v m) =
      if eq_ignore_ascii_case n n' then hm_get_all n' m ++ [v] else hm_get_all n' m;
  hm_get_all_remove n n' m :
    hm_get_all n' (hm_remove n m) =
      if eq_ignore_ascii_case n n' then [] else hm_get_all n' m;
  hv_to_str_Some v s : hv_to_str v = Some s → s = v;
  hn_from_str_name n n' : hn_from_str n = Ok n' → to_ascii_lowercase n' = to_ascii_lowercase n;
  hv_from_str_value v v' : hv_from_str v = Ok v' → v' = v;
  status_from_u16_Ok c : status_from_u16 c = Ok tt ↔ (100 ≤ c ≤ 999)%Z;
  (** A built URI has the parts it was given. *)
  uri_build_Ok sch auth pq u :
    uri_build sch auth pq = Ok u →
    uri_scheme_str u = sch ∧ authority_as_str <$> uri_authority u = auth ∧
    uri_path_and_query u = Some pq;
}.

(** [pingora::http::RequestHeader] and [ResponseHeader]. *)
Record RequestHeader `{HttpLib} := mkRequestHeader {
  req_method : string;
  req_uri : Uri;
  req_headers : HM;
}.
Record ResponseHeader `{HttpLib} := mkResponseHeader {
  resp_status : Z;
  resp_headers : HM;
}.

Arguments mkRequestHeader {_}.
Arguments mkResponseHeader {_}.

(** [ResponseHeader::build]: an empty header with a valid status. *)
Definition response_build `{HttpLib} (status : Z) : result ResponseHeader string :=
  let? _ := status_from_u16 status in Ok (mkResponseHeader status hm_empty).

(** [insert_header], [append_header] and [remove_header] of the two headers:
    the name and the value are checked, then the map is updated. *)
Definition checked_insert `{HttpLib} (name value : string) (m : HM) : result HM string :=
  let? n := hn_from_str name in let? v := hv_from_str value in Ok (hm_insert n v m).
Definition checked_append `{HttpLib} (name value : string) (m : HM) : result HM string :=
  let? n := hn_from_str name in let? v := hv_from_str value in Ok (hm_append n v m).

Definition resp_insert_header `{HttpLib} (name value : string) (r : ResponseHeader)
    : result ResponseHeader string :=
  let? m := checked_insert name value (resp_headers r) in Ok (mkResponseHeader (resp_status r) m).
Definition resp_append_header `{HttpLib} (name value : string) (r : ResponseHeader)
    : result ResponseHeader string :=
  let? m := checked_append name value (resp_headers r) in Ok (mkResponseHeader (resp_status r) m).
Definition req_insert_header `{HttpLib} (name value : string) (r : RequestHeader)
    : result RequestHeader string :=
  let? m := checked_insert name value (req_headers r) in
  Ok (mkRequestHeader (req_method r) (req_uri r) m).
Definition req_append_header `{HttpLib} (name value : string) (r : RequestHeader)
    : result RequestHeader string :=
  let? m := checked_append name value (req_headers r) in
  Ok (mkRequestHeader (req_method r) (req_uri r) m).
Definition req_set_uri `{HttpLib} (u : Uri) (r : RequestHeader) : RequestHeader :=
  mkRequestHeader (req_method r) u (req_headers r).
Definition req_set_method `{HttpLib} (m : string) (r : RequestHeader) : RequestHeader :=
  mkRequestHeader m (req_uri r) (req_headers r).

Section Lemmas.
Context `{HttpLaws}.

Lemma checked_insert_get name value m m' :
  checked_insert name value m = Ok m' → hm_get_all name m' = [value].
Proof.
  unfold checked_insert. intros Hc.
  destruct (hn_from_str name) as [n|] eqn:En; [|done]. simpl in Hc.
  destruct (hv_from_str value) as [v|] eqn:Ev; [|done]. simpl in Hc. injection Hc as <-.
  apply hn_from_str_name in En. apply hv_from_str_value in Ev as ->.
  rewrite hm_get_all_insert. by rewrite (proj2 (eq_ignore_ascii_case_spec n name)).
Qed.

Lemma checked_insert_other name name' value m m' :
  checked_insert name value m = Ok m' →
  eq_ignore_ascii_case name name' = false → hm_get_all name' m' = hm_get_all name' m.
Proof.
  unfold checked_insert. intros Hc Hne.
  destruct (hn_from_str name) as [n|] eqn:En; [|done]. simpl in Hc.
  destruct (hv_from_str value) as [v|] eqn:Ev; [|done]. simpl in Hc. injection Hc as <-.
  apply hn_from_str_name in En. rewrite hm_get_all_insert.
  unfold eq_ignore_ascii_case in *. by rewrite En, Hne.
Qed.

Lemma checked_append_get n n' v m m' :
  checked_append n v m = Ok m' →
  hm_get_all n' m' = if eq_ignore_ascii_case n n' then hm_get_all n' m ++ [v]
                     else hm_get_all n' m.
Proof.
  unfold checked_append. intros Hc.
  destruct (hn_from_str n) as [x|] eqn:En; [|done]. simpl in Hc.
  destruct (hv_from_str v) as [w|] eqn:Ev; [|done]. simpl in Hc. injection Hc as <-.
  apply hn_from_str_name in En. apply hv_from_str_value in Ev as ->.
  rewrite hm_get_all_append. unfold eq_ignore_ascii_case. by rewrite En.
Qed.

Lemma hm_get_insert_eq n v m : hm_get n (hm_insert n v m) = Some v.
Proof.
  unfold hm_get. rewrite hm_get_all_insert.
  by rewrite (proj2 (eq_ignore_ascii_case_spec n n)).
Qed.

Lemma hm_get_insert_ne n n' v m :
  eq_ignore_ascii_case n n' = false → hm_get n' (hm_insert n v m) = hm_get n' m.
Proof. intros Hne. unfold hm_get. by rewrite hm_get_all_insert, Hne. Qed.
End Lemmas.

(** ** A concrete instance: an association list of lower-case names *)

Module AssocHttp.
Abbreviation headers := (list (string * string)).

Definition get_all (n : string) (m : headers) : list string :=
  snd <$> filter (λ kv, to_ascii_lowercase n = kv.1) m.
Definition without (n : string) (m : headers) : headers :=
  filter (λ kv, to_ascii_lowercase n ≠ kv.1) m.

Definition visible (c : ascii) : bool :=
  let x := code c in ((32 <=? x) && (x <? 127) || (x =? 9))%N.
Fixpoint all_visible (s : string) : bool :=
  match s with EmptyString => true | String a r => visible a && all_visible r end.

(** The cache of a session: its phase and size limit. *)
Record ref_cache := mkRefCache { rc_phase : CachePhase; rc_max_file_size : option Z }.
(** Compression settings: levels set so far, newest first. *)
Record ref_compression := mkRefCompression {
  rz_levels : list (Algorithm * Z);
  rz_decompress : bool;
  rz_preserve_etag : bool;
}.

#[export] Instance http : HttpLib := {|
  HM := headers;
  hm_empty := [];
  hm_get_all := get_all;
  hm_insert n v m := without n m ++ [(to_ascii_lowercase n, v)];
  hm_append n v m := m ++ [(to_ascii_lowercase n, v)];
  hm_remove := without;
  hv_to_str v := if all_visible v then Some v else None;
  hn_from_str n := if is_empty n then Err "invalid HTTP header name"
                   else Ok (to_ascii_lowercase n);
  hv_from_str v := if all_visible v then Ok v else Err "failed to parse header value";
  percent_decode_utf8_lossy s := s;
  form_urlencoded_parse s :=
    (λ seg, default (seg, "") (split_once "=" seg)) <$> str_split "&" s;
  request_build m p :=
    if is_empty p then Err "invalid uri"
    else
      let '(path, query) := match split_once "?" p with
                            | Some (x, q) => (x, Some q)
                            | None => (p, None)
                            end in
      Ok (m, mkUri None None (Some p) path query);
  status_from_u16 c :=
    if ((100 <=? c) && (c <=? 999))%Z then Ok tt else Err "invalid status code";
  uri_build sch auth pq :=
    if starts_with "/" pq then
      let '(path, query) := match split_once "?" pq with
                            | Some (x, q) => (x, Some q)
                            | None => (pq, None)
                            end in
      Ok (mkUri sch ((λ a, mkAuthority a (split_on ":" a).1) <$> auth) (Some pq) path query)
    else Err "invalid format";
  HttpCache := ref_cache;
  cache_disabled := mkRefCache (PhaseDisabled (NoCacheOther "NeverEnabled")) None;
  cache_enable _ c := mkRefCache PhaseUninit (rc_max_file_size c);
  cache_set_max_file_size n c := mkRefCache (rc_phase c) (Some n);
  cache_phase := rc_phase;
  cache_mark_miss c := mkRefCache PhaseMiss (rc_max_file_size c);
  CompressionCtx := ref_compression;
  adjust_algorithm_level a n c :=
    mkRefCompression ((a, n) :: rz_levels c) (rz_decompress c) (rz_preserve_etag c);
  adjust_decompression b c := mkRefCompression (rz_levels c) b (rz_preserve_etag c);
  adjust_preserve_etag b c := mkRefCompression (rz_levels c) (rz_decompress c) b;
  compression_new := mkRefCompression [] false false;
|}.

Lemma get_all_without n n' m :
  get_all n' (without n m) = if eq_ignore_ascii_case n n' then [] else get_all n' m.
Proof.
  unfold get_all, without, eq_ignore_ascii_case.
  induction m as [|[k v] m IH]; [by case_bool_decide|].
  destruct (decide (to_ascii_lowercase n = k)) as [<-|Hk].
  - rewrite filter_cons_False by (simpl; tauto). rewrite IH, filter_cons. simpl.
    repeat case_bool_decide; repeat case_decide; simpl; congruence.
  - rewrite filter_cons_True by done. rewrite !filter_cons. simpl.
    destruct (decide (to_ascii_lowercase n' = k)); rewrite ?fmap_cons; simpl;
      rewrite IH; repeat case_bool_decide; congruence.
Qed.

Lemma get_all_snoc n n' v m :
  get_all n' (m ++ [(to_ascii_lowercase n, v)])
  = if eq_ignore_ascii_case n n' then get_all n' m ++ [v] else get_all n' m.
Proof.
  unfold get_all, eq_ignore_ascii_case. rewrite filter_app, fmap_app. simpl.
  rewrite filter_cons. case_bool_decide as Hn; case_decide; simpl in *;
    rewrite ?app_nil_r; congruence.
Qed.

#[export] Instance laws : HttpLaws.
Proof.
  split; simpl.
  - intros n n' m Hn. unfold get_all. f_equal. apply list_filter_iff.
    intros kv. by rewrite Hn.
  - done.
  - intros n n' v m. rewrite get_all_snoc, get_all_without. by case_match.
  - intros n n' v m. apply get_all_snoc.
  - intros n n' m. apply get_all_without.
  - intros v s. by case_match; intros [= ->].
  - intros n n'. case_match; [done|]. intros [= <-]. by autorewrite with text.
  - intros v v'. by case_match; intros [= ->].
  - intros c. case_match eqn:E.
    + apply andb_true_iff in E as [?%Z.leb_le ?%Z.leb_le]. done.
    + split; [done|]. intros [H1 H2]. apply Z.leb_le in H1, H2. by rewrite H1, H2 in E.
  - intros sch auth pq u. case_match; [|done].
    destruct (split_once "?" pq) as [[x q]|]; intros [= <-]; by destruct auth.
Qed.
End AssocHttp.
