(* ===== verification/Config.v ===== *)
(** * Configuration

    [src/config/]: the configuration records of the server, the routes and the
    upstreams, their validators and their defaults. A validator is the chain of
    guards of the source, in its order, so the first violated rule decides the
    message. [u64], [u32] and [usize] fields are non-negative [Z]. *)

From S2P Require Import Prelude Text.
From stdpp Require Import base tactics strings list.
From Stdlib Require Import ZArith.

(** [s.trim().is_empty()]. *)
Definition blank (s : string) : bool := is_empty (trim s).

(** ** Upstreams: [config/upstream_config.rs] *)

Inductive UpstreamAddressConfig :=
| AddrTcp (addr : string)
| AddrUnix (path : string)
| AddrVirtualJs (key : string).

Record UpstreamConfig := mkUpstreamConfig {
  uc_address : UpstreamAddressConfig;
  uc_tls : bool;
  uc_h2c : option bool;
  uc_sni : option string;
  uc_weight : Z;
  uc_connect_timeout_ms : option Z;
  uc_read_timeout_ms : option Z;
  uc_write_timeout_ms : option Z;
  uc_idle_timeout_ms : option Z;
  uc_verify_cert : option bool;
  uc_client_cert_pem : option string;
  uc_client_key_pem : option string;
  uc_ca_cert_pem : option string;
}.

Definition validate_address (a : UpstreamAddressConfig) : result unit string :=
  match a with
  | AddrTcp addr => guard_err (blank addr) "upstream tcp address cannot be empty"
  | AddrUnix path => guard_err (blank path) "upstream unix path cannot be empty"
  | AddrVirtualJs key => guard_err (blank key) "upstream virtual_js key cannot be empty"
  end.

Definition validate_timeout (nm : string * option Z) : result unit string :=
  match nm.2 with
  | Some 0%Z => Err ("upstream " +:+ nm.1 +:+ " must be > 0")
  | _ => Ok tt
  end.

Definition validate_client_cert (cert key : option string) : result unit string :=
  match cert, key with
  | Some _, Some _ | None, None => Ok tt
  | _, _ => Err "upstream client_cert_pem and client_key_pem must be provided together"
  end.

(** [UpstreamConfig::validate]. *)
Definition UpstreamConfig_validate (c : UpstreamConfig) : result unit string :=
  validate_address (uc_address c) ;?
  guard_err (uc_weight c =? 0)%Z "upstream weight must be >= 1" ;?
  try_iter validate_timeout
    [("connect_timeout_ms", uc_connect_timeout_ms c);
     ("read_timeout_ms", uc_read_timeout_ms c);
     ("write_timeout_ms", uc_write_timeout_ms c);
     ("idle_timeout_ms", uc_idle_timeout_ms c)] ;?
  validate_client_cert (uc_client_cert_pem c) (uc_client_key_pem c).

Inductive LoadBalancerAlgorithm := RoundRobin | ConsistentHash.

Record LoadBalancerConfig := mkLoadBalancerConfig {
  lb_algorithm : LoadBalancerAlgorithm;
  lb_max_iterations : Z;
  lb_hash_key_rule : option string;
}.

(** [impl Default for LoadBalancerConfig]. *)
Definition LoadBalancerConfig_default : LoadBalancerConfig :=
  {| lb_algorithm := RoundRobin; lb_max_iterations := 32; lb_hash_key_rule := None |}.

(** ** Routes: [config/route_config.rs] *)

Record RouteMatcherConfig := mkRouteMatcherConfig {
  rmc_rule : string;
  rmc_priority : option Z;
}.

(** The middleware configuration is a parameter here: the middlewares validate
    themselves ([MiddlewareConfig::validate]). *)
Record RouteConfig (MC : Type) := mkRouteConfig {
  rc_id : string;
  rc_matcher : RouteMatcherConfig;
  rc_middlewares : list MC;
  rc_upstreams : list UpstreamConfig;
  rc_load_balancer : option LoadBalancerConfig;
}.
Arguments mkRouteConfig {MC}.
Arguments rc_id {MC}.
Arguments rc_matcher {MC}.
Arguments rc_middlewares {MC}.
Arguments rc_upstreams {MC}.
Arguments rc_load_balancer {MC}.

(** [RouteConfig::validate]. *)
Definition RouteConfig_validate {MC} (mw_validate : MC → result unit string)
    (c : RouteConfig MC) : result unit string :=
  guard_err (blank (rc_id c)) "route.id cannot be empty" ;?
  guard_err (blank (rmc_rule (rc_matcher c))) "route.matcher.rule cannot be empty" ;?
  guard_err (match rc_upstreams c with [] => true | _ => false end)
    "route.upstreams cannot be empty" ;?
  try_iter mw_validate (rc_middlewares c) ;?
  try_iter UpstreamConfig_validate (rc_upstreams c).

(** [RouteConfig::effective_priority]: [rule.len() as i32] wraps. *)
Definition effective_priority {MC} (c : RouteConfig MC) : Z :=
  default (wrap_i32 (Z.of_nat (String.length (rmc_rule (rc_matcher c)))))
    (rmc_priority (rc_matcher c)).

(** ** Startup: [config/startup_config.rs] *)

Inductive StartupListenerConfig :=
| ListenTcp (addr : string)
| ListenTls (addr : string) (cert_path key_path : option string)
| ListenUnix (path : string).

(** The constructor order is the source's; [Strict] is [#[default]]. *)
Inductive SniHostPolicy := LooseBySni | LooseByHeader | Strict | StrictRewriteHeader.
#[export] Instance SniHostPolicy_eq_dec : EqDecision SniHostPolicy.
Proof. solve_decision. Defined.
Definition SniHostPolicy_default : SniHostPolicy := Strict.

(** [SniHostPolicy::as_str]. *)
Definition SniHostPolicy_as_str (p : SniHostPolicy) : string :=
  match p with
  | LooseBySni => "loose_by_sni"
  | LooseByHeader => "loose_by_header"
  | Strict => "strict"
  | StrictRewriteHeader => "strict_rewrite_header"
  end.

Record StartupConfig := mkStartupConfig {
  sc_threads : option Z;
  sc_work_stealing : option bool;
  sc_listeners : list StartupListenerConfig;
  sc_sni_host_policy : SniHostPolicy;
  sc_downstream_read_timeout_ms : option Z;
  sc_downstream_write_timeout_ms : option Z;
  sc_grace_period_seconds : option Z;
  sc_graceful_shutdown_timeout_seconds : option Z;
  sc_upstream_keepalive_pool_size : option Z;
  sc_max_retries : option Z;
  sc_enable_h2c_downstream : option bool;
}.

Definition zero_timeout (o : option Z) : bool :=
  match o with Some 0%Z => true | _ => false end.

Definition validate_listener (l : StartupListenerConfig) : result unit string :=
  match l with
  | ListenTcp addr => guard_err (blank addr) "tcp listener addr cannot be empty"
  | ListenTls addr cert_path key_path =>
      guard_err (blank addr) "tls listener addr cannot be empty" ;?
      match cert_path, key_path with
      | Some cert, Some key =>
          guard_err (blank cert) "tls listener cert_path cannot be empty" ;?
          guard_err (blank key) "tls listener key_path cannot be empty"
      | None, None => Ok tt
      | _, _ => Err "tls listener cert_path and key_path must be provided together"
      end
  | ListenUnix path => guard_err (blank path) "unix listener path cannot be empty"
  end.

(** [StartupConfig::validate]. *)
Definition StartupConfig_validate (c : StartupConfig) : result unit string :=
  guard_err (match sc_listeners c with [] => true | _ => false end)
    "startup.listeners cannot be empty" ;?
  guard_err (zero_timeout (sc_downstream_read_timeout_ms c))
    "startup.downstreamReadTimeoutMs must be > 0" ;?
  guard_err (zero_timeout (sc_downstream_write_timeout_ms c))
    "startup.downstreamWriteTimeoutMs must be > 0" ;?
  try_iter validate_listener (sc_listeners c).

(** ** Status: [config/status.rs] *)

Inductive ServerState := Idle | Running | Stopping | Stopped.
#[export] Instance ServerState_eq_dec : EqDecision ServerState.
Proof. solve_decision. Defined.

(** [ServerState::as_str]. *)
Definition ServerState_as_str (s : ServerState) : string :=
  match s with
  | Idle => "idle"
  | Running => "running"
  | Stopping => "stopping"
  | Stopped => "stopped"
  end.

Record ListenerStatus := mkListenerStatus { ls_kind : string; ls_addr : string }.

Record LoadBalancerStatus := mkLoadBalancerStatus {
  lbs_algorithm : string;
  lbs_max_iterations : Z;
  lbs_hash_key_rule : option string;
}.

Record UpstreamHealthStatus := mkUpstreamHealthStatus {
  uhs_healthy : bool;
  uhs_tolerance : Z;
}.

Record UpstreamStatus := mkUpstreamStatus {
  us_kind : string;
  us_address : string;
  us_weight : Z;
  us_health : option UpstreamHealthStatus;
}.

Record RouteStatus := mkRouteStatus {
  rs_id : string;
  rs_rule : string;
  rs_priority : Z;
  rs_load_balancer : LoadBalancerStatus;
  rs_upstreams : list UpstreamStatus;
}.

Record ServerStatus := mkServerStatus {
  st_running : bool;
  st_state : ServerState;
  st_route_count : Z;
  st_threads : Z;
  st_work_stealing : bool;
  st_sni_host_policy : SniHostPolicy;
  st_error_page_count : Z;
  st_listeners : list ListenerStatus;
  st_routes : list RouteStatus;
}.

(** ** What the validators guarantee *)

Lemma try_iter_ok {A E} (f : A → result unit E) l :
  try_iter f l = Ok tt ↔ Forall (λ x, f x = Ok tt) l.
Proof.
  induction l as [|x l IH]; simpl; [by split; [constructor|]|].
  rewrite Forall_cons, <-IH. destruct (f x) as [[]|e]; simpl; [tauto|].
  split; [done|]. by intros [? _].
Qed.

Lemma guard_err_ok {E} (c : bool) (e : E) : guard_err c e = Ok tt ↔ c = false.
Proof. by destruct c. Qed.

Lemma bind_ok_unit {E} (r : result unit E) (k : result unit E) :
  (r ;? k) = Ok tt ↔ r = Ok tt ∧ k = Ok tt.
Proof. destruct r as [[]|e]; simpl; [tauto|]. split; [done|by intros []]. Qed.

(** The first failing guard of a loop decides the error. *)
Lemma try_iter_err {A E} (f : A → result unit E) l e :
  try_iter f l = Err e ↔
  ∃ l1 x l2, l = l1 ++ x :: l2 ∧ Forall (λ y, f y = Ok tt) l1 ∧ f x = Err e.
Proof.
  induction l as [|x l IH]; simpl.
  - split; [done|]. by intros ([] & ? & ? & ? & _).
  - destruct (f x) as [[]|e'] eqn:Ex; simpl.
    + rewrite IH. split.
      * intros (l1 & y & l2 & -> & Hl & Hy). exists (x :: l1), y, l2.
        split_and!; auto.
      * intros ([|z l1] & y & l2 & Heq & Hl & Hy); simplify_eq/=;
          [congruence|]. apply Forall_cons in Hl as [_ Hl]. by exists l1, y, l2.
    + split.
      * intros [= ->]. by exists [], x, l.
      * intros ([|z l1] & y & l2 & Heq & Hl & Hy); simplify_eq/=; [congruence|].
        apply Forall_cons in Hl as [Hz _]. congruence.
Qed.

Lemma UpstreamConfig_validate_ok c :
  UpstreamConfig_validate c = Ok tt ↔
    validate_address (uc_address c) = Ok tt ∧ uc_weight c ≠ 0%Z ∧
    Forall (λ o, o ≠ Some 0%Z)
      [uc_connect_timeout_ms c; uc_read_timeout_ms c; uc_write_timeout_ms c;
       uc_idle_timeout_ms c] ∧
    (is_Some (uc_client_cert_pem c) ↔ is_Some (uc_client_key_pem c)).
Proof.
  unfold UpstreamConfig_validate. rewrite !bind_ok_unit, guard_err_ok, try_iter_ok.
  rewrite Z.eqb_neq.
  assert (∀ nm o, validate_timeout (nm, o) = Ok tt ↔ o ≠ Some 0%Z) as Ht.
  { intros nm [[| |]|]; unfold validate_timeout; simpl; naive_solver. }
  rewrite !Forall_cons, !Ht, !Forall_nil.
  assert (validate_client_cert (uc_client_cert_pem c) (uc_client_key_pem c) = Ok tt
    ↔ (is_Some (uc_client_cert_pem c) ↔ is_Some (uc_client_key_pem c))) as ->.
  { destruct (uc_client_cert_pem c), (uc_client_key_pem c); simpl; split; try done;
      intros [H1 H2]; [destruct H1|destruct H2]; eauto; done. }
  tauto.
Qed.
