(* ===== verification/CheapExpr.v ===== *)
(** * The three-valued pre-check

    [src/matcher/precheck/expr.rs]: Kleene's three-valued logic and the tree of
    cheap checks. A leaf carries its metadata and a check function, as in the
    source, so the tree is polymorphic in the request source [C] and in the
    metadata [M]. *)

From S2P Require Import Prelude.
From stdpp Require Import base tactics list.

Inductive Tri := TTrue | TFalse | TUnknown.
#[export] Instance Tri_eq_dec : EqDecision Tri.
Proof. solve_decision. Defined.

Definition from_bool (v : bool) : Tri := if v then TTrue else TFalse.

Definition is_false (a : Tri) : bool := match a with TFalse => true | _ => false end.
Definition is_true (a : Tri) : bool := match a with TTrue => true | _ => false end.
Definition is_unknown (a : Tri) : bool := match a with TUnknown => true | _ => false end.

Definition tri_and (a b : Tri) : Tri :=
  if is_false a || is_false b then TFalse
  else if is_unknown a || is_unknown b then TUnknown
  else TTrue.

Definition tri_or (a b : Tri) : Tri :=
  if is_true a || is_true b then TTrue
  else if is_unknown a || is_unknown b then TUnknown
  else TFalse.

Definition tri_not (a : Tri) : Tri :=
  match a with TTrue => TFalse | TFalse => TTrue | TUnknown => TUnknown end.

Definition tri_cond (cond thn els : Tri) : Tri :=
  match cond with
  | TTrue => thn
  | TFalse => els
  | TUnknown => if decide (thn = els) then thn else TUnknown
  end.

Record Leaf (C M : Type) := mkLeaf { leaf_meta : M; leaf_check : C → M → bool }.
Arguments mkLeaf {C M}.
Arguments leaf_meta {C M}.
Arguments leaf_check {C M}.

Inductive CheapExpr (C M : Type) :=
| And (a b : CheapExpr C M)
| Or (a b : CheapExpr C M)
| Not (inner : CheapExpr C M)
| Cond (cond thn els : CheapExpr C M)
| Check_ (leaf : Leaf C M)
| Lit (v : bool)
| Unknown.
Arguments And {C M}.
Arguments Or {C M}.
Arguments Not {C M}.
Arguments Cond {C M}.
Arguments Check_ {C M}.
Arguments Lit {C M}.
Arguments Unknown {C M}.

Section Expr.
Context {C M : Type}.
Implicit Types e : CheapExpr C M.

(** [CheapExpr::is_complete]. *)
Fixpoint is_complete (e : CheapExpr C M) : bool :=
  match e with
  | And a b | Or a b => is_complete a && is_complete b
  | Not inner => is_complete inner
  | Cond cond thn els => is_complete cond && is_complete thn && is_complete els
  | Check_ _ | Lit _ => true
  | Unknown => false
  end.

(** [CheapExpr::for_each_leaf]: the visitor threads its state. *)
Fixpoint for_each_leaf {S} (f : S → M → S) (e : CheapExpr C M) (s : S) : S :=
  match e with
  | And a b | Or a b => for_each_leaf f b (for_each_leaf f a s)
  | Not inner => for_each_leaf f inner s
  | Cond cond thn els =>
      for_each_leaf f els (for_each_leaf f thn (for_each_leaf f cond s))
  | Check_ leaf => f s (leaf_meta leaf)
  | Lit _ | Unknown => s
  end.

(** [CheapExpr::eval]. *)
Fixpoint eval (e : CheapExpr C M) (ctx : C) : Tri :=
  match e with
  | And a b => tri_and (eval a ctx) (eval b ctx)
  | Or a b => tri_or (eval a ctx) (eval b ctx)
  | Not inner => tri_not (eval inner ctx)
  | Cond cond thn els => tri_cond (eval cond ctx) (eval thn ctx) (eval els ctx)
  | Check_ leaf => from_bool (leaf_check leaf ctx (leaf_meta leaf))
  | Lit v => from_bool v
  | Unknown => TUnknown
  end.

(** The leaves in visiting order. *)
Fixpoint leaves (e : CheapExpr C M) : list M :=
  match e with
  | And a b | Or a b => leaves a ++ leaves b
  | Not inner => leaves inner
  | Cond cond thn els => leaves cond ++ leaves thn ++ leaves els
  | Check_ leaf => [leaf_meta leaf]
  | Lit _ | Unknown => []
  end.

Lemma for_each_leaf_fold {S} (f : S → M → S) e s :
  for_each_leaf f e s = fold_left f (leaves e) s.
Proof.
  revert s. induction e; intros s; simpl; rewrite ?fold_left_app; try congruence; auto.
Qed.

(** [completion ctx e b]: [b] is a value of [e] for some choice of a boolean
    at every occurrence of an unknown leaf. *)
Inductive completion (ctx : C) : CheapExpr C M → bool → Prop :=
| comp_and a b x y :
    completion ctx a x → completion ctx b y → completion ctx (And a b) (x && y)
| comp_or a b x y :
    completion ctx a x → completion ctx b y → completion ctx (Or a b) (x || y)
| comp_not a x : completion ctx a x → completion ctx (Not a) (negb x)
| comp_cond c t e x y z :
    completion ctx c x → completion ctx t y → completion ctx e z →
    completion ctx (Cond c t e) (if x then y else z)
| comp_check l : completion ctx (Check_ l) (leaf_check l ctx (leaf_meta l))
| comp_lit v : completion ctx (Lit v) v
| comp_unknown b : completion ctx Unknown b.

(** The set of truth values a three-valued result stands for. *)
Definition possible (t : Tri) (b : bool) : Prop :=
  match t with TTrue => b = true | TFalse => b = false | TUnknown => True end.

#[local] Ltac destruct_tri := repeat match goal with b : bool |- _ => destruct b end; done.

Lemma tri_and_possible t u b :
  possible (tri_and t u) b ↔ ∃ x y, possible t x ∧ possible u y ∧ b = x && y.
Proof.
  split.
  - intros Hb. destruct t, u; simpl in *; subst;
      [exists true, true|exists true, false|exists true, b
      |exists false, true|exists false, false|exists false, false
      |exists b, true|exists false, false|exists b, b]; destruct_tri.
  - intros (x & y & Hx & Hy & ->). destruct t, u; simpl in *; subst; destruct_tri.
Qed.

Lemma tri_not_possible t b :
  possible (tri_not t) b ↔ ∃ x, possible t x ∧ b = negb x.
Proof.
  destruct t; simpl; split; try (intros (x & Hx & ->); subst; done); intros Hb.
  - subst. by exists true.
  - subst. by exists false.
  - exists (negb b). by rewrite negb_involutive.
Qed.

Lemma tri_or_and t u : tri_or t u = tri_not (tri_and (tri_not t) (tri_not u)).
Proof. by destruct t, u. Qed.

Lemma tri_or_possible t u b :
  possible (tri_or t u) b ↔ ∃ x y, possible t x ∧ possible u y ∧ b = x || y.
Proof.
  rewrite tri_or_and, tri_not_possible. setoid_rewrite tri_and_possible.
  setoid_rewrite tri_not_possible. split.
  - intros (? & (? & ? & (x & Hx & ->) & (y & Hy & ->) & ->) & ->).
    exists x, y. by destruct x, y.
  - intros (x & y & Hx & Hy & ->). exists (negb x && negb y).
    split; [|by destruct x, y]. exists (negb x), (negb y). split_and!; eauto.
Qed.

Lemma tri_cond_possible (c t e : Tri) b :
  possible (tri_cond c t e) b ↔
  ∃ x y z, possible c x ∧ possible t y ∧ possible e z ∧ b = (if x then y else z).
Proof.
  assert (∀ u, ∃ y, possible u y) as Hex.
  { intros []; [by exists true|by exists false|by exists true]. }
  destruct (Hex t) as [y0 Hy0], (Hex e) as [z0 Hz0].
  destruct c; simpl.
  - split; [intros Hb; by exists true, b, z0|]. by intros (? & y & z & -> & ? & ? & ->).
  - split; [intros Hb; by exists false, y0, b|]. by intros (? & y & z & -> & ? & ? & ->).
  - case_decide as Hte; [subst e|].
    + split; [intros Hb; by exists true, b, b|].
      by intros ([] & y & z & _ & ? & ? & ->).
    + split; [|done]. intros _.
      destruct t, e, b; simpl in *; try done; first
        [ by exists true, true, true | by exists true, false, true
        | by exists true, true, false | by exists true, false, false
        | by exists false, true, true | by exists false, true, false
        | by exists false, false, true | by exists false, false, false ].
Qed.

(** A three-valued result stands for exactly the completions of the tree. *)
Lemma eval_possible e ctx b : completion ctx e b ↔ possible (eval e ctx) b.
Proof.
  revert b. induction e; intros b'; simpl.
  - rewrite tri_and_possible. split.
    + inversion 1; subst. exists x, y. by rewrite <-IHe1, <-IHe2.
    + intros (x & y & Hx%IHe1 & Hy%IHe2 & ->). by constructor.
  - rewrite tri_or_possible. split.
    + inversion 1; subst. exists x, y. by rewrite <-IHe1, <-IHe2.
    + intros (x & y & Hx%IHe1 & Hy%IHe2 & ->). by constructor.
  - rewrite tri_not_possible. split.
    + inversion 1; subst. exists x. by rewrite <-IHe.
    + intros (x & Hx%IHe & ->). by constructor.
  - rewrite tri_cond_possible. split.
    + inversion 1; subst. exists x, y, z. by rewrite <-IHe1, <-IHe2, <-IHe3.
    + intros (x & y & z & Hx%IHe1 & Hy%IHe2 & Hz%IHe3 & ->). by constructor.
  - split; [inversion 1; subst; by destruct (leaf_check _ _ _)|].
    intros Hb. assert (b' = leaf_check leaf ctx (leaf_meta leaf)) as ->; [|constructor].
    by destruct (leaf_check _ _ _).
  - split; [inversion 1; subst; by destruct b'|].
    intros Hb. assert (b' = v) as ->; [|constructor]. by destruct v.
  - split; [done|]. intros _. constructor.
Qed.

Lemma tri_complete e ctx : is_complete e = true → eval e ctx ≠ TUnknown.
Proof.
  induction e; simpl; intros Hc; rewrite ?andb_true_iff in Hc; destruct_and?;
    repeat match goal with
    | IH : ?p = true → eval ?e ctx ≠ TUnknown, Hp : ?p = true |- _ => specialize (IH Hp)
    end; try done.
  - by destruct (eval e1 ctx), (eval e2 ctx).
  - by destruct (eval e1 ctx), (eval e2 ctx).
  - by destruct (eval e ctx).
  - by destruct (eval e1 ctx), (eval e2 ctx), (eval e3 ctx).
  - by destruct (leaf_check _ _ _).
  - by destruct v.
Qed.

(** The pre-check is exact for Kleene's logic: [eval] answers true (false)
    exactly when every choice of booleans for the unknown leaves makes the
    tree true (false), and unknown exactly when both values are possible. *)
Theorem eval_exact e ctx :
  (eval e ctx = TTrue ↔ ∀ b, completion ctx e b → b = true) ∧
  (eval e ctx = TFalse ↔ ∀ b, completion ctx e b → b = false) ∧
  (eval e ctx = TUnknown ↔ completion ctx e true ∧ completion ctx e false).
Proof.
  assert (∀ v, ¬ (∀ b, possible TUnknown b → b = v)) as HU.
  { intros v Hall. pose proof (Hall (negb v) I). by destruct v. }
  setoid_rewrite eval_possible.
  destruct (eval e ctx); simpl; split_and!; split; try done.
  - intros Hall. by specialize (Hall true eq_refl).
  - by intros [_ ?].
  - intros Hall. by specialize (Hall false eq_refl).
  - by intros [? _].
  - intros Hall. by destruct (HU true).
  - intros Hall. by destruct (HU false).
Qed.

(** A tree without unknown leaves is decided by the pre-check alone: [eval]
    is never unknown, and its answer is the tree's only value. *)
Theorem complete_decides e ctx :
  is_complete e = true →
  ∃ b, eval e ctx = from_bool b ∧ ∀ b', completion ctx e b' ↔ b' = b.
Proof.
  intros Hc. pose proof (tri_complete e ctx Hc) as HU.
  setoid_rewrite eval_possible.
  destruct (eval e ctx); [by exists true|by exists false|done].
Qed.
End Expr.

Lemma complete_decides_witness :
  ∃ b, eval (And (Lit true) (Not (Lit false)) : CheapExpr unit unit) tt = from_bool b ∧
    ∀ b', completion tt (And (Lit true) (Not (Lit false)) : CheapExpr unit unit) b' ↔ b' = b.
Proof. apply (complete_decides (And (Lit true) (Not (Lit false))) tt). reflexivity. Defined.
