(* ===== verification/Cel.v ===== *)
(** * CEL data

    The data types of the [cel] crate that the sources take apart: the
    expression tree ([cel::common::ast]), and the values an evaluation returns
    ([cel::Value]). A compiled [Program] is its expression. Node ids are left
    out; every node kind the sources never inspect is [OtherExpr]. *)

From S2P Require Import Prelude Text.
From stdpp Require Import base tactics strings list.
From Stdlib Require Import ZArith.

(** [cel::common::ast::LiteralValue]; a double is its 64 bits. *)
Inductive LiteralValue :=
| LBoolean (b : bool)
| LBytes (s : string)
| LDouble (bits : Z)
| LInt (z : Z)
| LNull
| LString (s : string)
| LUInt (z : Z).

(** [cel::common::ast::Expr]: a call has a name, an optional receiver and its
    arguments. *)
Inductive Expr :=
| Call (func_name : string) (target : option Expr) (args : list Expr)
| Literal (l : LiteralValue)
| Ident (name : string)
| OtherExpr (text : string).

Abbreviation Program := Expr (only parsing).

(** [cel::common::ast::operators]. *)
Definition LOGICAL_AND : string := "_&&_".
Definition LOGICAL_OR : string := "_||_".
Definition LOGICAL_NOT : string := "!_".
Definition CONDITIONAL : string := "_?_:_".

(** [cel::objects::Key]. *)
Inductive Key :=
| KInt (z : Z)
| KUint (z : Z)
| KBool (b : bool)
| KString (s : string).

(** [cel::Value]; a timestamp is its milliseconds since the epoch, and an opaque
    value is the name of its Rust type: the only opaque type of this program
    is [CelHttpSession], and a context holds one of them. *)
Inductive Value :=
| VNull
| VBool (b : bool)
| VInt (z : Z)
| VUInt (z : Z)
| VFloat (bits : Z)
| VString (s : string)
| VBytes (s : string)
| VDuration (ms : Z)
| VTimestamp (ms : Z)
| VList (l : list Value)
| VMap (m : list (Key * Value))
| VFunction (name : string)
| VOpaque (type_name : string).

(** [matches!(v, Ok(Value::Bool(true)))]. *)
Definition is_bool_true {E} (r : result Value E) : bool :=
  match r with Ok (VBool true) => true | _ => false end.

(** Induction on expressions through the argument lists. *)
Section ExprInd.
Variable P : Expr → Prop.
Hypothesis HCall : ∀ f t args,
  (∀ e, t = Some e → P e) → Forall P args → P (Call f t args).
Hypothesis HLit : ∀ l, P (Literal l).
Hypothesis HIdent : ∀ x, P (Ident x).
Hypothesis HOther : ∀ x, P (OtherExpr x).

Fixpoint Expr_strong_ind (e : Expr) : P e :=
  match e with
  | Call f t args =>
      HCall f t args
        (match t with
         | None => λ e' H, match H with end
         | Some e0 => λ e' H, match H in _ = o return
                        match o with Some e1 => P e1 | None => True end
                      with eq_refl => Expr_strong_ind e0 end
         end)
        ((fix go l : Forall P l :=
            match l with
            | [] => Forall_nil_2 P
            | x :: l' => Forall_cons_2 P x l' (Expr_strong_ind x) (go l')
            end) args)
  | Literal l => HLit l
  | Ident x => HIdent x
  | OtherExpr x => HOther x
  end.
End ExprInd.
