(* ===== verification/CelSession.v ===== *)
(** * The request seen by rules

    [src/matcher/cel_session_context.rs]: the immutable view of a request that
    rules and middlewares evaluate against, and the evaluation context that
    holds it. The view is created once per request from the downstream session;
    later changes of the request header do not reach it. A [OnceLock] is an
    [option] cell: reading it returns the stored value or computes it. *)

From S2P Require Import Prelude Text Http Config Cel.
From stdpp Require Import base tactics strings list gmap.
From Stdlib Require Import ZArith Ascii.

Definition CEL_HTTP_SESSION_KEY : string := "_cel_http_session".

(** [hostname_eq]: ASCII case and trailing dots are ignored. *)
Definition hostname_eq (a b : string) : bool :=
  eq_ignore_ascii_case (trim_end_matches "." a) (trim_end_matches "." b).

(** [serde_json::Value]; a number is its text. *)
Inductive JsonValue :=
| JNull
| JBool (b : bool)
| JNumber (text : string)
| JString (s : string)
| JArray (l : list JsonValue)
| JObject (l : list (string * JsonValue)).

(** [josekit::jwt::JwtPayload]: its claims and its text. *)
Record JwtPayload := mkJwtPayload {
  jwt_claims : gmap string JsonValue;
  jwt_text : string;
}.

(** [pingora]'s [SocketAddr]; an IP address is its canonical text. *)
Inductive SocketAddr :=
| Inet (ip : string) (port : Z)
| UnixAddr (path : string).

(** [server/tls_callbacks.rs]: what the handshake leaves on the digest. *)
Record DownstreamTlsInfo := mkDownstreamTlsInfo { dti_sni : option string }.

Section CelSession.
Context `{HttpLib}.

(** What the sources read of [pingora::proxy::Session]. *)
Record SessionView := mkSessionView {
  sv_req_header : RequestHeader;
  sv_client_addr : option SocketAddr;
  sv_ssl_digest : option (option DownstreamTlsInfo);
}.

Record CelHttpSession := mkCelHttpSession {
  req_header : RequestHeader;
  upstream_res_header : option ResponseHeader;
  jwt_payload : option JwtPayload;
  client_addr : option SocketAddr;
  tls_sni : option string;
  sni_host_policy : SniHostPolicy;
  request_time : Z;
  host_cell : option string;
  path_cell : option string;
  client_ip_cell : option string;
  query_pairs_cell : option (list (string * string));
  error_status : option Z;
  trace_id_cell : option string;
}.

(** [CelHttpSession::from_session]; [now] is [chrono::Utc::now()]. *)
Definition from_session (s : SessionView) (policy : SniHostPolicy) (now : Z)
    : CelHttpSession :=
  {| req_header := sv_req_header s;
     upstream_res_header := None;
     jwt_payload := None;
     client_addr := sv_client_addr s;
     tls_sni := sv_ssl_digest s ≫= λ d, d ≫= dti_sni;
     sni_host_policy := policy;
     request_time := now;
     host_cell := None; path_cell := None; client_ip_cell := None;
     query_pairs_cell := None; error_status := None; trace_id_cell := None |}.

(** The setters behind the [RwLock]s. *)
Definition set_upstream_res_header (h : option ResponseHeader) (s : CelHttpSession) :=
  mkCelHttpSession (req_header s) h (jwt_payload s) (client_addr s) (tls_sni s)
    (sni_host_policy s) (request_time s) (host_cell s) (path_cell s)
    (client_ip_cell s) (query_pairs_cell s) (error_status s) (trace_id_cell s).
Definition set_jwt_payload (p : option JwtPayload) (s : CelHttpSession) :=
  mkCelHttpSession (req_header s) (upstream_res_header s) p (client_addr s) (tls_sni s)
    (sni_host_policy s) (request_time s) (host_cell s) (path_cell s)
    (client_ip_cell s) (query_pairs_cell s) (error_status s) (trace_id_cell s).
Definition set_error_status (status : option Z) (s : CelHttpSession) :=
  mkCelHttpSession (req_header s) (upstream_res_header s) (jwt_payload s)
    (client_addr s) (tls_sni s) (sni_host_policy s) (request_time s) (host_cell s)
    (path_cell s) (client_ip_cell s) (query_pairs_cell s) status (trace_id_cell s).

Definition jwt_payload_string (s : CelHttpSession) : option string :=
  jwt_text <$> jwt_payload s.
Definition jwt_claim_value (key : string) (s : CelHttpSession) : option JsonValue :=
  jwt_payload s ≫= λ p, jwt_claims p !! key.

(** [CelHttpSession::sni]: an empty SNI is no SNI. *)
Definition sni (s : CelHttpSession) : option string :=
  match tls_sni s with
  | Some x => if is_empty x then None else Some x
  | None => None
  end.

(** [h.split(':').next().unwrap_or(h).trim()]. *)
Definition strip_port (h : string) : string := trim (split_on ":" h).1.

Definition authority_sources (s : CelHttpSession) : option string * option string :=
  let authority := authority_host <$> uri_authority (req_uri (req_header s)) in
  let host_header :=
    strip_port <$> (hm_get "host" (req_headers (req_header s)) ≫= hv_to_str) in
  (authority, host_header).

(** [CelHttpSession::http_authority]: [:authority], then the [Host] header. *)
Definition http_authority (s : CelHttpSession) : option string :=
  match (authority_sources s).1 with
  | Some a => Some a
  | None => (authority_sources s).2
  end.

Definition authority_conflict (s : CelHttpSession) : bool :=
  match authority_sources s with
  | (Some a, Some h) => negb (hostname_eq a h)
  | _ => false
  end.

Definition compute_host (s : CelHttpSession) : string :=
  let authority := http_authority s in
  match sni_host_policy s with
  | LooseBySni | StrictRewriteHeader =>
      match sni s with
      | Some x => x
      | None => default "" authority
      end
  | LooseByHeader | Strict => default "" authority
  end.

(** [decode_path]. *)
Definition decode_path (path : string) : string := percent_decode_utf8_lossy path.

Definition compute_client_ip (s : CelHttpSession) : string :=
  match client_addr s with
  | Some (Inet ip _) => ip
  | _ => ""
  end.

Definition compute_query_pairs (s : CelHttpSession) : list (string * string) :=
  form_urlencoded_parse (default "" (uri_query (req_uri (req_header s)))).

(** The [get_or_init] readers. *)
Definition host (s : CelHttpSession) : string :=
  match host_cell s with Some v => v | None => compute_host s end.
Definition path (s : CelHttpSession) : string :=
  match path_cell s with Some v => v | None => decode_path (uri_path (req_uri (req_header s))) end.
Definition method (s : CelHttpSession) : string := req_method (req_header s).
Definition client_ip (s : CelHttpSession) : string :=
  match client_ip_cell s with Some v => v | None => compute_client_ip s end.
Definition query_pairs (s : CelHttpSession) : list (string * string) :=
  match query_pairs_cell s with Some v => v | None => compute_query_pairs s end.

(** The write a first read does: [OnceLock::get_or_init] fills the cells. *)
Definition fill_cells (s : CelHttpSession) : CelHttpSession :=
  mkCelHttpSession (req_header s) (upstream_res_header s) (jwt_payload s)
    (client_addr s) (tls_sni s) (sni_host_policy s) (request_time s)
    (Some (host s)) (Some (path s)) (Some (client_ip s)) (Some (query_pairs s))
    (error_status s) (trace_id_cell s).

(** Response values; [0] and the empty string when there is no response. *)
Definition response_status_value (s : CelHttpSession) : Z :=
  match upstream_res_header s with Some h => resp_status h | None => 0%Z end.
Definition response_header_value (key : string) (s : CelHttpSession) : string :=
  default "" (upstream_res_header s ≫= λ h, hm_get key (resp_headers h) ≫= hv_to_str).

(** ** The evaluation context: [SessionCelContext] *)

(** [cel_ctx] and [cel_http_session] share one session object: the context's
    session variable is a handle to it. *)
Record SessionCelContext := mkSessionCelContext {
  cel_variables : gmap string Value;
  cel_http_session : CelHttpSession;
}.

(** [read_session_cel_context]. *)
Definition read_session_cel_context (s : SessionView) (policy : SniHostPolicy) (now : Z)
    : SessionCelContext :=
  {| cel_variables := {[ CEL_HTTP_SESSION_KEY := VOpaque "CelHttpSession" ]};
     cel_http_session := from_session s policy now |}.

(** [Context::add_variable_from_value]. *)
Definition add_variable (name : string) (v : Value) (c : SessionCelContext) :=
  {| cel_variables := <[name := v]> (cel_variables c);
     cel_http_session := cel_http_session c |}.

(** The context resolves the session for the rule functions. *)
Definition session_visible (c : SessionCelContext) : Prop :=
  cel_variables c !! CEL_HTTP_SESSION_KEY = Some (VOpaque "CelHttpSession").

Lemma read_session_visible s policy now :
  session_visible (read_session_cel_context s policy now).
Proof. unfold session_visible. simpl. apply lookup_singleton_eq. Qed.

Lemma add_variable_visible name v c :
  name ≠ CEL_HTTP_SESSION_KEY → session_visible c → session_visible (add_variable name v c).
Proof. intros Hn Hc. unfold session_visible in *. simpl. by rewrite lookup_insert_ne. Qed.
End CelSession.
Arguments SessionView {_}.
Arguments CelHttpSession {_}.
Arguments SessionCelContext {_}.
