(* ===== verification/TraceId.v ===== *)
(** * Trace ids

    [generate_trace_id], [hex_encode_lower] and [CelHttpSession::trace_id] of
    [src/matcher/cel_session_context.rs]. The random generator is the sequence
    of the blocks it yields; the loop takes fuel, one unit per draw. *)

From S2P Require Import Prelude Text Http Config Cel CelSession.
From stdpp Require Import base tactics strings list gmap.
From Stdlib Require Import ZArith Lia Ascii.
Local Open Scope Z_scope.

(** [const HEX: &[u8; 16]]. *)
Definition HEX : list ascii := String.list_ascii_of_string "0123456789abcdef".
Definition hex_char (n : Z) : ascii := default "0"%char (HEX !! Z.to_nat n).

Fixpoint hex_encode_lower (bytes : list Z) : string :=
  match bytes with
  | [] => ""
  | byte :: bytes' =>
      String (hex_char (Z.shiftr byte 4))
        (String (hex_char (Z.land byte 0x0f)) (hex_encode_lower bytes'))
  end.

(** [rand::random::<[u8; 16]>()] yields [rng i] at the [i]-th draw. *)
Fixpoint generate_trace_id (fuel : nat) (rng : nat → list Z) (i : nat) : option string :=
  match fuel with
  | O => None
  | S fuel' =>
      let bytes := rng i in
      if existsb (λ b, negb (b =? 0)) bytes then Some (hex_encode_lower bytes)
      else generate_trace_id fuel' rng (S i)
  end.

(** [trace_id]: the cell is filled at the first read. *)
Definition trace_id `{HttpLib} (fuel : nat) (rng : nat → list Z) (i : nat)
    (s : CelHttpSession) : option (string * CelHttpSession) :=
  match trace_id_cell s with
  | Some t => Some (t, s)
  | None =>
      (λ t, (t, mkCelHttpSession (req_header s) (upstream_res_header s) (jwt_payload s)
                  (client_addr s) (tls_sni s) (sni_host_policy s) (request_time s)
                  (host_cell s) (path_cell s) (client_ip_cell s) (query_pairs_cell s)
                  (error_status s) (Some t))) <$> generate_trace_id fuel rng i
  end.

(** ** The encoding *)

Definition is_byte (b : Z) : Prop := 0 ≤ b < 256.
Definition hex_value (c : ascii) : option Z :=
  (λ p, Z.of_nat p.1) <$> list_find (λ x, x = c) HEX.
(** The reference decoder. *)
Fixpoint hex_decode (s : string) : option (list Z) :=
  match s with
  | EmptyString => Some []
  | String a (String b s') =>
      match hex_value a, hex_value b, hex_decode s' with
      | Some x, Some y, Some l => Some (16 * x + y :: l)
      | _, _, _ => None
      end
  | String _ EmptyString => None
  end.

(** The digits the documentation promises. *)
Definition is_hex_lower (c : ascii) : bool := existsb (Ascii.eqb c) HEX.

Lemma hex_char_digit n :
  0 ≤ n < 16 → hex_value (hex_char n) = Some n ∧ is_hex_lower (hex_char n) = true.
Proof.
  intros Hn.
  assert (Forall (λ n, hex_value (hex_char n) = Some n ∧ is_hex_lower (hex_char n) = true)
            (seqZ 0 16)) as Hall.
  { repeat (constructor; [done|]). constructor. }
  rewrite Forall_forall in Hall. apply Hall, elem_of_seqZ. lia.
Qed.
Lemma hex_value_char n : 0 ≤ n < 16 → hex_value (hex_char n) = Some n.
Proof. apply hex_char_digit. Qed.
Lemma hex_char_lower n : 0 ≤ n < 16 → is_hex_lower (hex_char n) = true.
Proof. apply hex_char_digit. Qed.
Lemma byte_nibbles b : is_byte b →
  0 ≤ Z.shiftr b 4 < 16 ∧ 0 ≤ Z.land b 15 < 16 ∧ 16 * Z.shiftr b 4 + Z.land b 15 = b.
Proof.
  intros [Hl Hu]. rewrite Z.shiftr_div_pow2 by lia. change 15 with (Z.ones 4).
  rewrite Z.land_ones by lia. change (2 ^ 4) with 16.
  pose proof (Z.div_mod b 16 ltac:(lia)). pose proof (Z.mod_pos_bound b 16 ltac:(lia)).
  pose proof (Z.div_pos b 16 Hl ltac:(lia)).
  pose proof (Z.div_lt_upper_bound b 16 16 ltac:(lia) ltac:(lia)). lia.
Qed.

Lemma hex_roundtrip bytes :
  Forall is_byte bytes → hex_decode (hex_encode_lower bytes) = Some bytes.
Proof.
  induction 1 as [|b bytes Hb _ IH]; [done|]. cbn [hex_encode_lower hex_decode].
  destruct (byte_nibbles b Hb) as (Hhi & Hlo & Heq). rewrite !hex_value_char, IH by done.
  by rewrite Heq.
Qed.
Lemma hex_length bytes : String.length (hex_encode_lower bytes) = (2 * length bytes)%nat.
Proof. induction bytes; simpl; [done|]. rewrite IHbytes. lia. Qed.

(** ** The loop *)

Definition all_zero (bytes : list Z) : bool := forallb (λ b, b =? 0) bytes.
Lemma all_zero_existsb bytes :
  existsb (λ b, negb (b =? 0)) bytes = negb (all_zero bytes).
Proof. induction bytes as [|b l IH]; simpl; [done|]. rewrite IH. by destruct (b =? 0). Qed.

Lemma generate_skips fuel rng i k :
  (k < fuel)%nat → (∀ j, (j < k)%nat → all_zero (rng (i + j)%nat) = true) →
  all_zero (rng (i + k)%nat) = false →
  generate_trace_id fuel rng i = Some (hex_encode_lower (rng (i + k)%nat)).
Proof.
  revert i k. induction fuel as [|fuel IH]; intros i k Hk Hz Hnz; [lia|]. simpl.
  rewrite all_zero_existsb. destruct k as [|k].
  - rewrite Nat.add_0_r in *. by rewrite Hnz.
  - pose proof (Hz O ltac:(lia)) as H0. rewrite Nat.add_0_r in H0. rewrite H0. simpl.
    rewrite (IH (S i) k); [do 3 f_equal; lia|lia| |by replace (S i + k)%nat with (i + S k)%nat by lia].
    intros j Hj. replace (S i + j)%nat with (i + S j)%nat by lia. apply Hz. lia.
Qed.

Lemma generate_never fuel rng i :
  (∀ j, all_zero (rng j) = true) → generate_trace_id fuel rng i = None.
Proof.
  intros Hz. revert i. induction fuel as [|fuel IH]; intros i; simpl; [done|].
  by rewrite all_zero_existsb, Hz, IH.
Qed.

Lemma hex_lower bytes :
  Forall is_byte bytes →
  forallb is_hex_lower (String.list_ascii_of_string (hex_encode_lower bytes)) = true.
Proof.
  induction 1 as [|b bytes Hb _ IH]; [done|].
  cbn [hex_encode_lower String.list_ascii_of_string forallb].
  destruct (byte_nibbles b Hb) as (Hhi & Hlo & _). by rewrite !hex_char_lower, IH.
Qed.

(** C39: The generator loop ends at the first block that is not all zero, and
    does not end on a source that only yields zeros. The id it returns is the
    block in 32 lowercase hexadecimal digits: it decodes to the block, so it
    is not the all-zero id the trace standard forbids. Reading the id stores
    it: later reads return the same id and draw nothing. *)
Theorem trace_id_generated `{HttpLib} rng i k fuel s :
  trace_id_cell s = None →
  (∀ j, length (rng j) = 16%nat ∧ Forall is_byte (rng j)) → (k < fuel)%nat →
  (∀ j, (j < k)%nat → all_zero (rng (i + j)%nat) = true) →
  (all_zero (rng (i + k)%nat) = false →
     ∃ t s', trace_id fuel rng i s = Some (t, s') ∧
       String.length t = 32%nat ∧
       forallb is_hex_lower (String.list_ascii_of_string t) = true ∧
       hex_decode t = Some (rng (i + k)%nat) ∧ t ≠ "00000000000000000000000000000000" ∧
       ∀ fuel' i', trace_id fuel' rng i' s' = Some (t, s')) ∧
  ((∀ j, all_zero (rng j) = true) → trace_id fuel rng i s = None).
Proof.
  intros Hc Hrng Hk Hz. unfold trace_id at 1 3. rewrite Hc. split.
  - intros Hnz. rewrite (generate_skips fuel rng i k Hk Hz Hnz). cbn.
    destruct (Hrng (i + k)%nat) as [Hlen Hb]. eexists _, _. split; [done|].
    pose proof (hex_roundtrip _ Hb) as Hr. split_and!; [|by apply hex_lower|done| |done].
    + by rewrite hex_length, Hlen.
    + intros E. rewrite E in Hr. change (Some (replicate 16 0) = Some (rng (i + k)%nat)) in Hr.
      injection Hr as Hr. by rewrite <-Hr in Hnz.
  - intros Hall. by rewrite generate_never.
Qed.

(** ** Witness *)

Import AssocHttp.
Definition demo_rng (n : nat) : list Z := match n with O => replicate 16 0 | _ => replicate 16 171 end.
Definition demo_session : CelHttpSession :=
  from_session (mkSessionView (mkRequestHeader "GET" (mkUri None None None "/" None) hm_empty)
                  None None) Strict 0.

Lemma trace_id_generated_witness :
  ∃ t s', trace_id 2 demo_rng 0 demo_session = Some (t, s') ∧
    String.length t = 32%nat ∧ hex_decode t = Some (replicate 16 171).
Proof.
  destruct (proj1 (trace_id_generated demo_rng 0 1 2 demo_session eq_refl
    ltac:(intros [|j]; (split; [reflexivity|apply Forall_replicate; unfold is_byte; lia]))
    ltac:(lia) ltac:(intros j Hj; by replace j with O by lia)) eq_refl)
    as (t & s' & H1 & H2 & _ & H3 & _). eauto.
Defined.
