(* ===== verification/Ip.v ===== *)
(** * IP addresses

    [str::parse::<IpAddr>()] of the Rust standard library, which the [ClientIP]
    rule function uses ([src/matcher/cel_common.rs]): the recursive-descent
    parser of [core::net::parser]. The [ipnet] crate's networks stay a
    parameter of the rule functions. *)

From S2P Require Import Prelude Text.
From stdpp Require Import base tactics strings list.
From Stdlib Require Import ZArith Ascii.

Inductive IpAddr := V4 (bits : Z) | V6 (bits : Z).
#[export] Instance IpAddr_eq_dec : EqDecision IpAddr.
Proof. solve_decision. Defined.

(** [char::to_digit(radix)] for radix 10 and 16. *)
Definition to_digit (radix : Z) (c : ascii) : option Z :=
  let x := Z.of_N (code c) in
  let d := if ((48 <=? x) && (x <=? 57))%Z then Some (x - 48)%Z
           else if ((97 <=? x) && (x <=? 102))%Z then Some (x - 87)%Z
           else if ((65 <=? x) && (x <=? 70))%Z then Some (x - 55)%Z
           else None in
  match d with
  | Some v => if (v <? radix)%Z then Some v else None
  | None => None
  end.

(** The longest run of digits: its value, its length, the rest. *)
Fixpoint read_digits (radix acc : Z) (n : nat) (s : string) : Z * nat * string :=
  match s with
  | String a r =>
      match to_digit radix a with
      | Some d => read_digits radix (acc * radix + d) (S n) r
      | None => (acc, n, s)
      end
  | EmptyString => (acc, n, s)
  end.

(** [Parser::read_number]. *)
Definition read_number (radix : Z) (max_digits : nat) (allow_zero_prefix : bool)
    (max_value : Z) (s : string) : option (Z * string) :=
  let leading_zero := match s with String a _ => bool_decide (a = "0"%char) | _ => false end in
  let '(v, n, r) := read_digits radix 0 0 s in
  if bool_decide (max_digits < n) || bool_decide (n = 0) then None
  else if negb allow_zero_prefix && leading_zero && bool_decide (1 < n) then None
  else if (v <=? max_value)%Z then Some (v, r) else None.

Definition read_char (c : ascii) (s : string) : option string :=
  match s with
  | String a r => if decide (a = c) then Some r else None
  | EmptyString => None
  end.

(** [Parser::read_separator]: a separator before every item but the first. *)
Definition read_separator {A} (sep : ascii) (i : nat)
    (p : string → option (A * string)) (s : string) : option (A * string) :=
  if decide (i = 0) then p s else read_char sep s ≫= p.

Definition read_octet (i : nat) (s : string) : option (Z * string) :=
  read_separator "." i (read_number 10 3 false 255) s.

(** [Parser::read_ipv4_addr]. *)
Definition read_ipv4_addr (s : string) : option (Z * string) :=
  '(a, s1) ← read_octet 0 s;
  '(b, s2) ← read_octet 1 s1;
  '(c, s3) ← read_octet 2 s2;
  '(d, s4) ← read_octet 3 s3;
  Some ((((a * 256 + b) * 256 + c) * 256 + d)%Z, s4).

(** [read_groups]: up to [n] more groups of a run that started at index [i];
    returns the groups, whether an embedded IPv4 address ended it, the rest. *)
Fixpoint read_groups (n i : nat) (s : string) : list Z * bool * string :=
  match n with
  | O => ([], false, s)
  | S n' =>
      let v4 := if decide (1 < n) then read_separator ":" i read_ipv4_addr s else None in
      match v4 with
      | Some (v, r) => ([v / 65536; v mod 65536]%Z, true, r)
      | None =>
          match read_separator ":" i (read_number 16 4 true 65535) s with
          | Some (g, r) =>
              let '(gs, e, r') := read_groups n' (S i) r in (g :: gs, e, r')
          | None => ([], false, s)
          end
      end
  end.

Definition groups_value (gs : list Z) : Z := fold_left (λ acc g, acc * 65536 + g)%Z gs 0%Z.

(** [Parser::read_ipv6_addr]. *)
Definition read_ipv6_addr (s : string) : option (Z * string) :=
  let '(head, head_v4, s1) := read_groups 8 0 s in
  if decide (length head = 8) then Some (groups_value head, s1)
  else if head_v4 then None
  else
    s2 ← read_char ":" s1;
    s3 ← read_char ":" s2;
    let '(tail, _, s4) := read_groups (7 - length head) 0 s3 in
    let zeros := replicate (8 - length head - length tail) 0%Z in
    Some (groups_value (head ++ zeros ++ tail), s4).

Definition read_ip_addr (s : string) : option (IpAddr * string) :=
  match read_ipv4_addr s with
  | Some (v, r) => Some (V4 v, r)
  | None => match read_ipv6_addr s with Some (v, r) => Some (V6 v, r) | None => None end
  end.

(** [IpAddr::from_str]: the whole input must be consumed. *)
Definition parse_ip (s : string) : option IpAddr :=
  match read_ip_addr s with
  | Some (a, EmptyString) => Some a
  | _ => None
  end.

Example parse_ip_v4 : parse_ip "10.0.0.1" = Some (V4 167772161)
  ∧ parse_ip "10.0.0.01" = None ∧ parse_ip "10.0.0.256" = None ∧ parse_ip "1.2.3" = None.
Proof. repeat split; reflexivity. Qed.
Example parse_ip_v6 : parse_ip "::1" = Some (V6 1)
  ∧ parse_ip "2001:db8::" = Some (V6 42540766411282592856903984951653826560)
  ∧ parse_ip "::ffff:1.2.3.4" = Some (V6 281470698652420)
  ∧ parse_ip "1::2::3" = None.
Proof. repeat split; reflexivity. Qed.
