(* ===== verification/CelRegex.v ===== *)
(** * Compiled regular expressions

    [src/matcher/cel_regex.rs]: the process-wide cache of compiled patterns. The
    [regex] crate is the class [RegexLib]; the cache is a finite map threaded
    through the calls. *)

From S2P Require Import Prelude.
From stdpp Require Import base tactics strings gmap fin_maps.

Class RegexLib := {
  Regex : Type;
  regex_new : string → result Regex string;
  regex_is_match : Regex → string → bool;
  regex_replace : Regex → string → string → string;
}.

Section CelRegex.
Context `{RegexLib}.
Implicit Types cache : gmap string Regex.

(** [compile_cached]: a failed compilation leaves the cache alone. Under one
    thread the [Occupied] branch of the entry is unreachable, and it returns
    the stored regex. *)
Definition compile_cached (pattern : string) (cache : gmap string Regex)
    : result Regex string * gmap string Regex :=
  match cache !! pattern with
  | Some hit => (Ok hit, cache)
  | None =>
      match regex_new pattern with
      | Err e => (Err e, cache)
      | Ok compiled =>
          match cache !! pattern with
          | Some entry => (Ok entry, cache)
          | None => (Ok compiled, <[pattern := compiled]> cache)
          end
      end
  end.

Definition is_match_cached (pattern input : string) (cache : gmap string Regex)
    : bool * gmap string Regex :=
  let '(r, cache') := compile_cached pattern cache in
  (match r with Ok regex => regex_is_match regex input | Err _ => false end, cache').

Definition replace_cached (pattern input replacement : string) (cache : gmap string Regex)
    : option string * gmap string Regex :=
  let '(r, cache') := compile_cached pattern cache in
  (match r with
   | Err _ => None
   | Ok regex =>
       if regex_is_match regex input then Some (regex_replace regex input replacement)
       else None
   end, cache').

(** What the callers observe, independent of the cache. *)
Definition is_match (pattern input : string) : bool :=
  match regex_new pattern with Ok regex => regex_is_match regex input | Err _ => false end.

(** Every cached regex is the compilation of its pattern. *)
Definition cache_coherent cache : Prop :=
  ∀ p r, cache !! p = Some r → regex_new p = Ok r.

Lemma cache_coherent_empty : cache_coherent ∅.
Proof. intros p r. by rewrite lookup_empty. Qed.

(** The regex cache is transparent: from any coherent cache a lookup returns
    exactly what compiling the pattern afresh returns (errors included),
    keeps the cache coherent and every earlier entry in it, and caches the
    pattern exactly when it compiles. *)
Theorem compile_cached_transparent pattern cache :
  cache_coherent cache →
  let '(r, cache') := compile_cached pattern cache in
  r = regex_new pattern ∧ cache_coherent cache' ∧ cache ⊆ cache' ∧
  cache' !! pattern = result_ok (regex_new pattern).
Proof.
  intros Hc. unfold compile_cached.
  destruct (cache !! pattern) as [hit|] eqn:Hhit.
  - pose proof (Hc _ _ Hhit) as Hnew. rewrite Hnew. by split_and!.
  - destruct (regex_new pattern) as [compiled|e] eqn:Hnew; [|by split_and!].
    split_and!; [done| | by apply insert_subseteq | by apply lookup_insert_eq].
    intros p r [[<- <-]|[_ ?]]%lookup_insert_Some; [done|by apply Hc].
Qed.

Lemma is_match_cached_eq pattern input cache :
  cache_coherent cache → (is_match_cached pattern input cache).1 = is_match pattern input.
Proof.
  intros Hc. unfold is_match_cached, is_match, compile_cached.
  destruct (cache !! pattern) as [hit|] eqn:Hhit; [by rewrite (Hc _ _ Hhit)|].
  by destruct (regex_new pattern).
Qed.
End CelRegex.

(** A concrete instance for the witnesses: a pattern is a literal substring
    prefix, and an empty pattern does not compile. *)
Module PrefixRegex.
#[export] Instance lib : RegexLib := {|
  Regex := string;
  regex_new p := match p with EmptyString => Err "empty" | _ => Ok p end;
  regex_is_match r s := String.prefix r s;
  regex_replace r s w := w +:+ String.substring (String.length r) (String.length s) s;
|}.
End PrefixRegex.

Import PrefixRegex.

Lemma compile_cached_transparent_witness :
  let '(r, cache') := compile_cached "/api" (∅ : gmap string Regex) in
  r = Ok "/api" ∧ cache' !! "/api" = Some "/api".
Proof.
  pose proof (compile_cached_transparent "/api" ∅ cache_coherent_empty) as Hw.
  destruct (compile_cached "/api" ∅) as [r c]. destruct Hw as (Hr & _ & _ & Hl). split; [exact Hr|exact Hl].
Defined.
