(* ===== verification/CelFunctions.v ===== *)
(** * The rule functions

    [src/matcher/cel_common.rs]: the functions a rule can call and the table
    that registers them. Each function reads the request through the context's
    session variable; when that variable is not the session, it returns its
    default. The clock, the random source and the generated trace id are the
    fields of [EvalEnv]. *)

From S2P Require Import Prelude Text Http Config Cel CelSession CelRegex Ip.
From stdpp Require Import base tactics strings list gmap.
From Stdlib Require Import ZArith Ascii.

(** [host_matches]: [*.example.com] matches exactly one subdomain label. *)
Definition host_matches (actual pattern : string) : bool :=
  match str_strip_prefix "*." pattern with
  | Some base =>
      match split_once "." actual with
      | Some (label, rest) => negb (is_empty label) && bool_decide (rest = base)
      | None => false
      end
  | None => bool_decide (actual = pattern)
  end.

(** The [ipnet] crate and [cel]'s JSON conversion. *)
Class RuleLib := {
  ipnet_from_str : string → option (IpAddr → bool);
  json_to_value : JsonValue → result Value string;
}.

(** [client_ip_matches]. *)
Definition client_ip_matches `{RuleLib} (actual expected : string) : bool :=
  match parse_ip actual with
  | None => false
  | Some actual_ip =>
      match parse_ip expected with
      | Some expected_ip => bool_decide (actual_ip = expected_ip)
      | None => match ipnet_from_str expected with
                | Some network => network actual_ip
                | None => false
                end
      end
  end.

Record EvalEnv := mkEvalEnv {
  env_now : Z;
  env_random : Z;
  env_trace_id : string;
}.

Section Functions.
Context `{HttpLib, RegexLib, RuleLib}.
Abbreviation Ctx := SessionCelContext.

(** [with_session]. *)
Definition with_session {R} (ftx : Ctx) (f : CelHttpSession → R) : option R :=
  match cel_variables ftx !! CEL_HTTP_SESSION_KEY with
  | Some (VOpaque t) =>
      if decide (t = "CelHttpSession") then Some (f (cel_http_session ftx)) else None
  | _ => None
  end.

Definition session_bool (ftx : Ctx) (f : CelHttpSession → bool) : bool :=
  default false (with_session ftx f).
Definition session_string (ftx : Ctx) (f : CelHttpSession → string) : string :=
  default "" (with_session ftx f).

Definition fn_host (ftx : Ctx) (expected : string) : bool :=
  session_bool ftx (λ s, host_matches (host s) expected).
Definition fn_host_regexp (ftx : Ctx) (pattern : string) : bool :=
  session_bool ftx (λ s, is_match pattern (host s)).
Definition fn_method (ftx : Ctx) (expected : string) : bool :=
  session_bool ftx (λ s, bool_decide (method s = expected)).
Definition fn_path (ftx : Ctx) (expected : string) : bool :=
  session_bool ftx (λ s, bool_decide (path s = expected)).
Definition fn_path_prefix (ftx : Ctx) (prefix : string) : bool :=
  session_bool ftx (λ s, starts_with prefix (path s)).
Definition fn_path_regexp (ftx : Ctx) (pattern : string) : bool :=
  session_bool ftx (λ s, is_match pattern (path s)).
Definition fn_client_ip (ftx : Ctx) (ip_or_cidr : string) : bool :=
  session_bool ftx (λ s, client_ip_matches (client_ip s) ip_or_cidr).

(** [get_all(key).iter().filter_map(|v| v.to_str().ok())]. *)
Definition header_texts (key : string) (s : CelHttpSession) : list string :=
  omap hv_to_str (hm_get_all key (req_headers (req_header s))).

Definition fn_header (ftx : Ctx) (key value : string) : bool :=
  session_bool ftx (λ s, existsb (λ v, bool_decide (v = value)) (header_texts key s)).
Definition fn_header_regexp (ftx : Ctx) (key pattern : string) : bool :=
  session_bool ftx (λ s, existsb (is_match pattern) (header_texts key s)).
Definition fn_query (ftx : Ctx) (key value : string) : bool :=
  session_bool ftx (λ s,
    existsb (λ kv, bool_decide (kv.1 = key) && bool_decide (kv.2 = value)) (query_pairs s)).
Definition fn_query_regexp (ftx : Ctx) (key pattern : string) : bool :=
  session_bool ftx (λ s,
    existsb (λ kv, is_match pattern kv.2)
      (filter (λ kv : string * string, kv.1 = key) (query_pairs s))).

Definition fn_header_value (ftx : Ctx) (key : string) : string :=
  session_string ftx (λ s,
    default "" (hm_get key (req_headers (req_header s)) ≫= hv_to_str)).
Definition fn_host_value (ftx : Ctx) : string := session_string ftx host.
Definition fn_sni_value (ftx : Ctx) : string :=
  session_string ftx (λ s, default "" (sni s)).
Definition fn_authority_value (ftx : Ctx) : string :=
  session_string ftx (λ s, default "" (http_authority s)).
Definition fn_error_status_value (ftx : Ctx) : Z :=
  default 0%Z (with_session ftx (λ s, default 0%Z (error_status s))).
Definition fn_trace_id_value (env : EvalEnv) (ftx : Ctx) : string :=
  session_string ftx (λ s, default (env_trace_id env) (trace_id_cell s)).
Definition fn_method_value (ftx : Ctx) : string := session_string ftx method.
Definition fn_path_value (ftx : Ctx) : string := session_string ftx path.
Definition fn_query_value (ftx : Ctx) (key : string) : string :=
  session_string ftx (λ s,
    default "" (snd <$> head (filter (λ kv : string * string, kv.1 = key) (query_pairs s)))).
Definition fn_client_ip_value (ftx : Ctx) : string := session_string ftx client_ip.
Definition fn_request_time (env : EvalEnv) (ftx : Ctx) : Z :=
  default (env_now env) (with_session ftx request_time).
Definition fn_response_status_value (ftx : Ctx) : Z :=
  default 0%Z (with_session ftx response_status_value).
Definition fn_response_header_value (ftx : Ctx) (key : string) : string :=
  session_string ftx (response_header_value key).

(** [jwt_claim]: string and number claims compare by text. *)
Definition fn_jwt_claim (ftx : Ctx) (key expected : string) : bool :=
  session_bool ftx (λ s,
    match jwt_claim_value key s with
    | Some (JString v) => bool_decide (v = expected)
    | Some (JNumber v) => bool_decide (v = expected)
    | _ => false
    end).
Definition fn_jwt_claim_value (ftx : Ctx) (key : string) : result Value string :=
  let claim := mjoin (with_session ftx (jwt_claim_value key)) in
  map_err (λ e, "failed to convert claim to cel value: " +:+ e)
    (json_to_value (default JNull claim)).
Definition fn_jwt_payload_value (ftx : Ctx) : string :=
  default "" (mjoin (with_session ftx jwt_payload_string)).

(** A registered function, by the string arguments it takes. *)
Inductive CelFn :=
| Fn0 (f : EvalEnv → Ctx → Value)
| Fn1 (f : Ctx → string → result Value string)
| Fn2 (f : Ctx → string → string → Value).

Definition pred1 (f : Ctx → string → bool) : CelFn := Fn1 (λ c x, Ok (VBool (f c x))).
Definition pred2 (f : Ctx → string → string → bool) : CelFn :=
  Fn2 (λ c x y, VBool (f c x y)).
Definition text0 (f : Ctx → string) : CelFn := Fn0 (λ _ c, VString (f c)).
Definition text1 (f : Ctx → string → string) : CelFn := Fn1 (λ c x, Ok (VString (f c x))).

(** [parent_context]: the registration table. *)
Definition parent_context : list (string * CelFn) :=
  [ ("now", Fn0 (λ env _, VTimestamp (env_now env)));
    ("random", Fn0 (λ env _, VFloat (env_random env)));
    ("Header", pred2 fn_header);
    ("HeaderRegexp", pred2 fn_header_regexp);
    ("Host", pred1 fn_host);
    ("HostRegexp", pred1 fn_host_regexp);
    ("Method", pred1 fn_method);
    ("Path", pred1 fn_path);
    ("PathPrefix", pred1 fn_path_prefix);
    ("PathRegexp", pred1 fn_path_regexp);
    ("Query", pred2 fn_query);
    ("QueryRegexp", pred2 fn_query_regexp);
    ("ClientIP", pred1 fn_client_ip);
    ("HeaderValue", text1 fn_header_value);
    ("HostValue", text0 fn_host_value);
    ("SniValue", text0 fn_sni_value);
    ("AuthorityValue", text0 fn_authority_value);
    ("MethodValue", text0 fn_method_value);
    ("PathValue", text0 fn_path_value);
    ("QueryValue", text1 fn_query_value);
    ("ClientIPValue", text0 fn_client_ip_value);
    ("RequestTime", Fn0 (λ env c, VTimestamp (fn_request_time env c)));
    ("ResponseStatusValue", Fn0 (λ _ c, VInt (fn_response_status_value c)));
    ("ResponseHeaderValue", text1 fn_response_header_value);
    ("ErrorStatusValue", Fn0 (λ _ c, VInt (fn_error_status_value c)));
    ("TraceIdValue", Fn0 (λ env c, VString (fn_trace_id_value env c)));
    ("JwtClaim", pred2 fn_jwt_claim);
    ("JwtClaimValue", Fn1 fn_jwt_claim_value);
    ("JwtPayloadValue", text0 fn_jwt_payload_value) ].

(** Function resolution by name; later registrations would win, and the
    names above are distinct. *)
Definition resolve_fn (name : string) : option CelFn :=
  snd <$> head (filter (λ kv, kv.1 = name) parent_context).

Lemma with_session_visible {R} (c : Ctx) (f : CelHttpSession → R) :
  session_visible c → with_session c f = Some (f (cel_http_session c)).
Proof. intros Hc. unfold with_session. rewrite Hc. by rewrite decide_True. Qed.

Lemma parent_context_distinct : NoDup (parent_context.*1).
Proof. apply (bool_decide_unpack _). vm_compute. done. Qed.
End Functions.

(** [Host] patterns have TLS wildcard semantics: a [*.base] pattern matches
    exactly the hosts [label.base] with one non-empty, dot-free label (so
    neither the apex nor a deeper subdomain), and any other pattern matches
    only itself. *)
Theorem host_matches_spec actual pattern :
  host_matches actual pattern = true ↔
  (∃ base label, pattern = "*." +:+ base ∧ actual = label +:+ "." +:+ base ∧
     label ≠ "" ∧ str_contains "." label = false) ∨
  ((∀ base, pattern ≠ "*." +:+ base) ∧ actual = pattern).
Proof.
  unfold host_matches.
  destruct (str_strip_prefix "*." pattern) as [base|] eqn:Hp.
  - apply str_strip_prefix_Some in Hp as ->. split.
    + destruct (split_once "." actual) as [[label rest]|] eqn:Hs; [|done].
      apply split_once_Some in Hs as [-> Hl].
      intros [Hne%negb_true_iff ->%bool_decide_eq_true]%andb_true_iff.
      left. exists base, label. split_and!; auto. by destruct label.
    + intros [(base' & label & Heq & -> & Hne & Hl)|[Hno _]]; [|by destruct (Hno base)].
      apply (inj (String.append "*.")) in Heq as <-.
      rewrite (proj2 (split_once_Some "." _ label base)) by done.
      rewrite bool_decide_true by done. by destruct label.
  - assert (∀ base, pattern ≠ "*." +:+ base) as Hno.
    { intros base Heq%str_strip_prefix_Some. congruence. }
    rewrite bool_decide_eq_true. naive_solver.
Qed.
