(* ===== verification/Precheck.v ===== *)
(** * Building the pre-check from a rule

    [src/matcher/precheck/cel.rs]: the cheap boolean skeleton of a compiled rule
    ([Host], [Path] and [PathPrefix] with one string literal, under the logical
    operators), and the static analysis of the constraints it references. *)

From S2P Require Import Prelude Text Cel CelFunctions CheapExpr.
From stdpp Require Import base tactics strings list.

Definition FN_HOST : string := "Host".
Definition FN_PATH : string := "Path".
Definition FN_PATH_PREFIX : string := "PathPrefix".

Inductive CheckMeta :=
| MHost (value : string)
| MPath (value : string)
| MPathPrefix (value : string).

(** The trait [Source]: the request attributes a cheap check reads. *)
Class Source (C : Type) := {
  source_host : C → string;
  source_path : C → string;
}.

(** [check]. *)
Definition check `{Source C} (ctx : C) (meta : CheckMeta) : bool :=
  match meta with
  | MHost value => host_matches (source_host ctx) value
  | MPath value => bool_decide (source_path ctx = value)
  | MPathPrefix value => starts_with value (source_path ctx)
  end.

Section Build.
Context {C : Type} `{!Source C}.

Abbreviation Cheap := (CheapExpr C CheckMeta).

(** The leaf arm of [build_call]: exactly one argument, a string literal. *)
Definition build_leaf (func_name : string) (args : list Expr) : option Cheap :=
  match args with
  | [Literal (LString value)] =>
      let meta := if decide (func_name = FN_PATH) then MPath value
                  else if decide (func_name = FN_PATH_PREFIX) then MPathPrefix value
                  else MHost value in
      Some (Check_ (mkLeaf meta check))
  | _ => None
  end.

(** [build], with [build_call] and [build_opt] inlined at their calls. *)
Fixpoint build (e : Expr) : option Cheap :=
  let build_opt a := default Unknown (build a) in
  match e with
  | Call func_name target args =>
      match target with
      | Some _ => None
      | None =>
          if decide (func_name = FN_HOST ∨ func_name = FN_PATH ∨ func_name = FN_PATH_PREFIX)
          then build_leaf func_name args
          else if decide (func_name = LOGICAL_AND)
          then match args with
               | [a; b] => Some (And (build_opt a) (build_opt b))
               | _ => None
               end
          else if decide (func_name = LOGICAL_OR)
          then match args with
               | [a; b] => Some (Or (build_opt a) (build_opt b))
               | _ => None
               end
          else if decide (func_name = LOGICAL_NOT)
          then match args with
               | [a] => Some (Not (build_opt a))
               | _ => None
               end
          else if decide (func_name = CONDITIONAL)
          then match args with
               | [c; t; f] => Some (Cond (build_opt c) (build_opt t) (build_opt f))
               | _ => None
               end
          else None
      end
  | Literal (LBoolean v) => Some (Lit v)
  | _ => None
  end.

Definition build_opt (e : Expr) : Cheap := default Unknown (build e).
End Build.

(** ** Static analysis *)

Record RuleConstraints := mkRuleConstraints {
  hosts : list string;
  paths : list string;
  path_prefixes : list string;
  fully_precheckable : bool;
}.

(** [UnitSource]. *)
#[local] Instance UnitSource : Source unit :=
  {| source_host := λ _, ""; source_path := λ _, "" |}.

Definition push_unique (l : list string) (value : string) : list string :=
  if decide (value ∈ l) then l else l ++ [value].

(** The visitor closure of [analyze] over its three vectors. *)
Definition visit (acc : list string * list string * list string) (meta : CheckMeta) :=
  let '(hs, ps, pps) := acc in
  match meta with
  | MHost value => (push_unique hs value, ps, pps)
  | MPath value => (hs, push_unique ps value, pps)
  | MPathPrefix value => (hs, ps, push_unique pps value)
  end.

Definition analyze (e : Expr) : RuleConstraints :=
  let cheap : option (CheapExpr unit CheckMeta) := build e in
  let fully := match cheap with Some c => is_complete c | None => false end in
  let '(hs, ps, pps) :=
    match cheap with Some c => for_each_leaf visit c ([], [], []) | None => ([], [], []) end in
  mkRuleConstraints hs ps pps fully.

(** ** Lemmas *)

Definition host_of (m : CheckMeta) : option string :=
  match m with MHost v => Some v | _ => None end.
Definition path_of (m : CheckMeta) : option string :=
  match m with MPath v => Some v | _ => None end.
Definition prefix_of (m : CheckMeta) : option string :=
  match m with MPathPrefix v => Some v | _ => None end.

Lemma push_unique_NoDup l v : NoDup l → NoDup (push_unique l v).
Proof.
  intros Hl. unfold push_unique. case_decide; [done|].
  apply NoDup_app. split_and!; [done| |apply NoDup_singleton].
  intros x Hx ->%list_elem_of_singleton. done.
Qed.

Lemma push_unique_elem_of l v x : x ∈ push_unique l v ↔ x ∈ l ∨ x = v.
Proof.
  unfold push_unique. case_decide; [naive_solver|].
  by rewrite elem_of_app, list_elem_of_singleton.
Qed.

Lemma fold_push_unique ms l :
  NoDup l →
  NoDup (fold_left push_unique ms l) ∧
  ∀ x, x ∈ fold_left push_unique ms l ↔ x ∈ l ∨ x ∈ ms.
Proof.
  revert l. induction ms as [|m ms IH]; intros l Hl; simpl.
  - split; [done|]. intros x. rewrite elem_of_nil. tauto.
  - destruct (IH (push_unique l m)) as [Hnd Hin]; [by apply push_unique_NoDup|].
    split; [done|]. intros x. rewrite Hin, push_unique_elem_of, elem_of_cons. tauto.
Qed.

Lemma fold_visit ms hs ps pps :
  fold_left visit ms (hs, ps, pps) =
    (fold_left push_unique (omap host_of ms) hs,
     fold_left push_unique (omap path_of ms) ps,
     fold_left push_unique (omap prefix_of ms) pps).
Proof.
  revert hs ps pps. induction ms as [|m ms IH]; intros hs ps pps; [done|].
  destruct m; simpl; apply IH.
Qed.

(** The tree does not depend on the source it is built for. *)
Lemma build_source_independent {C1 C2} `{!Source C1, !Source C2} e :
  (leaves <$> (build (C := C1) e) = leaves <$> (build (C := C2) e)) ∧
  (is_complete <$> (build (C := C1) e) = is_complete <$> (build (C := C2) e)).
Proof.
  assert (∀ a,
    (leaves <$> (build (C := C1) a) = leaves <$> (build (C := C2) a)) ∧
    (is_complete <$> (build (C := C1) a) = is_complete <$> (build (C := C2) a)) →
    leaves (default Unknown (build (C := C1) a)) = leaves (default Unknown (build (C := C2) a)) ∧
    is_complete (default Unknown (build (C := C1) a)) =
      is_complete (default Unknown (build (C := C2) a))) as Hopt.
  { intros a [H1 H2].
    by destruct (build (C := C1) a), (build (C := C2) a); simplify_eq/=. }
  induction e as [f t args _ IH|l|x|x] using Expr_strong_ind; [|by destruct l|done..].
  destruct t; [done|]. simpl. case_decide.
  { unfold build_leaf. crush_match. }
  repeat case_decide; repeat (destruct args as [|? args]; try done);
    repeat match goal with
    | H : Forall _ (_ :: _) |- _ => apply Forall_cons in H as [?%Hopt ?]
    end; destruct_and?; simpl; by split; f_equal/=; repeat f_equal.
Qed.

(** The static analysis lists exactly the string literals of the pre-check
    leaves, each once: hosts are the [Host] literals, paths the [Path]
    literals, prefixes the [PathPrefix] literals, and a rule that is reported
    fully pre-checkable has a pre-check that never answers unknown, for any
    request source. *)
Theorem analyze_spec {C} `{!Source C} e :
  let r := analyze e in
  let ms := match build (C := C) e with Some c => leaves c | None => [] end in
  (NoDup (hosts r) ∧ ∀ v, v ∈ hosts r ↔ MHost v ∈ ms) ∧
  (NoDup (paths r) ∧ ∀ v, v ∈ paths r ↔ MPath v ∈ ms) ∧
  (NoDup (path_prefixes r) ∧ ∀ v, v ∈ path_prefixes r ↔ MPathPrefix v ∈ ms) ∧
  (fully_precheckable r = true ↔ ∃ c, build (C := C) e = Some c ∧ is_complete c = true) ∧
  (fully_precheckable r = true →
     ∃ c, build (C := C) e = Some c ∧ ∀ ctx, eval c ctx ≠ TUnknown).
Proof.
  destruct (build_source_independent (C1 := unit) (C2 := C) e) as [Hl Hc].
  unfold analyze.
  set (ms := match build (C := C) e with Some c => leaves c | None => [] end).
  assert (match build (C := unit) e with
          | Some c => for_each_leaf visit c ([], [], [])
          | None => ([], [], []) end
    = (fold_left push_unique (omap host_of ms) [],
       fold_left push_unique (omap path_of ms) [],
       fold_left push_unique (omap prefix_of ms) [])) as ->.
  { rewrite <-fold_visit. unfold ms. clear Hc.
    destruct (build (C := unit) e), (build (C := C) e); simplify_eq/=; [|done].
    rewrite for_each_leaf_fold. by f_equal. }
  assert ((match build (C := unit) e with Some c => is_complete c | None => false end = true)
    ↔ ∃ c, build (C := C) e = Some c ∧ is_complete c = true) as Hfull.
  { destruct (build (C := unit) e), (build (C := C) e); simplify_eq/=; naive_solver. }
  assert (∀ (g : CheckMeta → option string) k,
    (∀ m v, g m = Some v ↔ m = k v) →
    NoDup (fold_left push_unique (omap g ms) []) ∧
    ∀ v, v ∈ fold_left push_unique (omap g ms) [] ↔ k v ∈ ms) as Hfold.
  { intros g k Hg. destruct (fold_push_unique (omap g ms) []) as [Hnd Hin]; [constructor|].
    split; [done|]. intros v. rewrite Hin, elem_of_nil, list_elem_of_omap. naive_solver. }
  simpl. split; [|split; [|split; [|split]]].
  1-3: apply Hfold; intros []; naive_solver.
  - exact Hfull.
  - intros (c & Hb & Hcomp)%Hfull. exists c. split; [done|].
    intros ctx. by apply tri_complete.
Qed.
