(* ===== verification/CelEngine.v ===== *)
(** * The interface to the CEL engine

    [CelLib] is what the sources call of the [cel] crate: compilation and
    evaluation. [CelLaws] states the documented behaviour of CEL that the
    matcher's fast path relies on, as inversion laws that hold for both
    short-circuiting and error-absorbing logical operators: a logical operator
    returns a value only when its operands justify it, the ternary is strict in
    its condition, and a call of a registered function runs that function.
    [RefCel] is a concrete evaluator that satisfies the laws. *)

From S2P Require Import Prelude Text Http Config Cel CelSession CelRegex CelFunctions.
From stdpp Require Import base tactics strings list gmap.

Class CelLib `{HttpLib} := {
  cel_compile : string → result Program string;
  cel_execute : Program → EvalEnv → SessionCelContext → result Value string;
}.

Class CelLaws `{HttpLib, RegexLib, RuleLib, !CelLib} := {
  exec_bool b env c : cel_execute (Literal (LBoolean b)) env c = Ok (VBool b);
  exec_string s env c : cel_execute (Literal (LString s)) env c = Ok (VString s);
  exec_fn1 name f a s env c :
    resolve_fn name = Some (Fn1 f) → cel_execute a env c = Ok (VString s) →
    cel_execute (Call name None [a]) env c = f c s;
  exec_and a b v env c :
    cel_execute (Call LOGICAL_AND None [a; b]) env c = Ok v →
    (v = VBool true ∧ cel_execute a env c = Ok (VBool true)
       ∧ cel_execute b env c = Ok (VBool true)) ∨
    (v = VBool false ∧ (cel_execute a env c = Ok (VBool false)
       ∨ cel_execute b env c = Ok (VBool false)));
  exec_or a b v env c :
    cel_execute (Call LOGICAL_OR None [a; b]) env c = Ok v →
    (v = VBool false ∧ cel_execute a env c = Ok (VBool false)
       ∧ cel_execute b env c = Ok (VBool false)) ∨
    (v = VBool true ∧ (cel_execute a env c = Ok (VBool true)
       ∨ cel_execute b env c = Ok (VBool true)));
  exec_not a v env c :
    cel_execute (Call LOGICAL_NOT None [a]) env c = Ok v →
    ∃ x, cel_execute a env c = Ok (VBool x) ∧ v = VBool (negb x);
  exec_cond x t f v env c :
    cel_execute (Call CONDITIONAL None [x; t; f]) env c = Ok v →
    (cel_execute x env c = Ok (VBool true) ∧ cel_execute t env c = Ok v) ∨
    (cel_execute x env c = Ok (VBool false) ∧ cel_execute f env c = Ok v);
}.

(** ** A concrete engine *)

Module RefCel.
Section Ref.
Context `{HttpLib, RegexLib, RuleLib}.

Abbreviation R := (result Value string).
Definition no_overload : R := Err "no such overload".

(** The error-absorbing operators of the CEL specification. *)
Definition and_val (a b : R) : R :=
  match a, b with
  | Ok (VBool false), _ | _, Ok (VBool false) => Ok (VBool false)
  | Ok (VBool true), Ok (VBool true) => Ok (VBool true)
  | Err e, _ | _, Err e => Err e
  | _, _ => no_overload
  end.
Definition or_val (a b : R) : R :=
  match a, b with
  | Ok (VBool true), _ | _, Ok (VBool true) => Ok (VBool true)
  | Ok (VBool false), Ok (VBool false) => Ok (VBool false)
  | Err e, _ | _, Err e => Err e
  | _, _ => no_overload
  end.
Definition not_val (a : R) : R :=
  match a with
  | Ok (VBool x) => Ok (VBool (negb x))
  | Err e => Err e
  | _ => no_overload
  end.
Definition cond_val (x t f : R) : R :=
  match x with
  | Ok (VBool true) => t
  | Ok (VBool false) => f
  | Err e => Err e
  | _ => no_overload
  end.

Definition lit_val (l : LiteralValue) : Value :=
  match l with
  | LBoolean b => VBool b
  | LBytes s => VBytes s
  | LDouble b => VFloat b
  | LInt z => VInt z
  | LNull => VNull
  | LString s => VString s
  | LUInt z => VUInt z
  end.

Definition call_fn (name : string) (vs : list R) (env : EvalEnv) (c : SessionCelContext) : R :=
  match resolve_fn name, vs with
  | Some (Fn0 f), [] => Ok (f env c)
  | Some (Fn1 f), [Ok (VString x)] => f c x
  | Some (Fn2 f), [Ok (VString x); Ok (VString y)] => Ok (f c x y)
  | None, _ => Err ("undeclared reference to '" +:+ name +:+ "'")
  | _, _ => no_overload
  end.

Fixpoint execute (e : Expr) (env : EvalEnv) (c : SessionCelContext) : R :=
  match e with
  | Literal l => Ok (lit_val l)
  | Ident x => ok_or (cel_variables c !! x) ("undeclared reference to '" +:+ x +:+ "'")
  | OtherExpr _ => no_overload
  | Call _ (Some _) _ => no_overload
  | Call name None args =>
      let vs := (λ a, execute a env c) <$> args in
      match vs with
      | [a; b] =>
          if decide (name = LOGICAL_AND) then and_val a b
          else if decide (name = LOGICAL_OR) then or_val a b
          else call_fn name vs env c
      | [a] => if decide (name = LOGICAL_NOT) then not_val a else call_fn name vs env c
      | [x; t; f] => if decide (name = CONDITIONAL) then cond_val x t f else call_fn name vs env c
      | _ => call_fn name vs env c
      end
  end.

(** Its compiler reads a source text as a [Host] pattern. *)
Definition compile (s : string) : result Program string :=
  if is_empty s then Err "syntax error"
  else Ok (Call "Host" None [Literal (LString s)]).

#[export] Instance lib : CelLib := {| cel_compile := compile; cel_execute := execute |}.

#[export] Instance laws : CelLaws.
Proof.
  split; try done.
  - intros name f a s env c Hf Ha. simpl in *. rewrite Ha.
    rewrite decide_False; [unfold call_fn; by rewrite Hf|].
    intros ->. by vm_compute in Hf.
  - intros a b v env c Hv. simpl in *.
    unfold and_val, no_overload in Hv. crush_match; tauto.
  - intros a b v env c Hv. simpl in *.
    unfold or_val, no_overload in Hv. crush_match; tauto.
  - intros a v env c Hv. simpl in *.
    unfold not_val, no_overload in Hv. crush_match; eauto.
  - intros x t f v env c Hv. simpl in *.
    unfold cond_val, no_overload in Hv. crush_match; tauto.
Qed.
End Ref.
End RefCel.

(** Concrete libraries for the witnesses. *)
Module RefRules.
#[export] Instance lib : RuleLib :=
  {| ipnet_from_str := λ _, None; json_to_value := λ _, Ok VNull |}.
End RefRules.
