(* ===== verification/Matcher.v ===== *)
(** * Route matching and offline rule evaluation

    [src/matcher/matcher.rs] and [src/matcher/rule_eval.rs]: a matcher is a
    compiled rule with its pre-check; a request matches when the pre-check says
    so, and when it cannot tell, when the rule evaluates to [true]. *)

From S2P Require Import Prelude Text Http Config Cel CelSession CelRegex CelFunctions.
From S2P Require Import CelEngine CheapExpr Precheck.
From stdpp Require Import base tactics strings list gmap.
From Stdlib Require Import ZArith.

Section Matcher.
Context `{HttpLib, RegexLib, RuleLib, !CelLib}.

(** [impl Source for CelHttpSession]. *)
#[export] Instance CelHttpSession_source : Source CelHttpSession :=
  {| source_host := host; source_path := path |}.

Record Matcher := mkMatcher {
  m_source : string;
  m_program : Program;
  m_precheck : option (CheapExpr CelHttpSession CheckMeta);
}.

(** [Matcher::from_cel]. *)
Definition from_cel (source : string) : result Matcher string :=
  let? program := map_err (λ e,
    "failed to compile matcher CEL '" +:+ source +:+ "': " +:+ e) (cel_compile source) in
  Ok {| m_source := source; m_program := program; m_precheck := build program |}.

(** The evaluation of the program: non-boolean results and errors are [false]. *)
Definition run_program (p : Program) (env : EvalEnv) (data : SessionCelContext) : bool :=
  match cel_execute p env data with
  | Ok (VBool v) => v
  | Ok _ => false
  | Err _ => false
  end.

(** [Matcher::matches] on the request's context. *)
Definition matches (m : Matcher) (env : EvalEnv) (data : SessionCelContext) : bool :=
  match m_precheck m with
  | Some expr =>
      match eval expr (cel_http_session data) with
      | TFalse => false
      | TTrue => true
      | TUnknown => run_program (m_program m) env data
      end
  | None => run_program (m_program m) env data
  end.

(** [CelHttpSession::with_request]: a synthetic session; headers are appended
    in order and the first invalid one is an error. *)
Definition append_header (hs : HM) (nv : string * string) : result HM string :=
  let? name := map_err (λ e, "invalid header name: " +:+ e) (hn_from_str nv.1) in
  let? value := map_err (λ e, "invalid header value for '" +:+ name +:+ "': " +:+ e)
                  (hv_from_str nv.2) in
  Ok (hm_append name value hs).

Fixpoint append_headers (hs : HM) (l : list (string * string)) : result HM string :=
  match l with
  | [] => Ok hs
  | nv :: l' => let? hs' := append_header hs nv in append_headers hs' l'
  end.

Definition with_request (method path : string) (headers : option (list (string * string)))
    (now : Z) : result CelHttpSession string :=
  let? mu := map_err (λ e, "invalid request: " +:+ e) (request_build method path) in
  let? hs := append_headers hm_empty (default [] headers) in
  Ok (mkCelHttpSession (mkRequestHeader mu.1 mu.2 hs) None None None None
        SniHostPolicy_default now None None None None None None).

(** [PrecheckTri] mirrors [Tri]. *)
Record RuleEvaluation := mkRuleEvaluation { re_precheck : Tri; re_matches : bool }.

(** [evaluate_rule]: unlike a route, errors and non-booleans are reported. *)
Definition evaluate_rule (rule method path : string)
    (headers : option (list (string * string))) (env : EvalEnv)
    : result RuleEvaluation string :=
  let? program := map_err (λ e, "failed to compile rule '" +:+ rule +:+ "': " +:+ e)
                    (cel_compile rule) in
  let? session := map_err (λ e, "failed to build synthetic request: " +:+ e)
                    (with_request method path headers (env_now env)) in
  let ctx := mkSessionCelContext
               {[ CEL_HTTP_SESSION_KEY := VOpaque "CelHttpSession" ]} session in
  let precheck := match build (C := CelHttpSession) program with
                  | Some expr => eval expr session
                  | None => TUnknown
                  end in
  match cel_execute program env ctx with
  | Ok (VBool v) => Ok (mkRuleEvaluation precheck v)
  | Ok _ => Err "rule returned non-boolean value"
  | Err e => Err ("rule evaluation error: " +:+ e)
  end.

(** ** Soundness of the fast path *)

Section Sound.
Context `{!CelLaws} (env : EvalEnv) (c : SessionCelContext).
Hypothesis Hvis : session_visible c.

Definition agrees (e : Expr) (t : Tri) : Prop :=
  ∀ v, cel_execute e env c = Ok (VBool v) → possible t v.

Lemma agrees_unknown e : agrees e TUnknown.
Proof. intros v _. exact I. Qed.

Lemma agrees_and a b ta tb :
  agrees a ta → agrees b tb → agrees (Call LOGICAL_AND None [a; b]) (tri_and ta tb).
Proof.
  intros Ha Hb v Hv.
  apply exec_and in Hv as [(Heq & Hx & Hy)|(Heq & [Hx|Hy])]; injection Heq as ->.
  - apply Ha in Hx. apply Hb in Hy. by destruct ta, tb.
  - apply Ha in Hx. by destruct ta, tb.
  - apply Hb in Hy. by destruct ta, tb.
Qed.

Lemma agrees_or a b ta tb :
  agrees a ta → agrees b tb → agrees (Call LOGICAL_OR None [a; b]) (tri_or ta tb).
Proof.
  intros Ha Hb v Hv.
  apply exec_or in Hv as [(Heq & Hx & Hy)|(Heq & [Hx|Hy])]; injection Heq as ->.
  - apply Ha in Hx. apply Hb in Hy. by destruct ta, tb.
  - apply Ha in Hx. by destruct ta, tb.
  - apply Hb in Hy. by destruct ta, tb.
Qed.

Lemma agrees_not a ta : agrees a ta → agrees (Call LOGICAL_NOT None [a]) (tri_not ta).
Proof.
  intros Ha v Hv. apply exec_not in Hv as (x & Hx%Ha & [= ->]).
  by destruct ta, x.
Qed.

Lemma agrees_cond x t f tx tt tf :
  agrees x tx → agrees t tt → agrees f tf →
  agrees (Call CONDITIONAL None [x; t; f]) (tri_cond tx tt tf).
Proof.
  intros Hx Ht Hf v Hv.
  apply exec_cond in Hv as [[Hc1%Hx Hc2%Ht]|[Hc1%Hx Hc2%Hf]];
    destruct tx; simpl in *; try done; by case_decide; subst.
Qed.

Lemma agrees_leaf name a :
  name = FN_HOST ∨ name = FN_PATH ∨ name = FN_PATH_PREFIX →
  agrees (Call name None [Literal (LString a)])
    (from_bool (check (cel_http_session c)
       (if decide (name = FN_PATH) then MPath a
        else if decide (name = FN_PATH_PREFIX) then MPathPrefix a else MHost a))).
Proof.
  assert (∀ name f, resolve_fn name = Some (pred1 f) →
    agrees (Call name None [Literal (LString a)]) (from_bool (f c a))) as Hcall.
  { intros nm f Hf v Hv.
    erewrite exec_fn1 in Hv by (done || apply exec_string).
    injection Hv as <-. by destruct (f c a). }
  assert (∀ f, session_bool c f = f (cel_http_session c)) as Hs.
  { intros f. unfold session_bool. by rewrite with_session_visible. }
  intros [-> | [-> | ->]].
  - pose proof (Hcall FN_HOST fn_host eq_refl) as Hl.
    unfold fn_host in Hl. rewrite Hs in Hl. exact Hl.
  - pose proof (Hcall FN_PATH fn_path eq_refl) as Hl.
    unfold fn_path in Hl. rewrite Hs in Hl. exact Hl.
  - pose proof (Hcall FN_PATH_PREFIX fn_path_prefix eq_refl) as Hl.
    unfold fn_path_prefix in Hl. rewrite Hs in Hl. exact Hl.
Qed.

(** Every pre-check tree agrees with the rule it was built from. *)
Lemma build_agrees e : agrees e (eval (build_opt e) (cel_http_session c)).
Proof.
  induction e as [f t args _ IH|l|x|x] using Expr_strong_ind.
  - unfold build_opt. simpl. destruct t; [apply agrees_unknown|].
    case_decide as Hf.
    { unfold build_leaf.
      destruct args as [|[|[]| |] []]; try apply agrees_unknown.
      by apply agrees_leaf. }
    repeat case_decide; repeat (destruct args as [|? args]; try apply agrees_unknown);
      subst; repeat match goal with
      | H : Forall _ (_ :: _) |- _ => apply Forall_cons in H as [? ?]
      end; simpl.
    + by apply agrees_and.
    + by apply agrees_or.
    + by apply agrees_not.
    + by apply agrees_cond.
  - destruct l as [b| | | | | |]; try apply agrees_unknown.
    intros v Hv. rewrite exec_bool in Hv. injection Hv as ->. by destruct v.
  - apply agrees_unknown.
  - apply agrees_unknown.
Qed.
End Sound.

Lemma matches_eq_cel `{!CelLaws} source program env c v :
  session_visible c →
  cel_execute program env c = Ok (VBool v) →
  matches (mkMatcher source program (build program)) env c = v.
Proof.
  intros Hvis Hv. pose proof (build_agrees env c Hvis program v Hv) as Hag.
  unfold matches, run_program, build_opt in *. simpl in *. rewrite Hv.
  destruct (build program) as [expr|]; [|done]. simpl in Hag.
  by destruct (eval expr (cel_http_session c)), v.
Qed.

(** C1: The fast path never changes a rule's verdict: for every CEL engine
    that obeys the CEL laws, every rule and every request, if the full program
    evaluates to a boolean then [matches] returns that boolean, whatever the
    pre-check decided. *)
Theorem matches_agrees_with_cel `{!CelLaws} source m env c v :
  from_cel source = Ok m →
  session_visible c →
  cel_execute (m_program m) env c = Ok (VBool v) →
  matches m env c = v.
Proof.
  unfold from_cel. intros Hm Hvis Hv. invert_ok. simpl in *.
  by apply matches_eq_cel.
Qed.

(** A matcher answers [true] only on grounds: either the pre-check proved
    the rule true, or the full program evaluated to exactly [true]; and when
    the pre-check is undecided, an error or a non-boolean result is a
    non-match. *)
Theorem matches_true_iff m env c :
  matches m env c = true ↔
  (∃ expr, m_precheck m = Some expr ∧ eval expr (cel_http_session c) = TTrue) ∨
  ((∀ expr, m_precheck m = Some expr → eval expr (cel_http_session c) = TUnknown) ∧
   cel_execute (m_program m) env c = Ok (VBool true)).
Proof.
  assert (run_program (m_program m) env c = true
    ↔ cel_execute (m_program m) env c = Ok (VBool true)) as Hrun.
  { unfold run_program. destruct (cel_execute _ _ _) as [[]|]; naive_solver. }
  unfold matches. destruct (m_precheck m) as [expr|]; [|naive_solver].
  destruct (eval expr (cel_http_session c)) eqn:E; naive_solver congruence.
Qed.

(** The documentation's claim that a rule that does not return a boolean is
    not matched fails for the fast path: when the condition [x] of a ternary
    raises an error, the rule [x ? true : true] has no value, yet its matcher
    answers [true]. *)
Theorem matches_true_despite_error `{!CelLaws} x e env c :
  cel_execute x env c = Err e →
  build (C := CelHttpSession) x = None →
  let rule := Call CONDITIONAL None
                [x; Literal (LBoolean true); Literal (LBoolean true)] in
  (∀ v, cel_execute rule env c ≠ Ok v) ∧
  matches (mkMatcher "" rule (build rule)) env c = true.
Proof.
  intros Hx Hb rule. split.
  - intros v [[Hv _]|[Hv _]]%exec_cond; congruence.
  - unfold matches. simpl. by rewrite Hb.
Qed.

(** Offline evaluation is consistent: when [evaluate_rule] succeeds, its
    reported fast-path verdict never contradicts the reported match, and a
    matcher compiled from the same rule gives the same answer on the same
    synthetic request. *)
Theorem evaluate_rule_consistent `{!CelLaws} rule meth target headers env r :
  evaluate_rule rule meth target headers env = Ok r →
  possible (re_precheck r) (re_matches r) ∧
  ∃ m s, from_cel rule = Ok m ∧
    with_request meth target headers (env_now env) = Ok s ∧
    matches m env (mkSessionCelContext
      {[ CEL_HTTP_SESSION_KEY := VOpaque "CelHttpSession" ]} s) = re_matches r.
Proof.
  unfold evaluate_rule. intros Hr.
  destruct (cel_compile rule) as [program|] eqn:Hc; [|done]. simpl in Hr.
  destruct (with_request meth target headers (env_now env)) as [s|] eqn:Hs; [|done].
  simpl in Hr. set (c := mkSessionCelContext _ s) in *.
  assert (session_visible c) as Hvis by apply lookup_singleton_eq.
  destruct (cel_execute program env c) as [[]|] eqn:Hx; simplify_eq/=.
  pose proof (build_agrees env c Hvis program b Hx) as Hag.
  assert (from_cel rule = Ok (mkMatcher rule program (build program))) as Hm.
  { unfold from_cel. by rewrite Hc. }
  split.
  - unfold build_opt in Hag. by destruct (build program).
  - eexists _, s. split_and!; [exact Hm|done|].
    by apply matches_eq_cel.
Qed.
End Matcher.

(** ** Concrete requests for the witnesses *)

Module Demo.
Export AssocHttp PrefixRegex RefRules RefCel.

Definition env : EvalEnv := mkEvalEnv 1000 0 "0123456789abcdef0123456789abcdef".

(** [GET target] with a [Host] header over cleartext. *)
Definition view (h target : string) : SessionView :=
  {| sv_req_header := mkRequestHeader "GET" (mkUri None None (Some target) target None)
                        (hm_insert "Host" h hm_empty);
     sv_client_addr := Some (Inet "10.0.0.1" 4000);
     sv_ssl_digest := None |}.

Definition ctx (h target : string) : SessionCelContext :=
  read_session_cel_context (view h target) Strict 1000.
End Demo.
Import Demo.

Example matches_ex :
  (λ m, matches m env (ctx "api.example.com" "/")) <$> result_ok (from_cel "*.example.com")
  = Some true.
Proof. vm_compute. reflexivity. Qed.

Lemma matches_agrees_with_cel_witness :
  ∃ m, from_cel "*.example.com" = Ok m ∧ matches m env (ctx "api.example.com" "/") = true
       ∧ matches m env (ctx "example.com" "/") = false.
Proof.
  eexists. split; [reflexivity|]. split.
  - apply (matches_agrees_with_cel "*.example.com"); [reflexivity| |vm_compute; reflexivity].
    apply read_session_visible.
  - apply (matches_agrees_with_cel "*.example.com"); [reflexivity| |vm_compute; reflexivity].
    apply read_session_visible.
Defined.

Lemma matches_true_despite_error_witness :
  let rule := Call CONDITIONAL None
    [Call "Missing" None []; Literal (LBoolean true); Literal (LBoolean true)] in
  (∀ v, cel_execute rule env (ctx "a" "/") ≠ Ok v) ∧
  matches (mkMatcher "" rule (build rule)) env (ctx "a" "/") = true.
Proof.
  apply (matches_true_despite_error (Call "Missing" None [])
           ("undeclared reference to '" +:+ "Missing" +:+ "'")); reflexivity.
Defined.

Lemma evaluate_rule_consistent_witness :
  ∃ r, evaluate_rule "a.com" "GET" "/x" (Some [("Host", "a.com")]) env = Ok r ∧
       possible (re_precheck r) (re_matches r).
Proof.
  eexists. split; [vm_compute; reflexivity|].
  apply (evaluate_rule_consistent "a.com" "GET" "/x" (Some [("Host", "a.com")]) env).
  vm_compute. reflexivity.
Defined.
