(* ===== verification/RuleEval.v ===== *)
(** * Offline evaluation of expressions

    [src/matcher/rule_eval.rs]: [evaluate_expression] runs an expression on a
    synthetic request and converts its value to JSON. [JsonLib] is what the
    conversion calls of [serde_json], [chrono] and [base64], and the derived
    [Debug] text of a value. A JSON object is the list of its members, whose
    order is not observable. *)

From S2P Require Import Prelude Text Http Config Cel CelSession CelRegex CelFunctions.
From S2P Require Import CelEngine CheapExpr Precheck Matcher.
From stdpp Require Import base tactics strings list gmap.
From Stdlib Require Import ZArith Lia Ascii.

Class JsonLib := {
  number_from_f64 : Z → option string;
  to_rfc3339 : Z → string;
  base64_encode : string → string;
  value_debug : Value → string;
}.

(** A double is finite unless its eleven exponent bits are all ones. *)
Definition f64_finite (bits : Z) : bool := negb (Z.land (Z.shiftr bits 52) 2047 =? 2047)%Z.

Class JsonLaws `{JsonLib} := {
  from_f64_finite bits : is_Some (number_from_f64 bits) ↔ f64_finite bits = true;
}.

(** [serde_json::Map::insert]: the value of a member that exists is replaced. *)
Fixpoint object_insert (k : string) (v : JsonValue) (l : list (string * JsonValue))
    : list (string * JsonValue) :=
  match l with
  | [] => [(k, v)]
  | (k', v') :: l' => if decide (k' = k) then (k, v) :: l' else (k', v') :: object_insert k v l'
  end.
Fixpoint object_get (k : string) (l : list (string * JsonValue)) : option JsonValue :=
  match l with
  | [] => None
  | (k', v) :: l' => if decide (k' = k) then Some v else object_get k l'
  end.

Lemma object_get_insert k k' v l :
  object_get k (object_insert k' v l) = if decide (k' = k) then Some v else object_get k l.
Proof.
  induction l as [|[k0 v0] l IH]; simpl; [done|].
  repeat (case_decide; simpl; subst); done || by rewrite IH, ?decide_True, ?decide_False.
Qed.

(** [to_string] of a map key. *)
Definition key_string (k : Key) : string :=
  match k with
  | KInt v => to_string_Z v
  | KUint v => to_string_Z v
  | KBool v => if v then "true" else "false"
  | KString v => v
  end.

Section RuleEval.
Context `{JsonLib}.

Fixpoint cel_value_to_json (value : Value) : option JsonValue :=
  match value with
  | VNull => Some JNull
  | VBool v => Some (JBool v)
  | VInt v => Some (JNumber (to_string_Z v))
  | VUInt v => Some (JNumber (to_string_Z v))
  | VFloat v => JNumber <$> number_from_f64 v
  | VString v => Some (JString v)
  | VTimestamp v => Some (JString (to_rfc3339 v))
  | VBytes v => Some (JString (base64_encode v))
  | VList items =>
      JArray <$> (fix go items := match items with
                  | [] => Some []
                  | x :: items' =>
                      match cel_value_to_json x with
                      | Some j => cons j <$> go items'
                      | None => None
                      end
                  end) items
  | VMap map =>
      JObject <$> (fix go map obj := match map with
                   | [] => Some obj
                   | (key, val) :: map' =>
                       match cel_value_to_json val with
                       | Some j => go map' (object_insert (key_string key) j obj)
                       | None => None
                       end
                   end) map []
  | VDuration _ | VFunction _ | VOpaque _ => None
  end.

(** The loops of the two containers. *)
Fixpoint list_json (items : list Value) : option (list JsonValue) :=
  match items with
  | [] => Some []
  | x :: items' =>
      match cel_value_to_json x with
      | Some j => cons j <$> list_json items'
      | None => None
      end
  end.
Fixpoint map_json (map : list (Key * Value)) (obj : list (string * JsonValue))
    : option (list (string * JsonValue)) :=
  match map with
  | [] => Some obj
  | (key, val) :: map' =>
      match cel_value_to_json val with
      | Some j => map_json map' (object_insert (key_string key) j obj)
      | None => None
      end
  end.
Lemma json_list l : cel_value_to_json (VList l) = JArray <$> list_json l.
Proof. done. Qed.
Lemma json_map m : cel_value_to_json (VMap m) = JObject <$> map_json m [].
Proof. done. Qed.

Section Expression.
Context `{HttpLib, RegexLib, RuleLib, !CelLib}.

Definition evaluate_expression (expression method path : string)
    (headers : option (list (string * string))) (env : EvalEnv) : result JsonValue string :=
  let? program := map_err (λ e,
    "failed to compile expression '" +:+ expression +:+ "': " +:+ e) (cel_compile expression) in
  let? session := map_err (λ e, "failed to build synthetic request: " +:+ e)
                    (with_request method path headers (env_now env)) in
  let ctx := mkSessionCelContext
               {[ CEL_HTTP_SESSION_KEY := VOpaque "CelHttpSession" ]} session in
  let? value := map_err (λ e, "expression evaluation error: " +:+ e)
                  (cel_execute program env ctx) in
  ok_or (cel_value_to_json value)
    ("expression result is not representable as JSON: " +:+ value_debug value).
End Expression.

(** ** Which values have a JSON form *)

(** No duration, function, opaque value or non-finite number anywhere. *)
Fixpoint representable (v : Value) : bool :=
  match v with
  | VFloat bits => f64_finite bits
  | VDuration _ | VFunction _ | VOpaque _ => false
  | VList l => forallb representable l
  | VMap m => forallb (λ kv, representable kv.2) m
  | _ => true
  end.

(** Induction on values through lists and maps. *)
Section ValueInd.
Variable P : Value → Prop.
Hypothesis HList : ∀ l, Forall P l → P (VList l).
Hypothesis HMap : ∀ m, Forall (λ kv, P kv.2) m → P (VMap m).
Hypothesis HLeaf : ∀ v, (∀ l, v ≠ VList l) → (∀ m, v ≠ VMap m) → P v.
Fixpoint Value_strong_ind (v : Value) : P v.
Proof.
  destruct v; try (apply HLeaf; congruence).
  - apply HList. induction l; constructor; auto.
  - apply HMap. induction m as [|[k v] m IH]; constructor; [apply Value_strong_ind|exact IH].
Defined.
End ValueInd.

Section Laws.
Context `{!JsonLaws}.

Lemma list_json_some l :
  Forall (λ v, is_Some (cel_value_to_json v) ↔ representable v = true) l →
  is_Some (list_json l) ↔ forallb representable l = true.
Proof.
  induction 1 as [|v l Hv _ IH]; simpl; [split; [done|by eexists]|].
  rewrite andb_true_iff, <-Hv, <-IH. destruct (cel_value_to_json v); [|by split; [intros []|intros [[] _]]].
  rewrite fmap_is_Some. split; [eauto|tauto].
Qed.
Lemma map_json_some m obj :
  Forall (λ kv, is_Some (cel_value_to_json kv.2) ↔ representable kv.2 = true) m →
  is_Some (map_json m obj) ↔ forallb (λ kv, representable kv.2) m = true.
Proof.
  intros Hm. revert obj. induction Hm as [|[k v] m Hv _ IH]; intros obj; simpl in *;
    [split; [done|by eexists]|].
  rewrite andb_true_iff, <-Hv. destruct (cel_value_to_json v); [|by split; [intros []|intros [[] _]]].
  rewrite IH. split; [eauto|tauto].
Qed.

Lemma json_some v : is_Some (cel_value_to_json v) ↔ representable v = true.
Proof.
  induction v as [l IH|m IH|v Hl Hm] using Value_strong_ind.
  - rewrite json_list, fmap_is_Some. by apply list_json_some.
  - rewrite json_map, fmap_is_Some. by apply map_json_some.
  - destruct v; simpl; try (by split; [intros []|]); try (by split; [|eexists]).
    + rewrite fmap_is_Some. apply from_f64_finite.
    + by destruct (Hl l).
    + by destruct (Hm m).
Qed.
End Laws.

(** ** What the JSON form holds *)

(** A step into a value: an index of a list or a member of a map. *)
Inductive Access := AtIndex (i : nat) | AtKey (k : string).
Fixpoint map_get (k : string) (m : list (Key * Value)) : option Value :=
  match m with
  | [] => None
  | (k', v) :: m' => if decide (key_string k' = k) then Some v else map_get k m'
  end.
Definition value_step (a : Access) (v : Value) : option Value :=
  match a, v with
  | AtIndex i, VList l => l !! i
  | AtKey k, VMap m => map_get k m
  | _, _ => None
  end.
Definition json_step (a : Access) (j : JsonValue) : option JsonValue :=
  match a, j with
  | AtIndex i, JArray l => l !! i
  | AtKey k, JObject l => object_get k l
  | _, _ => None
  end.
Definition value_at (p : list Access) (v : Value) : option Value :=
  foldl (λ o a, o ≫= value_step a) (Some v) p.
Definition json_at (p : list Access) (j : JsonValue) : option JsonValue :=
  foldl (λ o a, o ≫= json_step a) (Some j) p.

(** No map has two keys of the same text. *)
Fixpoint keys_distinct (v : Value) : bool :=
  match v with
  | VList l => forallb keys_distinct l
  | VMap m => bool_decide (NoDup ((λ kv, key_string kv.1) <$> m)) &&
              forallb (λ kv, keys_distinct kv.2) m
  | _ => true
  end.

Lemma list_json_get l js i :
  list_json l = Some js → js !! i = l !! i ≫= cel_value_to_json.
Proof.
  revert js i. induction l as [|v l IH]; simpl; intros js i Hl; [by simplify_eq|].
  destruct (cel_value_to_json v) as [j|] eqn:Ej; [|done].
  destruct (list_json l) as [js'|]; simplify_eq/=. destruct i; simpl; [done|by apply IH].
Qed.

Lemma map_json_get m obj obj' k :
  map_json m obj = Some obj' → NoDup ((λ kv, key_string kv.1) <$> m) →
  object_get k obj' = match map_get k m with
                      | Some v => cel_value_to_json v
                      | None => object_get k obj
                      end.
Proof.
  revert obj. induction m as [|[k0 v] m IH]; simpl; intros obj Hm Hnd; [by simplify_eq|].
  destruct (cel_value_to_json v) as [j|] eqn:Ej; [|done]. inversion Hnd as [|? ? Hni Hnd' Eq].
  rewrite (IH _ Hm Hnd'), object_get_insert. destruct (decide (key_string k0 = k)) as [<-|]; [|done].
  enough (map_get (key_string k0) m = None) as -> by done. clear -Hni.
  induction m as [|[k1 v1] m IH]; simpl in *; [done|].
  apply not_elem_of_cons in Hni as [Hne Hni]. rewrite decide_False by congruence. auto.
Qed.

Lemma json_step_value a v j :
  keys_distinct v = true → cel_value_to_json v = Some j →
  json_step a j = value_step a v ≫= cel_value_to_json.
Proof.
  intros Hk Hj. destruct v; simplify_eq/=; try (by destruct a).
  - destruct (number_from_f64 bits); simplify_eq/=. by destruct a.
  - change (JArray <$> list_json l = Some j) in Hj.
    destruct (list_json l) eqn:E; simplify_eq/=. destruct a; [|done]. by apply list_json_get.
  - change (JObject <$> map_json m [] = Some j) in Hj.
    destruct (map_json m []) eqn:E; simplify_eq/=. destruct a as [|k]; [done|]. simpl.
    apply andb_true_iff in Hk as [Hnd%bool_decide_eq_true _].
    rewrite (map_json_get _ _ _ k E Hnd). by destruct (map_get k m).
Qed.

Lemma value_step_distinct a v v' :
  keys_distinct v = true → value_step a v = Some v' → keys_distinct v' = true.
Proof.
  intros Hk Hv. destruct a as [i|k], v; simplify_eq/=.
  - rewrite forallb_forall in Hk. apply Hk. apply list_elem_of_lookup_2 in Hv.
    by apply list_elem_of_In.
  - apply andb_true_iff in Hk as [_ Hk]. induction m as [|[k0 v0] m IH]; simplify_eq/=.
    apply andb_true_iff in Hk as [? ?]. case_decide; simplify_eq/=; auto.
Qed.

(** A part of a value that was converted was converted. *)
Lemma list_json_all l js v :
  list_json l = Some js → v ∈ l → is_Some (cel_value_to_json v).
Proof.
  revert js. induction l as [|w l IH]; simpl; intros js Hl Hv; [by apply elem_of_nil in Hv|].
  destruct (cel_value_to_json w) eqn:E; [|done]. destruct (list_json l); simplify_eq/=.
  apply elem_of_cons in Hv as [->|Hv]; [by rewrite E|by eapply IH].
Qed.
Lemma map_json_all m obj obj' k v :
  map_json m obj = Some obj' → map_get k m = Some v → is_Some (cel_value_to_json v).
Proof.
  revert obj. induction m as [|[k0 w] m IH]; simpl; intros obj Hm Hv; [done|].
  destruct (cel_value_to_json w) eqn:E; [|done]. case_decide; simplify_eq; [by rewrite E|by eapply IH].
Qed.
Lemma json_step_some a v j v' :
  cel_value_to_json v = Some j → value_step a v = Some v' → is_Some (cel_value_to_json v').
Proof.
  intros Hj Hv. destruct a as [i|k], v; try done.
  - rewrite json_list in Hj. destruct (list_json l) eqn:E; [|done].
    by eapply list_json_all, list_elem_of_lookup_2.
  - rewrite json_map in Hj. destruct (map_json m []) eqn:E; [|done]. by eapply map_json_all.
Qed.

Lemma value_at_none p : foldl (λ o a, o ≫= value_step a) None p = None.
Proof. by induction p. Qed.
Lemma json_at_none p : foldl (λ o a, o ≫= json_step a) None p = None.
Proof. by induction p. Qed.

Lemma json_at_value p v j :
  keys_distinct v = true → cel_value_to_json v = Some j →
  json_at p j = value_at p v ≫= cel_value_to_json.
Proof.
  revert v j. induction p as [|a p IH]; intros v j Hk Hj; [by simpl; rewrite Hj|].
  unfold json_at, value_at. simpl. rewrite (json_step_value a v j Hk Hj).
  destruct (value_step a v) as [v'|] eqn:Ev; simpl.
  - destruct (cel_value_to_json v') as [j'|] eqn:Ej'.
    + apply (IH v' j'); [by eapply value_step_distinct|done].
    + destruct (json_step_some a v j v' Hj Ev). congruence.
  - by rewrite json_at_none, value_at_none.
Qed.

(** A decimal integer, read back. *)
Definition json_int (t : string) : option Z :=
  match t with
  | EmptyString => None
  | String a t' => if decide (a = "-"%char) then Z.opp <$> parse_digits 0 t' else parse_digits 0 t
  end.
Lemma json_int_text z : json_int (to_string_Z z) = Some z.
Proof.
  destruct (Z.ltb_spec z 0) as [Hz|Hz].
  - unfold to_string_Z. rewrite (proj2 (Z.ltb_lt _ _) Hz). cbn [json_int].
    rewrite decide_True by done.
    assert (digits_fuel (Z.to_nat (Z.log2 (- z)) + 1) (- z) "" = to_string_Z (- z)) as ->.
    { unfold to_string_Z. by rewrite (proj2 (Z.ltb_ge _ _)) by lia. }
    rewrite parse_to_string_Z by lia. simpl. f_equal. lia.
  - pose proof (parse_to_string_Z z Hz) as Hp. unfold json_int.
    destruct (to_string_Z z) as [|a t] eqn:E.
    { assert (to_string_Z z ≠ "") as Hne; [|done]. unfold to_string_Z.
      rewrite (proj2 (Z.ltb_ge _ _)) by lia. rewrite Nat.add_1_r. simpl.
      assert (∀ n x acc, acc ≠ "" → digits_fuel n x acc ≠ "") as Hacc.
      { intros n. induction n as [|n IH]; intros x acc Ha; simpl; [done|].
        case_match; [done|]. by apply IH. }
      case_match; [done|]. by apply Hacc. }
    rewrite decide_False; [done|]. intros ->. discriminate Hp.
Qed.

(** What a JSON node must be to stand for a value, its parts aside: a number
    reads back as the integer, a text is the text, an array has as many items,
    an object has the same keys. *)
Definition node_agrees (j : JsonValue) (v : Value) : Prop :=
  match v, j with
  | VNull, JNull => True
  | VBool b, JBool b' => b' = b
  | VInt n, JNumber t | VUInt n, JNumber t => json_int t = Some n
  | VFloat bits, JNumber t => number_from_f64 bits = Some t
  | VString x, JString y => y = x
  | VTimestamp t, JString y => y = to_rfc3339 t
  | VBytes x, JString y => y = base64_encode x
  | VList l, JArray js => length js = length l
  | VMap m, JObject obj => ∀ k, is_Some (object_get k obj) ↔ is_Some (map_get k m)
  | _, _ => False
  end.

Lemma list_json_length l js : list_json l = Some js → length js = length l.
Proof.
  revert js. induction l as [|v l IH]; simpl; intros js Hl; [by simplify_eq|].
  destruct (cel_value_to_json v); [|done]. destruct (list_json l); simplify_eq/=. f_equal. auto.
Qed.

Lemma node_json v j : keys_distinct v = true → cel_value_to_json v = Some j → node_agrees j v.
Proof.
  intros Hk Hj. destruct v; simplify_eq/=; try done; try apply json_int_text.
  - destruct (number_from_f64 bits) eqn:E; by simplify_eq/=.
  - change (JArray <$> list_json l = Some j) in Hj.
    destruct (list_json l) eqn:E; simplify_eq/=. by apply list_json_length.
  - change (JObject <$> map_json m [] = Some j) in Hj.
    destruct (map_json m []) eqn:E; simplify_eq/=. intros k.
    apply andb_true_iff in Hk as [Hnd%bool_decide_eq_true _].
    rewrite (map_json_get _ _ _ k E Hnd). destruct (map_get k m) as [v|] eqn:Ev; [|split; by intros []].
    split; [by eexists|]. intros _. by eapply map_json_all.
Qed.

(** The parts of a converted value were converted, and have distinct keys. *)
Lemma value_at_json p v j v' :
  keys_distinct v = true → cel_value_to_json v = Some j → value_at p v = Some v' →
  keys_distinct v' = true ∧ is_Some (cel_value_to_json v').
Proof.
  revert v j. induction p as [|a p IH]; intros v j Hk Hj Hv.
  { injection Hv as <-. by rewrite Hj. }
  unfold value_at in Hv. simpl in Hv.
  destruct (value_step a v) as [v1|] eqn:Ev; [|by rewrite value_at_none in Hv].
  destruct (json_step_some a v j v1 Hj Ev) as [j1 Hj1].
  apply (IH v1 j1); [by eapply value_step_distinct|done..].
Qed.

Lemma paths_agree p v j :
  keys_distinct v = true → cel_value_to_json v = Some j →
  match value_at p v, json_at p j with
  | Some v', Some j' => node_agrees j' v'
  | None, None => True
  | _, _ => False
  end.
Proof.
  intros Hk Hj. rewrite (json_at_value p v j Hk Hj).
  destruct (value_at p v) as [v'|] eqn:Ev; [|done]. simpl.
  destruct (value_at_json p v j v' Hk Hj Ev) as [Hk' [j' Hj']]. rewrite Hj'. by apply node_json.
Qed.

(** Two keys of the same text: a map with the keys [1] and ["1"] is converted
    without an error, and the entry that comes first in the map's order is
    lost. *)
Lemma colliding_keys_lose_entry a b :
  cel_value_to_json (VMap [(KInt 1, VString a); (KString "1", VString b)])
    = Some (JObject [("1", JString b)]).
Proof. done. Qed.

Section Evaluate.
Context `{HttpLib, RegexLib, RuleLib, !CelLib, !JsonLaws}.

Definition synthetic_context (s : CelHttpSession) : SessionCelContext :=
  mkSessionCelContext {[ CEL_HTTP_SESSION_KEY := VOpaque "CelHttpSession" ]} s.

Lemma evaluate_expression_inv expression meth target headers env j :
  evaluate_expression expression meth target headers env = Ok j ↔
  ∃ program s v, cel_compile expression = Ok program ∧
    with_request meth target headers (env_now env) = Ok s ∧
    cel_execute program env (synthetic_context s) = Ok v ∧ cel_value_to_json v = Some j.
Proof.
  unfold evaluate_expression, synthetic_context.
  destruct (cel_compile expression) as [program|]; simpl; [|naive_solver].
  destruct (with_request _ _ _ _) as [s|]; simpl; [|naive_solver].
  split.
  - destruct (cel_execute _ _ _) as [v|] eqn:E; [|done]. simpl.
    destruct (cel_value_to_json v) eqn:Ej; [|done]. intros. simplify_eq/=. by exists program, s, v.
  - intros (? & ? & v & [= <-] & [= <-] & -> & Hj). simpl. by rewrite Hj.
Qed.

(** C40: Offline evaluation of an expression succeeds exactly when the
    expression compiles, the synthetic request can be built, the evaluation
    returns a value, and that value contains no duration, function, opaque
    object or non-finite number at any depth. When no map of the value has two
    keys of the same text, the JSON it returns has the same paths as the
    value, and at each of them says the same ([node_agrees]): the same truth
    value or text, a number that reads back as the integer or is the library's
    text of the double, the base64 of bytes, the RFC 3339 text of a time, an
    array of as many items, an object of the same keys. *)
Theorem evaluate_expression_json expression meth target headers env :
  (is_ok (evaluate_expression expression meth target headers env) = true ↔
     ∃ program s v, cel_compile expression = Ok program ∧
       with_request meth target headers (env_now env) = Ok s ∧
       cel_execute program env (synthetic_context s) = Ok v ∧ representable v = true) ∧
  (∀ j, evaluate_expression expression meth target headers env = Ok j →
     ∃ program s v, cel_compile expression = Ok program ∧
       with_request meth target headers (env_now env) = Ok s ∧
       cel_execute program env (synthetic_context s) = Ok v ∧
       (keys_distinct v = true → ∀ p,
          match value_at p v, json_at p j with
          | Some v', Some j' => node_agrees j' v'
          | None, None => True
          | _, _ => False
          end)).
Proof.
  split.
  - split.
    + destruct (evaluate_expression _ _ _ _ _) as [j|] eqn:E; [|done]. intros _.
      apply evaluate_expression_inv in E as (program & s & v & ? & ? & ? & Hj).
      exists program, s, v. split_and!; try done. apply json_some. by eexists.
    + intros (program & s & v & Hc & Hs & Hx & [j Hj]%json_some).
      assert (evaluate_expression expression meth target headers env = Ok j) as ->; [|done].
      apply evaluate_expression_inv. by exists program, s, v.
  - intros j (program & s & v & Hc & Hs & Hx & Hj)%evaluate_expression_inv.
    exists program, s, v. split_and!; try done. intros Hk p. by apply paths_agree.
Qed.
End Evaluate.
End RuleEval.

(** ** Witnesses *)

Module RefJson.
#[export] Instance lib : JsonLib :=
  {| number_from_f64 := λ bits, if f64_finite bits then Some (to_string_Z bits) else None;
     to_rfc3339 := to_string_Z; base64_encode := λ s, s; value_debug := λ _, "value" |}.
#[export] Instance laws : JsonLaws.
Proof.
  split. intros bits. unfold number_from_f64, lib.
  by destruct (f64_finite bits).
Qed.
End RefJson.
Import Demo RefJson.

Example json_nested :
  cel_value_to_json (VMap [(KString "a", VList [VInt 1; VBool true]); (KInt 2, VNull)])
    = Some (JObject [("a", JArray [JNumber "1"; JBool true]); ("2", JNull)]) ∧
  cel_value_to_json (VList [VString "x"; VDuration 5]) = None ∧
  cel_value_to_json (VFloat 9218868437227405312) = None.
Proof. vm_compute. split_and!; reflexivity. Qed.

Lemma evaluate_expression_json_witness :
  ∃ j v, evaluate_expression "api.example.com" "GET" "/" None env = Ok j ∧ node_agrees j v.
Proof.
  exists (JBool false).
  destruct (proj2 (evaluate_expression_json "api.example.com" "GET" "/" None env) (JBool false))
    as (program & s & v & Hc & Hs & Hx & Hp); [reflexivity|].
  injection Hc as <-. injection Hs as <-. injection Hx as <-.
  exists (VBool false). split; [reflexivity|exact (Hp eq_refl [])].
Defined.
