(* ===== verification/RouteTable.v ===== *)
(** * The route table

    [src/route/route_table.rs]: the immutable table of routes, its copy-on-write
    updates, and the shared snapshot that request handlers read. The table only
    needs the identifier and the priority of a route: the class [RouteLike] is
    that interface, and [Route.v] instantiates it. *)

From S2P Require Import Prelude Text StableSort.
From stdpp Require Import base tactics strings list sorting gmap fin_maps relations.
From Stdlib Require Import ZArith Lia.

Class RouteLike (R : Type) := {
  route_id : R → string;
  route_priority : R → Z;
}.

Section RouteTable.
Context {R : Type} `{!RouteLike R}.
Implicit Types (r : R) (t : list R).

(** The comparator of [upsert_route]: higher priority first, then the id. *)
Definition route_le r1 r2 : Prop :=
  (route_priority r2 < route_priority r1)%Z ∨
  (route_priority r1 = route_priority r2 ∧ String.le (route_id r1) (route_id r2)).

#[global] Instance route_le_dec : RelDecision route_le.
Proof. intros r1 r2. unfold route_le. apply _. Defined.

#[global] Instance route_le_trans : Transitive route_le.
Proof.
  intros a b c [Hab|[Hab1 Hab2]] [Hbc|[Hbc1 Hbc2]]; [left; lia..|].
  right. split; [lia|]. by transitivity (route_id b).
Qed.

#[global] Instance route_le_total : Total route_le.
Proof.
  intros a b. unfold route_le.
  destruct (Z.lt_trichotomy (route_priority a) (route_priority b)) as [?|[?|?]]; auto.
  destruct (total String.le (route_id a) (route_id b)); auto.
Qed.

Lemma route_le_antisymm_id a b : route_le a b → route_le b a → route_id a = route_id b.
Proof.
  intros [?|[? ?]] [?|[? ?]]; try lia. by apply (anti_symm String.le).
Qed.

(** [iter().position(|r| r.id == id)] followed by the indexed assignment, or
    a push when the id is new. *)
Fixpoint replace_first (r : R) (t : list R) : option (list R) :=
  match t with
  | [] => None
  | x :: t' =>
      if decide (route_id x = route_id r) then Some (r :: t')
      else match replace_first r t' with
           | Some t'' => Some (x :: t'')
           | None => None
           end
  end.

(** [RouteTable::upsert_route]. *)
Definition upsert_route (r : R) (t : list R) : list R :=
  sort_by route_le (match replace_first r t with
                    | Some t' => t'
                    | None => t ++ [r]
                    end).

(** [RouteTable::remove_route]: the new table, and whether a route went. *)
Definition remove_route (id : string) (t : list R) : list R * bool :=
  let t' := filter (λ r, route_id r ≠ id) t in
  (t', negb (bool_decide (length t = length t'))).

(** [RouteTable::find_first_match]: the closure may update the request
    context [S], so the state is threaded through the calls. *)
Fixpoint find_first_match {S} (matches : R → S → bool * S) (t : list R) (s : S)
    : option R * S :=
  match t with
  | [] => (None, s)
  | r :: t' =>
      let '(b, s') := matches r s in
      if b then (Some r, s') else find_first_match matches t' s'
  end.

Definition route_count (t : list R) : Z := Z.of_nat (length t).

(** ** Invariant and abstraction *)

(** Ids are unique and the table is in priority order. *)
Definition table_wf t : Prop := NoDup (route_id <$> t) ∧ StronglySorted route_le t.

(** The abstract table: a finite map from ids to routes. *)
Definition table_map t : gmap string R := list_to_map ((λ r, (route_id r, r)) <$> t).

Lemma table_map_fst t : ((λ r, (route_id r, r)) <$> t).*1 = route_id <$> t.
Proof. by rewrite <-list_fmap_compose. Qed.

Lemma table_map_lookup t id r :
  NoDup (route_id <$> t) → table_map t !! id = Some r ↔ r ∈ t ∧ route_id r = id.
Proof.
  intros Hnd. unfold table_map.
  rewrite <-elem_of_list_to_map by by rewrite table_map_fst.
  rewrite list_elem_of_fmap. naive_solver.
Qed.

Lemma replace_first_None r t :
  replace_first r t = None ↔ route_id r ∉ route_id <$> t.
Proof.
  induction t as [|x t IH]; simpl; [set_solver|].
  rewrite not_elem_of_cons, <-IH. case_decide as Hx; [naive_solver|].
  destruct (replace_first r t); naive_solver.
Qed.

(** The unsorted update is a permutation of the other routes plus the new one. *)
Lemma replace_first_perm r t t' :
  NoDup (route_id <$> t) → replace_first r t = Some t' →
  t' ≡ₚ r :: filter (λ x, route_id x ≠ route_id r) t.
Proof.
  revert t'. induction t as [|x t IH]; intros t' Hnd; simpl; [done|].
  apply NoDup_cons in Hnd as [Hx Hnd]. rewrite filter_cons. case_decide as Hid.
  - intros [= <-]. rewrite decide_False by tauto. f_equiv.
    rewrite filter_all; [done|]. intros y Hy Heq. destruct Hx.
    rewrite Hid, <-Heq. by apply list_elem_of_fmap_2.
  - destruct (replace_first r t) as [t''|] eqn:E; [|done]. intros [= <-].
    rewrite decide_True by done. rewrite (IH t'') by done. apply Permutation_swap.
Qed.

Lemma upsert_perm r t :
  NoDup (route_id <$> t) →
  upsert_route r t ≡ₚ r :: filter (λ x, route_id x ≠ route_id r) t.
Proof.
  intros Hnd. unfold upsert_route. rewrite sort_by_perm.
  destruct (replace_first r t) as [t'|] eqn:E; [by apply replace_first_perm|].
  apply replace_first_None in E. rewrite Permutation_app_comm. simpl. f_equiv.
  rewrite filter_all; [done|]. intros y Hy Heq. destruct E. rewrite <-Heq.
  by apply list_elem_of_fmap_2.
Qed.

Lemma wf_nil : table_wf [].
Proof. split; constructor. Qed.

Lemma upsert_wf r t : table_wf t → table_wf (upsert_route r t).
Proof.
  intros [Hnd _]. split; [|apply sort_by_sorted; apply _].
  rewrite upsert_perm by done. rewrite fmap_cons. apply NoDup_cons. split.
  - intros (y & Hy & [Hne _]%list_elem_of_filter)%list_elem_of_fmap. congruence.
  - by apply NoDup_fmap_filter.
Qed.

Lemma remove_wf id t : table_wf t → table_wf (remove_route id t).1.
Proof.
  intros [Hnd Hs]. split; simpl; [by apply NoDup_fmap_filter|by apply sorted_filter].
Qed.

Lemma upsert_map r t :
  NoDup (route_id <$> t) →
  table_map (upsert_route r t) = <[route_id r := r]> (table_map t).
Proof.
  intros Hnd. apply map_eq. intros id. apply option_eq. intros x.
  assert (NoDup (route_id <$> upsert_route r t)) as Hnd'.
  { rewrite upsert_perm by done. rewrite fmap_cons. apply NoDup_cons. split.
    - intros (y & Hy & [Hne _]%list_elem_of_filter)%list_elem_of_fmap. congruence.
    - by apply NoDup_fmap_filter. }
  rewrite table_map_lookup by done. rewrite upsert_perm by done.
  rewrite elem_of_cons, list_elem_of_filter, lookup_insert_Some, table_map_lookup by done.
  naive_solver.
Qed.

Lemma remove_map id t :
  NoDup (route_id <$> t) → table_map (remove_route id t).1 = delete id (table_map t).
Proof.
  intros Hnd. apply map_eq. intros i. apply option_eq. intros x. simpl.
  rewrite table_map_lookup by by apply NoDup_fmap_filter.
  rewrite lookup_delete_Some, table_map_lookup, list_elem_of_filter by done. naive_solver.
Qed.

(** A well-formed table is the only one with its map. *)
Lemma table_canonical t1 t2 :
  table_wf t1 → table_wf t2 → table_map t1 = table_map t2 → t1 = t2.
Proof.
  intros [Hnd1 Hs1] [Hnd2 Hs2] Hmap.
  assert (∀ x, x ∈ t1 ↔ x ∈ t2) as Hin.
  { intros x. pose proof (table_map_lookup t1 (route_id x) x Hnd1) as Hx1.
    pose proof (table_map_lookup t2 (route_id x) x Hnd2) as Hx2.
    rewrite Hmap in Hx1. naive_solver. }
  eapply (StronglySorted_unique_strong route_le); [|done..|].
  - intros a b Ha Hb Hab Hba. apply (NoDup_fmap_elem_of route_id t2); [done| |done|].
    + by apply Hin.
    + by apply route_le_antisymm_id.
  - apply NoDup_Permutation; [by eapply NoDup_fmap_1..|done].
Qed.
End RouteTable.

(** ** The routing contract

    A table is modified by a sequence of updates ([add_or_update_route] and
    [remove_route] of the server). Abstractly each acts on a finite map. *)
Section Updates.
Context {R : Type} `{!RouteLike R}.
Implicit Types (r : R) (t : list R).

Inductive RouteUpdate : Type :=
| UpsertRoute (r : R)
| RemoveRoute (id : string).

(** One update of the snapshot; the boolean is the value returned to the
    caller ([upsert_route] returns nothing, rendered as [true]). *)
Definition apply_update (u : RouteUpdate) (t : list R) : list R * bool :=
  match u with
  | UpsertRoute r => (upsert_route r t, true)
  | RemoveRoute id => remove_route id t
  end.

(** The specification of an update, on the abstract map. *)
Definition spec_update (u : RouteUpdate) (m : gmap string R) : gmap string R * bool :=
  match u with
  | UpsertRoute r => (<[route_id r := r]> m, true)
  | RemoveRoute id => (delete id m, bool_decide (is_Some (m !! id)))
  end.

Fixpoint run_updates (us : list RouteUpdate) (t : list R) : list R * list bool :=
  match us with
  | [] => (t, [])
  | u :: us' =>
      let '(t', b) := apply_update u t in
      let '(t'', bs) := run_updates us' t' in (t'', b :: bs)
  end.

Fixpoint run_spec (us : list RouteUpdate) (m : gmap string R)
    : gmap string R * list bool :=
  match us with
  | [] => (m, [])
  | u :: us' =>
      let '(m', b) := spec_update u m in
      let '(m'', bs) := run_spec us' m' in (m'', b :: bs)
  end.

Lemma apply_update_wf u t : table_wf t → table_wf (apply_update u t).1.
Proof. destruct u; [apply upsert_wf|apply remove_wf]. Qed.

Lemma removed_spec id t :
  NoDup (route_id <$> t) →
  (remove_route id t).2 = bool_decide (is_Some (table_map t !! id)).
Proof.
  intros Hnd. simpl. rewrite <-bool_decide_not. apply bool_decide_ext.
  change (length t = length (filter (λ r, route_id r ≠ id) t) → False)
    with (length t ≠ length (filter (λ r, route_id r ≠ id) t)).
  rewrite filter_length_lt_iff. unfold is_Some. split.
  - intros (x & Hx & Hid%dec_stable). exists x. by apply table_map_lookup.
  - intros (x & [Hx Hid]%table_map_lookup); [|done]. exists x. by rewrite Hid; auto.
Qed.

Lemma apply_update_refines u t :
  table_wf t →
  (table_map (apply_update u t).1, (apply_update u t).2) = spec_update u (table_map t).
Proof.
  intros [Hnd Hs]. destruct u as [r|id]; simpl.
  - by rewrite upsert_map.
  - f_equal; [by apply remove_map|by apply removed_spec].
Qed.

Lemma run_updates_refines us t :
  table_wf t →
  let '(t', bs) := run_updates us t in
  table_wf t' ∧ run_spec us (table_map t) = (table_map t', bs).
Proof.
  revert t. induction us as [|u us IH]; intros t Hwf; [done|]. simpl.
  pose proof (apply_update_wf u t Hwf) as Hwf'.
  pose proof (apply_update_refines u t Hwf) as Href.
  destruct (apply_update u t) as [t' b]. simpl in *. rewrite <-Href.
  specialize (IH t' Hwf'). destruct (run_updates us t') as [t'' bs].
  destruct IH as [? ->]. done.
Qed.

(** C7: From the empty table, every sequence of [upsert_route] and
    [remove_route] keeps the ids unique and the routes in decreasing priority
    (ties by id), and behaves on the id-indexed map exactly as insert and
    delete do, [remove_route] returning whether the id was present. *)
Theorem updates_refine_map us :
  let '(t, bs) := run_updates us [] in
  table_wf t ∧ run_spec us ∅ = (table_map t, bs).
Proof. apply (run_updates_refines us []), wf_nil. Qed.
Lemma run_updates_wf us : table_wf (run_updates us []).1.
Proof.
  pose proof (run_updates_refines us [] wf_nil) as Hwf.
  destruct (run_updates us []). apply Hwf.
Qed.

(** The table depends only on the routes it holds, not on the order in which
    they were added or the routes that came and went: two update sequences
    that lead to the same map of routes lead to the same table, in the same
    order. *)
Theorem table_order_independent us1 us2 :
  (run_spec us1 (∅ : gmap string R)).1 = (run_spec us2 ∅).1 →
  (run_updates us1 []).1 = (run_updates us2 []).1.
Proof.
  pose proof (run_updates_refines us1 [] wf_nil) as H1.
  pose proof (run_updates_refines us2 [] wf_nil) as H2.
  destruct (run_updates us1 []) as [t1 b1], (run_updates us2 []) as [t2 b2].
  destruct H1 as [Hwf1 E1], H2 as [Hwf2 E2].
  change (table_map []) with (∅ : gmap string R) in *. rewrite E1, E2. simpl.
  by apply table_canonical.
Qed.

(** *** Selection *)

(** The predicate tested on a route, when the matchers do not disturb the
    answers of one another: running them from [s] in any reachable state
    gives the same verdicts. *)
Definition verdict_stable {S} (matches : R → S → bool * S) (inv : S → Prop)
    (P : R → bool) : Prop :=
  ∀ r s, inv s → (matches r s).1 = P r ∧ inv (matches r s).2.

Lemma find_first_match_find {S} (matches : R → S → bool * S) inv P t s :
  verdict_stable matches inv P → inv s →
  match (find_first_match matches t s).1 with
  | Some r => ∃ t1 t2, t = t1 ++ r :: t2 ∧ P r = true ∧ Forall (λ x, P x = false) t1
  | None => Forall (λ x, P x = false) t
  end.
Proof.
  intros Hst. revert s. induction t as [|r t IH]; intros s Hs; simpl; [done|].
  destruct (Hst r s Hs) as [HP Hinv].
  destruct (matches r s) as [b s'] eqn:E. simpl in *. subst b. destruct (P r) eqn:HPr.
  - exists [], t. by repeat split.
  - specialize (IH s' Hinv). destruct (find_first_match matches t s').1 as [x|].
    + destruct IH as (t1 & t2 & -> & Hx & Ht1). exists (r :: t1), t2. by auto.
    + by constructor.
Qed.

Lemma sorted_app_le t1 r t2 x :
  StronglySorted route_le (t1 ++ r :: t2) → x ∈ t2 → route_le r x.
Proof.
  induction t1 as [|y t1 IH]; simpl; inversion_clear 1 as [|? ? Hs Hall]; [|by apply IH].
  rewrite Forall_forall in Hall. by apply Hall.
Qed.

(** In a well-formed table, the selected route matches the request and every
    other matching route has a lower priority, or the same priority and an id
    that is not smaller; when no route is selected, none of the installed
    routes matches. *)
Lemma find_first_match_best {S} (matches : R → S → bool * S) inv P t s :
  verdict_stable matches inv P → inv s → table_wf t →
  match (find_first_match matches t s).1 with
  | Some r => r ∈ t ∧ P r = true ∧ ∀ x, x ∈ t → P x = true → x = r ∨ route_le r x
  | None => ∀ x, x ∈ t → P x = false
  end.
Proof.
  intros Hst Hs [_ Hsorted].
  pose proof (find_first_match_find matches inv P t s Hst Hs) as Hf.
  destruct (find_first_match matches t s).1 as [r|].
  - destruct Hf as (t1 & t2 & Ht & HPr & Ht1). rewrite Forall_forall in Ht1.
    split; [rewrite Ht; set_solver|]. split; [done|]. intros x Hx HPx.
    rewrite Ht in Hx, Hsorted. apply elem_of_app in Hx as [Hx|Hx].
    + rewrite Ht1 in HPx; done.
    + apply elem_of_cons in Hx as [->|Hx]; [by left|right].
      by eapply sorted_app_le.
  - by rewrite Forall_forall in Hf.
Qed.
End Updates.
Arguments RouteUpdate : clear implicits.

(** ** The shared snapshot

    [SharedRouteTable] holds an [ArcSwap<RouteTable>]. An update loads the
    snapshot, computes the next table and stores it; readers load at any
    moment. Concurrent updaters interleave at the load and at the store, which
    are the atomic steps below. *)
Section Shared.
Context {R : Type} `{!RouteLike R}.

(** The swap cell, and the updates that have loaded but not yet stored. *)
Record SharedRouteTable := mkShared {
  snapshot : list R;
  in_flight : list (RouteUpdate R * list R);
}.

Definition SharedRouteTable_new : SharedRouteTable := mkShared [] [].

(** [read_snapshot]: the table a request keeps for its whole life. *)
Definition read_snapshot (s : SharedRouteTable) : list R := snapshot s.

(** [upsert_route] and [remove_route] run without interruption. *)
Definition shared_update (u : RouteUpdate R) (s : SharedRouteTable)
    : SharedRouteTable * bool :=
  let current := read_snapshot s in
  let '(next, removed) := apply_update u current in
  (mkShared next (in_flight s), removed).

Definition shared_route_count (s : SharedRouteTable) : Z := route_count (read_snapshot s).

Inductive shared_step : SharedRouteTable → SharedRouteTable → Prop :=
| step_load u s :
    shared_step s (mkShared (snapshot s) ((u, read_snapshot s) :: in_flight s))
| step_store u current f1 f2 t :
    shared_step (mkShared t (f1 ++ (u, current) :: f2))
                (mkShared (apply_update u current).1 (f1 ++ f2)).

Definition shared_wf (s : SharedRouteTable) : Prop :=
  table_wf (snapshot s) ∧ Forall (λ p, table_wf p.2) (in_flight s).

Lemma shared_step_wf s s' : shared_step s s' → shared_wf s → shared_wf s'.
Proof.
  intros [u s0|u current f1 f2 t] [Ht Hf]; split; simpl in *.
  - done.
  - by constructor.
  - apply apply_update_wf. rewrite Forall_app, Forall_cons in Hf. tauto.
  - rewrite Forall_app, Forall_cons in Hf. rewrite Forall_app. tauto.
Qed.

(** Whatever the interleaving of loads and stores by concurrent updaters,
    every snapshot a request can read has unique ids and is in priority
    order. *)
Theorem snapshot_always_wf s :
  rtc shared_step SharedRouteTable_new s → table_wf (read_snapshot s).
Proof.
  intros Hr. assert (shared_wf s) as [? ?]; [|done].
  assert (shared_wf SharedRouteTable_new) as H0 by (split; [apply wf_nil|constructor]).
  induction Hr as [|x y z Hxy _ IH]; [done|]. apply IH. by eapply shared_step_wf.
Qed.

(** An uninterrupted update is a load followed by its own store. *)
Lemma shared_update_steps u s :
  rtc shared_step s (shared_update u s).1.
Proof.
  eapply rtc_l; [apply (step_load u)|]. eapply rtc_once. unfold shared_update.
  destruct (apply_update u (read_snapshot s)) as [next b] eqn:E. simpl.
  change next with (next, b).1. rewrite <-E.
  apply (step_store u (read_snapshot s) [] (in_flight s)).
Qed.
End Shared.
Arguments SharedRouteTable : clear implicits.

(** ** Instances *)
Module DemoTable.
#[export] Instance demo_route : RouteLike (string * Z) :=
  {| route_id := fst; route_priority := snd |}.

Definition updates : list (RouteUpdate (string * Z)) :=
  [UpsertRoute ("b", 1%Z); UpsertRoute ("a", 5%Z); UpsertRoute ("c", 1%Z);
   RemoveRoute "c"; RemoveRoute "zz"].
End DemoTable.

Section Witnesses.
Import DemoTable.

Lemma table_order_independent_witness :
  (run_updates updates []).1 = [("a", 5%Z); ("b", 1%Z)] ∧
  (run_updates updates []).1
    = (run_updates [UpsertRoute ("a", 5%Z); UpsertRoute ("b", 1%Z)] []).1.
Proof.
  split; [vm_compute; reflexivity|].
  apply table_order_independent. vm_compute. reflexivity.
Defined.

Lemma find_first_match_best_witness :
  let P := λ r : string * Z, bool_decide (r.1 ≠ "a") in
  (find_first_match (λ r (n : nat), (P r, S n)) (run_updates updates []).1 0).1
    = Some ("b", 1%Z) ∧
  ∀ x, x ∈ (run_updates updates []).1 → P x = true →
       x = ("b", 1%Z) ∨ route_le ("b", 1%Z) x.
Proof.
  intros P. split; [vm_compute; reflexivity|].
  assert (verdict_stable (λ r (n : nat), (P r, S n)) (λ _, True) P) as Hst by done.
  exact (proj2 (proj2 (find_first_match_best _ _ P _ 0 Hst I (run_updates_wf updates)))).
Defined.

Lemma snapshot_always_wf_witness :
  table_wf (read_snapshot (shared_update (UpsertRoute ("a", 5%Z)) SharedRouteTable_new).1).
Proof. apply snapshot_always_wf, shared_update_steps. Defined.

(** Two updaters that both load before either stores: the first store is
    overwritten. The server serialises updates on the JavaScript thread, so
    only uninterrupted updates occur there. *)
Example concurrent_update_lost :
  rtc shared_step SharedRouteTable_new (mkShared [("b", 1%Z)] []).
Proof.
  eapply rtc_l; [apply (step_load (UpsertRoute ("a", 1%Z)))|].
  eapply rtc_l; [apply (step_load (UpsertRoute ("b", 1%Z)))|]. simpl.
  eapply rtc_l; [apply (step_store (UpsertRoute ("a", 1%Z)) [] [_] [])|]. simpl.
  eapply rtc_l; [apply (step_store (UpsertRoute ("b", 1%Z)) [] [] [])|].
  vm_compute. apply rtc_refl.
Qed.
End Witnesses.
