(* ===== verification/VjsSocket.v ===== *)
(** * Virtual sockets

    [src/virtual_js/socket.rs]: the byte stream from a JavaScript listener to
    the proxy. JavaScript pushes chunks, an end of file or an error; the proxy
    polls. The state behind the mutex is [ReadState]; [waker] is the
    [AtomicWaker], and [woken] lists the tasks it has woken, in order. The
    mutex is never poisoned: no operation panics while it holds it. *)

From S2P Require Import Prelude.
From stdpp Require Import base tactics strings list sets.
From Stdlib Require Import ZArith Lia.
From Stdlib Require Strings.Byte.

Abbreviation bytes := (list Byte.byte).

Module VjsSocket.

Record ReadState := mkReadState {
  pending : list (bytes * nat);
  eof : bool;
  err : option string;
}.

Definition ReadState_new : ReadState := mkReadState [] false None.

Record SocketState := mkSocketState {
  read : ReadState;
  waker : option nat;
  woken : list nat;
  closed : bool;
}.

(** [VirtualJsSocketState::new]. *)
Definition new : SocketState := mkSocketState ReadState_new None [] false.

Definition with_read (r : ReadState) (s : SocketState) : SocketState :=
  mkSocketState r (waker s) (woken s) (closed s).

(** [AtomicWaker::register] and [AtomicWaker::wake]. *)
Definition register_waker (task : nat) (s : SocketState) : SocketState :=
  mkSocketState (read s) (Some task) (woken s) (closed s).
Definition wake (s : SocketState) : SocketState :=
  match waker s with
  | Some t => mkSocketState (read s) None (woken s ++ [t]) (closed s)
  | None => s
  end.
Definition close (s : SocketState) : SocketState :=
  mkSocketState (read s) (waker s) (woken s) true.

(** ** The JavaScript side *)

Definition push_data (data : bytes) (s : SocketState) : result unit string * SocketState :=
  if closed s then (Err "socket already closed", s)
  else if eof (read s) then (Err "socket already eof", s)
  else match err (read s) with
       | Some _ => (Err "socket already in error state", s)
       | None =>
           let r := mkReadState (pending (read s) ++ [(data, 0)]) (eof (read s)) None in
           (Ok tt, wake (with_read r s))
       end.

Definition push_eof (s : SocketState) : result unit string * SocketState :=
  if closed s then (Ok tt, s)
  else (Ok tt, wake (with_read (mkReadState (pending (read s)) true (err (read s))) s)).

Definition push_error (message : string) (s : SocketState) : result unit string * SocketState :=
  if closed s then (Ok tt, s)
  else (Ok tt,
        wake (with_read (mkReadState (pending (read s)) (eof (read s)) (Some message)) s)).

Definition abort (message : string) (s : SocketState) : SocketState :=
  let s := close s in
  let r := read s in
  let r' := if negb (eof r) && bool_decide (err r = None)
            then mkReadState (pending r) (eof r) (Some message) else r in
  wake (with_read r' s).

Definition is_closed (s : SocketState) : bool := closed s.

(** ** The proxy side *)

Inductive Poll (A : Type) :=
| Pending
| Ready (a : A).
Arguments Pending {A}.
Arguments Ready {A} a.

(** The copy loop of [poll_read]: the queue, what the buffer holds, and its
    capacity. *)
Fixpoint fill (pending : list (bytes * nat)) (filled : bytes) (cap : nat)
    : list (bytes * nat) * bytes :=
  match pending with
  | [] => ([], filled)
  | (chunk, offset) :: rest =>
      if decide (cap - length filled = 0) then (pending, filled)
      else
        let remain := length chunk - offset in
        if decide (remain = 0) then fill rest filled cap
        else
          let to_copy := remain `min` (cap - length filled) in
          let stop := offset + to_copy in
          let filled' := filled ++ take (stop - offset) (drop offset chunk) in
          if decide (stop < length chunk) then ((chunk, stop) :: rest, filled')
          else fill rest filled' cap
  end.

(** [poll_read] by [task] into a buffer of capacity [cap] that already holds
    [filled]; the result also gives the buffer's new contents. *)
Definition poll_read (task : nat) (filled : bytes) (cap : nat) (s : SocketState)
    : Poll (result unit string) * bytes * SocketState :=
  let s := register_waker task s in
  match err (read s) with
  | Some message => (Ready (Err message), filled, close s)
  | None =>
      let '(pending', filled') := fill (pending (read s)) filled cap in
      let s := with_read (mkReadState pending' (eof (read s)) None) s in
      match filled' with
      | [] => if eof (read s) then (Ready (Ok tt), filled', close s)
              else (Pending, filled', s)
      | _ => (Ready (Ok tt), filled', s)
      end
  end.

(** ** The byte stream a socket stands for *)

(** The bytes not yet read. *)
Definition stream (s : SocketState) : bytes :=
  mjoin ((λ p, drop p.2 p.1) <$> pending (read s)).
Definition queue_stream (q : list (bytes * nat)) : bytes :=
  mjoin ((λ p, drop p.2 p.1) <$> q).

Lemma queue_stream_cons chunk off q :
  queue_stream ((chunk, off) :: q) = drop off chunk ++ queue_stream q.
Proof. done. Qed.

Lemma fill_spec q filled cap :
  let '(q', filled') := fill q filled cap in
  filled' = filled ++ take (cap - length filled) (queue_stream q) ∧
  queue_stream q' = drop (cap - length filled) (queue_stream q).
Proof.
  revert filled. induction q as [|[chunk off] q IH]; intros filled; simpl.
  { change (queue_stream []) with ([] : bytes). by rewrite take_nil, drop_nil, app_nil_r. }
  destruct (decide (cap - length filled = 0)) as [Hc|Hc].
  { by rewrite Hc, take_0, drop_0, app_nil_r. }
  destruct (decide (length chunk - off = 0)) as [Hr|Hr].
  { rewrite queue_stream_cons, (drop_ge chunk off) by lia. apply IH. }
  assert (length (drop off chunk) = length chunk - off) as Hl by apply length_drop.
  rewrite queue_stream_cons. destruct (decide _) as [Hs|Hs].
  - rewrite Nat.min_r in * by lia.
    replace (off + (cap - length filled) - off) with (cap - length filled) by lia.
    rewrite take_app_le, drop_app_le by lia. split; [done|].
    by rewrite queue_stream_cons, drop_drop.
  - assert (length chunk - off ≤ cap - length filled) as Hle by lia.
    rewrite Nat.min_l in * by lia.
    replace (off + (length chunk - off) - off) with (length chunk - off) by lia.
    rewrite (take_ge (drop off chunk)) by lia.
    specialize (IH (filled ++ drop off chunk)).
    destruct (fill q _ cap) as [q' filled']. destruct IH as [-> ->].
    rewrite length_app, Hl, <-app_assoc.
    replace (cap - (length filled + (length chunk - off)))
      with (cap - length filled - length (drop off chunk)) by (rewrite Hl; lia).
    rewrite take_app_ge, drop_app_ge by lia. done.
Qed.

Lemma poll_read_ok task cap s :
  err (read s) = None →
  let '(_, got, s') := poll_read task [] cap s in
  got = take cap (stream s) ∧ stream s' = drop cap (stream s).
Proof.
  intros He. unfold poll_read. simpl. rewrite He.
  pose proof (fill_spec (pending (read s)) [] cap) as Hf. simpl in Hf.
  rewrite Nat.sub_0_r in Hf. change (queue_stream (pending (read s))) with (stream s) in Hf.
  destruct (fill _ _ _) as [q' got]. destruct Hf as [-> Hq].
  destruct (take cap (stream s)); simpl; [destruct (eof _)|]; by rewrite <-Hq.
Qed.

Lemma poll_read_cases task cap s :
  0 < cap →
  match poll_read task [] cap s with
  | (Ready (Err m), got, s') =>
      err (read s) = Some m ∧ got = [] ∧ closed s' = true ∧ stream s' = stream s
  | (Ready (Ok _), got, s') =>
      err (read s) = None ∧ got = take cap (stream s) ∧ stream s' = drop cap (stream s) ∧
      (got = [] → eof (read s) = true ∧ stream s = [] ∧ closed s' = true)
  | (Pending, got, s') =>
      err (read s) = None ∧ eof (read s) = false ∧ stream s = [] ∧ got = [] ∧
      waker s' = Some task
  end.
Proof.
  intros Hcap. destruct (err (read s)) as [m|] eqn:He.
  { unfold poll_read. simpl. by rewrite He. }
  pose proof (poll_read_ok task cap s He) as Hok. revert Hok.
  unfold poll_read. simpl. rewrite He. destruct (fill _ _ _) as [q' got].
  assert (take cap (stream s) = [] → stream s = []) as Hnil.
  { destruct cap; [lia|]. by destruct (stream s). }
  destruct got as [|b got]; simpl; [destruct (eof (read s)) eqn:Heof|]; simpl;
    intros [Hg Hs]; split_and!; auto; try done.
Qed.

(** C13: A read into an empty buffer of capacity [cap] > 0 refines a byte
    queue: an error pushed by JavaScript or by an abort is reported before any
    data; otherwise the read takes the first [cap] bytes of the stream,
    whatever the chunk boundaries; on an empty stream it reports end of file
    when one was pushed, and is pending otherwise. *)
Theorem poll_read_refines task cap s :
  0 < cap →
  match poll_read task [] cap s with
  | (Ready (Err m), got, s') =>
      err (read s) = Some m ∧ got = [] ∧ closed s' = true ∧ stream s' = stream s
  | (Ready (Ok _), got, s') =>
      err (read s) = None ∧ got = take cap (stream s) ∧ stream s' = drop cap (stream s) ∧
      (got = [] → eof (read s) = true ∧ stream s = [] ∧ closed s' = true)
  | (Pending, got, s') =>
      err (read s) = None ∧ eof (read s) = false ∧ stream s = [] ∧ got = [] ∧
      waker s' = Some task
  end.
Proof. apply poll_read_cases. Qed.

(** ** Traces *)

(** What the two sides do to a socket. *)
Inductive SocketOp :=
| PushData (data : bytes)
| PushEof
| PushError (message : string)
| Abort (message : string)
| PollRead (task cap : nat).

(** The state after an operation, the bytes it accepted from JavaScript and the
    bytes it delivered to the proxy. *)
Definition run_op (op : SocketOp) (s : SocketState) : SocketState * bytes * bytes :=
  match op with
  | PushData d =>
      let '(r, s') := push_data d s in (s', if is_ok r then d else [], [])
  | PushEof => ((push_eof s).2, [], [])
  | PushError m => ((push_error m s).2, [], [])
  | Abort m => (abort m s, [], [])
  | PollRead task cap => let '(_, got, s') := poll_read task [] cap s in (s', [], got)
  end.

Fixpoint run_ops (ops : list SocketOp) (s : SocketState) : SocketState * bytes * bytes :=
  match ops with
  | [] => (s, [], [])
  | op :: ops' =>
      let '(s1, inp, out) := run_op op s in
      let '(s2, inp', out') := run_ops ops' s1 in (s2, inp ++ inp', out ++ out')
  end.

Lemma stream_wake s : stream (wake s) = stream s.
Proof. unfold wake. by destruct (waker s). Qed.

Lemma run_op_stream op s :
  let '(s', inp, out) := run_op op s in stream s ++ inp = out ++ stream s'.
Proof.
  destruct op as [d| |m|m|task cap]; simpl.
  - unfold push_data. destruct (closed s), (eof (read s)), (err (read s));
      simpl; rewrite ?app_nil_r; try done.
    rewrite stream_wake. unfold stream. simpl. rewrite fmap_app, join_app. simpl.
    by rewrite drop_0, app_nil_r.
  - unfold push_eof. destruct (closed s); simpl; by rewrite ?stream_wake, app_nil_r.
  - unfold push_error. destruct (closed s); simpl; by rewrite ?stream_wake, app_nil_r.
  - unfold abort. simpl. rewrite stream_wake, app_nil_r. by case_match.
  - destruct (err (read s)) as [m|] eqn:He.
    { unfold poll_read. simpl. by rewrite He, app_nil_r. }
    pose proof (poll_read_ok task cap s He) as Hok.
    destruct (poll_read task [] cap s) as [[res got] s']. destruct Hok as [-> ->].
    by rewrite take_drop, app_nil_r.
Qed.

Lemma run_ops_stream ops s :
  let '(s', inp, out) := run_ops ops s in stream s ++ inp = out ++ stream s'.
Proof.
  revert s. induction ops as [|op ops IH]; intros s; simpl; [by rewrite app_nil_r|].
  pose proof (run_op_stream op s) as Hop. destruct (run_op op s) as [[s1 inp] out].
  specialize (IH s1). destruct (run_ops ops s1) as [[s2 inp'] out'].
  by rewrite app_assoc, Hop, <-app_assoc, IH, app_assoc.
Qed.

(** C22: Over any interleaving of pushes and reads on a fresh socket, the
    bytes delivered to the proxy followed by the bytes still queued are
    exactly the bytes that accepted [push_data] calls carried, in order:
    nothing is lost, duplicated or reordered. *)
Theorem socket_stream_fidelity ops :
  let '(s', pushed, delivered) := run_ops ops new in
  pushed = delivered ++ stream s'.
Proof.
  pose proof (run_ops_stream ops new) as Hr. by destruct (run_ops ops new) as [[s' inp] out].
Qed.

(** C23: No wake-up is lost: when a read by [task] is pending, an accepted
    push of data, of an end of file or of an error, or an abort, wakes that
    task, and its next read with a non-empty buffer is ready (for data, when
    the pushed chunk is not empty). *)
Theorem no_lost_wakeup task cap s s1 op :
  0 < cap → closed s = false →
  (poll_read task [] cap s).1.1 = Pending → s1 = (poll_read task [] cap s).2 →
  (match op with PollRead _ _ | PushData [] => False | _ => True end) →
  let s2 := (run_op op s1).1.1 in
  task ∈ woken s2 ∧ (poll_read task [] cap s2).1.1 ≠ Pending.
Proof.
  intros Hcap Hcl Hp -> Hop.
  assert (∃ s1, (poll_read task [] cap s).2 = s1 ∧ err (read s1) = None ∧
     eof (read s1) = false ∧ waker s1 = Some task ∧ closed s1 = false) as
    (s1 & -> & He & Heof & Hw & Hc).
  { eexists. split; [done|]. revert Hp. unfold poll_read. simpl.
    destruct (err (read s)) eqn:He; [done|]. destruct (fill _ _ _) as [q' got].
    destruct got; [|done]. simpl. by destruct (eof (read s)). }
  assert (∀ s2, waker s2 = Some task → task ∈ woken (wake s2)) as Hwake.
  { intros s2 E. unfold wake. rewrite E. set_solver. }
  assert (∀ s2, err (read s2) ≠ None ∨ eof (read s2) = true ∨ stream s2 ≠ [] →
    (poll_read task [] cap s2).1.1 ≠ Pending) as Hready.
  { intros s2 Hs2 Hpend. pose proof (poll_read_cases task cap s2 Hcap) as Hr.
    destruct (poll_read task [] cap s2) as [[res got] s3]. simpl in Hpend. subst res.
    destruct Hr as (He2 & Heof2 & Hs2' & _). destruct Hs2 as [?|[?|?]]; congruence. }
  destruct op as [d| |m|m|]; simpl; try done;
    unfold push_data, push_eof, push_error, abort; rewrite ?Hc, ?Heof, ?He; simpl;
    (split; [apply Hwake; simpl; by rewrite ?Heof, ?He|apply Hready]).
  - right. right. rewrite stream_wake. unfold stream. simpl. rewrite fmap_app, join_app.
    destruct d; [done|]. simpl. intros [_ ?]%app_nil. done.
  - right. left. unfold wake. by destruct (waker _).
  - left. unfold wake. by destruct (waker _).
  - left. unfold wake. simpl. rewrite Hw, He, Heof. done.
Qed.

(** Once a read has reported an error or the end of file, the socket is closed
    and JavaScript can push no more data. *)
Lemma push_after_close d s : closed s = true → push_data d s = (Err "socket already closed", s).
Proof. intros Hc. unfold push_data. by rewrite Hc. Qed.

Lemma poll_read_refines_witness :
  let '(r, got, s') := poll_read 7 [] 2
    (mkSocketState (mkReadState [([Byte.x61], 1); ([Byte.x62; Byte.x63; Byte.x64], 1)] true None)
       None [] false) in
  r = Ready (Ok tt) ∧ got = [Byte.x63; Byte.x64] ∧ stream s' = [].
Proof.
  pose proof (poll_read_refines 7 2
    (mkSocketState (mkReadState [([Byte.x61], 1); ([Byte.x62; Byte.x63; Byte.x64], 1)] true None)
       None [] false) ltac:(lia)) as Hr.
  simpl in *. destruct Hr as (_ & ? & ? & _). auto.
Defined.

Lemma no_lost_wakeup_witness :
  7 ∈ woken (run_op (PushData [Byte.x61]) (poll_read 7 [] 4 new).2).1.1.
Proof.
  apply (no_lost_wakeup 7 4 new (poll_read 7 [] 4 new).2 (PushData [Byte.x61]));
    [lia|reflexivity|reflexivity|reflexivity|exact I].
Defined.
End VjsSocket.
