(* ===== verification/VjsRegistry.v ===== *)
(** * The virtual listener registry

    [src/virtual_js/registry_types.rs], [registry_store.rs], [registry.rs],
    [registry_connect.rs] and [registry_api.rs], and the write half of
    [socket.rs]. JavaScript registers listeners under keys; the proxy opens
    connections to them; both sides refer to a connection by its id. Listeners
    and socket states are shared objects ([Arc]), so they live in heaps and the
    maps hold locations. [calls] records the calls of the JavaScript callbacks;
    the status a callback returns is an input of the operation. Here an operation
    runs to its end before the next one starts; [VjsThreads] interleaves the
    steps of operations that run at once. *)

From S2P Require Import Prelude Text VjsSocket.
From stdpp Require Import base tactics strings list gmap fin_maps.
From Stdlib Require Import ZArith Lia Ascii.

Module VjsRegistry.
Import VjsSocket.

(** [napi::Status], as far as the sources tell its values apart. *)
Inductive Status := StatusOk | Closing | Cancelled | OtherStatus (name : string).
#[export] Instance Status_eq_dec : EqDecision Status.
Proof. solve_decision. Defined.

Definition status_debug (s : Status) : string :=
  match s with
  | StatusOk => "Ok" | Closing => "Closing" | Cancelled => "Cancelled"
  | OtherStatus name => name
  end.

Definition tsfn_closed (s : Status) : bool :=
  match s with Closing | Cancelled => true | _ => false end.

Record Listener := mkListener {
  l_key : string;
  l_active : bool;
  l_connections : gmap string nat;
}.

(** [Listener::new]. *)
Definition Listener_new (key : string) : Listener := mkListener key true ∅.

Record SocketEntry := mkSocketEntry { se_state : nat; se_listener : nat }.

Record Registry := mkRegistry {
  listeners : gmap string nat;
  sockets : gmap string SocketEntry;
  seq : Z;
}.

(** [VirtualJsSocket]: the stream the proxy holds. *)
Record VirtualJsSocket := mkVirtualJsSocket {
  vs_conn_id : string;
  vs_state : nat;
  vs_listener : nat;
}.

(** [ListenerEventCall], with the listener it was called on. *)
Record Event := mkEvent {
  ev_listener : nat;
  ev_kind : string;
  ev_conn_id : string;
  ev_data : bytes;
}.

Record World := mkWorld {
  reg : Registry;
  lheap : list Listener;
  sheap : list SocketState;
  streams : list VirtualJsSocket;
  calls : list Event;
}.

(** [Registry::default]. *)
Definition World_new : World := mkWorld (mkRegistry ∅ ∅ 0) [] [] [] [].

Definition set_reg (r : Registry) (w : World) :=
  mkWorld r (lheap w) (sheap w) (streams w) (calls w).
Definition set_lheap (h : list Listener) (w : World) :=
  mkWorld (reg w) h (sheap w) (streams w) (calls w).
Definition set_sheap (h : list SocketState) (w : World) :=
  mkWorld (reg w) (lheap w) h (streams w) (calls w).
Definition set_streams (l : list VirtualJsSocket) (w : World) :=
  mkWorld (reg w) (lheap w) (sheap w) l (calls w).
Definition call_event (e : Event) (w : World) :=
  mkWorld (reg w) (lheap w) (sheap w) (streams w) (calls w ++ [e]).
Definition set_listeners (m : gmap string nat) (w : World) :=
  set_reg (mkRegistry m (sockets (reg w)) (seq (reg w))) w.
Definition set_sockets (m : gmap string SocketEntry) (w : World) :=
  set_reg (mkRegistry (listeners (reg w)) m (seq (reg w))) w.

(** [Listener::is_active]; every [Arc] points into the heap. *)
Definition is_active (l : nat) (w : World) : bool :=
  match lheap w !! l with Some x => l_active x | None => false end.
Definition listener_key (l : nat) (w : World) : string :=
  match lheap w !! l with Some x => l_key x | None => "" end.

(** [Weak::upgrade]: the state is alive while the registry or a stream holds
    it. *)
Definition upgrades (loc : nat) (w : World) : bool :=
  bool_decide (map_Exists (λ _ e, se_state e = loc) (sockets (reg w))) ||
  existsb (λ s, bool_decide (vs_state s = loc)) (streams w).

(** ** Listeners: [registry_types.rs] *)

Definition attach_connection (l : nat) (conn_id : string) (state : nat) (w : World)
    : result unit string * World :=
  if is_active l w then
    (Ok tt, set_lheap (alter (λ x, mkListener (l_key x) (l_active x)
                                (<[conn_id := state]> (l_connections x))) l (lheap w)) w)
  else (Err ("virtual listener '" +:+ listener_key l w +:+ "' is not active"), w).

Definition detach_connection (l : nat) (conn_id : string) (w : World) : World :=
  set_lheap (alter (λ x, mkListener (l_key x) (l_active x)
                           (delete conn_id (l_connections x))) l (lheap w)) w.

(** [Listener::deactivate]: the connections it drained. *)
Definition deactivate (l : nat) (w : World) : list (string * nat) * World :=
  let conns := match lheap w !! l with
               | Some x => map_to_list (l_connections x)
               | None => [] end in
  (filter (λ c, upgrades c.2 w = true) conns,
   set_lheap (alter (λ x, mkListener (l_key x) false ∅) l (lheap w)) w).

(** ** The registry: [registry_store.rs] *)

(** [detach_socket_state], and [detach_socket] which drops its result. *)
Definition detach_socket (conn_id : string) (w : World) : World :=
  match sockets (reg w) !! conn_id with
  | Some entry =>
      detach_connection (se_listener entry) conn_id
        (set_sockets (delete conn_id (sockets (reg w))) w)
  | None => w
  end.

(** [Listener::notify_close_best_effort]. *)
Definition notify_close_best_effort (l : nat) (conn_id : string) (w : World) : World :=
  call_event (mkEvent l "close" conn_id []) w.

(** [Registry::deactivate_listener]. *)
Definition close_drained (l : nat) (c : string * nat) (w : World) : World :=
  let w := notify_close_best_effort l c.1 w in
  let w := set_sheap (alter (abort ("virtual listener '" +:+ listener_key l w
                                    +:+ "' was unregistered")) c.2 (sheap w)) w in
  detach_socket c.1 w.
Definition deactivate_listener (l : nat) (w : World) : World :=
  let '(drained, w) := deactivate l w in
  fold_left (λ w c, close_drained l c w) drained w.

Definition register_listener (key : string) (w : World) : result unit string * World :=
  match listeners (reg w) !! key with
  | Some _ => (Err ("virtual listener '" +:+ key +:+ "' already exists"), w)
  | None =>
      let l := length (lheap w) in
      (Ok tt, set_listeners (<[key := l]> (listeners (reg w)))
                (set_lheap (lheap w ++ [Listener_new key]) w))
  end.

Definition unregister_listener (key : string) (w : World) : result bool string * World :=
  match listeners (reg w) !! key with
  | None => (Ok false, w)
  | Some l =>
      (Ok true, deactivate_listener l (set_listeners (delete key (listeners (reg w))) w))
  end.

Definition deactivate_listener_instance (l : nat) (w : World) : World :=
  let key := listener_key l w in
  let w := if bool_decide (listeners (reg w) !! key = Some l)
           then set_listeners (delete key (listeners (reg w))) w else w in
  deactivate_listener l w.

Definition deactivate_socket_listener (conn_id : string) (w : World) : World :=
  match sockets (reg w) !! conn_id with
  | Some entry => deactivate_listener_instance (se_listener entry) w
  | None => w
  end.

(** [next_conn_id]: [fetch_add] on a [u64] wraps. *)
Definition conn_id_of (key : string) (n : Z) : string := key +:+ ":conn:" +:+ to_string_Z n.
Definition next_conn_id (key : string) (w : World) : string * World :=
  let n := seq (reg w) in
  (conn_id_of key n,
   set_reg (mkRegistry (listeners (reg w)) (sockets (reg w)) (wrap_u64 (n + 1))) w).

Definition attach_socket_state (conn_id : string) (state l : nat) (w : World) : World :=
  set_sockets (<[conn_id := mkSocketEntry state l]> (sockets (reg w))) w.

Definition init_connect (l : nat) (w : World) : result string string * World :=
  if negb (is_active l w) then (Err "ConnectError", w)
  else
    let '(conn_id, w) := next_conn_id (listener_key l w) w in
    let state := length (sheap w) in
    let w := set_sheap (sheap w ++ [new]) w in
    match attach_connection l conn_id state w with
    | (Err _, w) => (Err "ConnectError", w)
    | (Ok _, w) =>
        let w := attach_socket_state conn_id state l w in
        if match sockets (reg w) !! conn_id with
           | Some entry => is_active (se_listener entry) w
           | None => false
           end
        then (Ok conn_id, w)
        else (Err "ConnectError", detach_socket conn_id w)
    end.

(** [Registry::listener] and [Registry::socket_state]. *)
Definition listener (key : string) (w : World) : result nat string :=
  ok_or (listeners (reg w) !! key) "ConnectError".
Definition socket_state (conn_id : string) (w : World) : option nat :=
  se_state <$> sockets (reg w) !! conn_id.

(** ** Callbacks: [registry.rs] *)

Definition on_write (l : nat) (conn_id : string) (data : bytes) (status : Status) (w : World)
    : result unit string * World :=
  if negb (is_active l w) then
    (Err ("virtual listener '" +:+ listener_key l w +:+ "' is not active"), w)
  else
    let w := call_event (mkEvent l "write" conn_id data) w in
    if decide (status = StatusOk) then (Ok tt, w)
    else
      let w := if tsfn_closed status then deactivate_socket_listener conn_id w else w in
      (Err ("virtual listener '" +:+ listener_key l w +:+ "' on_write failed for conn '"
            +:+ conn_id +:+ "': " +:+ status_debug status), w).

Definition on_close (l : nat) (conn_id : string) (status : Status) (w : World)
    : result unit string * World :=
  if negb (is_active l w) then (Ok tt, detach_socket conn_id w)
  else
    let w := call_event (mkEvent l "close" conn_id []) w in
    if decide (status = StatusOk) then (Ok tt, detach_socket conn_id w)
    else if tsfn_closed status then (Ok tt, deactivate_socket_listener conn_id w)
    else (Err ("virtual listener '" +:+ listener_key l w +:+ "' on_close failed for conn '"
               +:+ conn_id +:+ "': " +:+ status_debug status), w).

(** ** Connecting: [registry_connect.rs]

    [connect] awaits the [open] callback: other operations may run in between,
    so it is two steps. *)
Definition connect_open (l : nat) (w : World) : result string string * World :=
  match init_connect l w with
  | (Err e, w) => (Err e, w)
  | (Ok conn_id, w) => (Ok conn_id, call_event (mkEvent l "open" conn_id []) w)
  end.

Definition connect_resume (l : nat) (conn_id : string) (status : Status) (w : World)
    : result VirtualJsSocket string * World :=
  if decide (status = StatusOk) then
    if negb (is_active l w) then (Err "ConnectError", detach_socket conn_id w)
    else match socket_state conn_id w with
         | None => (Err "ConnectError", w)
         | Some state =>
             let s := mkVirtualJsSocket conn_id state l in
             (Ok s, set_streams (streams w ++ [s]) w)
         end
  else
    let w := if tsfn_closed status then deactivate_listener_instance l w else w in
    (Err "ConnectError", detach_socket conn_id w).

(** ** The stream's write half: [socket.rs] *)

Definition stream_state (s : VirtualJsSocket) (w : World) : SocketState :=
  default new (sheap w !! vs_state s).

Definition poll_write (s : VirtualJsSocket) (buf : bytes) (status : Status) (w : World)
    : result nat string * World :=
  if closed (stream_state s w) then (Err "socket closed", w)
  else match on_write (vs_listener s) (vs_conn_id s) buf status w with
       | (Err e, w) => (Err e, w)
       | (Ok _, w) => (Ok (length buf), w)
       end.

Definition poll_shutdown (s : VirtualJsSocket) (status : Status) (w : World)
    : result unit string * World :=
  on_close (vs_listener s) (vs_conn_id s) status
    (set_sheap (alter close (vs_state s) (sheap w)) w).

Definition is_reusable (s : VirtualJsSocket) (w : World) : bool :=
  is_active (vs_listener s) w && negb (is_closed (stream_state s w)).

Definition stream_poll_read (task cap : nat) (s : VirtualJsSocket) (w : World)
    : Poll (result unit string) * bytes * World :=
  let '(r, got, st) := poll_read task [] cap (stream_state s w) in
  (r, got, set_sheap (<[vs_state s := st]> (sheap w)) w).

(** Dropping the stream releases its [Arc]s; there is no [Drop] code. *)
Definition drop_stream (n : nat) (w : World) : World :=
  set_streams (delete n (streams w)) w.

(** ** The JavaScript API: [registry_api.rs] *)

(** [built] is the result of building the thread-safe function. *)
Definition register_virtual_listener (key : string) (built : result unit string) (w : World)
    : result unit string * World :=
  if is_empty (trim key) then (Err "virtual listener key cannot be empty", w)
  else match built with
       | Err e => (Err ("failed to build on_event tsfn: " +:+ e), w)
       | Ok _ => register_listener key w
       end.

Definition unregister_virtual_listener (key : string) (w : World) : result bool string * World :=
  if is_empty (trim key) then (Err "virtual listener key cannot be empty", w)
  else unregister_listener key w.

(** Run a socket operation on the state of a connection. *)
Definition on_socket (conn_id : string) (w : World)
    (f : SocketState → result unit string * SocketState) : result unit string * World :=
  match socket_state conn_id w with
  | None => (Err ("socket '" +:+ conn_id +:+ "' not found"), w)
  | Some loc =>
      let '(r, st) := f (default new (sheap w !! loc)) in
      (r, set_sheap (<[loc := st]> (sheap w)) w)
  end.

Definition push_event (kind conn_id : string) (data : option bytes) (message : option string)
    (w : World) : result unit string * World :=
  if decide (kind = "data") then
    match data with
    | None => (Err "virtual_push_event kind=data requires data", w)
    | Some payload => on_socket conn_id w (push_data payload)
    end
  else if decide (kind = "eof") then
    match on_socket conn_id w push_eof with
    | (Err e, w) => (Err e, w)
    | (Ok _, w) => (Ok tt, detach_socket conn_id w)
    end
  else if decide (kind = "error") then
    match message with
    | None => (Err "virtual_push_event kind=error requires message", w)
    | Some msg =>
        match on_socket conn_id w (push_error msg) with
        | (Err e, w) => (Err e, w)
        | (Ok _, w) => (Ok tt, detach_socket conn_id w)
        end
    end
  else (Err ("unsupported virtual_push_event kind '" +:+ kind +:+ "'"), w).

(** ** Runs *)

(** Every operation the two sides can perform, with the statuses the callbacks
    return. A stream is named by its position in [streams]. *)
Inductive Op :=
| OpRegister (key : string) (built : result unit string)
| OpUnregister (key : string)
| OpPush (kind conn_id : string) (data : option bytes) (message : option string)
| OpConnectOpen (l : nat)
| OpConnectResume (l : nat) (conn_id : string) (status : Status)
| OpRead (n task cap : nat)
| OpWrite (n : nat) (buf : bytes) (status : Status)
| OpShutdown (n : nat) (status : Status)
| OpDrop (n : nat).

Definition with_stream (n : nat) (w : World) (f : VirtualJsSocket → World) : World :=
  match streams w !! n with Some s => f s | None => w end.

Definition run_reg_op (op : Op) (w : World) : World :=
  match op with
  | OpRegister key built => (register_virtual_listener key built w).2
  | OpUnregister key => (unregister_virtual_listener key w).2
  | OpPush kind c d m => (push_event kind c d m w).2
  | OpConnectOpen l => (connect_open l w).2
  | OpConnectResume l c st => (connect_resume l c st w).2
  | OpRead n task cap => with_stream n w (λ s, (stream_poll_read task cap s w).2)
  | OpWrite n buf st => with_stream n w (λ s, (poll_write s buf st w).2)
  | OpShutdown n st => with_stream n w (λ s, (poll_shutdown s st w).2)
  | OpDrop n => drop_stream n w
  end.

Definition run_reg_ops (ops : list Op) (w : World) : World :=
  fold_left (λ w op, run_reg_op op w) ops w.

(** ** The registry invariant *)

Record reg_inv (w : World) : Prop := {
  (** A registered listener is active and bears its key. *)
  inv_registered k l : listeners (reg w) !! k = Some l →
    ∃ x, lheap w !! l = Some x ∧ l_key x = k ∧ l_active x = true;
  (** An active listener is registered. *)
  inv_active l x : lheap w !! l = Some x → l_active x = true →
    listeners (reg w) !! l_key x = Some l;
  (** A socket entry belongs to an active listener that knows it. *)
  inv_socket c e : sockets (reg w) !! c = Some e →
    ∃ x, lheap w !! se_listener e = Some x ∧ l_active x = true ∧
         l_connections x !! c = Some (se_state e);
  (** The socket states are allocated. *)
  inv_alloc c e : sockets (reg w) !! c = Some e → se_state e < length (sheap w);
  (** Connections share no state. *)
  inv_states c1 c2 e1 e2 : sockets (reg w) !! c1 = Some e1 → sockets (reg w) !! c2 = Some e2 →
    se_state e1 = se_state e2 → c1 = c2;
  (** A connection a listener knows is in the socket map. *)
  inv_connection l x c s : lheap w !! l = Some x → l_connections x !! c = Some s →
    sockets (reg w) !! c = Some (mkSocketEntry s l);
  (** Live ids were issued. *)
  inv_ids c e : sockets (reg w) !! c = Some e →
    ∃ k n, c = conn_id_of k n ∧ (0 ≤ n < seq (reg w))%Z;
  inv_seq : (0 ≤ seq (reg w))%Z;
}.

Lemma reg_inv_new : reg_inv World_new.
Proof. split; simpl; try done; intros *; rewrite ?lookup_empty, ?lookup_nil; done. Qed.

(** The invariant ignores the streams, the calls and the contents of sockets. *)
Lemma reg_inv_frame w w' :
  reg w' = reg w → lheap w' = lheap w → length (sheap w) ≤ length (sheap w') →
  reg_inv w → reg_inv w'.
Proof.
  intros Hr Hl Hs []. split; rewrite ?Hr, ?Hl; eauto.
  intros c e He. specialize (inv_alloc0 c e He). lia.
Qed.

Lemma conn_id_of_inj k1 n1 k2 n2 :
  (0 ≤ n1)%Z → (0 ≤ n2)%Z → conn_id_of k1 n1 = conn_id_of k2 n2 → n1 = n2.
Proof.
  intros Hn1 Hn2 Heq. apply to_string_Z_inj; [done..|].
  assert (∀ k n, conn_id_of k n = (k +:+ ":conn") +:+ String ":" (to_string_Z n)) as Hid.
  { intros k n. unfold conn_id_of. by rewrite append_assoc_str. }
  rewrite !Hid in Heq. eapply append_last_inj; [done|by apply to_string_Z_no_colon..].
Qed.

Lemma detach_inv c w : reg_inv w → reg_inv (detach_socket c w).
Proof.
  intros Hinv. unfold detach_socket. destruct (sockets (reg w) !! c) as [e|] eqn:He; [|done].
  destruct Hinv as [Hr Ha Hs Hal Hst Hc Hid Hq]. destruct (Hs c e He) as (x & Hx & Hax & Hcx).
  split; simpl; [| | | | | | |done].
  - intros k l Hk. destruct (Hr k l Hk) as (y & Hy & Hky & Hay).
    destruct (decide (l = se_listener e)) as [->|Hne].
    + rewrite list_lookup_alter_eq, Hy. eauto.
    + rewrite list_lookup_alter_ne by done. eauto.
  - intros l y. destruct (decide (l = se_listener e)) as [->|Hne].
    + rewrite list_lookup_alter_eq, Hx. intros [= <-] Hy. simpl. by apply (Ha _ x).
    + rewrite list_lookup_alter_ne by done. apply Ha.
  - intros c' e' [Hne He']%lookup_delete_Some. destruct (Hs c' e' He') as (y & Hy & Hay & Hcy).
    destruct (decide (se_listener e' = se_listener e)) as [Heq|Hnl].
    + rewrite Heq in *. rewrite list_lookup_alter_eq, Hy. eexists. split; [done|]. simpl.
      by rewrite lookup_delete_ne.
    + rewrite list_lookup_alter_ne by done. eauto.
  - intros c' e' [_ He']%lookup_delete_Some. eauto.
  - intros c1 c2 e1 e2 [_ H1]%lookup_delete_Some [_ H2]%lookup_delete_Some. eauto.
  - intros l y c' s. destruct (decide (l = se_listener e)) as [->|Hne].
    + rewrite list_lookup_alter_eq, Hx. intros [= <-]. simpl.
      intros [Hcc Hcs]%lookup_delete_Some. rewrite lookup_delete_ne by done. by eapply Hc.
    + rewrite list_lookup_alter_ne by done. intros Hy Hcs. specialize (Hc l y c' s Hy Hcs).
      apply lookup_delete_Some. split; [|done]. intros ->. by simplify_eq.
  - intros c' e' [_ He']%lookup_delete_Some. eauto.
Qed.

(** *** Deactivation *)

Definition drain_loop (l : nat) (todo : list (string * nat)) (w : World) : World :=
  fold_left (λ w c, close_drained l c w) todo w.

(** A state that every reader and writer finds finished. *)
Definition finished (s : SocketState) : Prop :=
  closed s = true ∧ (eof (read s) = true ∨ err (read s) ≠ None).

Lemma abort_finished m s : finished (abort m s).
Proof.
  unfold finished, abort, wake. simpl. destruct (waker s); simpl;
    destruct (eof (read s)) eqn:He, (err (read s)) eqn:Hr; simpl; rewrite ?He, ?Hr; auto.
Qed.

Lemma detach_emptied c w x :
  (∀ e, sockets (reg w) !! c = Some e → lheap w !! se_listener e = Some x) →
  l_connections x = ∅ →
  lheap (detach_socket c w) = lheap w ∧
  sockets (reg (detach_socket c w)) = delete c (sockets (reg w)) ∧
  listeners (reg (detach_socket c w)) = listeners (reg w) ∧
  seq (reg (detach_socket c w)) = seq (reg w) ∧ sheap (detach_socket c w) = sheap w.
Proof.
  intros Hl Hx. unfold detach_socket. destruct (sockets (reg w) !! c) as [e|] eqn:He; simpl.
  - split_and!; try done. apply list_eq. intros i.
    destruct (decide (i = se_listener e)) as [->|Hne].
    + rewrite list_lookup_alter_eq, (Hl e) by done. simpl. rewrite Hx, delete_empty, <-Hx.
      by destruct x.
    + by rewrite list_lookup_alter_ne.
  - by rewrite delete_id.
Qed.

Lemma drain_loop_spec l todo w x :
  lheap w !! l = Some x → l_connections x = ∅ →
  (∀ c e, c ∈ todo.*1 → sockets (reg w) !! c = Some e → se_listener e = l) →
  let w' := drain_loop l todo w in
  lheap w' = lheap w ∧ listeners (reg w') = listeners (reg w) ∧
  seq (reg w') = seq (reg w) ∧ length (sheap w') = length (sheap w) ∧
  (∀ c e, sockets (reg w') !! c = Some e ↔ sockets (reg w) !! c = Some e ∧ c ∉ todo.*1) ∧
  (∀ loc st, sheap w !! loc = Some st → finished st ∨ loc ∈ todo.*2 →
     ∃ st', sheap w' !! loc = Some st' ∧ finished st') ∧
  (∀ loc, loc ∉ todo.*2 → sheap w' !! loc = sheap w !! loc).
Proof.
  intros Hx Hemp. revert w Hx. induction todo as [|[c s] todo IH]; intros w Hx Htodo.
  { simpl. split_and!; try done; [set_solver|]. intros loc st Hst [?|?]; [eauto|set_solver]. }
  set (w1 := close_drained l (c, s) w).
  assert (lheap w1 = lheap w ∧ sockets (reg w1) = delete c (sockets (reg w)) ∧
    listeners (reg w1) = listeners (reg w) ∧ seq (reg w1) = seq (reg w) ∧
    ∃ m, sheap w1 = alter (abort m) s (sheap w)) as (El & Es & Elm & Eq & m & Eh).
  { unfold w1, close_drained. simpl.
    match goal with |- context [detach_socket c ?w0] =>
      destruct (detach_emptied c w0 x) as (-> & -> & -> & -> & ->) end; simpl; eauto 10.
    intros e He. rewrite (Htodo c e); [done|set_solver|done]. }
  change (drain_loop l ((c, s) :: todo) w) with (drain_loop l todo w1). cbv zeta.
  destruct (IH w1) as (-> & -> & -> & -> & Hsock & Hfin & Hsame).
  { by rewrite El. }
  { intros c' e' Hc'. rewrite Es, lookup_delete_Some. intros [_ He'].
    apply (Htodo c' e'); [set_solver|done]. }
  rewrite El, Elm, Eq, Eh, length_alter. split_and!; try done.
  - intros c' e'. rewrite Hsock, Es, lookup_delete_Some. set_solver.
  - intros loc st Hst Hor. destruct (decide (loc = s)) as [->|Hne].
    + apply (Hfin s (abort m st)); [by rewrite Eh, list_lookup_alter_eq, Hst|].
      left. apply abort_finished.
    + apply (Hfin loc st); [by rewrite Eh, list_lookup_alter_ne|]. set_solver.
  - intros loc Hloc. rewrite Hsame by set_solver.
    rewrite Eh, list_lookup_alter_ne by set_solver. done.
Qed.

(** What deactivating a listener instance does. *)
Lemma deactivate_instance_spec l x w :
  reg_inv w → lheap w !! l = Some x →
  let w' := deactivate_listener_instance l w in
  lheap w' = <[l := mkListener (l_key x) false ∅]> (lheap w) ∧
  (∀ k l', listeners (reg w') !! k = Some l' ↔ listeners (reg w) !! k = Some l' ∧ l' ≠ l) ∧
  seq (reg w') = seq (reg w) ∧ length (sheap w') = length (sheap w) ∧
  (∀ c e, sockets (reg w') !! c = Some e ↔
            sockets (reg w) !! c = Some e ∧ se_listener e ≠ l) ∧
  (∀ c e st, sockets (reg w) !! c = Some e → se_listener e = l →
     sheap w !! se_state e = Some st → ∃ st', sheap w' !! se_state e = Some st' ∧ finished st') ∧
  (∀ loc, (∀ c, sockets (reg w) !! c ≠ Some (mkSocketEntry loc l)) →
     sheap w' !! loc = sheap w !! loc).
Proof.
  intros Hinv Hx. destruct Hinv as [Hr Ha Hs Hal Hst Hc Hid Hq].
  unfold deactivate_listener_instance, listener_key. rewrite Hx.
  set (w0 := if bool_decide _ then _ else w).
  assert (lheap w0 = lheap w ∧ sockets (reg w0) = sockets (reg w) ∧
    seq (reg w0) = seq (reg w) ∧ sheap w0 = sheap w ∧
    (∀ k l', listeners (reg w0) !! k = Some l' ↔
       listeners (reg w) !! k = Some l' ∧ l' ≠ l)) as (E1 & E2 & E3 & E4 & E5).
  { unfold w0. case_bool_decide as Hreg; split_and!; try done; intros k l'; simpl.
    - rewrite lookup_delete_Some. split.
      + intros [Hne Hk]. split; [done|]. intros ->. destruct (Hr k l Hk) as (y & ? & <- & _).
        simplify_eq.
      + intros [Hk Hne]. split; [|done]. intros Hkx. congruence.
    - split; [|tauto]. intros Hk. split; [done|]. intros ->.
      destruct (Hr k l Hk) as (y & ? & <- & _). simplify_eq. }
  clearbody w0. unfold deactivate_listener, deactivate. rewrite E1, Hx.
  set (w1 := set_lheap _ _). set (todo := filter _ _). fold (drain_loop l todo w1).
  assert (∀ c s, (c, s) ∈ todo ↔ l_connections x !! c = Some s) as Htodo.
  { intros c s. unfold todo. rewrite list_elem_of_filter, elem_of_map_to_list.
    split; [tauto|]. intros Hcs. split; [|done]. simpl. unfold upgrades.
    rewrite bool_decide_true; [done|]. rewrite E2. exists c, (mkSocketEntry s l).
    split; [by eapply Hc|done]. }
  destruct (drain_loop_spec l todo w1 (mkListener (l_key x) false ∅)) as
    (F1 & F2 & F3 & F4 & F5 & F6 & F7).
  { unfold w1. simpl. by rewrite list_lookup_alter_eq, Hx. }
  { done. }
  { intros c e ([c' s] & -> & Hcs)%list_elem_of_fmap He. apply Htodo in Hcs.
    apply (Hc l x) in Hcs; [|done]. simpl in He. rewrite E2 in He. by simplify_eq. }
  cbv zeta. rewrite F1, F2, F3, F4. unfold w1. simpl. rewrite E3, E4. split_and!; try done.
  - apply list_eq. intros i. destruct (decide (i = l)) as [->|Hne].
    + rewrite list_lookup_alter_eq, list_lookup_insert_eq, Hx; [done|].
      by eapply lookup_lt_Some.
    + by rewrite list_lookup_alter_ne, list_lookup_insert_ne.
  - intros c e. fold w1. rewrite F5. unfold w1. simpl. rewrite E2.
    split; intros [He Hn]; (split; [done|]).
    + intros Hl. destruct Hn. apply list_elem_of_fmap. exists (c, se_state e).
      split; [done|]. apply Htodo. destruct (Hs c e He) as (y & Hy & _ & Hcy).
      rewrite Hl in Hy. by simplify_eq.
    + intros ([c' s] & -> & Hcs)%list_elem_of_fmap. apply Htodo in Hcs.
      apply (Hc l x) in Hcs; [|done]. simpl in He. by simplify_eq.
  - intros c e st He Hl Hst0. fold w1. apply (F6 (se_state e) st).
    + unfold w1. simpl. by rewrite E4.
    + right. apply list_elem_of_fmap. exists (c, se_state e). split; [done|]. apply Htodo.
      destruct (Hs c e He) as (y & Hy & _ & Hcy). rewrite Hl in Hy. by simplify_eq.
  - intros loc Hloc. fold w1. rewrite F7; [unfold w1; simpl; by rewrite E4|].
    intros ([c s] & -> & Hcs%Htodo)%list_elem_of_fmap. by apply (Hloc c), (Hc l x).
Qed.

Lemma deactivate_instance_inv l w :
  reg_inv w → reg_inv (deactivate_listener_instance l w).
Proof.
  intros Hinv. destruct (lheap w !! l) as [x|] eqn:Hx.
  - destruct (deactivate_instance_spec l x w Hinv Hx) as (E1 & E2 & E3 & E4 & E5 & _).
    destruct Hinv as [Hr Ha Hs Hal Hst Hc Hid Hq].
    assert (l < length (lheap w)) as Hlt by by eapply lookup_lt_Some.
    split; rewrite ?E1, ?E3, ?E4; [| | | | | | |done].
    + intros k l' [Hk Hne]%E2. rewrite list_lookup_insert_ne by done. by apply Hr.
    + intros l' y. destruct (decide (l' = l)) as [->|Hne].
      * rewrite list_lookup_insert_eq by done. by intros [= <-].
      * rewrite list_lookup_insert_ne by done. intros Hy Hact. apply E2. by auto.
    + intros c e [He Hne]%E5. rewrite list_lookup_insert_ne by done. by apply Hs.
    + intros c e [He _]%E5. eauto.
    + intros c1 c2 e1 e2 [He1 _]%E5 [He2 _]%E5. eauto.
    + intros l' y c s. destruct (decide (l' = l)) as [->|Hne].
      * rewrite list_lookup_insert_eq by done. intros [= <-]. simpl. by rewrite lookup_empty.
      * rewrite list_lookup_insert_ne by done. intros Hy Hcs. apply E5. simpl. eauto.
    + intros c e [He _]%E5. eauto.
  - unfold deactivate_listener_instance, listener_key. rewrite Hx.
    rewrite bool_decide_false.
    2:{ intros Hk. by destruct (inv_registered w Hinv _ _ Hk) as (y & ? & _); simplify_eq. }
    unfold deactivate_listener, deactivate. rewrite Hx. simpl.
    apply (reg_inv_frame w); [done| |done|done]. simpl. apply list_eq. intros i.
    destruct (decide (i = l)) as [->|Hne]; [by rewrite list_lookup_alter_eq, Hx|].
    by rewrite list_lookup_alter_ne.
Qed.

Lemma deactivate_socket_listener_inv c w :
  reg_inv w → reg_inv (deactivate_socket_listener c w).
Proof.
  intros Hinv. unfold deactivate_socket_listener.
  destruct (sockets (reg w) !! c); [by apply deactivate_instance_inv|done].
Qed.

(** Unregistering a key deactivates the instance registered under it. *)
Lemma unregister_instance key l w :
  reg_inv w → listeners (reg w) !! key = Some l →
  unregister_listener key w = (Ok true, deactivate_listener_instance l w).
Proof.
  intros Hinv Hk. destruct (inv_registered w Hinv key l Hk) as (x & Hx & Hkey & _).
  unfold unregister_listener, deactivate_listener_instance, listener_key.
  rewrite Hk, Hx, Hkey, bool_decide_true by done. done.
Qed.

Lemma unregister_inv key w : reg_inv w → reg_inv (unregister_listener key w).2.
Proof.
  intros Hinv. destruct (listeners (reg w) !! key) as [l|] eqn:Hk.
  - rewrite (unregister_instance key l w) by done. by apply deactivate_instance_inv.
  - unfold unregister_listener. by rewrite Hk.
Qed.

Lemma register_inv key w : reg_inv w → reg_inv (register_listener key w).2.
Proof.
  intros Hinv. unfold register_listener.
  destruct (listeners (reg w) !! key) as [?|] eqn:Hk; [done|].
  destruct Hinv as [Hr Ha Hs Hal Hst Hc Hid Hq]. split; simpl; try done.
  - intros k l [[<- <-]|[Hne Hkl]]%lookup_insert_Some.
    + exists (Listener_new key). by rewrite list_lookup_middle.
    + destruct (Hr k l Hkl) as (x & Hx & ?). exists x. split; [|done].
      by apply lookup_app_l_Some.
  - intros l x [Hx|[Hge Hx]]%lookup_app_Some Hact.
    + pose proof (Ha l x Hx Hact) as Hl. rewrite lookup_insert_ne; [done|]. congruence.
    + apply list_lookup_singleton_Some in Hx as [Hl <-]. simpl.
      rewrite lookup_insert_eq. f_equal. lia.
  - intros c e He. destruct (Hs c e He) as (x & Hx & ?). exists x. split; [|done].
    by apply lookup_app_l_Some.
  - intros l x c s [Hx|[Hge Hx]]%lookup_app_Some; [by eapply Hc|].
    apply list_lookup_singleton_Some in Hx as [_ <-]. simpl. by rewrite lookup_empty.
Qed.

(** A new connection: its id is fresh, and both maps get it. *)
Lemma init_connect_spec l x w :
  reg_inv w → lheap w !! l = Some x → l_active x = true → (seq (reg w) + 1 < 2 ^ 64)%Z →
  let c := conn_id_of (l_key x) (seq (reg w)) in
  let s := length (sheap w) in
  sockets (reg w) !! c = None ∧
  init_connect l w =
    (Ok c, mkWorld (mkRegistry (listeners (reg w))
                      (<[c := mkSocketEntry s l]> (sockets (reg w))) (seq (reg w) + 1))
             (alter (λ x, mkListener (l_key x) (l_active x) (<[c := s]> (l_connections x))) l
                (lheap w))
             (sheap w ++ [new]) (streams w) (calls w)).
Proof.
  intros Hinv Hx Hact Hlt c s. split.
  { destruct (sockets (reg w) !! c) as [e|] eqn:He; [|done].
    destruct (inv_ids w Hinv c e He) as (k & n & Hcn & Hn).
    apply conn_id_of_inj in Hcn; [lia|apply (inv_seq w Hinv)|lia]. }
  unfold init_connect, is_active, listener_key. rewrite Hx, Hact. simpl.
  unfold attach_connection, is_active. simpl. rewrite Hx, Hact.
  unfold is_active. simpl. rewrite lookup_insert_eq. simpl.
  rewrite list_lookup_alter_eq, Hx. simpl. rewrite Hact. unfold c, s.
  unfold wrap_unsigned. rewrite Z.mod_small; [done|]. pose proof (inv_seq w Hinv). lia.
Qed.

Lemma init_connect_inv l w :
  reg_inv w → (seq (reg w) + 1 < 2 ^ 64)%Z → reg_inv (init_connect l w).2.
Proof.
  intros Hinv Hlt. destruct (lheap w !! l) as [x|] eqn:Hx.
  2:{ unfold init_connect, is_active. by rewrite Hx. }
  destruct (l_active x) eqn:Hact.
  2:{ unfold init_connect, is_active. by rewrite Hx, Hact. }
  destruct (init_connect_spec l x w Hinv Hx Hact Hlt) as [Hfresh ->]. simpl.
  set (c := conn_id_of _ _) in *. destruct Hinv as [Hr Ha Hs Hal Hst Hc Hid Hq].
  split; simpl; [| | | | | | |lia].
  - intros k l' Hk. destruct (Hr k l' Hk) as (y & Hy & ?).
    destruct (decide (l' = l)) as [->|Hne].
    + rewrite list_lookup_alter_eq, Hy. eauto.
    + rewrite list_lookup_alter_ne by done. eauto.
  - intros l' y. destruct (decide (l' = l)) as [->|Hne].
    + rewrite list_lookup_alter_eq, Hx. intros [= <-] _. simpl. by apply Ha.
    + rewrite list_lookup_alter_ne by done. apply Ha.
  - intros c' e [[<- <-]|[Hne He]]%lookup_insert_Some.
    + simpl. rewrite list_lookup_alter_eq, Hx. eexists. split; [done|]. simpl.
      by rewrite lookup_insert_eq.
    + destruct (Hs c' e He) as (y & Hy & Hay & Hcy).
      destruct (decide (se_listener e = l)) as [Heq|Hnl].
      * rewrite Heq in *. rewrite list_lookup_alter_eq, Hy. eexists. split; [done|]. simpl.
        by rewrite lookup_insert_ne.
      * rewrite list_lookup_alter_ne by done. eauto.
  - intros c' e [[<- <-]|[Hne He]]%lookup_insert_Some; rewrite length_app; simpl; [lia|].
    specialize (Hal c' e He). lia.
  - intros c1 c2 e1 e2 [[<- <-]|[Hne1 He1]]%lookup_insert_Some
      [[<- <-]|[Hne2 He2]]%lookup_insert_Some; simpl; intros Heq.
    + done.
    + specialize (Hal c2 e2 He2). lia.
    + specialize (Hal c1 e1 He1). lia.
    + eauto.
  - intros l' y c' s'. destruct (decide (l' = l)) as [->|Hne].
    + rewrite list_lookup_alter_eq, Hx. intros [= <-]. simpl.
      intros [[<- <-]|[Hcc Hcs]]%lookup_insert_Some; [by rewrite lookup_insert_eq|].
      rewrite lookup_insert_ne by done. by eapply Hc.
    + rewrite list_lookup_alter_ne by done. intros Hy Hcs.
      pose proof (Hc l' y c' s' Hy Hcs) as Hsk. rewrite lookup_insert_ne; [done|]. congruence.
  - intros c' e [[<- <-]|[Hne He]]%lookup_insert_Some.
    + exists (l_key x), (seq (reg w)). split; [done|]. lia.
    + destruct (Hid c' e He) as (k & n & -> & ?). exists k, n. split; [done|lia].
Qed.

(** *** Every operation preserves the invariant *)

(** The operations that issue no id. *)
Definition preserves (w w' : World) : Prop :=
  reg_inv w → reg_inv w' ∧ seq (reg w') = seq (reg w).

Lemma preserves_refl w : preserves w w.
Proof. by split. Qed.
Lemma preserves_trans w1 w2 w3 : preserves w1 w2 → preserves w2 w3 → preserves w1 w3.
Proof. intros H12 H23 Hinv. destruct (H12 Hinv) as [Hi <-]. by apply H23. Qed.
Lemma preserves_frame w w' :
  reg w' = reg w → lheap w' = lheap w → length (sheap w) ≤ length (sheap w') → preserves w w'.
Proof. intros Hr Hl Hs Hinv. split; [by apply (reg_inv_frame w)|by rewrite Hr]. Qed.
Lemma preserves_call e w : preserves w (call_event e w).
Proof. by apply preserves_frame. Qed.
Lemma preserves_detach c w : preserves w (detach_socket c w).
Proof.
  intros Hinv. split; [by apply detach_inv|]. unfold detach_socket.
  by destruct (sockets (reg w) !! c).
Qed.
Lemma preserves_instance l w : preserves w (deactivate_listener_instance l w).
Proof.
  intros Hinv. split; [by apply deactivate_instance_inv|].
  destruct (lheap w !! l) as [x|] eqn:Hx.
  - by destruct (deactivate_instance_spec l x w Hinv Hx) as (_ & _ & E & _).
  - unfold deactivate_listener_instance, deactivate_listener, deactivate.
    case_bool_decide; simpl; by rewrite Hx.
Qed.
Lemma preserves_socket_listener c w : preserves w (deactivate_socket_listener c w).
Proof.
  unfold deactivate_socket_listener.
  destruct (sockets (reg w) !! c); [apply preserves_instance|apply preserves_refl].
Qed.
Lemma preserves_on_socket c w f : preserves w (on_socket c w f).2.
Proof.
  unfold on_socket. destruct (socket_state c w) as [loc|]; [|apply preserves_refl].
  destruct (f _) as [r st]. apply preserves_frame; [done..|]. simpl. by rewrite length_insert.
Qed.

#[local] Hint Resolve preserves_refl preserves_call preserves_detach preserves_instance
  preserves_socket_listener preserves_on_socket : lonesome.

Lemma preserves_push_event kind c d m w : preserves w (push_event kind c d m w).2.
Proof.
  unfold push_event. repeat case_decide; eauto with lonesome.
  - destruct d; eauto with lonesome.
  - pose proof (preserves_on_socket c w push_eof) as Hp.
    destruct (on_socket c w push_eof) as [[[]|e] w1]; [|done].
    by eapply preserves_trans; [|apply preserves_detach].
  - destruct m as [msg|]; eauto with lonesome.
    pose proof (preserves_on_socket c w (push_error msg)) as Hp.
    destruct (on_socket c w (push_error msg)) as [[[]|e] w1]; [|done].
    by eapply preserves_trans; [|apply preserves_detach].
Qed.

Lemma preserves_on_write l c data st w : preserves w (on_write l c data st w).2.
Proof.
  unfold on_write. destruct (negb _); [apply preserves_refl|].
  case_decide; [apply preserves_call|].
  eapply preserves_trans; [apply preserves_call|]. destruct (tsfn_closed st); eauto with lonesome.
Qed.

Lemma preserves_on_close l c st w : preserves w (on_close l c st w).2.
Proof.
  unfold on_close. destruct (negb _); [apply preserves_detach|].
  case_decide; [|destruct (tsfn_closed st)]; simpl; eauto with lonesome;
    (eapply preserves_trans; [apply preserves_call|]); eauto with lonesome.
Qed.

Lemma preserves_resume l c st w : preserves w (connect_resume l c st w).2.
Proof.
  unfold connect_resume. case_decide.
  - destruct (negb _); [apply preserves_detach|].
    destruct (socket_state c w); [by apply preserves_frame|apply preserves_refl].
  - eapply preserves_trans; [|apply preserves_detach].
    destruct (tsfn_closed st); eauto with lonesome.
Qed.

Lemma preserves_unregister key w : preserves w (unregister_virtual_listener key w).2.
Proof.
  unfold unregister_virtual_listener. destruct (is_empty _); [apply preserves_refl|].
  intros Hinv. destruct (listeners (reg w) !! key) as [l|] eqn:Hk.
  - rewrite (unregister_instance key l w) by done. by apply preserves_instance.
  - unfold unregister_listener. rewrite Hk. done.
Qed.

Lemma preserves_register key built w : preserves w (register_virtual_listener key built w).2.
Proof.
  unfold register_virtual_listener. destruct (is_empty _); [apply preserves_refl|].
  destruct built; [|apply preserves_refl]. intros Hinv. split; [by apply register_inv|].
  unfold register_listener. by destruct (listeners (reg w) !! key).
Qed.

Lemma preserves_stream_ops op n w :
  match op with OpRead i _ _ | OpWrite i _ _ | OpShutdown i _ | OpDrop i => i = n
              | _ => False end →
  preserves w (run_reg_op op w).
Proof.
  destruct op as [| | | | |i task cap|i buf st|i st|i]; try done; intros ->; simpl;
    unfold with_stream.
  - destruct (streams w !! n) as [s|]; [|apply preserves_refl]. unfold stream_poll_read.
    destruct (poll_read _ _ _ _) as [[r got] st]. apply preserves_frame; [done..|].
    simpl. by rewrite length_insert.
  - destruct (streams w !! n) as [s|]; [|apply preserves_refl]. unfold poll_write.
    destruct (closed _); [apply preserves_refl|].
    pose proof (preserves_on_write (vs_listener s) (vs_conn_id s) buf st w) as Hp.
    by destruct (on_write _ _ _ _ _) as [[[]|e] w1].
  - destruct (streams w !! n) as [s|]; [|apply preserves_refl]. unfold poll_shutdown.
    eapply preserves_trans; [|apply preserves_on_close]. apply preserves_frame; [done..|].
    simpl. by rewrite length_alter.
  - by apply preserves_frame.
Qed.

Lemma connect_open_inv l w :
  reg_inv w → (seq (reg w) + 1 < 2 ^ 64)%Z →
  reg_inv (connect_open l w).2 ∧ (seq (reg (connect_open l w).2) ≤ seq (reg w) + 1)%Z.
Proof.
  intros Hinv Hlt. pose proof (init_connect_inv l w Hinv Hlt) as Hi. unfold connect_open.
  assert (seq (reg (init_connect l w).2) ≤ seq (reg w) + 1)%Z as Hs.
  { destruct (lheap w !! l) as [x|] eqn:Hx; [destruct (l_active x) eqn:Hact|].
    - destruct (init_connect_spec l x w Hinv Hx Hact Hlt) as [_ ->]. done.
    - unfold init_connect, is_active. rewrite Hx, Hact. simpl. lia.
    - unfold init_connect, is_active. rewrite Hx. simpl. lia. }
  destruct (init_connect l w) as [[c|e] w1]; [|done]. split; [|done].
  by apply (reg_inv_frame w1).
Qed.

Lemma run_reg_op_inv op w :
  reg_inv w → (seq (reg w) + 1 < 2 ^ 64)%Z →
  reg_inv (run_reg_op op w) ∧ (seq (reg (run_reg_op op w)) ≤ seq (reg w) + 1)%Z.
Proof.
  intros Hinv Hlt.
  assert (∀ w', preserves w w' → reg_inv w' ∧ (seq (reg w') ≤ seq (reg w) + 1)%Z) as Hp.
  { intros w' Hw'. destruct (Hw' Hinv) as [? ->]. split; [done|lia]. }
  destruct op; try (apply Hp; by eapply preserves_stream_ops).
  - apply Hp, preserves_register.
  - apply Hp, preserves_unregister.
  - apply Hp, preserves_push_event.
  - by apply connect_open_inv.
  - apply Hp, preserves_resume.
Qed.

(** Only opening a connection moves the counter. *)
Lemma run_reg_op_keeps op w :
  reg_inv w → (∀ l, op = OpConnectOpen l → (seq (reg w) + 1 < 2 ^ 64)%Z) →
  reg_inv (run_reg_op op w).
Proof.
  intros Hinv Hlt. destruct op as [| | |l| | | | |];
    try solve [eapply preserves_stream_ops; [reflexivity|exact Hinv]].
  - by apply preserves_register.
  - by apply preserves_unregister.
  - by apply preserves_push_event.
  - by apply connect_open_inv, (Hlt l).
  - by apply preserves_resume.
Qed.

Lemma run_reg_ops_inv ops w :
  reg_inv w → (seq (reg w) + Z.of_nat (length ops) < 2 ^ 64)%Z → reg_inv (run_reg_ops ops w).
Proof.
  revert w. induction ops as [|op ops IH]; intros w Hinv Hlt; [done|]. cbn [length] in Hlt.
  destruct (run_reg_op_inv op w) as [Hinv' Hs]; [done|lia|]. apply IH; [done|lia].
Qed.

(** ** Finished sockets stay finished *)

Definition ended (loc : nat) (w : World) : Prop :=
  ∃ st, sheap w !! loc = Some st ∧ finished st.
Definition keeps_ended (w w' : World) : Prop := ∀ loc, ended loc w → ended loc w'.

Lemma keeps_refl w : keeps_ended w w.
Proof. by intros loc. Qed.
Lemma keeps_trans w1 w2 w3 : keeps_ended w1 w2 → keeps_ended w2 w3 → keeps_ended w1 w3.
Proof. intros H12 H23 loc H1. by apply H23, H12. Qed.
Lemma keeps_sheap w w' : sheap w' = sheap w → keeps_ended w w'.
Proof. intros E loc. unfold ended. by rewrite E. Qed.
Lemma keeps_change w w' i st :
  (∀ s, sheap w !! i = Some s → finished s → finished st) →
  sheap w' = <[i := st]> (sheap w) → keeps_ended w w'.
Proof.
  intros Hf E loc (s & Hs & Hfin). unfold ended. rewrite E.
  destruct (decide (loc = i)) as [->|Hne].
  - rewrite list_lookup_insert_eq by by eapply lookup_lt_Some. eauto.
  - rewrite list_lookup_insert_ne by done. eauto.
Qed.
Lemma keeps_alter w w' i f :
  (∀ s, finished s → finished (f s)) → sheap w' = alter f i (sheap w) → keeps_ended w w'.
Proof.
  intros Hf E loc (s & Hs & Hfin). unfold ended. rewrite E.
  destruct (decide (loc = i)) as [->|Hne].
  - rewrite list_lookup_alter_eq, Hs. eexists. by split; [|apply Hf].
  - rewrite list_lookup_alter_ne by done. eauto.
Qed.
Lemma keeps_call e w w' : keeps_ended w w' → keeps_ended w (call_event e w').
Proof. intros Hk. eapply keeps_trans; [exact Hk|by apply keeps_sheap]. Qed.
Lemma keeps_detach c w w' : keeps_ended w w' → keeps_ended w (detach_socket c w').
Proof.
  intros Hk. eapply keeps_trans; [exact Hk|]. apply keeps_sheap. unfold detach_socket.
  by destruct (sockets (reg w') !! c).
Qed.

Lemma keeps_drain l todo w w' : keeps_ended w w' → keeps_ended w (drain_loop l todo w').
Proof.
  revert w'. induction todo as [|c todo IH]; intros w' Hk; [done|]. apply IH.
  unfold close_drained, notify_close_best_effort. apply keeps_detach.
  eapply keeps_trans; [exact Hk|].
  eapply keeps_alter; [|reflexivity]. intros s _. apply abort_finished.
Qed.
Lemma keeps_deactivate l w w' : keeps_ended w w' → keeps_ended w (deactivate_listener l w').
Proof.
  intros Hk. unfold deactivate_listener, deactivate. apply keeps_drain.
  eapply keeps_trans; [exact Hk|]. by apply keeps_sheap.
Qed.
Lemma keeps_instance l w w' :
  keeps_ended w w' → keeps_ended w (deactivate_listener_instance l w').
Proof.
  intros Hk. unfold deactivate_listener_instance. apply keeps_deactivate.
  case_bool_decide; [|done]. eapply keeps_trans; [exact Hk|]. by apply keeps_sheap.
Qed.
Lemma keeps_socket_listener c w w' :
  keeps_ended w w' → keeps_ended w (deactivate_socket_listener c w').
Proof.
  intros Hk. unfold deactivate_socket_listener.
  destruct (sockets (reg w') !! c); [by apply keeps_instance|done].
Qed.

Lemma keeps_on_socket c w f :
  (∀ s, finished s → finished (f s).2) → keeps_ended w (on_socket c w f).2.
Proof.
  intros Hf. unfold on_socket. destruct (socket_state c w) as [loc|]; [|apply keeps_refl].
  destruct (f (default new (sheap w !! loc))) as [r st] eqn:E.
  eapply keeps_change; [|reflexivity]. intros s Hs Hfin. rewrite Hs in E. simpl in E.
  specialize (Hf s Hfin). by rewrite E in Hf.
Qed.

#[local] Hint Resolve keeps_refl keeps_call keeps_detach keeps_deactivate keeps_instance
  keeps_socket_listener : keeps.

Lemma finished_push d m s :
  finished s → finished (push_data d s).2 ∧ finished (push_eof s).2 ∧ finished (push_error m s).2.
Proof.
  intros Hf. unfold push_data, push_eof, push_error. destruct Hf as [Hc He] eqn:E.
  by rewrite Hc.
Qed.
Lemma keeps_push kind c d m w : keeps_ended w (push_event kind c d m w).2.
Proof.
  unfold push_event. repeat case_decide; eauto with keeps.
  - destruct d as [d|]; [|apply keeps_refl]. apply keeps_on_socket.
    intros s Hs. by apply (finished_push d "").
  - pose proof (keeps_on_socket c w push_eof) as Hk.
    destruct (on_socket c w push_eof) as [[] w1]; [apply keeps_detach|];
      apply Hk; intros s Hs; by apply (finished_push [] "").
  - destruct m as [m|]; [|apply keeps_refl].
    pose proof (keeps_on_socket c w (push_error m)) as Hk.
    destruct (on_socket c w (push_error m)) as [[] w1]; [apply keeps_detach|];
      apply Hk; intros s Hs; by apply (finished_push [] m).
Qed.
Lemma keeps_on_write l c buf st w : keeps_ended w (on_write l c buf st w).2.
Proof. unfold on_write. repeat case_match; simpl; eauto 6 with keeps. Qed.
Lemma keeps_on_close l c st w w' :
  keeps_ended w w' → keeps_ended w (on_close l c st w').2.
Proof. unfold on_close. repeat case_match; simpl; eauto 6 with keeps. Qed.
Lemma keeps_resume l c st w : keeps_ended w (connect_resume l c st w).2.
Proof.
  unfold connect_resume. repeat case_match; simpl; eauto 6 with keeps; by apply keeps_sheap.
Qed.
Lemma keeps_unregister key w : keeps_ended w (unregister_virtual_listener key w).2.
Proof.
  unfold unregister_virtual_listener, unregister_listener.
  repeat case_match; simpl; eauto with keeps. apply keeps_deactivate. by apply keeps_sheap.
Qed.
Lemma keeps_open l w : keeps_ended w (connect_open l w).2.
Proof.
  assert (∀ w', keeps_ended w' (init_connect l w').2) as Hi.
  { clear w. intros w. unfold init_connect, attach_connection. case_match; [apply keeps_refl|].
    destruct (next_conn_id (listener_key l w) w) as [c w1] eqn:En.
    assert (keeps_ended w (set_sheap (sheap w1 ++ [new]) w1)) as Hk.
    { intros loc (s & Hs & Hf). injection En as <- <-. exists s. split; [|done]. simpl.
      by apply lookup_app_l_Some. }
    destruct (is_active l (set_sheap (sheap w1 ++ [new]) w1)); simpl; [|done].
    case_match; simpl; [|apply keeps_detach];
      (eapply keeps_trans; [exact Hk|by apply keeps_sheap]). }
  unfold connect_open. specialize (Hi w). destruct (init_connect l w) as [[c|] w1]; [|done].
  by apply keeps_call.
Qed.
Lemma finished_read task cap s : finished s → finished (poll_read task [] cap s).2.
Proof.
  intros [Hc He]. unfold poll_read, finished. simpl.
  destruct (err (read s)) as [m|] eqn:E; simpl; [rewrite E; auto|].
  destruct (fill _ _ _) as [q [|b got]]; simpl; [destruct (eof (read s)) eqn:Ee|]; simpl;
    rewrite ?Ee; auto.
Qed.

Lemma keeps_op op w : keeps_ended w (run_reg_op op w).
Proof.
  destruct op as [key built|key|kind c d m|l|l c st|n task cap|n buf st|n st|n]; simpl.
  - unfold register_virtual_listener, register_listener.
    repeat case_match; simpl; try apply keeps_refl. by apply keeps_sheap.
  - apply keeps_unregister.
  - apply keeps_push.
  - apply keeps_open.
  - apply keeps_resume.
  - unfold with_stream. destruct (streams w !! n) as [v|]; [|apply keeps_refl].
    unfold stream_poll_read, stream_state.
    destruct (poll_read _ _ _ _) as [[r got] st] eqn:E.
    eapply keeps_change; [|reflexivity]. intros s Hs Hf. rewrite Hs in E. simpl in E.
    pose proof (finished_read task cap s Hf) as Hr. by rewrite E in Hr.
  - unfold with_stream. destruct (streams w !! n) as [v|]; [|apply keeps_refl].
    unfold poll_write. destruct (closed _); [apply keeps_refl|].
    pose proof (keeps_on_write (vs_listener v) (vs_conn_id v) buf st w) as Hk.
    by destruct (on_write _ _ _ _ _) as [[] w1].
  - unfold with_stream. destruct (streams w !! n) as [v|]; [|apply keeps_refl].
    unfold poll_shutdown. apply keeps_on_close. eapply keeps_alter; [|reflexivity].
    intros s [_ He]. by split.
  - by apply keeps_sheap.
Qed.
Lemma keeps_ops ops w : keeps_ended w (run_reg_ops ops w).
Proof.
  revert w. induction ops as [|op ops IH]; intros w; [apply keeps_refl|].
  eapply keeps_trans; [apply keeps_op|apply IH].
Qed.

(** A stream whose socket is finished. *)
Lemma ended_stream v w buf st task cap :
  0 < cap → ended (vs_state v) w →
  is_reusable v w = false ∧ (poll_write v buf st w).1 = Err "socket closed" ∧
  (stream_poll_read task cap v w).1.1 ≠ Pending.
Proof.
  intros Hcap (s & Hs & Hcl & Hfin).
  assert (stream_state v w = s) as Hv by (unfold stream_state; by rewrite Hs). split_and!.
  - unfold is_reusable. rewrite Hv. unfold is_closed. rewrite Hcl. apply andb_false_r.
  - unfold poll_write. by rewrite Hv, Hcl.
  - unfold stream_poll_read. rewrite Hv.
    pose proof (poll_read_cases task cap s Hcap) as Hp.
    destruct (poll_read task [] cap s) as [[r got] s3]. simpl. intros ->.
    destruct Hp as (? & ? & _). destruct Hfin; congruence.
Qed.

(** ** What the registry promises *)

(** The worlds a run of fewer than 2^64 operations can reach: the connection
    counter has not wrapped. *)
Definition reachable (w : World) : Prop :=
  ∃ ops, (Z.of_nat (length ops) < 2 ^ 64)%Z ∧ w = run_reg_ops ops World_new.

Lemma reachable_inv w : reachable w → reg_inv w.
Proof.
  intros (ops & Hlen & ->). apply run_reg_ops_inv; [apply reg_inv_new|]. simpl. lia.
Qed.

(** In every reachable state a listener is active exactly while it is
    registered under its key, and the socket map and the listeners' connection
    maps agree: a live connection belongs to one active listener, which knows
    it under the same id and the same state, and listeners know no other. *)
Theorem registry_consistent w :
  reachable w →
  (∀ l x, lheap w !! l = Some x →
     (l_active x = true ↔ listeners (reg w) !! l_key x = Some l)) ∧
  (∀ c s l, sockets (reg w) !! c = Some (mkSocketEntry s l) ↔
     ∃ x, lheap w !! l = Some x ∧ l_active x = true ∧ l_connections x !! c = Some s).
Proof.
  intros [Hr Ha Hs Hal Hst Hc Hid Hq]%reachable_inv. split.
  - intros l x Hx. split; [by apply Ha|]. intros Hk. destruct (Hr _ _ Hk) as (y & ? & _ & ?).
    by simplify_eq.
  - intros c s l. split; [intros He; by apply (Hs c _ He)|].
    intros (x & Hx & _ & Hcs). by eapply Hc.
Qed.

(** Opening a connection on an active listener always succeeds, with an id
    that no live connection bears, and the connection is then open for
    JavaScript to push data into. *)
Lemma connect_fresh w l x :
  reg_inv w → (seq (reg w) + 1 < 2 ^ 64)%Z →
  lheap w !! l = Some x → l_active x = true →
  ∃ c w', connect_open l w = (Ok c, w') ∧ sockets (reg w) !! c = None ∧
    ∀ d, (push_event "data" c (Some d) None w').1 = Ok tt.
Proof.
  intros Hinv Hlt Hx Hact.
  destruct (init_connect_spec l x w Hinv Hx Hact Hlt) as [Hf E].
  eexists _, _. unfold connect_open. rewrite E. split; [done|]. split; [done|].
  intros d. unfold push_event. rewrite decide_True by done. unfold on_socket, socket_state.
  simpl. rewrite lookup_insert_eq. simpl. rewrite list_lookup_middle by done. done.
Qed.

(** C24: Unregistering a listener while no other operation is under way cuts
    off every connection it had, and only those: the connection is gone from
    the registry, so JavaScript can no longer push into it, and from then on,
    whatever operations follow, a stream on it is not reusable, its writes
    fail and its reads are never pending. The connections of other listeners
    stay in the registry with their sockets exactly as they were (data,
    errors, wakers), as does every other socket a stream may still hold, and
    the key can be registered anew. *)
Theorem unregister_cuts_off w key l :
  reachable w → listeners (reg w) !! key = Some l →
  let '(r, w') := unregister_listener key w in
  r = Ok true ∧ listeners (reg w') !! key = None ∧
  (∀ c e, sockets (reg w') !! c = Some e ↔
          sockets (reg w) !! c = Some e ∧ se_listener e ≠ l) ∧
  (∀ c e, sockets (reg w') !! c = Some e →
     sheap w' !! se_state e = sheap w !! se_state e) ∧
  (∀ loc, (∀ c, sockets (reg w) !! c ≠ Some (mkSocketEntry loc l)) →
     sheap w' !! loc = sheap w !! loc) ∧
  (∀ c s ops buf st task cap, 0 < cap → sockets (reg w) !! c = Some (mkSocketEntry s l) →
     let v := mkVirtualJsSocket c s l in
     let w'' := run_reg_ops ops w' in
     is_reusable v w'' = false ∧ (poll_write v buf st w'').1 = Err "socket closed" ∧
     (stream_poll_read task cap v w'').1.1 ≠ Pending).
Proof.
  intros Hinv%reachable_inv Hk. rewrite (unregister_instance key l w) by done.
  destruct (inv_registered w Hinv key l Hk) as (x & Hx & Hkey & Hact).
  destruct (deactivate_instance_spec l x w Hinv Hx) as (E1 & E2 & E3 & E4 & E5 & E6 & E7).
  set (w' := deactivate_listener_instance l w) in *. split_and!; [done| |exact E5| |exact E7|].
  { destruct (listeners (reg w') !! key) as [l'|] eqn:Hl'; [|done].
    apply E2 in Hl' as [? ?]. congruence. }
  { intros c e [He Hne]%E5. apply E7. intros c' He'.
    pose proof (inv_states w Hinv c c' e _ He He' eq_refl). subst c'.
    rewrite He in He'. injection He' as He'. by rewrite He' in Hne. }
  intros c s ops buf st task cap Hcap Hc v w''. apply ended_stream; [done|]. apply keeps_ops.
  destruct (lookup_lt_is_Some_2 (sheap w) s) as [st0 Hst0]; [apply (inv_alloc w Hinv c _ Hc)|].
  exact (E6 c _ st0 Hc eq_refl Hst0).
Qed.

(** A callback that reports a closed function after its listener was already
    deactivated leaves a newer listener registered under the same key, and all
    live connections, untouched. *)
Theorem stale_deactivation_harmless w l x :
  reachable w → lheap w !! l = Some x → l_active x = false →
  let w' := deactivate_listener_instance l w in
  listeners (reg w') = listeners (reg w) ∧ sockets (reg w') = sockets (reg w).
Proof.
  intros Hinv%reachable_inv Hx Hact. cbv zeta.
  destruct (deactivate_instance_spec l x w Hinv Hx) as (_ & E2 & _ & _ & E5 & _ & _).
  split; apply map_eq; intros k; apply option_eq; intros v; rewrite ?E2, ?E5;
    (split; [tauto|]); intros Hv; (split; [done|]); intros Heq.
  - subst v. destruct (inv_registered w Hinv k l Hv) as (y & ? & _ & ?). congruence.
  - destruct (inv_socket w Hinv k v Hv) as (y & Hy & ? & _). rewrite Heq in Hy. congruence.
Qed.

(** ** Witnesses *)

(** Two listeners, one connection, then the first key is registered anew. *)
Definition demo_ops : list Op :=
  [OpRegister "app" (Ok tt); OpRegister "api" (Ok tt); OpConnectOpen 0;
   OpConnectResume 0 "app:conn:0" StatusOk].
Definition demo_world : World := run_reg_ops demo_ops World_new.

Lemma demo_reachable : reachable demo_world.
Proof. exists demo_ops. split; [simpl; lia|done]. Qed.

Lemma registry_consistent_witness :
  sockets (reg demo_world) !! "app:conn:0" = Some (mkSocketEntry 0 0) ∧
  ∃ x, lheap demo_world !! 0 = Some x ∧ l_active x = true ∧
       l_connections x !! "app:conn:0" = Some 0.
Proof.
  split; [vm_compute; reflexivity|].
  apply (proj2 (registry_consistent demo_world demo_reachable)). vm_compute. reflexivity.
Defined.

Lemma connect_fresh_witness :
  ∃ c w', connect_open 1 demo_world = (Ok c, w') ∧ sockets (reg demo_world) !! c = None ∧
    ∀ d, (push_event "data" c (Some d) None w').1 = Ok tt.
Proof.
  apply (connect_fresh demo_world 1 (Listener_new "api") (reachable_inv _ demo_reachable));
    vm_compute; reflexivity.
Defined.

Lemma unregister_cuts_off_witness :
  let '(r, w') := unregister_listener "app" demo_world in
  r = Ok true ∧ listeners (reg w') !! "app" = None ∧
  is_reusable (mkVirtualJsSocket "app:conn:0" 0 0)
    (run_reg_ops [OpRegister "app" (Ok tt); OpRead 0 1 8] w') = false.
Proof.
  pose proof (unregister_cuts_off demo_world "app" 0 demo_reachable eq_refl) as Hu.
  destruct (unregister_listener "app" demo_world) as [r w'].
  destruct Hu as (? & ? & _ & _ & _ & Hs). split_and!; [done..|].
  apply (Hs "app:conn:0" 0 [OpRegister "app" (Ok tt); OpRead 0 1 8] [] StatusOk 0 1);
    [lia|vm_compute; reflexivity].
Defined.

Definition demo_stale : World :=
  run_reg_ops (demo_ops ++ [OpUnregister "app"; OpRegister "app" (Ok tt)]) World_new.

Lemma stale_deactivation_harmless_witness :
  listeners (reg demo_stale) !! "app" = Some 2 ∧
  listeners (reg (deactivate_listener_instance 0 demo_stale)) = listeners (reg demo_stale).
Proof.
  split; [vm_compute; reflexivity|].
  apply (stale_deactivation_harmless demo_stale 0 (mkListener "app" false ∅)).
  - eexists. split; [|reflexivity]. simpl. lia.
  - vm_compute. reflexivity.
  - reflexivity.
Defined.
End VjsRegistry.
