(* ===== verification/VjsThreads.v ===== *)
(** * The virtual listener registry under concurrency

    The functions of [src/virtual_js/] run on the proxy's worker threads and on
    JavaScript's thread at once. Only [listener_write_lock] serialises changes
    of the listener map; [unregister_listener] and
    [deactivate_listener_instance] release it before they deactivate the
    listener, and [init_connect] never takes it. Here a function is the list of
    its atomic actions, an action being what happens under one lock or one
    atomic access, and the actions of any number of threads interleave. What
    happens to the contents of one socket is one action: see [VjsSocket]. *)

From S2P Require Import Prelude Text VjsSocket VjsRegistry.
From stdpp Require Import base tactics strings list gmap fin_maps relations.
From Stdlib Require Import ZArith Lia.

Module VjsThreads.
Import VjsSocket VjsRegistry.

(** The first eight are the calls of the two sides, with the status the
    callback will give; the others are what is left of a call. *)
Inductive Act :=
| ARegister (key : string) (built : result unit string)
| AUnregister (key : string)
| APush (kind conn_id : string) (data : option bytes) (message : option string)
| AConnect (l : nat) (status : Status)
| ARead (n task cap : nat)
| AWrite (n : nat) (buf : bytes) (status : Status)
| AShutdown (n : nat) (status : Status)
| ADrop (n : nat)
(** [deactivate_socket_listener], [deactivate_listener_instance],
    [Listener::deactivate] and the loop of [deactivate_listener]. *)
| ASocketListener (c : string)
| AInstance (l : nat)
| AInactive (l : nat)
| ADrain (l : nat)
| ANotify (l : nat) (c : string)
| AAbort (l s : nat)
(** [detach_socket_state]. *)
| ARemove (c : string)
| AForget (l : nat) (c : string)
(** [init_connect], then the rest of [connect]. *)
| AIssue (l : nat) (status : Status)
| AAttach (l : nat) (c : string) (s : nat) (status : Status)
| AInsert (l : nat) (c : string) (s : nat) (status : Status)
| ARecheck (l : nat) (c : string) (status : Status)
| AOpen (l : nat) (c : string) (status : Status)
| AResume (l : nat) (c : string) (status : Status)
| AStream (l : nat) (c : string)
(** [push_event] once it has the socket. *)
| APushData (s : nat) (data : bytes)
| APushEof (s : nat) (c : string)
| APushError (s : nat) (c message : string)
(** [on_write] and [on_close]. *)
| AOnWrite (l : nat) (c : string) (buf : bytes) (status : Status)
| ACallWrite (l : nat) (c : string) (buf : bytes) (status : Status)
| AOnClose (l : nat) (c : string) (status : Status)
| ACallClose (l : nat) (c : string) (status : Status).

Definition is_call (a : Act) : bool :=
  match a with
  | ARegister _ _ | AUnregister _ | APush _ _ _ _ | AConnect _ _ | ARead _ _ _ | AWrite _ _ _
  | AShutdown _ _ | ADrop _ => true
  | _ => false
  end.

(** The socket state a thread holds an [Arc] of until it has run the action. *)
Definition act_state (a : Act) : option nat :=
  match a with
  | AAbort _ s | AAttach _ _ s _ | AInsert _ _ s _ | APushData s _ | APushEof s _
  | APushError s _ _ => Some s
  | _ => None
  end.

(** [Weak::upgrade], with the threads [pend] among the owners. *)
Definition alive (pend : list Act) (s : nat) (w : World) : bool :=
  upgrades s w || existsb (λ a, bool_decide (act_state a = Some s)) pend.

(** The loop body of [Registry::deactivate_listener]. *)
Definition close_acts (l : nat) (c : string * nat) : list Act :=
  [ANotify l c.1; AAbort l c.2; ARemove c.1].

(** The lookup and the socket call of [push_event]. *)
Definition push_acts (kind c : string) (data : option bytes) (message : option string)
    (w : World) : list Act :=
  if decide (kind = "data") then
    match data, socket_state c w with Some d, Some s => [APushData s d] | _, _ => [] end
  else if decide (kind = "eof") then
    match socket_state c w with Some s => [APushEof s c] | None => [] end
  else if decide (kind = "error") then
    match message, socket_state c w with Some m, Some s => [APushError s c m] | _, _ => [] end
  else [].

Definition set_active (b : bool) (l : nat) (w : World) : World :=
  set_lheap (alter (λ x, mkListener (l_key x) b (l_connections x)) l (lheap w)) w.
Definition clear_connections (l : nat) (w : World) : World :=
  set_lheap (alter (λ x, mkListener (l_key x) (l_active x) ∅) l (lheap w)) w.
Definition change_socket (s : nat) (f : SocketState → SocketState) (w : World) : World :=
  set_sheap (<[s := f (default new (sheap w !! s))]> (sheap w)) w.

(** One action: what the thread has to do next, and the world. [pend] is what
    all threads have left to do. *)
Definition run_act (pend : list Act) (a : Act) (w : World) : list Act * World :=
  match a with
  | ARegister key built => ([], (register_virtual_listener key built w).2)
  | AUnregister key =>
      if is_empty (trim key) then ([], w)
      else match listeners (reg w) !! key with
           | None => ([], w)
           | Some l => ([AInactive l], set_listeners (delete key (listeners (reg w))) w)
           end
  | APush kind c d m => (push_acts kind c d m w, w)
  | AConnect l st => (if is_active l w then [AIssue l st] else [], w)
  | ARead n task cap => ([], with_stream n w (λ v, (stream_poll_read task cap v w).2))
  | AWrite n buf st =>
      (match streams w !! n with
       | Some v => if closed (stream_state v w) then []
                   else [AOnWrite (vs_listener v) (vs_conn_id v) buf st]
       | None => []
       end, w)
  | AShutdown n st =>
      match streams w !! n with
      | Some v => ([AOnClose (vs_listener v) (vs_conn_id v) st],
                   set_sheap (alter close (vs_state v) (sheap w)) w)
      | None => ([], w)
      end
  | ADrop n => ([], drop_stream n w)
  | ASocketListener c =>
      (match sockets (reg w) !! c with Some e => [AInstance (se_listener e)] | None => [] end, w)
  | AInstance l =>
      let key := listener_key l w in
      ([AInactive l], if bool_decide (listeners (reg w) !! key = Some l)
                      then set_listeners (delete key (listeners (reg w))) w else w)
  | AInactive l => ([ADrain l], set_active false l w)
  | ADrain l =>
      let conns := match lheap w !! l with
                   | Some x => map_to_list (l_connections x)
                   | None => [] end in
      (flat_map (close_acts l) (filter (λ c, alive pend c.2 w = true) conns),
       clear_connections l w)
  | ANotify l c => ([], notify_close_best_effort l c w)
  | AAbort l s =>
      ([], set_sheap (alter (abort ("virtual listener '" +:+ listener_key l w
                                    +:+ "' was unregistered")) s (sheap w)) w)
  | ARemove c =>
      match sockets (reg w) !! c with
      | Some e => ([AForget (se_listener e) c], set_sockets (delete c (sockets (reg w))) w)
      | None => ([], w)
      end
  | AForget l c => ([], detach_connection l c w)
  | AIssue l st =>
      let '(c, w1) := next_conn_id (listener_key l w) w in
      ([AAttach l c (length (sheap w1)) st], set_sheap (sheap w1 ++ [new]) w1)
  | AAttach l c s st =>
      match attach_connection l c s w with
      | (Ok _, w1) => ([AInsert l c s st], w1)
      | (Err _, w1) => ([], w1)
      end
  | AInsert l c s st => ([ARecheck l c st], attach_socket_state c s l w)
  | ARecheck l c st =>
      (if match sockets (reg w) !! c with
          | Some e => is_active (se_listener e) w
          | None => false
          end
       then [AOpen l c st] else [ARemove c], w)
  | AOpen l c st => ([AResume l c st], call_event (mkEvent l "open" c []) w)
  | AResume l c st =>
      (if decide (st = StatusOk) then if is_active l w then [AStream l c] else [ARemove c]
       else (if tsfn_closed st then [AInstance l] else []) ++ [ARemove c], w)
  | AStream l c =>
      ([], match socket_state c w with
           | Some s => set_streams (streams w ++ [mkVirtualJsSocket c s l]) w
           | None => w
           end)
  | APushData s d => ([], change_socket s (λ x, (push_data d x).2) w)
  | APushEof s c => ([ARemove c], change_socket s (λ x, (push_eof x).2) w)
  | APushError s c m => ([ARemove c], change_socket s (λ x, (push_error m x).2) w)
  | AOnWrite l c buf st => (if is_active l w then [ACallWrite l c buf st] else [], w)
  | ACallWrite l c buf st =>
      (if tsfn_closed st then [ASocketListener c] else [],
       call_event (mkEvent l "write" c buf) w)
  | AOnClose l c st => (if is_active l w then [ACallClose l c st] else [ARemove c], w)
  | ACallClose l c st =>
      (if decide (st = StatusOk) then [ARemove c]
       else if tsfn_closed st then [ASocketListener c] else [],
       call_event (mkEvent l "close" c []) w)
  end.

(** ** Threads *)

Definition TState : Type := World * list (list Act).

(** What all threads have left to do. *)
Definition pending_acts (t : TState) : list Act := concat t.2.

(** Thread [i] does its next action, if it has one. *)
Definition run_thread (i : nat) (t : TState) : option TState :=
  match t.2 !! i with
  | Some (a :: rest) =>
      let '(new, w) := run_act (pending_acts t) a t.1 in
      Some (w, <[i := new ++ rest]> t.2)
  | _ => None
  end.

(** A thread starts with a call, or a thread goes on. *)
Inductive TEvent := Spawn (a : Act) | Run (i : nat).

Definition run_event (e : TEvent) (t : TState) : TState :=
  match e with
  | Spawn a => if is_call a then (t.1, t.2 ++ [[a]]) else t
  | Run i => default t (run_thread i t)
  end.
Definition run_events (es : list TEvent) (t : TState) : TState :=
  fold_left (λ t e, run_event e t) es t.
Definition idle : TState := (World_new, []).

(** ** The invariant *)

(** The actions on a listener that was allocated. *)
Definition act_listener (a : Act) : option nat :=
  match a with
  | AInstance l | AInactive l | ADrain l | AIssue l _ | AAttach l _ _ _ | AInsert l _ _ _ | ARecheck l _ _
  | AOpen l _ _ | AResume l _ _ => Some l
  | _ => None
  end.

(** The id of a connection that will be put into the socket map. *)
Definition opening (a : Act) : option string :=
  match a with AAttach _ c _ _ | AInsert _ c _ _ => Some c | _ => None end.

Definition issued (c : string) (w : World) : Prop :=
  ∃ k n, c = conn_id_of k n ∧ (0 ≤ n < seq (reg w))%Z.

Record tinv (w : World) (P : list Act) : Prop := {
  ti_alloc a l : a ∈ P → act_listener a = Some l → l < length (lheap w);
  (** A registered listener is active, and nobody is about to change that. *)
  ti_registered k l : listeners (reg w) !! k = Some l →
    AInactive l ∉ P ∧ ∃ x, lheap w !! l = Some x ∧ l_key x = k ∧ l_active x = true;
  ti_active l x : lheap w !! l = Some x → l_active x = true →
    listeners (reg w) !! l_key x = Some l ∨ AInactive l ∈ P;
  ti_inactive l x : lheap w !! l = Some x → l_active x = false →
    l_connections x = ∅ ∨ ADrain l ∈ P;
  ti_drain l x : ADrain l ∈ P → lheap w !! l = Some x → l_active x = false;
  (** An entry of the socket map that its listener does not know goes away. *)
  ti_socket c e : sockets (reg w) !! c = Some e →
    ∃ x, lheap w !! se_listener e = Some x ∧
      (l_connections x !! c = Some (se_state e) ∨ ARemove c ∈ P ∨
       l_active x = false ∧ ∃ l st, ARecheck l c st ∈ P);
  ti_insert l c s st : AInsert l c s st ∈ P →
    ∃ x, lheap w !! l = Some x ∧ (l_connections x !! c = Some s ∨ l_active x = false);
  ti_known l x c s : lheap w !! l = Some x → l_connections x !! c = Some s →
    sockets (reg w) !! c = Some (mkSocketEntry s l) ∨
    (∃ st, AInsert l c s st ∈ P) ∨ AForget l c ∈ P;
  (** A connection is opened once, and forgotten only after that. *)
  ti_once : NoDup (omap opening P);
  ti_opening c : c ∈ omap opening P →
    sockets (reg w) !! c = None ∧ ∀ l, AForget l c ∉ P;
  ti_forget l c : AForget l c ∈ P → sockets (reg w) !! c = None;
  ti_ids c : c ∈ omap opening P ∨ is_Some (sockets (reg w) !! c) ∨ (∃ l, AForget l c ∈ P) →
    issued c w;
  ti_seq : (0 ≤ seq (reg w))%Z;
}.

(** ** What a step does to the actions left *)

Lemma concat_perm (ts : list (list Act)) i a rest :
  ts !! i = Some (a :: rest) →
  ∃ Q, concat ts ≡ₚ a :: Q ∧ ∀ new, concat (<[i := new ++ rest]> ts) ≡ₚ new ++ Q.
Proof.
  intros Hi. exists (concat (take i ts) ++ rest ++ concat (drop (S i) ts)). split.
  - rewrite <-(take_drop_middle ts i (a :: rest) Hi) at 1. rewrite concat_app. simpl.
    by rewrite (Permutation_middle (concat (take i ts))).
  - intros new. assert (i < length ts) as Hlt by by eapply lookup_lt_Some.
    rewrite insert_take_drop, concat_app by done. simpl. rewrite <-app_assoc.
    by rewrite !(assoc_L (++)), (comm (++) (concat (take i ts)) new).
Qed.

Lemma tinv_perm w P P' : P ≡ₚ P' → tinv w P → tinv w P'.
Proof.
  intros Hp Ht.
  assert (∀ a, a ∈ P' ↔ a ∈ P) as He by (intros a; by rewrite Hp).
  assert (∀ c, c ∈ omap opening P' ↔ c ∈ omap opening P) as Ho by (intros c; by rewrite Hp).
  destruct Ht. split; try done; try (rewrite <-Hp; done);
    intros *; rewrite ?He, ?Ho; repeat setoid_rewrite He; eauto.
Qed.

(** ** Every action preserves the invariant *)

(** The actions the invariant does not speak of. *)
Definition plain (a : Act) : bool :=
  match a with
  | AInactive _ | ADrain _ | ARemove _ | AForget _ _ | AAttach _ _ _ _ | AInsert _ _ _ _
  | ARecheck _ _ _ => false
  | _ => true
  end.

Lemma plain_opening a : plain a = true → opening a = None.
Proof. by destruct a. Qed.

(** What may be added to the actions left without more ado. *)
Definition addable (w : World) (a : Act) : Prop :=
  (plain a = true ∨ ∃ c, a = ARemove c) ∧
  ∀ l, act_listener a = Some l → l < length (lheap w).

Lemma addable_opening w new : Forall (addable w) new → omap opening new = [].
Proof.
  induction 1 as [|a new [[Ha|[c ->]] _] _ IH]; [done| |exact IH].
  simpl. by rewrite (plain_opening a).
Qed.

(** An action whose place is taken by actions that may be added, because it has
    nothing to do or because they do it. *)
Definition replaced (w : World) (new : list Act) (a : Act) : Prop :=
  match a with
  | AInactive _ | ADrain _ | AForget _ _ | AInsert _ _ _ _ => False
  | ARemove c => sockets (reg w) !! c = None
  | ARecheck _ c _ =>
      ARemove c ∈ new ∨ ∃ e, sockets (reg w) !! c = Some e ∧ is_active (se_listener e) w = true
  | _ => True
  end.

Lemma tinv_exchange w old Q new :
  tinv w (old ++ Q) → Forall (replaced w new) old → Forall (addable w) new → tinv w (new ++ Q).
Proof.
  intros [Hall Hreg Hact Hina Hdr Hso Hins Hkn Hnd Hop Hfo Hid Hsq] Hold Hnew.
  pose proof (addable_opening w new Hnew) as Hno. rewrite Forall_forall in Hnew, Hold.
  assert (∀ b, match b with AInactive _ | ADrain _ | AForget _ _ | AInsert _ _ _ _ => True
                          | _ => False end → b ∈ new ++ Q ↔ b ∈ old ++ Q) as Hin.
  { intros b Hb. rewrite !elem_of_app. split; (intros [Hb'|?]; [|by right]).
    - destruct (Hnew b Hb') as [[?|[c ->]] _]; [by destruct b|done].
    - specialize (Hold b Hb'). by destruct b. }
  assert (omap opening (new ++ Q) = omap opening Q) as Eo by by rewrite omap_app, Hno.
  rewrite omap_app in Hnd.
  assert (∀ c, c ∈ omap opening Q → c ∈ omap opening (old ++ Q)) as Hop'.
  { intros c. rewrite omap_app, elem_of_app. by right. }
  split; rewrite ?Eo; try done.
  - intros b l [Hb|Hb]%elem_of_app; [by apply Hnew|]. apply Hall, elem_of_app. by right.
  - intros k l. rewrite Hin by done. apply Hreg.
  - intros l x. rewrite Hin by done. apply Hact.
  - intros l x. rewrite Hin by done. apply Hina.
  - intros l x. rewrite Hin by done. apply Hdr.
  - intros c e He. destruct (Hso c e He) as (x & Hx & Hor); exists x; split; [done|].
    rewrite !elem_of_app in *.
    destruct Hor as [Hk|[[Ha%Hold|Hk]|(Hf & l & st & [Ha%Hold|Hk]%elem_of_app)]];
      [by left|simpl in Ha; congruence|by auto| |].
    + destruct Ha as [?|(e' & He' & Ha)]; [by auto|]. unfold is_active in Ha. simplify_eq.
      rewrite Hx in Ha. congruence.
    + right. right. split; [done|]. exists l, st. rewrite elem_of_app. by right.
  - intros l c s0 st. rewrite Hin by done. apply Hins.
  - intros l x c s0 Hx Hc. destruct (Hkn l x c s0 Hx Hc) as [?|[[st ?]|?]]; [by left|..].
    + right. left. exists st. by apply Hin.
    + right. right. by apply Hin.
  - by apply NoDup_app in Hnd as (_ & _ & ?).
  - intros c Hc. destruct (Hop c (Hop' c Hc)) as [? Hf]. split; [done|]. intros l. by rewrite Hin.
  - intros l c. rewrite Hin by done. apply Hfo.
  - intros c Hc. apply Hid.
    destruct Hc as [?|[?|[l Hc]]]; [left; auto|right; by left|right; right].
    exists l. by apply Hin in Hc.
Qed.
Lemma tinv_replaced w a Q new :
  tinv w (a :: Q) → replaced w new a → Forall (addable w) new → tinv w (new ++ Q).
Proof. intros Ht Ha. apply (tinv_exchange w [a]); [done|]. by constructor. Qed.

Lemma tinv_frame w w' P : reg w' = reg w → lheap w' = lheap w → tinv w P → tinv w' P.
Proof.
  intros Hr Hl []. split; unfold issued in *; rewrite ?Hr, ?Hl; eauto.
Qed.

Lemma tinv_register w Q key : tinv w Q → tinv (register_listener key w).2 Q.
Proof.
  intros Ht. unfold register_listener.
  destruct (listeners (reg w) !! key) as [?|] eqn:Hk; [done|].
  destruct Ht as [Hall Hreg Hact Hina Hdr Hso Hins Hkn Hnd Hop Hfo Hid Hsq].
  assert (∀ l x, (lheap w ++ [Listener_new key]) !! l = Some x →
    lheap w !! l = Some x ∨ l = length (lheap w) ∧ x = Listener_new key) as Hinv.
  { intros l x [Hx|[Hge Hx]]%lookup_app_Some; [by left|right].
    apply list_lookup_singleton_Some in Hx as [Hl <-]. split; [lia|done]. }
  assert (∀ l x, lheap w !! l = Some x → (lheap w ++ [Listener_new key]) !! l = Some x) as Hold.
  { intros l x. apply lookup_app_l_Some. }
  split; simpl; try done.
  - intros a l Ha Hl. rewrite length_app. specialize (Hall a l Ha Hl). simpl. lia.
  - intros k l [[<- <-]|[Hne Hkl]]%lookup_insert_Some.
    + split; [intros Hin; specialize (Hall _ _ Hin eq_refl); lia|].
      exists (Listener_new key). by rewrite list_lookup_middle.
    + destruct (Hreg k l Hkl) as (? & x & Hx & ?). split; [done|]. exists x. auto.
  - intros l x [Hx|[-> ->]]%Hinv Ha; [|left; by rewrite lookup_insert_eq].
    destruct (Hact l x Hx Ha) as [Hl|?]; [left|by right].
    rewrite lookup_insert_ne; [done|]. congruence.
  - intros l x [Hx|[-> ->]]%Hinv; [by eapply Hina|done].
  - intros l x Hin [Hx|[-> ->]]%Hinv; [by eapply Hdr|].
    specialize (Hall _ _ Hin eq_refl). lia.
  - intros c e He. destruct (Hso c e He) as (x & Hx & ?). eauto.
  - intros l c s st Hin. destruct (Hins l c s st Hin) as (x & Hx & ?). eauto.
  - intros l x c s [Hx|[-> ->]]%Hinv; [by apply Hkn|]. simpl. by rewrite lookup_empty.
Qed.

(** Looking up a changed listener. *)
Lemma alter_inv {A} (f : A → A) (h : list A) l l' y :
  alter f l h !! l' = Some y →
  l' = l ∧ (∃ x, h !! l = Some x ∧ y = f x) ∨ l' ≠ l ∧ h !! l' = Some y.
Proof.
  destruct (decide (l' = l)) as [->|Hne].
  - rewrite list_lookup_alter_eq. intros (x & -> & ->)%fmap_Some. eauto.
  - rewrite list_lookup_alter_ne by done. auto.
Qed.
Lemma alter_some {A} (f : A → A) (h : list A) l l' x :
  h !! l' = Some x → alter f l h !! l' = Some (if decide (l' = l) then f x else x).
Proof.
  intros Hx. case_decide as Hl; [subst l'; by rewrite list_lookup_alter_eq, Hx|].
  by rewrite list_lookup_alter_ne.
Qed.

(** A listener is taken out of the map before it is deactivated. *)
Lemma tinv_unlist w Q l m :
  tinv w Q → l < length (lheap w) →
  (∀ k l', m !! k = Some l' ↔ listeners (reg w) !! k = Some l' ∧ l' ≠ l) →
  tinv (set_listeners m w) (AInactive l :: Q).
Proof.
  intros [Hall Hreg Hact Hina Hdr Hso Hins Hkn Hnd Hop Hfo Hid Hsq] Hl Hm.
  assert (∀ b, match b with AInactive _ => False | _ => True end →
    b ∈ AInactive l :: Q ↔ b ∈ Q) as Hin.
  { intros b Hb. rewrite elem_of_cons. split; [intros [->|?]; done|by right]. }
  split; simpl; try done.
  - intros b l' [->|Hb]%elem_of_cons; simpl; [congruence|by apply Hall].
  - intros k l' [Hk Hne]%Hm. destruct (Hreg k l' Hk) as [? ?]. set_solver.
  - intros l' x Hx Ha. destruct (decide (l' = l)) as [->|Hne]; [right; by left|].
    destruct (Hact l' x Hx Ha) as [?|?]; [left; by apply Hm|right; by right].
  - intros l' x. rewrite Hin by done. apply Hina.
  - intros l' x. rewrite Hin by done. apply Hdr.
  - intros c e He. destruct (Hso c e He) as (x & Hx & Hor). exists x. split; [done|].
    rewrite Hin by done. destruct Hor as [?|[?|(? & l' & st & ?)]]; auto.
    right. right. split; [done|]. exists l', st. by right.
  - intros l' c s st. rewrite Hin by done. apply Hins.
  - intros l' x c s Hx Hc. rewrite Hin by done.
    destruct (Hkn l' x c s Hx Hc) as [?|[[st ?]|?]]; auto. right. left. exists st. by right.
  - intros c Hc. destruct (Hop c Hc) as [? Hf]. split; [done|]. intros l'. by rewrite Hin.
  - intros l' c. rewrite Hin by done. apply Hfo.
  - intros c Hc. apply Hid. destruct Hc as [?|[?|[l' Hc]]]; auto. right. right. exists l'.
    by apply Hin in Hc.
Qed.

(** Doing one action and leaving another. *)
Lemma other_in (a a' : Act) (Q : list Act) (b : Act) :
  b ≠ a → b ≠ a' → b ∈ a :: Q ↔ b ∈ a' :: Q.
Proof. intros Ha Ha'. rewrite !elem_of_cons. naive_solver. Qed.

(** [active.store(false)]. *)
Lemma tinv_inactive w Q l : tinv w (AInactive l :: Q) → tinv (set_active false l w) (ADrain l :: Q).
Proof.
  intros [Hall Hreg Hact Hina Hdr Hso Hins Hkn Hnd Hop Hfo Hid Hsq].
  pose proof (other_in (ADrain l) (AInactive l) Q) as Hin.
  assert (∀ c, ARemove c ∈ ADrain l :: Q ↔ ARemove c ∈ AInactive l :: Q) as HinM by by intros; apply Hin.
  assert (∀ l' c st, ARecheck l' c st ∈ ADrain l :: Q ↔ ARecheck l' c st ∈ AInactive l :: Q) as HinR
    by by intros; apply Hin.
  assert (∀ l' c s st, AInsert l' c s st ∈ ADrain l :: Q ↔ AInsert l' c s st ∈ AInactive l :: Q) as HinI
    by by intros; apply Hin.
  assert (∀ l' c, AForget l' c ∈ ADrain l :: Q ↔ AForget l' c ∈ AInactive l :: Q) as HinF
    by by intros; apply Hin.
  split; simpl; try done.
  - intros b l' [->|Hb]%elem_of_cons Hl'; rewrite length_alter; simplify_eq/=.
    + apply (Hall (AInactive l')); [by left|done].
    + apply (Hall b); [by right|done].
  - intros k l' Hk. destruct (Hreg k l' Hk) as (Hni & x & Hx & ? & ?).
    assert (l' ≠ l) as Hne by (intros ->; by destruct Hni; left).
    rewrite Hin by congruence. split; [done|].
    exists x. split; [|done]. by rewrite (alter_some _ _ _ _ x Hx), decide_False.
  - intros l' y [[-> (x & Hx & ->)]|[Hne Hy]]%alter_inv Ha; [done|].
    rewrite Hin by congruence. by apply Hact.
  - intros l' y [[-> (x & Hx & ->)]|[Hne Hy]]%alter_inv Ha; [right; by left|].
    rewrite Hin by congruence. by apply Hina.
  - intros l' y Hd [[-> (x & Hx & ->)]|[Hne Hy]]%alter_inv; [done|].
    rewrite Hin in Hd by congruence. by apply (Hdr l' y).
  - intros c e He. destruct (Hso c e He) as (x & Hx & Hor). eexists.
    split; [by apply alter_some|]. rewrite HinM. setoid_rewrite HinR.
    case_decide; simpl; tauto.
  - intros l' c s st Hd%HinI. destruct (Hins l' c s st Hd) as (x & Hx & Hor).
    eexists. split; [by apply alter_some|]. case_decide; simpl; [by right|done].
  - intros l' y c s [[-> (x & Hx & ->)]|[Hne Hy]]%alter_inv Hc; simpl in Hc; rewrite HinF;
      setoid_rewrite HinI; by eapply Hkn.
  - intros c Hc. destruct (Hop c Hc) as [? Hf]. split; [done|]. intros l'. by rewrite HinF.
  - intros l' c. rewrite HinF. apply Hfo.
  - intros c. setoid_rewrite HinF. apply Hid.
Qed.

(** [connections.drain()]. *)
Lemma tinv_drain w Q l new :
  tinv w (ADrain l :: Q) → Forall (addable w) new →
  (∀ x c s, lheap w !! l = Some x → l_connections x !! c = Some s →
     sockets (reg w) !! c = Some (mkSocketEntry s l) → ARemove c ∈ new) →
  tinv (clear_connections l w) (new ++ Q).
Proof.
  intros [Hall Hreg Hact Hina Hdr Hso Hins Hkn Hnd Hop Hfo Hid Hsq] Hnew Hrem.
  pose proof (addable_opening w new Hnew) as Hno. rewrite Forall_forall in Hnew.
  assert (∀ b, match b with AInactive _ | ADrain _ | AForget _ _ | AInsert _ _ _ _ => b ≠ ADrain l
                          | _ => False end → b ∈ new ++ Q ↔ b ∈ ADrain l :: Q) as Hin.
  { intros b Hb. rewrite elem_of_app, elem_of_cons. split; [intros [Hbn|?]; [|by right]|].
    - destruct (Hnew b Hbn) as [[?|[c ->]] _]; [by destruct b|done].
    - intros [->|?]; [done|by right]. }
  assert (∀ b, b ≠ ADrain l → b ∈ ADrain l :: Q → b ∈ new ++ Q) as Hold.
  { intros b Hb [?|?]%elem_of_cons; [done|apply elem_of_app; by right]. }
  assert (∀ l' c s st, AInsert l' c s st ∈ new ++ Q ↔ AInsert l' c s st ∈ ADrain l :: Q) as HinI
    by by intros; apply Hin.
  assert (∀ l' c, AForget l' c ∈ new ++ Q ↔ AForget l' c ∈ ADrain l :: Q) as HinF
    by by intros; apply Hin.
  assert (omap opening (new ++ Q) = omap opening Q) as Eo by by rewrite omap_app, Hno.
  split; simpl; rewrite ?Eo; try done.
  - intros b l' [Hb|Hb]%elem_of_app Hl'; rewrite length_alter; [by apply (Hnew b)|].
    apply (Hall b); [by right|done].
  - intros k l' Hk. rewrite Hin by done. destruct (Hreg k l' Hk) as (Hni & x & Hx & ? & ?).
    split; [done|]. eexists. split; [by apply alter_some|]. by case_decide.
  - intros l' y Hy Ha. rewrite Hin by done.
    apply alter_inv in Hy as [[-> (x & Hx & ->)]|[Hne Hy]]; [by apply (Hact l x)|by apply Hact].
  - intros l' y [[-> (x & Hx & ->)]|[Hne Hy]]%alter_inv Ha; [by left|].
    rewrite Hin by congruence. by apply Hina.
  - intros l' y Hd [[-> (x & Hx & ->)]|[Hne Hy]]%alter_inv; simpl.
    + apply (Hdr l x); [by left|done].
    + rewrite Hin in Hd by congruence. by apply (Hdr l' y).
  - intros c e He. destruct (Hso c e He) as (x & Hx & Hor). eexists.
    split; [by apply alter_some|]. destruct Hor as [Hc|[Hr|(Ha & l' & st & Hr)]].
    + case_decide as Hl; simpl; [|by left]. subst l. right. left. apply elem_of_app. left.
      eapply Hrem; [done..|]. rewrite He. by destruct e.
    + right. left. by apply Hold.
    + right. right. split; [by case_decide|]. exists l', st. by apply Hold.
  - intros l' c s st Hi%HinI. destruct (Hins l' c s st Hi) as (x & Hx & Hor).
    eexists. split; [by apply alter_some|]. case_decide as Hl; simpl; [subst l'|done].
    right. apply (Hdr l x); [by left|done].
  - intros l' y c s [[-> (x & Hx & ->)]|[Hne Hy]]%alter_inv Hc; simpl in Hc.
    { by rewrite lookup_empty in Hc. }
    rewrite HinF. setoid_rewrite HinI. by eapply Hkn.
  - intros c Hc. destruct (Hop c Hc) as [? Hf]. split; [done|]. intros l'. by rewrite HinF.
  - intros l' c. rewrite HinF. apply Hfo.
  - intros c. setoid_rewrite HinF. apply Hid.
Qed.

(** [sockets.remove]. *)
Lemma tinv_remove w Q c e :
  tinv w (ARemove c :: Q) → sockets (reg w) !! c = Some e →
  tinv (set_sockets (delete c (sockets (reg w))) w) (AForget (se_listener e) c :: Q).
Proof.
  intros [Hall Hreg Hact Hina Hdr Hso Hins Hkn Hnd Hop Hfo Hid Hsq] Hc.
  pose proof (other_in (AForget (se_listener e) c) (ARemove c) Q) as Hin.
  assert (∀ l' c' s st, AInsert l' c' s st ∈ AForget (se_listener e) c :: Q ↔
    AInsert l' c' s st ∈ ARemove c :: Q) as HinI by by intros; apply Hin.
  assert (∀ l' c' st, ARecheck l' c' st ∈ AForget (se_listener e) c :: Q ↔
    ARecheck l' c' st ∈ ARemove c :: Q) as HinR by by intros; apply Hin.
  assert (∀ l' c', AForget l' c' ∈ AForget (se_listener e) c :: Q ↔
    l' = se_listener e ∧ c' = c ∨ AForget l' c' ∈ ARemove c :: Q) as HinF.
  { intros l' c'. rewrite !elem_of_cons. naive_solver. }
  split; simpl; try done.
  - intros b l' [->|Hb]%elem_of_cons Hl'; simplify_eq/=. apply (Hall b); [by right|done].
  - intros k l'. rewrite Hin by done. apply Hreg.
  - intros l' x. rewrite Hin by done. apply Hact.
  - intros l' x. rewrite Hin by done. apply Hina.
  - intros l' x. rewrite Hin by done. apply Hdr.
  - intros c' e' [Hne He']%lookup_delete_Some. destruct (Hso c' e' He') as (x & Hx & Hor).
    exists x. split; [done|]. rewrite Hin by congruence. setoid_rewrite HinR. done.
  - intros l' c' s st Hi%HinI. by eapply Hins.
  - intros l' x c' s Hx Hcs. rewrite HinF. setoid_rewrite HinI.
    destruct (Hkn l' x c' s Hx Hcs) as [Hs|[?|?]]; [|by right; left|by right; right; right].
    destruct (decide (c' = c)) as [->|Hne]; [|left; by rewrite lookup_delete_ne].
    right. right. left. by rewrite Hc in Hs; simplify_eq.
  - intros c' Hc'. destruct (Hop c' Hc') as [Hn Hf]. split.
    + by apply lookup_delete_None; right.
    + intros l'. rewrite HinF. intros [[_ ->]|?]; [congruence|by apply (Hf l')].
  - intros l' c' [[-> ->]|Hf]%HinF; apply lookup_delete_None; [by left|right; by eapply Hfo].
  - intros c' Hc'. apply Hid. destruct Hc' as [?|[[e' [_ He']%lookup_delete_Some]|[l' Hf]]].
    + by left.
    + right. left. eauto.
    + apply HinF in Hf as [[-> ->]|Hf]; right; [left; eauto|right; eauto].
Qed.

(** [connections.remove]. *)
Lemma tinv_forget w Q l c : tinv w (AForget l c :: Q) → tinv (detach_connection l c w) Q.
Proof.
  intros [Hall Hreg Hact Hina Hdr Hso Hins Hkn Hnd Hop Hfo Hid Hsq].
  assert (∀ b, b ∈ Q → b ∈ AForget l c :: Q) as Hmore by by intros; right.
  assert (∀ b, b ≠ AForget l c → b ∈ AForget l c :: Q → b ∈ Q) as Hless.
  { intros b Hb [?|?]%elem_of_cons; done. }
  split; simpl; try done.
  - intros b l' Hb. rewrite length_alter. by apply Hall, Hmore.
  - intros k l' Hk. destruct (Hreg k l' Hk) as (Hni & x & Hx & ? & ?).
    split; [by intros ?%Hmore|]. eexists. split; [by apply alter_some|]. by case_decide.
  - intros l' y [[-> (x & Hx & ->)]|[Hne Hy]]%alter_inv Ha;
      [destruct (Hact l x Hx Ha)|destruct (Hact l' y Hy Ha)]; auto.
  - intros l' y [[-> (x & Hx & ->)]|[Hne Hy]]%alter_inv Ha; simpl in *.
    + destruct (Hina l x Hx Ha) as [->|?]; [left; apply delete_empty|auto].
    + destruct (Hina l' y Hy Ha); auto.
  - intros l' y Hd [[-> (x & Hx & ->)]|[Hne Hy]]%alter_inv; simpl;
      [apply (Hdr l x)|apply (Hdr l' y)]; auto.
  - intros c' e He. destruct (Hso c' e He) as (x & Hx & Hor). eexists.
    split; [by apply alter_some|]. destruct Hor as [Hc|[Hr|(Ha & l' & st & Hr)]].
    + left. case_decide; simpl; [|done]. rewrite lookup_delete_ne; [done|]. intros <-.
      by rewrite (Hfo l c) in He by by left.
    + right. left. by apply Hless.
    + right. right. split; [by case_decide|]. exists l', st. by apply Hless.
  - intros l' c' s st Hi. destruct (Hins l' c' s st (Hmore _ Hi)) as (x & Hx & Hor). eexists.
    split; [by apply alter_some|]. destruct Hor as [Hc|Ha]; [left|right; by case_decide].
    case_decide; simpl; [|done]. rewrite lookup_delete_ne; [done|]. intros <-.
    assert (c ∈ omap opening (AForget l c :: Q)) as Ho by (apply list_elem_of_omap; eauto).
    destruct (Hop c Ho) as [_ Hf]. destruct (Hf l). by left.
  - intros l' y c' s [[-> (x & Hx & ->)]|[Hne Hy]]%alter_inv Hc; simpl in Hc.
    + apply lookup_delete_Some in Hc as [Hcc Hc].
      destruct (Hkn l x c' s Hx Hc) as [?|[[st ?]|?]]; [by left|right; left; exists st|right; right];
        (apply Hless; [congruence|done]).
    + destruct (Hkn l' y c' s Hy Hc) as [?|[[st ?]|?]]; [by left|right; left; exists st|right; right];
        (apply Hless; [congruence|done]).
  - intros c' Hc. destruct (Hop c' Hc) as [? Hf]. split; [done|].
    intros l' Hi. by apply (Hf l'), Hmore.
  - intros l' c' Hf. by eapply Hfo, Hmore.
  - intros c' Hc. apply Hid. destruct Hc as [?|[?|[l' Hf]]]; auto. right. right. eauto.
Qed.

(** [next_conn_id]: the id was never given out before. *)
Lemma tinv_issue w Q l st k s :
  tinv w (AIssue l st :: Q) → (seq (reg w) + 1 < 2 ^ 64)%Z →
  tinv (set_sheap s (next_conn_id k w).2) (AAttach l (next_conn_id k w).1 (length (sheap w)) st :: Q).
Proof.
  intros [Hall Hreg Hact Hina Hdr Hso Hins Hkn Hnd Hop Hfo Hid Hsq] Hlt. simpl.
  set (c := conn_id_of k (seq (reg w))). set (a' := AAttach l c (length (sheap w)) st).
  assert (wrap_u64 (seq (reg w) + 1) = seq (reg w) + 1)%Z as Eq.
  { unfold wrap_unsigned. apply Z.mod_small. lia. }
  pose proof (other_in a' (AIssue l st) Q) as Hin.
  assert (∀ l' c' s' st', AInsert l' c' s' st' ∈ a' :: Q ↔ AInsert l' c' s' st' ∈ AIssue l st :: Q) as HinI
    by by intros; apply Hin.
  assert (∀ l' c' st', ARecheck l' c' st' ∈ a' :: Q ↔ ARecheck l' c' st' ∈ AIssue l st :: Q) as HinR
    by by intros; apply Hin.
  assert (∀ l' c', AForget l' c' ∈ a' :: Q ↔ AForget l' c' ∈ AIssue l st :: Q) as HinF
    by by intros; apply Hin.
  assert (∀ c', issued c' w → c' ≠ c) as Hfresh.
  { intros c' (k' & n & -> & Hn) Heq%conn_id_of_inj; lia. }
  split; simpl; rewrite ?Eq; try done; [..|lia].
  - intros b l' [->|Hb]%elem_of_cons Hl'; simplify_eq/=.
    + apply (Hall (AIssue l' st)); [by left|done].
    + apply (Hall b); [by right|done].
  - intros k' l'. rewrite Hin by done. apply Hreg.
  - intros l' x. rewrite Hin by done. apply Hact.
  - intros l' x. rewrite Hin by done. apply Hina.
  - intros l' x. rewrite Hin by done. apply Hdr.
  - intros c' e' He. destruct (Hso c' e' He) as (x & Hx & Hor). exists x. split; [done|].
    rewrite Hin by done. setoid_rewrite HinR. done.
  - intros l' c' s' st' Hi%HinI. by eapply Hins.
  - intros l' x c' s'. rewrite HinF. setoid_rewrite HinI. apply Hkn.
  - constructor; [|done]. intros Hc. by destruct (Hfresh c); [apply Hid; left|].
  - intros c' [->|Hc]%elem_of_cons.
    + split.
      * apply eq_None_not_Some. intros Hs. by destruct (Hfresh c); [apply Hid; auto|].
      * intros l'. rewrite HinF. intros Hf. destruct (Hfresh c); [apply Hid; eauto|done].
    + setoid_rewrite HinF. by apply Hop.
  - intros l' c'. rewrite HinF. apply Hfo.
  - intros c' Hc.
    assert (c' = c ∨ issued c' w) as [->|(k' & n & -> & Hn)].
    { setoid_rewrite HinF in Hc. rewrite elem_of_cons in Hc.
      destruct Hc as [[->|?]|Hc]; [by left|right..]; apply Hid; auto. }
    + exists k, (seq (reg w)). split; [done|]. simpl. lia.
    + exists k', n. split; [done|]. simpl. lia.
Qed.

Lemma nodup_other c a Q : NoDup (c :: omap opening Q) → a ∈ Q → opening a ≠ Some c.
Proof.
  intros [Hc _]%NoDup_cons Ha Ho. apply Hc, list_elem_of_omap. eauto.
Qed.

(** [attach_connection] on an active listener. *)
Lemma tinv_attach w Q l x c s st :
  tinv w (AAttach l c s st :: Q) → lheap w !! l = Some x → l_active x = true →
  tinv (set_lheap (alter (λ x, mkListener (l_key x) (l_active x)
                            (<[c := s]> (l_connections x))) l (lheap w)) w)
    (AInsert l c s st :: Q).
Proof.
  intros [Hall Hreg Hact Hina Hdr Hso Hins Hkn Hnd Hop Hfo Hid Hsq] Hlx Hax.
  pose proof (other_in (AInsert l c s st) (AAttach l c s st) Q) as Hin.
  assert (∀ l' c' st', ARecheck l' c' st' ∈ AInsert l c s st :: Q ↔
    ARecheck l' c' st' ∈ AAttach l c s st :: Q) as HinR by by intros; apply Hin.
  assert (∀ l' c', AForget l' c' ∈ AInsert l c s st :: Q ↔
    AForget l' c' ∈ AAttach l c s st :: Q) as HinF by by intros; apply Hin.
  destruct (Hop c) as [Hnone _]; [by left|].
  split; simpl; try done.
  - intros b l' [->|Hb]%elem_of_cons Hl'; rewrite length_alter; simplify_eq/=.
    + by eapply lookup_lt_Some.
    + apply (Hall b); [by right|done].
  - intros k l' Hk. rewrite Hin by done. destruct (Hreg k l' Hk) as (? & y & Hy & ? & ?).
    split; [done|]. eexists. split; [by apply alter_some|]. by case_decide.
  - intros l' y Hy Ha. rewrite Hin by done.
    apply alter_inv in Hy as [[-> (z & Hz & ->)]|[Hne Hy]]; [by apply (Hact l z)|by apply Hact].
  - intros l' y Hy Ha. rewrite Hin by done.
    apply alter_inv in Hy as [[-> (z & Hz & ->)]|[Hne Hy]]; [simpl in Ha; congruence|].
    by apply Hina.
  - intros l' y Hd Hy. rewrite Hin in Hd by done.
    apply alter_inv in Hy as [[-> (z & Hz & ->)]|[Hne Hy]]; [by apply (Hdr l z)|by apply (Hdr l' y)].
  - intros c' e He. destruct (Hso c' e He) as (y & Hy & Hor). eexists.
    split; [by apply alter_some|]. rewrite Hin by done. setoid_rewrite HinR.
    assert (c' ≠ c) by congruence.
    case_decide; simpl; rewrite ?lookup_insert_ne by done; done.
  - intros l' c' s' st' [Heq|Hi]%elem_of_cons.
    + simplify_eq. eexists. split; [by apply alter_some|]. rewrite decide_True by done. left.
      simpl. by rewrite lookup_insert_eq.
    + destruct (Hins l' c' s' st') as (y & Hy & Hor); [by right|].
      eexists. split; [by apply alter_some|].
      pose proof (nodup_other c _ Q Hnd Hi) as Hne. simpl in Hne.
      case_decide; simpl; rewrite ?lookup_insert_ne by congruence; done.
  - intros l' y c' s' Hy Hc. rewrite HinF.
    apply alter_inv in Hy as [[-> (z & Hz & ->)]|[Hne Hy]]; simpl in Hc.
    + apply lookup_insert_Some in Hc as [[<- <-]|[Hne Hc]].
      { right. left. exists st. by left. }
      destruct (Hkn l z c' s' Hz Hc) as [?|[[st' Hi]|?]]; auto. right. left. exists st'.
      rewrite Hin by congruence. done.
    + destruct (Hkn l' y c' s' Hy Hc) as [?|[[st' Hi]|?]]; auto. right. left. exists st'.
      rewrite Hin by congruence. done.
  - intros c' Hc. setoid_rewrite HinF. by apply Hop.
  - intros l' c'. rewrite HinF. apply Hfo.
  - intros c'. setoid_rewrite HinF. apply Hid.
Qed.

(** [attach_socket_state]. *)
Lemma tinv_inserted w Q l c s st :
  tinv w (AInsert l c s st :: Q) → tinv (attach_socket_state c s l w) (ARecheck l c st :: Q).
Proof.
  intros [Hall Hreg Hact Hina Hdr Hso Hins Hkn Hnd Hop Hfo Hid Hsq].
  pose proof (other_in (ARecheck l c st) (AInsert l c s st) Q) as Hin.
  assert (∀ l' c', AForget l' c' ∈ ARecheck l c st :: Q ↔
    AForget l' c' ∈ AInsert l c s st :: Q) as HinF by by intros; apply Hin.
  destruct (Hop c) as [Hnone Hnf]; [by left|].
  assert (∀ c', c' ∈ omap opening Q → c' ≠ c) as Hoc.
  { intros c' Hc' ->. by apply NoDup_cons in Hnd as [? _]. }
  split; simpl; try done.
  - intros b l' [->|Hb]%elem_of_cons Hl'; simplify_eq/=.
    + apply (Hall (AInsert l' c s st)); [by left|done].
    + apply (Hall b); [by right|done].
  - intros k l'. rewrite Hin by done. apply Hreg.
  - intros l' x. rewrite Hin by done. apply Hact.
  - intros l' x. rewrite Hin by done. apply Hina.
  - intros l' x. rewrite Hin by done. apply Hdr.
  - intros c' e [[<- <-]|[Hne He]]%lookup_insert_Some.
    + destruct (Hins l c s st) as (x & Hx & Hor); [by left|]. exists x. split; [done|]. simpl.
      destruct Hor as [?|?]; [by left|]. right. right. split; [done|]. exists l, st. by left.
    + destruct (Hso c' e He) as (x & Hx & Hor). exists x. split; [done|]. rewrite Hin by done.
      destruct Hor as [?|[?|(? & l' & st' & Hi)]]; auto. right. right. split; [done|].
      exists l', st'. rewrite Hin by congruence. done.
  - intros l' c' s' st' [?|Hi]%elem_of_cons; [done|]. apply (Hins l' c' s' st'). by right.
  - intros l' x c' s' Hx Hc. rewrite HinF.
    destruct (Hkn l' x c' s' Hx Hc) as [Hs|[[st' Hi]|?]]; auto.
    + left. rewrite lookup_insert_ne; [done|]. congruence.
    + apply elem_of_cons in Hi as [Heq|Hi]; [simplify_eq; left; by rewrite lookup_insert_eq|].
      right. left. exists st'. by right.
  - by apply NoDup_cons in Hnd as [_ ?].
  - intros c' Hc. destruct (Hop c') as [Hn Hf]; [by right|]. setoid_rewrite HinF.
    split; [|done]. rewrite lookup_insert_ne; [done|]. symmetry. by apply Hoc.
  - intros l' c' Hf. rewrite HinF in Hf. rewrite lookup_insert_ne; [by eapply Hfo|].
    intros <-. by apply (Hnf l').
  - intros c' Hc. setoid_rewrite HinF in Hc. apply Hid.
    destruct Hc as [Hc|[[e [[<- _]|[_ He]]%lookup_insert_Some]|Hc]].
    + left. by right.
    + left. by left.
    + right. left. eauto.
    + right. by right.
Qed.

(** ** Runs *)

Lemma addable_remove w c : addable w (ARemove c).
Proof. split; [right; eauto|done]. Qed.
Lemma addable_plain w a : plain a = true → act_listener a = None → addable w a.
Proof. intros Ha Hl. split; [by left|]. intros l. by rewrite Hl. Qed.
Lemma addable_on w a l :
  plain a = true → act_listener a = Some l → l < length (lheap w) → addable w a.
Proof. intros Ha Hl Hlt. split; [by left|]. intros l'. rewrite Hl. by intros [= <-]. Qed.
Lemma active_lt l w : is_active l w = true → l < length (lheap w).
Proof.
  unfold is_active. destruct (lheap w !! l) eqn:Hx; [|done]. by intros _; eapply lookup_lt_Some.
Qed.

Lemma close_acts_addable w l cs : Forall (addable w) (flat_map (close_acts l) cs).
Proof.
  induction cs as [|c cs IH]; simpl; [constructor|].
  repeat (apply Forall_cons; split); [by apply addable_plain..|apply addable_remove|done].
Qed.
Lemma close_acts_remove l cs c s : (c, s) ∈ cs → ARemove c ∈ flat_map (close_acts l) cs.
Proof.
  induction cs as [|[c' s'] cs IH]; intros Hc; [by apply elem_of_nil in Hc|].
  apply elem_of_cons in Hc as [[= -> ->]|Hc]; simpl; [by repeat constructor|].
  do 3 right. by apply IH.
Qed.

#[local] Hint Resolve addable_remove addable_plain : threads.

(** The actions that leave the listener map, the socket map and the listeners
    alone. *)
Definition quiet (a : Act) : bool :=
  match a with
  | ARegister _ _ | AUnregister _ | AInstance _ | AInactive _ | ADrain _ | ARemove _
  | AForget _ _ | AIssue _ _ | AAttach _ _ _ _ | AInsert _ _ _ _ => false
  | _ => true
  end.

Lemma quiet_frame pend a w :
  quiet a = true → reg (run_act pend a w).2 = reg w ∧ lheap (run_act pend a w).2 = lheap w.
Proof.
  destruct a; simpl; try done; unfold with_stream; intros _; repeat case_match; try done;
    unfold stream_poll_read in *; repeat case_match; by simplify_eq/=.
Qed.

Lemma quiet_addable pend a w Q :
  tinv w (a :: Q) → quiet a = true → Forall (addable w) (run_act pend a w).1.
Proof.
  intros Ht. pose proof (λ l, ti_alloc _ _ Ht a l (list_elem_of_here _ _)) as Hl.
  pose proof (ti_socket _ _ Ht) as Hso.
  destruct a; simpl in *; try done; intros _; unfold push_acts; repeat case_match;
    repeat (apply Forall_cons; split); try apply Forall_nil; try done;
    try apply addable_remove; try (by apply addable_plain);
    try (eapply addable_on; [done|done|]); eauto using active_lt.
  destruct (Hso _ _ ltac:(eassumption)) as (x & Hx & _). by eapply lookup_lt_Some.
Qed.

Lemma quiet_replaced pend a w Q :
  tinv w (a :: Q) → quiet a = true → replaced w (run_act pend a w).1 a.
Proof.
  intros Ht. destruct a; simpl; try done. intros _. destruct (sockets (reg w) !! c) as [e|].
  - destruct (is_active (se_listener e) w) eqn:He; [right; eauto|left; by left].
  - left. by left.
Qed.

Lemma run_act_inv pend a w Q :
  tinv w (a :: Q) → (seq (reg w) + 1 < 2 ^ 64)%Z →
  tinv (run_act pend a w).2 ((run_act pend a w).1 ++ Q).
Proof.
  intros Ht Hlt. destruct (quiet a) eqn:Hq.
  { destruct (quiet_frame pend a w Hq) as [Hr Hl]. apply (tinv_frame w); [done..|].
    eapply tinv_replaced; [done|by eapply quiet_replaced|by eapply quiet_addable]. }
  assert (∀ l, act_listener a = Some l → l < length (lheap w)) as Hal.
  { intros l. apply (ti_alloc _ _ Ht). by left. }
  destruct a; simpl; try done; simpl in Hal.
  - apply (tinv_replaced _ _ _ []) in Ht; [|done|constructor].
    unfold register_virtual_listener. repeat case_match; try done. by apply tinv_register.
  - apply (tinv_replaced _ _ _ []) in Ht; [|done|constructor].
    destruct (is_empty _); [done|]. destruct (listeners (reg w) !! key) as [l|] eqn:Hk; [|done].
    destruct (ti_registered _ _ Ht key l Hk) as (_ & x & Hx & Hkey & _).
    apply tinv_unlist; [done|by eapply lookup_lt_Some|]. intros k l'.
    rewrite lookup_delete_Some. split; [|intros [? ?]; split; congruence].
    intros [Hne Hk']. split; [done|]. intros ->.
    destruct (ti_registered _ _ Ht k l Hk') as (_ & y & Hy & Hkey' & _). congruence.
  - apply (tinv_replaced _ _ _ []) in Ht; [|done|constructor]. simpl in Ht.
    specialize (Hal l eq_refl). destruct (lookup_lt_is_Some_2 _ _ Hal) as [x Hx].
    unfold listener_key. rewrite Hx.
    assert (∀ k, listeners (reg w) !! k = Some l → k = l_key x) as Hkey.
    { intros k Hk. destruct (ti_registered _ _ Ht k l Hk) as (_ & y & Hy & <- & _). congruence. }
    case_bool_decide as Hreg.
    + apply tinv_unlist; [done..|]. intros k l'. rewrite lookup_delete_Some.
      split; [|intros [? ?]; split; congruence]. intros [Hne Hk]. split; [done|].
      intros ->. by destruct (Hkey k Hk).
    + replace w with (set_listeners (listeners (reg w)) w) at 1 by by destruct w as [[] ? ? ? ?].
      apply tinv_unlist; [done..|]. intros k l'. split; [|tauto]. intros Hk. split; [done|].
      intros ->. by rewrite (Hkey k Hk) in Hk.
  - by apply tinv_inactive.
  - apply tinv_drain; [done|apply close_acts_addable|]. intros x c s Hx Hc Hs. rewrite Hx.
    apply (close_acts_remove _ _ _ s), list_elem_of_filter. rewrite elem_of_map_to_list.
    split; [|done]. simpl. unfold alive, upgrades. rewrite bool_decide_true; [done|].
    exists c, (mkSocketEntry s l). done.
  - destruct (sockets (reg w) !! c) as [e|] eqn:Hc; [by apply tinv_remove|].
    by apply (tinv_replaced _ _ _ []) in Ht.
  - by apply tinv_forget.
  - by apply tinv_issue.
  - unfold attach_connection, is_active. destruct (lheap w !! l) as [x|] eqn:Hx;
      [destruct (l_active x) eqn:Hact|]; simpl;
      [by eapply tinv_attach|by apply (tinv_replaced _ _ _ []) in Ht..].
  - by apply tinv_inserted.
Qed.

Lemma run_act_seq pend a w :
  (0 ≤ seq (reg w) → seq (reg w) + 1 < 2 ^ 64 →
   seq (reg (run_act pend a w).2) ≤ seq (reg w) + 1)%Z.
Proof.
  intros Hge Hlt. destruct (quiet a) eqn:Hq.
  { destruct (quiet_frame pend a w Hq) as [-> _]. lia. }
  destruct a; try done; simpl; unfold register_virtual_listener, register_listener,
    attach_connection; repeat case_match; simplify_eq/=; try lia.
  unfold wrap_unsigned. rewrite Z.mod_small; lia.
Qed.

Lemma spawn_inv w P a : is_call a = true → tinv w P → tinv w (a :: P).
Proof.
  intros Ha Ht. apply (tinv_exchange w [] P [a]); [done|constructor|].
  apply Forall_cons. split; [|constructor]. by apply addable_plain; destruct a.
Qed.

Lemma run_event_inv e t :
  tinv t.1 (pending_acts t) → (seq (reg t.1) + 1 < 2 ^ 64)%Z →
  tinv (run_event e t).1 (pending_acts (run_event e t)) ∧
  (seq (reg (run_event e t).1) ≤ seq (reg t.1) + 1)%Z.
Proof.
  intros Ht Hlt. destruct t as [w ts]. unfold pending_acts in *. simpl in *.
  destruct e as [a|i]; simpl.
  - destruct (is_call a) eqn:Ha; simpl; [|split; [done|lia]]. split; [|lia].
    apply (tinv_perm _ (a :: concat ts)); [|by apply spawn_inv].
    rewrite concat_app. simpl. by rewrite <-Permutation_cons_append.
  - unfold run_thread. simpl. destruct (ts !! i) as [[|a rest]|] eqn:Hi; simpl; try (split; [done|lia]).
    destruct (concat_perm ts i a rest Hi) as (Q & Hq & Hnew). unfold pending_acts. simpl.
    pose proof (tinv_perm _ _ _ Hq Ht) as Ht'.
    pose proof (run_act_inv (concat ts) a w Q Ht' Hlt) as Hr.
    pose proof (run_act_seq (concat ts) a w (ti_seq _ _ Ht) Hlt) as Hs.
    destruct (run_act (concat ts) a w) as [new w']. simpl in *. split; [|done].
    by apply (tinv_perm _ (new ++ Q)); [rewrite Hnew|].
Qed.

Lemma tinv_idle : tinv World_new [].
Proof.
  split; simpl; try done; intros *; rewrite ?lookup_empty, ?lookup_nil; try done;
    rewrite ?elem_of_nil; try done.
  - constructor.
  - by intros [Hc|[[? Hc]|[? Hc]]]; rewrite ?elem_of_nil, ?lookup_empty in Hc.
Qed.

Lemma run_events_inv es t :
  tinv t.1 (pending_acts t) → (seq (reg t.1) + Z.of_nat (length es) < 2 ^ 64)%Z →
  tinv (run_events es t).1 (pending_acts (run_events es t)).
Proof.
  revert t. induction es as [|e es IH]; intros t Ht Hlt; [done|]. cbn [length] in Hlt.
  destruct (run_event_inv e t Ht) as [Ht' Hs]; [lia|]. apply IH; [done|lia].
Qed.

(** An operation under way will take the connection out of the socket map: it
    is about to, or the listener is no longer active, and either its known
    connections are about to be drained or the thread that opened this one has
    yet to check again. *)
Definition leaving (w : World) (c : string) (s l : nat) (P : list Act) : Prop :=
  ARemove c ∈ P ∨
  ∃ x, lheap w !! l = Some x ∧ l_active x = false ∧
    (l_connections x !! c = Some s ∧ ADrain l ∈ P ∨ ∃ l' st, ARecheck l' c st ∈ P).

(** C14: However the steps of registering, unregistering, connecting, pushing,
    writing and closing interleave on any number of threads, as long as fewer
    than 2^64 steps were made: a registered listener is active and bears its
    key, and an active listener that is not registered is about to be
    deactivated; a connection in the socket map belongs to an active listener
    that knows it under the same id and state, unless an operation under way
    is removing it; a connection that a listener knows is in the socket map,
    unless an operation under way is about to put it there or to make the
    listener forget it. When no operation is under way, a listener is active
    exactly while it is registered, and the socket map holds exactly the
    connections that active listeners know. *)
Theorem threads_consistent es :
  (Z.of_nat (length es) < 2 ^ 64)%Z →
  let '(w, ts) := run_events es idle in
  let P := concat ts in
  (∀ k l, listeners (reg w) !! k = Some l →
     ∃ x, lheap w !! l = Some x ∧ l_key x = k ∧ l_active x = true) ∧
  (∀ l x, lheap w !! l = Some x → l_active x = true →
     listeners (reg w) !! l_key x = Some l ∨ AInactive l ∈ P) ∧
  (∀ c s l, sockets (reg w) !! c = Some (mkSocketEntry s l) →
     (∃ x, lheap w !! l = Some x ∧ l_active x = true ∧ l_connections x !! c = Some s) ∨
     leaving w c s l P) ∧
  (∀ l x c s, lheap w !! l = Some x → l_connections x !! c = Some s →
     sockets (reg w) !! c = Some (mkSocketEntry s l) ∨
     (∃ st, AInsert l c s st ∈ P) ∨ AForget l c ∈ P) ∧
  (P = [] →
     (∀ l x, lheap w !! l = Some x →
        (l_active x = true ↔ listeners (reg w) !! l_key x = Some l)) ∧
     (∀ c s l, sockets (reg w) !! c = Some (mkSocketEntry s l) ↔
        ∃ x, lheap w !! l = Some x ∧ l_active x = true ∧ l_connections x !! c = Some s)).
Proof.
  intros Hlt. pose proof (run_events_inv es idle tinv_idle Hlt) as Ht.
  destruct (run_events es idle) as [w ts]. unfold pending_acts in Ht. simpl in Ht.
  destruct Ht as [Hall Hreg Hact Hina Hdr Hso Hins Hkn Hnd Hop Hfo Hid Hsq].
  assert (∀ c s l, sockets (reg w) !! c = Some (mkSocketEntry s l) →
     (∃ x, lheap w !! l = Some x ∧ l_active x = true ∧ l_connections x !! c = Some s) ∨
     leaving w c s l (concat ts)) as Hs.
  { intros c s l Hc. destruct (Hso c _ Hc) as (x & Hx & [Hk|[Hr|(Ha & Hr)]]); simpl in *.
    - destruct (l_active x) eqn:Ha; [left; eauto|]. right.
      destruct (Hina l x Hx Ha) as [He|?]; [by rewrite He, lookup_empty in Hk|].
      right. exists x. auto.
    - right. by left.
    - right. right. exists x. auto. }
  split_and!; try done.
  - intros k l Hk. by destruct (Hreg k l Hk) as [_ ?].
  - intros HP. rewrite HP in *. split.
    + intros l x Hx. split; [intros Ha|intros Hk].
      * destruct (Hact l x Hx Ha) as [?|[]%elem_of_nil]; done.
      * destruct (Hreg _ _ Hk) as (_ & y & Hy & _ & ?). congruence.
    + intros c s l. split.
      { intros [?|[[]%elem_of_nil|(? & _ & _ & [[_ []%elem_of_nil]|(? & ? & []%elem_of_nil)])]]%Hs.
        done. }
      intros (x & Hx & _ & Hc).
      by destruct (Hkn l x c s Hx Hc) as [?|[[? []%elem_of_nil]|[]%elem_of_nil]].
Qed.

(** ** Operations end *)

(** An upper bound on the actions that follow an action, itself included, not
    counting what a drain does for each connection. *)
Definition weight (a : Act) : nat :=
  match a with
  | ARegister _ _ | ARead _ _ _ | ADrop _ | ADrain _ | ANotify _ _ | AAbort _ _ | AForget _ _
  | AStream _ _ | APushData _ _ => 1
  | ARemove _ | AInactive _ => 2
  | AUnregister _ | AInstance _ | APushEof _ _ | APushError _ _ _ => 3
  | ASocketListener _ | APush _ _ _ _ => 4
  | ACallWrite _ _ _ _ | ACallClose _ _ _ => 5
  | AResume _ _ _ | AOnWrite _ _ _ _ | AOnClose _ _ _ => 6
  | AOpen _ _ _ | AWrite _ _ _ | AShutdown _ _ => 7
  | ARecheck _ _ _ => 8
  | AInsert _ _ _ _ => 9
  | AAttach _ _ _ _ => 14
  | AIssue _ _ => 15
  | AConnect _ _ => 16
  end.

(** The connections all listeners know. *)
Definition conns (h : list Listener) : nat := sum_list_with (λ x, size (l_connections x)) h.

(** What is left to do: four actions for each connection a drain may find. *)
Definition work (t : TState) : nat :=
  sum_list_with weight (pending_acts t) + 4 * conns (lheap t.1).

Lemma conns_alter f l h k :
  (∀ x, size (l_connections (f x)) ≤ size (l_connections x) + k) →
  conns (alter f l h) ≤ conns h + k.
Proof.
  intros Hf. revert l. induction h as [|x h IH]; intros [|l]; try (simpl; lia).
  - specialize (Hf x). change (size (l_connections (f x)) + conns h ≤
      size (l_connections x) + conns h + k). lia.
  - specialize (IH l). change (size (l_connections x) + conns (alter f l h) ≤
      size (l_connections x) + conns h + k). lia.
Qed.
Lemma conns_drained l h x :
  h !! l = Some x →
  conns (alter (λ x, mkListener (l_key x) (l_active x) ∅) l h) + size (l_connections x) = conns h.
Proof.
  revert l. induction h as [|y h IH]; intros [|l] Hx; simplify_eq/=.
  - rewrite map_size_empty. lia.
  - specialize (IH l Hx). set (f := λ x, mkListener _ _ _) in *.
    change (size (l_connections y) + conns (alter f l h) + size (l_connections x) =
      size (l_connections y) + conns h). lia.
Qed.
Lemma close_acts_weight l cs : sum_list_with weight (flat_map (close_acts l) cs) = 4 * length cs.
Proof. induction cs as [|c cs IH]; simpl; [done|]. rewrite IH. lia. Qed.

Lemma run_act_work pend a w :
  sum_list_with weight (run_act pend a w).1 + 4 * conns (lheap (run_act pend a w).2)
  < weight a + 4 * conns (lheap w).
Proof.
  destruct (quiet a) eqn:Hq.
  { destruct (quiet_frame pend a w Hq) as [_ ->].
    destruct a; try done; simpl; unfold push_acts; repeat case_match; simpl; lia. }
  destruct a; try done; simpl.
  - unfold register_virtual_listener, register_listener. repeat case_match; simplify_eq/=; try lia.
    unfold conns. rewrite sum_list_with_app. simpl. rewrite map_size_empty. lia.
  - repeat case_match; simpl; lia.
  - case_bool_decide; simpl; lia.
  - pose proof (conns_alter (λ x, mkListener (l_key x) false (l_connections x)) l (lheap w) 0) as Hc.
    specialize (Hc ltac:(simpl; lia)). lia.
  - rewrite close_acts_weight. destruct (lheap w !! l) as [x|] eqn:Hx.
    + pose proof (conns_drained l (lheap w) x Hx) as Hc.
      pose proof (length_filter (λ c : string * nat, alive pend c.2 w = true)
                    (map_to_list (l_connections x))) as Hle.
      rewrite length_map_to_list in Hle. lia.
    + pose proof (conns_alter (λ x, mkListener (l_key x) (l_active x) ∅) l (lheap w) 0) as Hc.
      specialize (Hc ltac:(intros x; simpl; rewrite map_size_empty; lia)). simpl. lia.
  - repeat case_match; simpl; lia.
  - pose proof (conns_alter (λ x, mkListener (l_key x) (l_active x) (delete c (l_connections x))) l
                  (lheap w) 0) as Hc.
    assert (∀ m : gmap string nat, size (delete c m) ≤ size m) as Hd.
    { intros m. rewrite map_size_delete. destruct (m !! c); simpl; lia. }
    specialize (Hc ltac:(intros x; simpl; specialize (Hd (l_connections x)); lia)). lia.
  - lia.
  - unfold attach_connection. destruct (is_active l w); simpl; [|lia].
    pose proof (conns_alter (λ x, mkListener (l_key x) (l_active x) (<[c := s]> (l_connections x))) l
                  (lheap w) 1) as Hc.
    assert (∀ m : gmap string nat, size (<[c := s]> m) ≤ size m + 1) as Hd.
    { intros m. rewrite map_size_insert. destruct (m !! c); simpl; lia. }
    specialize (Hc ltac:(intros x; apply Hd)). lia.
  - lia.
Qed.

Lemma run_thread_work i t t' : run_thread i t = Some t' → work t' < work t.
Proof.
  destruct t as [w ts]. unfold run_thread, work, pending_acts. simpl.
  destruct (ts !! i) as [[|a rest]|] eqn:Hi; try done.
  destruct (concat_perm ts i a rest Hi) as (Q & Hq & Hnew).
  pose proof (run_act_work (concat ts) a w) as Hw.
  destruct (run_act (concat ts) a w) as [new w']. intros [= <-]. simpl in *.
  rewrite Hnew, Hq, sum_list_with_app. simpl. lia.
Qed.

(** Threads go on in the given order; [None] when one of them has nothing to
    do. *)
Fixpoint run_schedule (js : list nat) (t : TState) : option TState :=
  match js with
  | [] => Some t
  | i :: js' => run_thread i t ≫= run_schedule js'
  end.


(** ** An operation that is not interrupted

    The operations of [VjsRegistry] are the threads' actions, one after the
    other with nothing in between. *)

Inductive solo_step : list Act * World → list Act * World → Prop :=
| solo a rest w :
    solo_step (a :: rest, w)
      ((run_act (a :: rest) a w).1 ++ rest, (run_act (a :: rest) a w).2).

Lemma solo_to a rest w acts w' t :
  run_act (a :: rest) a w = (acts, w') → rtc solo_step (acts ++ rest, w') t →
  rtc solo_step (a :: rest, w) t.
Proof. intros E Hr. eapply rtc_l; [constructor|]. by rewrite E. Qed.

Lemma alter_twice {A} (f g : A → A) i (h : list A) :
  alter f i (alter g i h) = alter (λ x, f (g x)) i h.
Proof. revert i. induction h as [|x h IH]; intros [|i]; try done. cbn. f_equal. apply IH. Qed.

Lemma solo_detach c rest w : rtc solo_step (ARemove c :: rest, w) (rest, detach_socket c w).
Proof.
  unfold detach_socket. destruct (sockets (reg w) !! c) as [e|] eqn:Hc.
  - eapply solo_to; [simpl; by rewrite Hc|]. eapply solo_to; [done|]. apply rtc_refl.
  - eapply solo_to; [simpl; by rewrite Hc|]. apply rtc_refl.
Qed.
Lemma solo_close l c rest w :
  rtc solo_step (close_acts l c ++ rest, w) (rest, close_drained l c w).
Proof.
  eapply solo_to; [done|]. eapply solo_to; [done|]. apply solo_detach.
Qed.
Lemma solo_drain l cs rest w :
  rtc solo_step (flat_map (close_acts l) cs ++ rest, w) (rest, drain_loop l cs w).
Proof.
  revert w. induction cs as [|c cs IH]; intros w; [apply rtc_refl|].
  etrans; [apply (solo_close l c (flat_map (close_acts l) cs ++ rest))|]. apply IH.
Qed.

(** The thread that drains holds no socket itself. *)
Lemma solo_deactivate l rest w :
  Forall (λ a, act_state a = None) rest →
  rtc solo_step (AInactive l :: rest, w) (rest, deactivate_listener l w).
Proof.
  intros Hrest. eapply solo_to; [done|]. eapply solo_to; [done|].
  assert (∀ s w', alive (ADrain l :: rest) s w' = upgrades s w') as Hal.
  { intros s w'. unfold alive. simpl. replace (existsb _ rest) with false; [apply orb_false_r|].
    symmetry. induction Hrest as [|a rest Ha _ IH]; [done|]. simpl. by rewrite Ha, IH. }
  unfold deactivate_listener, deactivate.
  set (conns0 := match lheap w !! l with Some x => _ | None => _ end).
  replace (match lheap (set_active false l w) !! l with Some x => _ | None => _ end) with conns0.
  2:{ unfold conns0. simpl. rewrite list_lookup_alter_eq. by destruct (lheap w !! l). }
  replace (filter (λ c, alive _ c.2 _ = true) conns0) with (filter (λ c, upgrades c.2 w = true) conns0).
  2:{ apply list_filter_iff. intros c. by rewrite Hal. }
  etrans; [apply solo_drain|]. unfold drain_loop, clear_connections, set_active, set_lheap. simpl.
  rewrite alter_twice. apply rtc_refl.
Qed.
Lemma solo_instance l rest w :
  Forall (λ a, act_state a = None) rest →
  rtc solo_step (AInstance l :: rest, w) (rest, deactivate_listener_instance l w).
Proof. intros Hrest. eapply solo_to; [done|]. by apply solo_deactivate. Qed.
Lemma solo_socket_listener c w :
  rtc solo_step ([ASocketListener c], w) ([], deactivate_socket_listener c w).
Proof.
  eapply solo_to; [done|]. unfold deactivate_socket_listener.
  destruct (sockets (reg w) !! c); [by apply solo_instance|apply rtc_refl].
Qed.

(** The thread of an operation, with the status [open] will give, and what it
    has left when the operation of [VjsRegistry] ends: a connection that was
    opened waits for its callback. *)
Definition op_thread (op : Op) (status : Status) : list Act :=
  match op with
  | OpRegister key built => [ARegister key built]
  | OpUnregister key => [AUnregister key]
  | OpPush kind c d m => [APush kind c d m]
  | OpConnectOpen l => [AConnect l status]
  | OpConnectResume l c st => [AResume l c st]
  | OpRead n task cap => [ARead n task cap]
  | OpWrite n buf st => [AWrite n buf st]
  | OpShutdown n st => [AShutdown n st]
  | OpDrop n => [ADrop n]
  end.
Definition op_left (op : Op) (status : Status) (w : World) : list Act :=
  match op with
  | OpConnectOpen l =>
      match (connect_open l w).1 with Ok c => [AResume l c status] | Err _ => [] end
  | _ => []
  end.

Lemma solo_push kind c d m w :
  rtc solo_step ([APush kind c d m], w) ([], (push_event kind c d m w).2).
Proof.
  eapply solo_to; [done|]. unfold push_acts, push_event, on_socket.
  destruct (decide (kind = "data")).
  { destruct d as [d|]; [|apply rtc_refl]. destruct (socket_state c w) as [s|]; [|apply rtc_refl].
    eapply solo_to; [done|]. unfold change_socket.
    destruct (push_data d _) as [r st]. apply rtc_refl. }
  destruct (decide (kind = "eof")).
  { destruct (socket_state c w) as [s|]; [|apply rtc_refl].
    eapply solo_to; [done|]. unfold change_socket, push_eof.
    destruct (closed _); apply solo_detach. }
  destruct (decide (kind = "error")); [|apply rtc_refl].
  destruct m as [m|]; [|apply rtc_refl]. destruct (socket_state c w) as [s|]; [|apply rtc_refl].
  eapply solo_to; [done|]. unfold change_socket, push_error.
  destruct (closed _); apply solo_detach.
Qed.

Lemma solo_connect l st w :
  rtc solo_step ([AConnect l st], w) (op_left (OpConnectOpen l) st w, (connect_open l w).2).
Proof.
  eapply solo_to; [done|]. unfold op_left, connect_open, init_connect.
  destruct (is_active l w) eqn:Ha; simpl; [|apply rtc_refl].
  eapply solo_to; [done|]. simpl. set (c := conn_id_of _ _). set (w1 := set_sheap _ _).
  change (sheap w) with (sheap (set_reg (mkRegistry (listeners (reg w)) (sockets (reg w))
    (wrap_u64 (seq (reg w) + 1))) w)).
  unfold attach_connection. destruct (is_active l w1) eqn:Ha1; simpl.
  2:{ eapply solo_to; [simpl; unfold attach_connection; by rewrite Ha1|]. apply rtc_refl. }
  eapply solo_to; [simpl; unfold attach_connection; by rewrite Ha1|].
  eapply solo_to; [done|]. eapply solo_to; [done|]. set (w2 := set_lheap _ _).
  destruct (match sockets (reg (attach_socket_state c (length (sheap w)) l w2)) !! c with
            | Some e => _ | None => _ end) eqn:E;
    [eapply solo_to; [done|]; apply rtc_refl|apply solo_detach].
Qed.

(** Every operation of [VjsRegistry] is what its thread does when no other
    thread takes a step. *)
Theorem op_uninterrupted op status w :
  rtc solo_step (op_thread op status, w) (op_left op status w, run_reg_op op w).
Proof.
  destruct op as [key built|key|kind c d m|l|l c st|n task cap|n buf st|n st|n]; simpl.
  - eapply solo_to; [done|]. apply rtc_refl.
  - unfold unregister_virtual_listener, unregister_listener.
    destruct (is_empty (trim key)) eqn:Hk; [|destruct (listeners (reg w) !! key) as [l|] eqn:Hl];
      (eapply solo_to; [simpl; rewrite Hk, ?Hl; reflexivity|]); [apply rtc_refl| |apply rtc_refl].
    by apply solo_deactivate.
  - apply solo_push.
  - apply solo_connect.
  - eapply solo_to; [done|]. unfold connect_resume. destruct (decide (st = StatusOk)).
    + destruct (is_active l w); simpl; [|apply solo_detach]. eapply solo_to; [done|].
      destruct (socket_state c w); apply rtc_refl.
    + destruct (tsfn_closed st); simpl; [|apply solo_detach].
      etrans; [apply solo_instance; by repeat constructor|apply solo_detach].
  - eapply solo_to; [done|]. apply rtc_refl.
  - eapply solo_to; [done|]. unfold with_stream. destruct (streams w !! n) as [v|]; [|apply rtc_refl].
    unfold poll_write, on_write. destruct (closed _); [apply rtc_refl|].
    eapply solo_to; [done|]. destruct (is_active (vs_listener v) w); simpl; [|apply rtc_refl].
    eapply solo_to; [done|]. destruct (decide (st = StatusOk)) as [->|Hst]; [apply rtc_refl|].
    destruct (tsfn_closed st); [apply solo_socket_listener|apply rtc_refl].
  - unfold with_stream. destruct (streams w !! n) as [v|] eqn:Hv;
      (eapply solo_to; [simpl; rewrite Hv; reflexivity|]); [|apply rtc_refl].
    unfold poll_shutdown, on_close. eapply solo_to; [done|].
    destruct (is_active (vs_listener v) _); simpl; [|apply solo_detach].
    eapply solo_to; [done|]. destruct (decide (st = StatusOk)); [apply solo_detach|].
    destruct (tsfn_closed st); [apply solo_socket_listener|apply rtc_refl].
  - eapply solo_to; [done|]. apply rtc_refl.
Qed.

(** ** Witnesses *)

(** A connection is opened while its listener is unregistered: the drain comes
    between the listener learning of the connection and the socket map getting
    it, and the second check takes it out again. *)
Definition race : list TEvent :=
  [Spawn (ARegister "app" (Ok tt)); Run 0; Spawn (AConnect 0 StatusOk); Run 1; Run 1; Run 1;
   Spawn (AUnregister "app"); Run 2; Run 2; Run 2; Run 2; Run 2; Run 2; Run 1].
Example race_entry :
  (se_listener <$> sockets (reg (run_events race idle).1) !! "app:conn:0") = Some 0 ∧
  (run_events race idle).2 = [[]; [ARecheck 0 "app:conn:0" StatusOk]; []].
Proof. vm_compute. split; reflexivity. Qed.

Definition race_end : list TEvent := race ++ [Run 1; Run 1; Run 1].
Lemma threads_consistent_witness :
  let '(w, ts) := run_events race_end idle in
  concat ts = [] ∧ ∀ c s l, sockets (reg w) !! c = Some (mkSocketEntry s l) ↔
    ∃ x, lheap w !! l = Some x ∧ l_active x = true ∧ l_connections x !! c = Some s.
Proof.
  assert (Z.of_nat (length race_end) < 2 ^ 64)%Z as Hlt by (vm_compute; reflexivity).
  pose proof (threads_consistent race_end Hlt) as Ht.
  assert (concat (run_events race_end idle).2 = []) as Hi by (vm_compute; reflexivity).
  destruct (run_events race_end idle) as [w ts]. split; [exact Hi|].
  apply Ht. exact Hi.
Defined.

End VjsThreads.
