(* ===== verification/LoadBalancer.v ===== *)
(** * Endpoints, passive health and the load balancer

    [src/upstream/lb.rs], and the endpoint types of [src/upstream/upstream.rs]
    that it uses. A backend carries the index of its endpoint and a handle to
    its health state; the state is shared by every clone of the backend, so it
    lives in a heap and the handle is a location. [pingora]'s selection
    algorithms and the process-wide hasher are parameters ([LbLib]); what the
    code relies on of them is [LbLaws]. *)

From S2P Require Import Prelude Text Config.
From stdpp Require Import base tactics strings list gmap.
From Stdlib Require Import ZArith Lia Ascii.

(** ** Endpoints *)

(** [openssl]: parsed certificates and keys, and their PEM parsers. *)
Class TlsLib := {
  X509 : Type;
  PKey : Type;
  x509_stack_from_pem : string → result (list X509) string;
  private_key_from_pem : string → result PKey string;
}.

Section Endpoints.
Context `{TlsLib}.

Record PeerTunables := mkPeerTunables {
  pt_connect_timeout_ms : option Z;
  pt_read_timeout_ms : option Z;
  pt_write_timeout_ms : option Z;
  pt_idle_timeout_ms : option Z;
  pt_verify_cert : bool;
  pt_client_cert_key : option (list X509 * PKey);
  pt_ca : option (list X509);
}.

(** [impl Default for PeerTunables]. *)
Definition PeerTunables_default : PeerTunables :=
  mkPeerTunables None None None None true None None.

(** [PeerTunables::from_config]. *)
Definition PeerTunables_from_config (cfg : UpstreamConfig) : result PeerTunables string :=
  let? client_cert_key :=
    match uc_client_cert_pem cfg, uc_client_key_pem cfg with
    | Some cert, Some key =>
        let? certs := map_err (λ e, "invalid upstream client_cert_pem: " +:+ e)
                        (x509_stack_from_pem cert) in
        let? key := map_err (λ e, "invalid upstream client_key_pem: " +:+ e)
                      (private_key_from_pem key) in
        Ok (Some (certs, key))
    | None, None => Ok None
    | _, _ => Err "upstream client_cert_pem and client_key_pem must be provided together"
    end in
  let? ca := transpose (λ pem, map_err (λ e, "invalid upstream ca_cert_pem: " +:+ e)
                                 (x509_stack_from_pem pem)) (uc_ca_cert_pem cfg) in
  Ok (mkPeerTunables (uc_connect_timeout_ms cfg) (uc_read_timeout_ms cfg)
        (uc_write_timeout_ms cfg) (uc_idle_timeout_ms cfg)
        (default true (uc_verify_cert cfg)) client_cert_key ca).

Inductive UpstreamEndpoint :=
| EpTcp (address : string) (tls h2c : bool) (sni : string) (weight : Z)
    (tunables : PeerTunables)
| EpUnix (path : string) (tls h2c : bool) (sni : string) (weight : Z)
    (tunables : PeerTunables)
| EpVirtualJs (key : string) (tls h2c : bool) (sni : string) (weight : Z)
    (tunables : PeerTunables).

Definition ep_kind (e : UpstreamEndpoint) : string :=
  match e with
  | EpTcp _ _ _ _ _ _ => "tcp"
  | EpUnix _ _ _ _ _ _ => "unix"
  | EpVirtualJs _ _ _ _ _ _ => "virtual_js"
  end.
Definition ep_address (e : UpstreamEndpoint) : string :=
  match e with
  | EpTcp address _ _ _ _ _ => address
  | EpUnix path _ _ _ _ _ => path
  | EpVirtualJs key _ _ _ _ _ => key
  end.
Definition ep_weight (e : UpstreamEndpoint) : Z :=
  match e with
  | EpTcp _ _ _ _ weight _ | EpUnix _ _ _ _ weight _ | EpVirtualJs _ _ _ _ weight _ => weight
  end.
End Endpoints.

(** ** Passive health *)

Module Health.

Record PassiveHealthState := mkHealth {
  tolerance : Z;
  next_window : Z;
  tracked : bool;
}.

Definition default : PassiveHealthState := mkHealth 0 0 false.

(** [fetch_sub] wraps at 64 bits. *)
Definition observe_failure (window : Z) (s : PassiveHealthState) : PassiveHealthState :=
  mkHealth (wrap_i64 (tolerance s - 1)) window (tracked s).
Definition observe_success (allowed_failures : Z) (s : PassiveHealthState)
    : PassiveHealthState :=
  mkHealth allowed_failures (next_window s) (tracked s).
Definition is_healthy (now : Z) (s : PassiveHealthState) : bool :=
  if (0 <=? tolerance s)%Z then true
  else if (next_window s <=? now)%Z then true
  else false.
Definition mark_tracked (s : PassiveHealthState) : PassiveHealthState :=
  mkHealth (tolerance s) (next_window s) true.

(** The update of [observe_backend_health] on the backend's state; in the
    release profile [now + failure_window_ms] wraps. *)
Definition observe (success : bool) (now failure_window_ms max_attempts : Z)
    (s : PassiveHealthState) : PassiveHealthState :=
  let s := mark_tracked s in
  if success then observe_success max_attempts s
  else observe_failure (wrap_i64 (now + failure_window_ms)) s.

(** *** The meaning of a history of outcomes *)

Record Outcome := mkOutcome {
  oc_success : bool;
  oc_now : Z;
  oc_window : Z;
  oc_max_attempts : Z;
}.

Definition record (o : Outcome) (s : PassiveHealthState) : PassiveHealthState :=
  observe (oc_success o) (oc_now o) (oc_window o) (oc_max_attempts o) s.

Definition history (os : list Outcome) : PassiveHealthState :=
  fold_left (λ s o, record o s) os default.

(** Read from the newest outcome back: the failures since the last success
    and the allowance that success granted (none before any success). *)
Fixpoint failures_since (rev_os : list Outcome) : Z * Z :=
  match rev_os with
  | [] => (0, 0)%Z
  | o :: os =>
      if oc_success o then (0, oc_max_attempts o)%Z
      else let '(n, allowed) := failures_since os in ((n + 1)%Z, allowed)
  end.

(** The end of the newest failure's window. *)
Fixpoint last_window (rev_os : list Outcome) : Z :=
  match rev_os with
  | [] => 0%Z
  | o :: os => if oc_success o then last_window os else (oc_now o + oc_window o)%Z
  end.

(** Outcomes whose numbers are 64-bit values and whose window ends are too. *)
Definition outcome_ok (o : Outcome) : Prop :=
  (0 ≤ oc_max_attempts o < 2 ^ 62)%Z ∧ in_i64 (oc_now o + oc_window o).

Lemma history_snoc os o : history (os ++ [o]) = record o (history os).
Proof. unfold history. by rewrite fold_left_app. Qed.

Lemma failures_since_bound os :
  Forall outcome_ok os →
  (0 ≤ (failures_since os).1 ≤ Z.of_nat (length os))%Z ∧
  (0 ≤ (failures_since os).2 < 2 ^ 62)%Z.
Proof.
  induction 1 as [|o os [Ho _] _ IH]; simpl; [lia|].
  destruct (oc_success o); simpl; [lia|]. destruct (failures_since os). simpl in *. lia.
Qed.

Lemma history_closed_form os :
  Forall outcome_ok os → (Z.of_nat (length os) < 2 ^ 62)%Z →
  tolerance (history os) = ((failures_since (rev os)).2 - (failures_since (rev os)).1)%Z ∧
  next_window (history os) = last_window (rev os) ∧
  tracked (history os) = negb (bool_decide (os = [])).
Proof.
  induction os as [|o os IH] using rev_ind; intros Hok Hlen; [done|].
  apply Forall_app in Hok as [Hok [Ho Hw]%Forall_singleton].
  rewrite length_app in Hlen. simpl in Hlen.
  destruct IH as (Ht & Hn & _); [done|lia|].
  rewrite history_snoc, rev_unit. unfold record, observe.
  pose proof (failures_since_bound (rev os)) as Hb.
  rewrite length_rev in Hb. specialize (Hb ltac:(by apply Forall_rev)).
  assert (bool_decide (os ++ [o] = []) = false) as ->.
  { apply bool_decide_eq_false. by destruct os. }
  cbn [failures_since last_window]. destruct (oc_success o); simpl; [split_and!; [lia|done..]|].
  destruct (failures_since (rev os)) as [n a]. simpl in *. rewrite Ht.
  split_and!; [|by rewrite wrap_i64_id|done].
  rewrite wrap_i64_id; unfold in_i64; lia.
Qed.



(** A failure of a backend that has no allowance left trips it until the end
    of its window. *)
Lemma failure_trips now now' window max_attempts s :
  (- 2 ^ 63 < tolerance s ≤ 0)%Z → in_i64 (now + window) → (now' < now + window)%Z →
  is_healthy now' (observe false now window max_attempts s) = false.
Proof.
  intros Ht Hin Hw. unfold observe, is_healthy. simpl.
  rewrite !wrap_i64_id; [|done|unfold in_i64; lia].
  destruct (Z.leb_spec 0 (tolerance s - 1)); [lia|].
  by destruct (Z.leb_spec (now + window) now'); [lia|].
Qed.

(** So without a success on record the first failure trips the backend,
    whatever threshold was configured. *)
Lemma first_failure_trips now window max_attempts :
  (0 < window)%Z → in_i64 (now + window) →
  is_healthy now (observe false now window max_attempts default) = false.
Proof. intros Hw Hin. apply failure_trips; simpl; [lia|done|lia]. Qed.
End Health.

(** ** Backends *)

(** [pingora]'s [SocketAddr]; octets are bytes. *)
Inductive BackendAddr :=
| AddrV4 (octets : list Z) (port : Z)
| AddrV6 (octets : list Z) (port flowinfo scope_id : Z)
| AddrPath (path : string).
#[export] Instance BackendAddr_eq_dec : EqDecision BackendAddr.
Proof. solve_decision. Defined.

(** [Backend]: its extensions hold at most one [EndpointIndex] and one
    [PassiveHealthState]. *)
Record Backend := mkBackend {
  be_addr : BackendAddr;
  be_weight : Z;
  be_index : option nat;
  be_health : option nat;
}.

(** Backends compare by address and weight; their extensions are ignored. *)
Definition same_backend (a b : Backend) : Prop :=
  be_addr a = be_addr b ∧ be_weight a = be_weight b.
#[export] Instance same_backend_dec : RelDecision same_backend.
Proof. intros a b. unfold same_backend. apply _. Defined.
#[export] Instance same_backend_equiv : Equivalence same_backend.
Proof. split; unfold same_backend; [intros a|intros a b|intros a b c]; naive_solver congruence. Qed.

Class LbLib := {
  LbState : Type;
  (** [SocketAddr::from_str]. *)
  addr_from_str : string → result BackendAddr string;
  (** The process-wide hasher: the digest of a sequence of writes. *)
  hasher_finish : list string → Z;
  (** [LoadBalancer::from_backends] and [update] for an algorithm. *)
  lb_update : LoadBalancerAlgorithm → list Backend → result LbState string;
  lb_select : LbState → string → Z → option Backend * LbState;
  lb_select_with : LbState → string → Z → (Backend → bool → bool) → option Backend * LbState;
}.

(** The documented behaviour of selection. [lb_holds st bs]: the balancer [st]
    was built on the backends [bs]; selecting does not change that. *)
Class LbLaws `{LbLib} := {
  lb_holds : LbState → list Backend → Prop;
  lb_update_holds alg bs st : lb_update alg bs = Ok st → lb_holds st bs;
  lb_select_holds st bs key n b st' :
    lb_holds st bs → lb_select st key n = (b, st') →
    lb_holds st' bs ∧ (∀ x, b = Some x → x ∈ bs);
  lb_select_with_holds st bs key n accept b st' :
    lb_holds st bs → lb_select_with st key n accept = (b, st') →
    lb_holds st' bs ∧ (∀ x, b = Some x → x ∈ bs ∧ ∃ ready, accept x ready = true);
}.

Section LoadBalancer.
Context `{TlsLib, LbLib}.
Implicit Types (e : UpstreamEndpoint).

(** [u64::to_be_bytes]. *)
Definition to_be_bytes (n : Z) : list Z :=
  (λ i, Z.land (Z.shiftr n (8 * i)) 255) <$> [7; 6; 5; 4; 3; 2; 1; 0]%Z.

Definition nul : string := String Ascii.zero EmptyString.

Definition synthetic_of_writes (writes : list string) : BackendAddr :=
  AddrV6 ([32; 1; 13; 184] ++ [0; 0; 0; 0] ++ to_be_bytes (hasher_finish writes))%Z 1 0 0.

(** [synthetic_backend_addr]. *)
Definition synthetic_backend_addr e : result BackendAddr string :=
  match e with
  | EpUnix path _ _ _ _ _ => Ok (synthetic_of_writes ["unix" +:+ nul; path])
  | EpVirtualJs key _ _ _ _ _ => Ok (synthetic_of_writes ["virtual_js" +:+ nul; key])
  | EpTcp address _ _ _ _ _ =>
      Err ("cannot generate a synthetic backend address for tcp upstream '"
           +:+ address +:+ "'")
  end.

(** The address of an endpoint's backend in [build_load_balancer]. *)
Definition backend_addr e : result BackendAddr string :=
  match e with
  | EpTcp address _ _ _ _ _ =>
      map_err (λ err, "invalid tcp upstream address '" +:+ address +:+ "': " +:+ err)
        (addr_from_str address)
  | _ => synthetic_backend_addr e
  end.

(** [BTreeSet::insert]: an equal backend that is present stays. The set is
    listed in insertion order. *)
Definition set_insert (b : Backend) (bs : list Backend) : list Backend :=
  if decide (Exists (same_backend b) bs) then bs else bs ++ [b].

Abbreviation HealthHeap := (list Health.PassiveHealthState).

(** The loop of [build_load_balancer]: each endpoint allocates its state. *)
Fixpoint build_backends (idx : nat) (upstreams : list UpstreamEndpoint)
    (bs : list Backend) (heap : HealthHeap) : result (list Backend * HealthHeap) string :=
  match upstreams with
  | [] => Ok (bs, heap)
  | e :: es =>
      let loc := length heap in
      let heap := heap ++ [Health.default] in
      let? addr := backend_addr e in
      let b := mkBackend addr (ep_weight e) (Some idx) (Some loc) in
      build_backends (S idx) es (set_insert b bs) heap
  end.

(** [RoundRobinDynLb] and [ConsistentDynLb]: the balancer and its backends. *)
Record DynLoadBalancer := mkDynLb {
  dl_backends : list Backend;
  dl_state : LbState;
}.

(** [build_load_balancer]. *)
Definition build_load_balancer (upstreams : list UpstreamEndpoint)
    (cfg : LoadBalancerConfig) (heap : HealthHeap)
    : result (option DynLoadBalancer * HealthHeap) string :=
  let? '(bs, heap) := build_backends 0 upstreams [] heap in
  match bs with
  | [] => Ok (None, heap)
  | _ =>
      let? st := map_err (λ err, match lb_algorithm cfg with
                                 | RoundRobin => "failed to update round_robin lb: "
                                 | ConsistentHash => "failed to update consistent_hash lb: "
                                 end +:+ err)
                   (lb_update (lb_algorithm cfg) bs) in
      Ok (Some (mkDynLb bs st), heap)
  end.

(** [select_backend] and [select_backend_with]. *)
Definition select_backend (lb : DynLoadBalancer) (key : string) (max_iterations : Z)
    : option Backend * DynLoadBalancer :=
  let '(b, st) := lb_select (dl_state lb) key max_iterations in
  (b, mkDynLb (dl_backends lb) st).
Definition select_backend_with (lb : DynLoadBalancer) (key : string) (max_iterations : Z)
    (accept : Backend → bool → bool) : option Backend * DynLoadBalancer :=
  let '(b, st) := lb_select_with (dl_state lb) key max_iterations accept in
  (b, mkDynLb (dl_backends lb) st).

(** [is_backend_healthy]; a handle always points into the heap. *)
Definition health_of (b : Backend) (heap : HealthHeap) : option Health.PassiveHealthState :=
  be_health b ≫= λ loc, heap !! loc.
Definition is_backend_healthy (b : Backend) (now : Z) (heap : HealthHeap) : bool :=
  match health_of b heap with
  | None => true
  | Some state => Health.is_healthy now state
  end.

(** [observe_backend_health]. *)
Definition observe_backend_health (b : Backend) (success : bool)
    (now failure_window_ms max_attempts : Z) (heap : HealthHeap) : HealthHeap :=
  match be_health b with
  | None => heap
  | Some loc => alter (Health.observe success now failure_window_ms max_attempts) loc heap
  end.

(** [collect_upstream_health]. *)
Definition backend_report (now : Z) (heap : HealthHeap) (b : Backend)
    : option (nat * option (bool * Z)) :=
  match be_index b with
  | None => None
  | Some idx =>
      Some (idx, health_of b heap ≫= λ s,
                   if Health.tracked s
                   then Some (is_backend_healthy b now heap, Health.tolerance s) else None)
  end.
Definition upstream_health (lb : DynLoadBalancer) (now : Z) (heap : HealthHeap)
    : list (nat * option (bool * Z)) :=
  omap (backend_report now heap) (dl_backends lb).

(** ** What the balancer's backends are *)

(** The backend of an endpoint, its states allocated from [base]. *)
Definition backend_of (base : nat) (all : list UpstreamEndpoint) (b : Backend) : Prop :=
  ∃ idx e addr, all !! idx = Some e ∧ backend_addr e = Ok addr ∧
    b = mkBackend addr (ep_weight e) (Some idx) (Some (base + idx)).

(** An endpoint is represented: a backend has its address and weight. *)
Definition represented (bs : list Backend) e : Prop :=
  ∃ b, b ∈ bs ∧ backend_addr e = Ok (be_addr b) ∧ be_weight b = ep_weight e.

Definition distinct (bs : list Backend) : Prop :=
  ∀ i j a b, bs !! i = Some a → bs !! j = Some b → same_backend a b → i = j.

Record backends_ok (base : nat) (all : list UpstreamEndpoint) (seen : list UpstreamEndpoint)
    (bs : list Backend) : Prop := {
  ok_backend : Forall (backend_of base all) bs;
  ok_represented : Forall (represented bs) seen;
  ok_distinct : distinct bs;
}.

Lemma set_insert_elem b bs x : x ∈ set_insert b bs → x = b ∨ x ∈ bs.
Proof. unfold set_insert. case_decide; set_solver. Qed.
Lemma set_insert_keeps b bs x : x ∈ bs → x ∈ set_insert b bs.
Proof. unfold set_insert. case_decide; set_solver. Qed.
Lemma set_insert_has b bs : ∃ x, x ∈ set_insert b bs ∧ same_backend b x.
Proof.
  unfold set_insert. case_decide as He.
  - apply Exists_exists in He as (x & ? & ?). eauto.
  - exists b. split; [set_solver|reflexivity].
Qed.
Lemma set_insert_distinct b bs : distinct bs → distinct (set_insert b bs).
Proof.
  intros Hd. unfold set_insert. case_decide as He; [done|].
  intros i j x y Hi Hj Hxy.
  apply lookup_app_Some in Hi as [Hi|[Hi1 Hi]]; apply lookup_app_Some in Hj as [Hj|[Hj1 Hj]].
  - by eapply Hd.
  - apply list_lookup_singleton_Some in Hj as [_ <-]. destruct He.
    apply Exists_exists. exists x. split; [by eapply list_elem_of_lookup_2|by symmetry].
  - apply list_lookup_singleton_Some in Hi as [_ <-]. destruct He.
    apply Exists_exists. exists y. split; [by eapply list_elem_of_lookup_2|done].
  - apply list_lookup_singleton_Some in Hi as [? _], Hj as [? _]. lia.
Qed.

Lemma backends_ok_step base all seen bs e addr :
  backends_ok base all seen bs → all !! length seen = Some e → backend_addr e = Ok addr →
  backends_ok base all (seen ++ [e])
    (set_insert (mkBackend addr (ep_weight e) (Some (length seen))
                   (Some (base + length seen))) bs).
Proof.
  intros [Hb Hr Hd] He Ha. set (b := mkBackend _ _ _ _).
  split; [| |by apply set_insert_distinct].
  - rewrite Forall_forall in *. intros x [->|Hx]%set_insert_elem; [|by apply Hb].
    exists (length seen), e, addr. done.
  - apply Forall_app. split.
    + eapply Forall_impl; [exact Hr|]. intros y (x & Hx & ?). exists x.
      split; [by apply set_insert_keeps|done].
    + apply Forall_singleton. destruct (set_insert_has b bs) as (x & Hx & [Ex1 Ex2]).
      exists x. split; [done|]. by rewrite <-Ex1, <-Ex2.
Qed.

Lemma build_backends_ok base all seen es bs heap bs' heap' :
  all = seen ++ es → length heap = base + length seen →
  backends_ok base all seen bs →
  build_backends (length seen) es bs heap = Ok (bs', heap') →
  backends_ok base all all bs' ∧ heap' = heap ++ replicate (length es) Health.default.
Proof.
  revert seen bs heap. induction es as [|e es IH]; intros seen bs heap Hall Hlen Hok; simpl.
  - intros [= <- <-]. rewrite app_nil_r in *. by subst.
  - destruct (backend_addr e) as [addr|err] eqn:Ha; [|done]. simpl. intros Hbuild.
    destruct (IH (seen ++ [e])
      (set_insert (mkBackend addr (ep_weight e) (Some (length seen)) (Some (length heap))) bs)
      (heap ++ [Health.default])) as [Hok' ->].
    + by rewrite <-app_assoc.
    + rewrite !length_app. simpl. lia.
    + rewrite Hlen. apply backends_ok_step; [done| |done].
      by rewrite Hall, list_lookup_middle.
    + rewrite length_app. simpl. by rewrite Nat.add_1_r.
    + split; [done|]. by rewrite <-app_assoc.
Qed.

(** The balancer built on a list of endpoints. *)
Lemma build_load_balancer_ok es cfg heap lb heap' :
  build_load_balancer es cfg heap = Ok (lb, heap') →
  heap' = heap ++ replicate (length es) Health.default ∧
  match lb with
  | None => es = []
  | Some lb => backends_ok (length heap) es es (dl_backends lb) ∧
               lb_update (lb_algorithm cfg) (dl_backends lb) = Ok (dl_state lb)
  end.
Proof.
  unfold build_load_balancer. intros Hb.
  destruct (build_backends 0 es [] heap) as [[bs h]|] eqn:E; [|done]. simpl in Hb.
  apply (build_backends_ok (length heap) es []) in E as [Hok ->];
    [|done|simpl; lia|split; [constructor..|done]].
  destruct bs as [|b bs].
  - injection Hb as <- <-. split; [done|]. destruct es as [|e es]; [done|].
    destruct Hok as [_ [(x & Hx & _) _]%Forall_cons _]. by apply elem_of_nil in Hx.
  - destruct (lb_update (lb_algorithm cfg) (b :: bs)) as [st|err] eqn:Eu; [|done].
    by injection Hb as <- <-.
Qed.

(** The balancer of a route covers exactly its endpoints: every backend
    carries the index of an endpoint with its address and weight and a health
    state of its own, freshly allocated and healthy; no two backends share
    both address and weight; every endpoint is represented; and there is a
    balancer as soon as there is an endpoint. *)
Theorem build_load_balancer_covers es cfg heap lb heap' :
  build_load_balancer es cfg heap = Ok (lb, heap') →
  (es ≠ [] → is_Some lb) ∧
  ∀ l, lb = Some l →
    Forall (represented (dl_backends l)) es ∧ distinct (dl_backends l) ∧
    ∀ b, b ∈ dl_backends l →
      ∃ idx e, es !! idx = Some e ∧ be_index b = Some idx ∧
        backend_addr e = Ok (be_addr b) ∧ be_weight b = ep_weight e ∧
        be_health b = Some (length heap + idx) ∧
        heap' !! (length heap + idx) = Some Health.default.
Proof.
  intros Hb. apply build_load_balancer_ok in Hb as [-> Hlb]. split.
  { destruct lb; [eauto|]. by subst. }
  intros l ->. destruct Hlb as [[Hbk Hr Hd] _]. split_and!; [done..|].
  intros b Hin. rewrite Forall_forall in Hbk. destruct (Hbk b Hin) as (idx & e & a & He & Ha & ->).
  exists idx, e. split_and!; try done. simpl.
  rewrite lookup_app_r by lia. apply lookup_replicate_2.
  apply lookup_lt_Some in He. lia.
Qed.

(** The ring identity of a Unix or JavaScript endpoint depends only on its
    kind and its path or key, so reordering or retuning the upstreams of a
    route keeps it; it is an address in the documentation prefix
    [2001:db8::/32] with port 1, and TCP endpoints have none. *)
Theorem synthetic_addr_identity e1 e2 a :
  synthetic_backend_addr e1 = Ok a →
  ep_kind e1 ≠ "tcp" ∧
  (∃ rest, a = AddrV6 ([32; 1; 13; 184] ++ rest)%Z 1 0 0 ∧ length rest = 12 ∧
           Forall (λ o, 0 ≤ o < 256)%Z rest) ∧
  (ep_kind e1 = ep_kind e2 → ep_address e1 = ep_address e2 → synthetic_backend_addr e2 = Ok a).
Proof.
  intros Ha.
  assert (∀ n i, (0 ≤ Z.land (Z.shiftr n i) 255 < 256)%Z) as Hbyte.
  { intros n i. change 255%Z with (Z.ones 8). rewrite Z.land_ones by lia.
    apply Z.mod_pos_bound. lia. }
  assert (∀ w, Forall (λ o, 0 ≤ o < 256)%Z ([0; 0; 0; 0] ++ to_be_bytes (hasher_finish w))%Z) as Hf.
  { intros w. repeat (constructor; [first [apply Hbyte|lia]|]). constructor. }
  destruct e1; simpl in Ha; [done|..]; injection Ha as <-;
    (split; [done|split; [eexists; split; [reflexivity|]; split; [done|apply Hf]|]]);
    destruct e2; simpl; intros ? ->; done.
Qed.
End LoadBalancer.
Abbreviation HealthHeap := (list Health.PassiveHealthState).
Arguments DynLoadBalancer {_}.

(** ** Concrete libraries for the witnesses *)

Module RefLb.
#[export] Instance tls : TlsLib :=
  {| X509 := string; PKey := string;
     x509_stack_from_pem := λ s, Ok [s]; private_key_from_pem := λ s, Ok s |}.

Fixpoint code (s : string) : Z :=
  match s with
  | EmptyString => 7
  | String a s' => (Z.of_nat (nat_of_ascii a) + 31 * code s') mod 2 ^ 64
  end%Z.

(** A round robin: scan from the counter, at most [n] steps. *)
Fixpoint scan (n : nat) (i : nat) (bs : list Backend) (accept : Backend → bool → bool)
    : option Backend :=
  match n with
  | O => None
  | S n' =>
      match bs !! (i mod length bs) with
      | Some b => if accept b true then Some b else scan n' (S i) bs accept
      | None => None
      end
  end.

#[export] Instance lib : LbLib :=
  {| LbState := list Backend * nat;
     addr_from_str := λ s, if is_empty s then Err "invalid socket address" else Ok (AddrPath s);
     hasher_finish := λ l, code (Text.join "|" l);
     lb_update := λ _ bs, Ok (bs, 0);
     lb_select := λ st _ n,
       (scan (Z.to_nat n) st.2 st.1 (λ _ ready, ready), (st.1, S st.2));
     lb_select_with := λ st _ n accept,
       (scan (Z.to_nat n) st.2 st.1 accept, (st.1, S st.2)) |}.

Lemma scan_sound n i bs accept b :
  scan n i bs accept = Some b → b ∈ bs ∧ ∃ ready, accept b ready = true.
Proof.
  revert i. induction n as [|n IH]; intros i; simpl; [done|].
  destruct (bs !! _) as [x|] eqn:E; [|done]. destruct (accept x true) eqn:Ea; [|apply IH].
  intros [= ->]. split; [by eapply list_elem_of_lookup_2|eauto].
Qed.

#[export] Instance laws : LbLaws.
Proof.
  refine {| lb_holds := λ st bs, st.1 = bs |}.
  - by intros alg bs st [= <-].
  - intros st bs key n b st' <- [= <- <-]. split; [done|]. intros x Hx. by eapply scan_sound.
  - intros st bs key n accept b st' <- [= <- <-]. split; [done|]. intros x Hx.
    by eapply scan_sound.
Qed.
End RefLb.

Section LbWitnesses.
Import RefLb.

Definition demo_endpoints : list UpstreamEndpoint :=
  [EpTcp "127.0.0.1:80" false false "" 1 PeerTunables_default;
   EpVirtualJs "app" false false "" 2 PeerTunables_default;
   EpTcp "127.0.0.1:80" false true "" 1 PeerTunables_default].

Example demo_backend_count :
  match build_load_balancer demo_endpoints LoadBalancerConfig_default [] with
  | Ok (Some lb, h) => (length (dl_backends lb), length h) = (2, 3)
  | _ => False
  end.
Proof. vm_compute. reflexivity. Qed.

Lemma build_load_balancer_covers_witness :
  match build_load_balancer demo_endpoints LoadBalancerConfig_default [] with
  | Ok (Some lb, _) => Forall (represented (dl_backends lb)) demo_endpoints
  | _ => False
  end.
Proof.
  pose proof demo_backend_count as Hdemo.
  destruct (build_load_balancer _ _ _) as [[[lb|] h]|e] eqn:E; [|done..].
  exact (proj1 (proj2 (build_load_balancer_covers _ _ _ _ _ E) lb eq_refl)).
Defined.

Lemma synthetic_addr_identity_witness :
  synthetic_backend_addr (EpVirtualJs "app" false false "" 2 PeerTunables_default)
  = synthetic_backend_addr (EpVirtualJs "app" true false "x" 9 PeerTunables_default).
Proof.
  symmetry. apply (synthetic_addr_identity
    (EpVirtualJs "app" false false "" 2 PeerTunables_default)); reflexivity.
Defined.
End LbWitnesses.
