(* ===== verification/Pingora.v ===== *)
(** * The proxy framework's data

    The types of the [pingora] crate that the sources build and take apart:
    errors with their retry decision, upstream peers with the options the
    sources set, and the downstream session as far as the sources read and
    write it. *)

From S2P Require Import Prelude Text Http Config CelSession LoadBalancer.
From stdpp Require Import base tactics strings list.
From Stdlib Require Import ZArith.

(** ** Errors *)

Inductive ErrorType :=
| InternalError
| ConnectError
| HTTPStatus (code : Z)
| CustomError (name : string).

Inductive ErrorSource := SrcUpstream | SrcDownstream | SrcInternal | SrcUnset.
#[export] Instance ErrorSource_eq_dec : EqDecision ErrorSource.
Proof. solve_decision. Defined.

(** [RetryType]: decided, or to be decided by whether the connection was reused. *)
Inductive RetryType := Decided (retry : bool) | ReusedOnly.

Record Error := mkError {
  etype : ErrorType;
  esource : ErrorSource;
  err_retry : RetryType;
  err_context : list string;
  err_cause : option string;
}.

(** [Error::because] and [Error::explain] leave the source unset and do not
    retry. *)
Definition error_because (t : ErrorType) (context cause : string) : Error :=
  mkError t SrcUnset (Decided false) [context] (Some cause).
Definition error_explain (t : ErrorType) (context : string) : Error :=
  mkError t SrcUnset (Decided false) [context] None.
Definition set_retry (retry : bool) (e : Error) : Error :=
  mkError (etype e) (esource e) (Decided retry) (err_context e) (err_cause e).
(** [RetryType::decide_reuse]. *)
Definition decide_reuse (reused : bool) (e : Error) : Error :=
  match err_retry e with
  | ReusedOnly => set_retry reused e
  | Decided _ => e
  end.
Definition more_context (c : string) (e : Error) : Error :=
  mkError (etype e) (esource e) (err_retry e) (c :: err_context e) (err_cause e).

(** [middleware_internal_error]. *)
Definition middleware_internal_error (context message : string) : Error :=
  error_because InternalError context message.

(** A panic in the task of a request ends the request. *)
Definition panic_error (message : string) : Error :=
  error_explain (CustomError "panic") message.

(** ** Peers *)

Section Peers.
Context `{TlsLib}.

(** How the peer was constructed. *)
Inductive PeerTarget :=
| TargetAddress (address : string)
| TargetUds (path : string)
| TargetDummy (addr : BackendAddr).

(** The options the sources set; [None] is the library's default. [po_custom_l4]
    is the listener a virtual connector opens connections on. *)
Record PeerOptions := mkPeerOptions {
  po_connection_timeout : option Z;
  po_read_timeout : option Z;
  po_write_timeout : option Z;
  po_idle_timeout : option Z;
  po_verify_cert : bool;
  po_ca : option (list X509);
  po_http_version : option (Z * Z);
  po_custom_l4 : option nat;
}.

Definition PeerOptions_new : PeerOptions :=
  mkPeerOptions None None None None true None None None.

Record HttpPeer := mkHttpPeer {
  peer_target : PeerTarget;
  peer_tls : bool;
  peer_sni : string;
  peer_client_cert_key : option (list X509 * PKey);
  peer_options : PeerOptions;
}.

Definition HttpPeer_new (target : PeerTarget) (tls : bool) (sni : string) : HttpPeer :=
  mkHttpPeer target tls sni None PeerOptions_new.

Definition set_http_version (max min : Z) (o : PeerOptions) : PeerOptions :=
  mkPeerOptions (po_connection_timeout o) (po_read_timeout o) (po_write_timeout o)
    (po_idle_timeout o) (po_verify_cert o) (po_ca o) (Some (max, min)) (po_custom_l4 o).
Definition set_options (o : PeerOptions) (p : HttpPeer) : HttpPeer :=
  mkHttpPeer (peer_target p) (peer_tls p) (peer_sni p) (peer_client_cert_key p) o.

(** [apply_peer_tunables] of [src/upstream/upstream.rs]. *)
Definition apply_peer_tunables (p : HttpPeer) (t : PeerTunables) : HttpPeer :=
  let o := peer_options p in
  let or_else {A} (new old : option A) := match new with Some v => Some v | None => old end in
  mkHttpPeer (peer_target p) (peer_tls p) (peer_sni p)
    (or_else (pt_client_cert_key t) (peer_client_cert_key p))
    (mkPeerOptions
       (or_else (pt_connect_timeout_ms t) (po_connection_timeout o))
       (or_else (pt_read_timeout_ms t) (po_read_timeout o))
       (or_else (pt_write_timeout_ms t) (po_write_timeout o))
       (or_else (pt_idle_timeout_ms t) (po_idle_timeout o))
       (pt_verify_cert t) (or_else (pt_ca t) (po_ca o)) (po_http_version o) (po_custom_l4 o)).
End Peers.

(** [Display] of errors and peers. *)
Class ProxyFmt `{TlsLib} := { error_display : Error → string; peer_display : HttpPeer → string }.

Module RefProxyFmt.
#[export] Instance fmt `{TlsLib} : ProxyFmt :=
  {| error_display := λ _, "error"; peer_display := λ _, "peer" |}.
End RefProxyFmt.

(** ** The downstream session *)

Section Session.
Context `{HttpLib}.

(** A piece of response written downstream. *)
Inductive Written :=
| WroteHeader (h : ResponseHeader) (end_of_stream : bool)
| WroteBody (body : string) (end_of_stream : bool).

(** The request as received and rewritten, whether the connection is kept
    alive, and what was written. [ses_io] has the outcomes of the writes to
    come, in order: the client may be gone before any of them; the writes after
    those succeed. Only a write that succeeded is recorded. [ses_compression] is the downstream compression module,
    when it is installed. *)
Record Session := mkSession {
  ses_view : SessionView;
  ses_keepalive : option Z;
  ses_written : list Written;
  ses_io : list (result unit string);
  ses_read_timeout : option Z;
  ses_write_timeout : option Z;
  ses_cache : HttpCache;
  ses_compression : option CompressionCtx;
  ses_upstream_compression : CompressionCtx;
}.

(** A session at the start of a request. *)
Definition new_session (v : SessionView) (keepalive : option Z)
    (io : list (result unit string)) : Session :=
  mkSession v keepalive [] io None None cache_disabled (Some compression_new) compression_new.

Definition ses_req_header (s : Session) : RequestHeader := sv_req_header (ses_view s).
Definition set_req_header (h : RequestHeader) (s : Session) : Session :=
  mkSession (mkSessionView h (sv_client_addr (ses_view s)) (sv_ssl_digest (ses_view s)))
    (ses_keepalive s) (ses_written s) (ses_io s) (ses_read_timeout s) (ses_write_timeout s)
    (ses_cache s) (ses_compression s) (ses_upstream_compression s).
Definition set_keepalive (k : option Z) (s : Session) : Session :=
  mkSession (ses_view s) k (ses_written s) (ses_io s) (ses_read_timeout s)
    (ses_write_timeout s) (ses_cache s) (ses_compression s) (ses_upstream_compression s).
Definition set_read_timeout (t : option Z) (s : Session) : Session :=
  mkSession (ses_view s) (ses_keepalive s) (ses_written s) (ses_io s) t (ses_write_timeout s)
    (ses_cache s) (ses_compression s) (ses_upstream_compression s).
Definition set_write_timeout (t : option Z) (s : Session) : Session :=
  mkSession (ses_view s) (ses_keepalive s) (ses_written s) (ses_io s) (ses_read_timeout s) t
    (ses_cache s) (ses_compression s) (ses_upstream_compression s).
Definition set_cache (c : HttpCache) (s : Session) : Session :=
  mkSession (ses_view s) (ses_keepalive s) (ses_written s) (ses_io s) (ses_read_timeout s)
    (ses_write_timeout s) c (ses_compression s) (ses_upstream_compression s).
Definition set_compression (down : option CompressionCtx) (up : CompressionCtx) (s : Session)
    : Session :=
  mkSession (ses_view s) (ses_keepalive s) (ses_written s) (ses_io s) (ses_read_timeout s)
    (ses_write_timeout s) (ses_cache s) down up.

(** [write_response_header] and [write_response_body]. *)
Definition session_write (w : Written) (s : Session) : result unit string * Session :=
  let r := default (Ok tt) (head (ses_io s)) in
  (r, mkSession (ses_view s) (ses_keepalive s)
        (match r with Ok _ => ses_written s ++ [w] | Err _ => ses_written s end)
        (tail (ses_io s)) (ses_read_timeout s) (ses_write_timeout s) (ses_cache s)
        (ses_compression s) (ses_upstream_compression s)).

(** [session.response_written()]: the last header written. *)
Definition response_written (s : Session) : option ResponseHeader :=
  foldl (λ acc w, match w with WroteHeader h _ => Some h | WroteBody _ _ => acc end) None
    (ses_written s).
End Session.
Arguments Session {_}.
Arguments Written {_}.
