(* ===== verification/ErrorPages.v ===== *)
(** * The error page store

    [src/server/error_page_store.rs]: configured error pages, the parser of
    their status specifications, and the store that orders them. *)

From S2P Require Import Prelude StableSort Text Http Config Cel CelSession.
From S2P Require Import CelFunctions CelEngine.
From stdpp Require Import base tactics strings list sorting sets.
From Stdlib Require Import ZArith Lia Ascii.

(** ** Status specifications *)

Section StatusSpec.
Context (spec : string).

Definition spec_error (what : string) : string :=
  "invalid error page status spec '" +:+ spec +:+ "': " +:+ what.

Definition parse_code (s : string) : result Z string :=
  ok_or (parse_u16 s) (spec_error ("bad code '" +:+ s +:+ "'")).

(** The range of a trimmed, non-empty segment. *)
Definition parse_range (token : string) : result (Z * Z) string :=
  match split_once "-" token with
  | Some (a, b) =>
      let a := trim a in
      let b := trim b in
      guard_err (is_empty a || is_empty b)
        (spec_error ("bad range '" +:+ token +:+ "'")) ;?
      let? a := parse_code a in
      let? b := parse_code b in
      guard_err (b <? a)%Z (spec_error ("range '" +:+ token +:+ "' is reversed")) ;?
      Ok (a, b)
  | None => let? code := parse_code token in Ok (code, code)
  end.

(** [for code in start..=end]: [n] codes from [start] on. *)
Fixpoint add_codes (n : nat) (code : Z) (statuses : list Z) : result (list Z) string :=
  match n with
  | O => Ok statuses
  | S n' =>
      if ((400 <=? code) && (code <=? 599))%Z then
        add_codes n' (code + 1)
          (if decide (code ∈ statuses) then statuses else statuses ++ [code])
      else Err ("error page status must be within [400, 599], got " +:+ to_string_Z code
                +:+ " in spec '" +:+ spec +:+ "'")
  end.

Fixpoint parse_tokens (tokens : list string) (statuses : list Z) : result (list Z) string :=
  match tokens with
  | [] => Ok statuses
  | token :: tokens' =>
      let token := trim token in
      guard_err (is_empty token) (spec_error "empty segment") ;?
      let? '(start, stop) := parse_range token in
      let? statuses := add_codes (Z.to_nat (stop - start + 1)) start statuses in
      parse_tokens tokens' statuses
  end.

(** [parse_status_spec]. *)
Definition parse_status_spec : result (list Z) string :=
  if is_empty (trim spec) then Ok []
  else parse_tokens (str_split "," spec) [].

(** *** What it accepts *)

Lemma parse_u16_range s v : parse_u16 s = Some v → (0 ≤ v ≤ 65535)%Z.
Proof.
  unfold parse_u16. set (body := match s with String "+" r => r | _ => s end).
  destruct (is_empty body); [done|].
  assert (∀ x acc w, (0 ≤ acc)%Z → parse_digits acc x = Some w → (0 ≤ w)%Z) as Hpos.
  { induction x as [|c x IH]; simpl; intros acc w Ha; [by intros [= <-]|].
    destruct (digit_value c) as [d|] eqn:Ed; [|done]. apply IH.
    unfold digit_value in Ed. case_match eqn:Ec; [|done]. injection Ed as <-.
    apply andb_true_iff in Ec as [Ec%N.leb_le _]. lia. }
  destruct (parse_digits 0 body) as [w|] eqn:E; [|done].
  destruct (Z.leb_spec w 65535); [|done]. intros [= <-]. split; [|done]. by eapply Hpos in E.
Qed.

Lemma parse_range_ordered token a b : parse_range token = Ok (a, b) → (0 ≤ a ≤ b)%Z.
Proof.
  unfold parse_range, parse_code. intros Hp.
  destruct (split_once "-" token) as [[x y]|].
  - destruct (guard_err _ _); [|done]. simpl in Hp.
    destruct (parse_u16 (trim x)) as [u|] eqn:Eu; [|done]. simpl in Hp.
    destruct (parse_u16 (trim y)) as [v|] eqn:Ev; [|done]. simpl in Hp.
    apply parse_u16_range in Eu, Ev. unfold guard_err in Hp.
    destruct (Z.ltb_spec v u); [done|]. injection Hp as <- <-. lia.
  - destruct (parse_u16 token) as [u|] eqn:Eu; [|done]. simpl in Hp. injection Hp as <- <-.
    apply parse_u16_range in Eu. lia.
Qed.

Lemma add_codes_spec n code st st' :
  add_codes n code st = Ok st' →
  (NoDup st → NoDup st') ∧
  (∀ c, c ∈ st' ↔ c ∈ st ∨ (code ≤ c < code + Z.of_nat n)%Z) ∧
  (∀ c, (code ≤ c < code + Z.of_nat n)%Z → (400 ≤ c ≤ 599)%Z).
Proof.
  revert code st. induction n as [|n IH]; intros code st; simpl.
  { intros [= <-]. split_and!; [done| |lia]. intros c. split; [by left|intros [?|?]; [done|lia]]. }
  destruct (Z.leb_spec 400 code), (Z.leb_spec code 599); simpl; try done.
  intros (Hnd & Hin & Hb)%IH. split_and!.
  - intros Hst. apply Hnd. case_decide; [done|]. apply NoDup_app. split_and!; [done| |].
    + intros x Hx ->%list_elem_of_singleton. done.
    + apply NoDup_singleton.
  - intros c. rewrite Hin. split.
    + intros [Hc|Hc]; [|right; lia]. case_decide; [by left|].
      apply elem_of_app in Hc as [?|Hc%list_elem_of_singleton]; [by left|right; lia].
    + intros [Hc|Hc].
      * left. case_decide; [done|]. apply elem_of_app. by left.
      * destruct (decide (c = code)) as [->|Hne]; [|right; lia].
        left. case_decide; [done|]. apply elem_of_app. right. by apply list_elem_of_singleton.
  - intros c Hc. destruct (decide (c = code)); [lia|]. apply Hb. lia.
Qed.

Lemma parse_tokens_spec tokens st st' :
  parse_tokens tokens st = Ok st' →
  (NoDup st → NoDup st') ∧
  (∀ c, c ∈ st' ↔ c ∈ st ∨ ∃ t a b, t ∈ tokens ∧ parse_range (trim t) = Ok (a, b)
                                     ∧ (a ≤ c ≤ b)%Z) ∧
  (∀ t, t ∈ tokens → ∃ a b, parse_range (trim t) = Ok (a, b) ∧ (400 ≤ a ≤ b)%Z ∧ (b ≤ 599)%Z).
Proof.
  revert st. induction tokens as [|t ts IH]; intros st; cbn [parse_tokens].
  { intros [= <-]. split_and!; [done|set_solver|set_solver]. }
  destruct (guard_err _ _) as [[]|]; [|done]. cbn [result_bind].
  destruct (parse_range (trim t)) as [[a b]|] eqn:Er; [|done]. cbn [result_bind].
  pose proof (parse_range_ordered _ _ _ Er) as Hab.
  destruct (add_codes _ a st) as [st1|] eqn:Ea; [|done]. cbn [result_bind].
  intros (Hnd & Hin & Hall)%IH. apply add_codes_spec in Ea as (Hnd1 & Hin1 & Hb1).
  rewrite Z2Nat.id in Hin1, Hb1 by lia. split_and!.
  - auto.
  - intros c. rewrite Hin, Hin1. split.
    + intros [[?|Hc]|(t' & a' & b' & Ht' & Hr' & Hc)]; [by left| |].
      * right. exists t, a, b. split_and!; [set_solver|done|lia|lia].
      * right. exists t', a', b'. split_and!; [set_solver|done|lia|lia].
    + intros [?|(t' & a' & b' & Ht' & Hr' & Hc)]; [by auto|].
      apply elem_of_cons in Ht' as [->|Ht'].
      * rewrite Er in Hr'. injection Hr' as <- <-. left. right. lia.
      * right. by exists t', a', b'.
  - intros t' [->|Ht']%elem_of_cons; [|by apply Hall]. exists a, b.
    pose proof (Hb1 a ltac:(lia)). pose proof (Hb1 b ltac:(lia)). split_and!; [done|lia..].
Qed.
End StatusSpec.

(** An accepted specification has statuses of errors only. *)
Lemma parse_status_spec_range spec statuses :
  parse_status_spec spec = Ok statuses →
  NoDup statuses ∧ Forall (λ c, 400 ≤ c ≤ 599)%Z statuses.
Proof.
  unfold parse_status_spec. destruct (is_empty (trim spec)).
  { intros [= <-]. split; constructor. }
  intros (Hnd & Hin & Hall)%parse_tokens_spec. split; [apply Hnd; constructor|].
  apply Forall_forall. intros c [[]%elem_of_nil|(t & a & b & Ht & Hr & Hc)]%Hin.
  destruct (Hall t Ht) as (a' & b' & Hr' & Hab). rewrite Hr in Hr'.
  injection Hr' as <- <-. lia.
Qed.

(** An accepted status specification denotes exactly the union of the ranges
    of its comma-separated segments, without duplicates, and every segment is
    a range within 400 to 599; the blank specification denotes no status. *)
Theorem parse_status_spec_exact spec statuses :
  parse_status_spec spec = Ok statuses →
  NoDup statuses ∧ Forall (λ c, 400 ≤ c ≤ 599)%Z statuses ∧
  (blank spec = true → statuses = []) ∧
  (blank spec = false →
     (∀ t, t ∈ str_split "," spec → is_ok (parse_range spec (trim t)) = true) ∧
     ∀ c, c ∈ statuses ↔ ∃ t a b, t ∈ str_split "," spec ∧
                           parse_range spec (trim t) = Ok (a, b) ∧ (a ≤ c ≤ b)%Z).
Proof.
  intros Hp. destruct (parse_status_spec_range _ _ Hp) as [Hnd Hf]. split_and!; [done..| |];
    unfold parse_status_spec, blank in *; destruct (is_empty (trim spec)); try done.
  - by injection Hp as <-.
  - intros _. apply parse_tokens_spec in Hp as (_ & Hin & Hall). split.
    + intros t Ht. destruct (Hall t Ht) as (a & b & -> & _). done.
    + intros c. rewrite Hin. set_solver.
Qed.

Example parse_status_spec_ex :
  parse_status_spec "400-403, 418,402" = Ok [400; 401; 402; 403; 418]%Z ∧
  parse_status_spec " " = Ok [] ∧ is_ok (parse_status_spec "404,") = false ∧
  is_ok (parse_status_spec "599-600") = false ∧ is_ok (parse_status_spec "403-400") = false.
Proof. split_and!; vm_compute; reflexivity. Qed.

Lemma parse_status_spec_exact_witness : NoDup [400; 401; 402; 403; 418]%Z.
Proof. apply (parse_status_spec_exact "400-403, 418,402"). vm_compute. reflexivity. Defined.

(** ** Entries *)

Record ErrorPageEntry := mkErrorPageEntry {
  ep_id : string;
  ep_statuses : list Z;
  ep_matcher : option Program;
  ep_body : option string;
  ep_body_program : option Program;
  ep_content_type : option string;
  ep_headers : list (string * string);
  ep_status_override : option Z;
  ep_priority : Z;
}.

Record ErrorPageConfig := mkErrorPageConfig {
  epc_id : string;
  epc_status : option string;
  epc_matcher : option string;
  epc_body : option string;
  epc_body_expression : option string;
  epc_content_type : option string;
  epc_headers : list (string * string);
  epc_status_override : option Z;
  epc_priority : Z;
}.

Section Build.
Context `{HttpLib, !CelLib}.

Definition build_header (nv : string * string) : result (string * string) string :=
  let? name := map_err (λ e, "invalid error page header name '" +:+ nv.1 +:+ "': " +:+ e)
                 (hn_from_str nv.1) in
  let? value := map_err (λ e, "invalid error page header value for '" +:+ name +:+ "': " +:+ e)
                  (hv_from_str nv.2) in
  Ok (name, value).

(** [ErrorPageConfig::build]. *)
Definition build_entry (c : ErrorPageConfig) : result ErrorPageEntry string :=
  guard_err (is_empty (trim (epc_id c))) "error page id cannot be empty" ;?
  let? statuses := match epc_status c with
                   | Some spec => parse_status_spec spec
                   | None => Ok []
                   end in
  match epc_status_override c with
  | Some status =>
      guard_err (negb ((100 <=? status) && (status <=? 999))%Z)
        ("error page status_override must be within [100, 999], got "
         +:+ to_string_Z status)
  | None => Ok tt
  end ;?
  guard_err (match epc_body c, epc_body_expression c with
             | Some _, Some _ => true | _, _ => false end)
    "error page body and body_expression cannot both be set" ;?
  let? matcher := transpose (λ rule,
    map_err (λ e, "failed to compile error page matcher '" +:+ rule +:+ "': " +:+ e)
      (cel_compile rule)) (epc_matcher c) in
  let? body_program := transpose (λ expr,
    map_err (λ e, "failed to compile error page body_expression '" +:+ expr +:+ "': " +:+ e)
      (cel_compile expr)) (epc_body_expression c) in
  let? headers := try_map build_header (epc_headers c) in
  Ok (mkErrorPageEntry (epc_id c) statuses matcher (epc_body c) body_program
        (epc_content_type c) headers (epc_status_override c) (epc_priority c)).

(** ** The store *)

(** [b.priority.cmp(&a.priority)] is not [Greater]. *)
Definition page_le (a b : ErrorPageEntry) : Prop := (ep_priority b ≤ ep_priority a)%Z.
#[global] Instance page_le_dec : RelDecision page_le.
Proof. intros a b. unfold page_le. apply _. Defined.
#[global] Instance page_le_trans : Transitive page_le.
Proof. unfold page_le. intros a b c ??. lia. Qed.
#[global] Instance page_le_total : Total page_le.
Proof. unfold page_le. intros a b. lia. Qed.

(** [ErrorPageStore::update], [remove], [len], [is_empty] and [snapshot]; the
    store is the list behind the [ArcSwap]. *)
Definition insert_page (entry : ErrorPageEntry) (entries : list ErrorPageEntry) :=
  sort_by page_le (filter (λ e, ep_id e ≠ ep_id entry) entries ++ [entry]).
Definition update_page (c : ErrorPageConfig) (entries : list ErrorPageEntry)
    : result unit string * list ErrorPageEntry :=
  match build_entry c with
  | Err e => (Err e, entries)
  | Ok entry => (Ok tt, insert_page entry entries)
  end.
Definition remove_page (id : string) (entries : list ErrorPageEntry)
    : bool * list ErrorPageEntry :=
  let kept := filter (λ e, ep_id e ≠ id) entries in
  let removed := negb (bool_decide (length entries = length kept)) in
  (removed, if removed then kept else entries).
Definition page_count (entries : list ErrorPageEntry) : Z := Z.of_nat (length entries).

(** Ids are unique, the order is by priority, and every entry is one that
    [build_entry] accepts. *)
Definition entry_ok (e : ErrorPageEntry) : Prop :=
  is_empty (trim (ep_id e)) = false ∧ NoDup (ep_statuses e) ∧
  Forall (λ c, 400 ≤ c ≤ 599)%Z (ep_statuses e) ∧
  (∀ s, ep_status_override e = Some s → 100 ≤ s ≤ 999)%Z ∧
  (ep_body e = None ∨ ep_body_program e = None).
Definition store_wf (entries : list ErrorPageEntry) : Prop :=
  NoDup (ep_id <$> entries) ∧ StronglySorted page_le entries ∧ Forall entry_ok entries.

Lemma build_entry_ok c e : build_entry c = Ok e → entry_ok e.
Proof.
  unfold build_entry, guard_err. intros Hb.
  destruct (is_empty (trim (epc_id c))) eqn:Eid; [done|]. simpl in Hb.
  destruct (match epc_status c with Some _ => _ | None => _ end) as [st|] eqn:Est; [|done].
  simpl in Hb.
  destruct (match epc_status_override c with Some _ => _ | None => _ end) as [[]|] eqn:Eov;
    [|done]. simpl in Hb.
  destruct (match epc_body c with Some _ => _ | None => _ end) eqn:Ebody; [done|].
  simpl in Hb.
  destruct (transpose _ (epc_matcher c)) as [m|]; [|done]. simpl in Hb.
  destruct (transpose _ (epc_body_expression c)) as [bp|] eqn:Ebp; [|done]. simpl in Hb.
  destruct (try_map build_header (epc_headers c)) as [hs|]; [|done]. simpl in Hb.
  injection Hb as <-.
  assert (NoDup st ∧ Forall (λ c, 400 ≤ c ≤ 599)%Z st) as [Hnd Hr].
  { destruct (epc_status c) as [spec|]; [|injection Est as <-; split; constructor].
    unfold parse_status_spec in Est. destruct (is_empty (trim spec));
      [injection Est as <-; split; constructor|].
    apply parse_tokens_spec in Est as (Hnd & Hin & Hall). split; [apply Hnd; constructor|].
    apply Forall_forall. intros x [[]%elem_of_nil|(t & a & b & Ht & Hr & Hc)]%Hin.
    destruct (Hall t Ht) as (a' & b' & Hr' & Hab). rewrite Hr in Hr'.
    injection Hr' as <- <-. lia. }
  split_and!; simpl; try done.
  - intros s Hs. rewrite Hs in Eov.
    destruct (Z.leb_spec 100 s), (Z.leb_spec s 999); done.
  - destruct (epc_body c), (epc_body_expression c); try done; [by right; injection Ebp|by left..].
Qed.

(** Where an update puts the entry. *)
Lemma insert_page_split entry entries :
  StronglySorted page_le entries →
  insert_page entry entries =
    filter (λ e, ep_id e ≠ ep_id entry ∧ ep_priority entry ≤ ep_priority e)%Z entries
    ++ entry ::
    filter (λ e, ep_id e ≠ ep_id entry ∧ ep_priority e < ep_priority entry)%Z entries.
Proof.
  intros Hs. unfold insert_page.
  rewrite (sort_by_snoc page_le (filter _ entries) entry).
  - rewrite !list_filter_filter. f_equal; [|f_equal]; apply list_filter_iff; intros x;
      unfold page_le; lia || (split; intros [? ?]; split; try done; lia).
  - by apply sorted_filter.
Qed.

Lemma insert_page_wf entry entries :
  entry_ok entry → store_wf entries → store_wf (insert_page entry entries).
Proof.
  intros He (Hnd & Hs & Hok). unfold insert_page. split_and!.
  - rewrite sort_by_perm, fmap_app, NoDup_app. split_and!.
    + by apply NoDup_fmap_filter.
    + intros id (x & -> & [Hx _]%list_elem_of_filter)%list_elem_of_fmap Hid. set_solver.
    + apply NoDup_singleton.
  - apply sort_by_sorted; apply _.
  - rewrite sort_by_perm. apply Forall_app. split; [by apply Forall_filter_keep|].
    by apply Forall_singleton.
Qed.

Lemma remove_page_wf id entries : store_wf entries → store_wf (remove_page id entries).2.
Proof.
  intros (Hnd & Hs & Hok). unfold remove_page. simpl. case_match; [|done].
  split_and!; [by apply NoDup_fmap_filter|by apply sorted_filter|by apply Forall_filter_keep].
Qed.

(** *** Runs of the store *)

Inductive PageOp :=
| PageUpdate (c : ErrorPageConfig)
| PageRemove (id : string).

Definition run_page_op (op : PageOp) (entries : list ErrorPageEntry) : list ErrorPageEntry :=
  match op with
  | PageUpdate c => (update_page c entries).2
  | PageRemove id => (remove_page id entries).2
  end.
Definition run_page_ops (ops : list PageOp) : list ErrorPageEntry :=
  fold_left (λ es op, run_page_op op es) ops [].

Lemma run_page_op_wf op es : store_wf es → store_wf (run_page_op op es).
Proof.
  destruct op as [c|id]; simpl; [|apply remove_page_wf]. unfold update_page. intros Hwf.
  destruct (build_entry c) as [e|] eqn:E; [|done].
  apply insert_page_wf; [by eapply build_entry_ok|done].
Qed.

Lemma run_page_ops_wf ops : store_wf (run_page_ops ops).
Proof.
  unfold run_page_ops.
  assert (∀ es, store_wf es → store_wf (fold_left (λ es op, run_page_op op es) ops es)) as Hgen.
  { induction ops as [|op ops IH]; intros es Hes; [done|]. apply IH. by apply run_page_op_wf. }
  apply Hgen. split_and!; constructor.
Qed.

(** Whatever updates and removals were applied, the error pages have unique
    ids, are in decreasing priority, and each serves only statuses between 400
    and 599, overrides with a valid status if at all, and has at most one
    source for its body. *)
Theorem page_store_invariant ops : store_wf (run_page_ops ops).
Proof. apply run_page_ops_wf. Qed.

(** An accepted update replaces the entry of the same id, placing the new one
    behind all others of at least its priority and before all others of a
    lower one, whose order is unchanged; a rejected update changes nothing; a
    removal deletes exactly the entry of that id and reports whether there was
    one. *)
Theorem page_update_placement ops c id :
  let es := run_page_ops ops in
  (∀ e, build_entry c = Ok e →
     (update_page c es).1 = Ok tt ∧
     (update_page c es).2 =
       filter (λ x, ep_id x ≠ ep_id e ∧ ep_priority e ≤ ep_priority x)%Z es
       ++ e :: filter (λ x, ep_id x ≠ ep_id e ∧ ep_priority x < ep_priority e)%Z es) ∧
  (∀ m, build_entry c = Err m → update_page c es = (Err m, es)) ∧
  (remove_page id es).2 = filter (λ x, ep_id x ≠ id) es ∧
  ((remove_page id es).1 = true ↔ id ∈ ep_id <$> es).
Proof.
  intros es. destruct (run_page_ops_wf ops) as (Hnd & Hs & _). fold es in Hnd, Hs.
  split_and!.
  - intros e He. unfold update_page. rewrite He. split; [done|]. by apply insert_page_split.
  - intros m Hm. unfold update_page. by rewrite Hm.
  - unfold remove_page. simpl. case_bool_decide as Hlen; simpl; [|done].
    symmetry. apply filter_all. intros x Hx Heq.
    pose proof (length_filter_lt (λ x, ep_id x ≠ id) es x Hx) as Hlt.
    specialize (Hlt ltac:(by intros ?)). lia.
  - unfold remove_page. simpl. rewrite negb_true_iff, bool_decide_eq_false.
    rewrite filter_length_lt_iff, list_elem_of_fmap. split.
    + intros (x & Hx & Hid%dec_stable). eauto.
    + intros (x & -> & Hx). exists x. split; [done|]. by intros ?.
Qed.
End Build.
