(* ===== verification/Ctx.v ===== *)
(** * The request context

    [src/proxy/ctx.rs], the data of [src/route/route.rs] and of the upstream
    pool, and the interface a middleware presents to the proxy
    ([src/middlewares/middleware.rs]). Handlers run in the monad [M]: they read
    and write the request context, the downstream session and the state shared
    by all requests, and may fail with a [pingora] error. *)

From S2P Require Import Prelude Text Http Config Cel CelSession CelRegex CelFunctions.
From S2P Require Import CelEngine CheapExpr Precheck Matcher RouteTable.
From S2P Require Import VjsSocket VjsRegistry LoadBalancer Pingora ErrorPages.
From stdpp Require Import base tactics strings list gmap.
From Stdlib Require Import ZArith.

(** Middlewares are trait objects: the type of their values, of cache handlers,
    and of the global state they keep (counters, JavaScript callbacks). *)
Class MwTypes := { MW : Type; CacheHandler : Type; MwState : Type }.

Section Ctx.
Context `{HttpLib, RegexLib, RuleLib, !CelLib, TlsLib, LbLib, MwTypes}.

Record UpstreamState := mkUpstreamState {
  us_retries : Z;
  us_last_endpoint_index : option nat;
  us_last_backend : option Backend;
}.

(** [UpstreamPool]: [up_lb] is the location of its balancer. *)
Record UpstreamPool := mkUpstreamPool {
  up_endpoints : list UpstreamEndpoint;
  up_lb : option nat;
  up_lb_cfg : LoadBalancerConfig;
  up_hash_key_program : option Program;
}.

Record Route := mkRoute {
  r_id : string;
  r_priority : Z;
  r_matcher : Matcher;
  r_middlewares : list MW;
  r_upstream_pool : UpstreamPool;
}.

#[export] Instance Route_like : RouteLike Route :=
  {| route_id := r_id; route_priority := r_priority |}.

Inductive ResponseBodyOverride :=
| Replace (body : string)
| DropRemaining.

(** [ProxyCtx]; its only extension is the access log's start time, and its
    error page store is part of the shared state. *)
Record ProxyCtx := mkProxyCtx {
  ctx_route_id : string;
  ctx_current_route : option Route;
  ctx_session_cel_context : option SessionCelContext;
  ctx_cache_handler : option CacheHandler;
  ctx_upstream_state : option UpstreamState;
  ctx_extensions : option Z;
  ctx_sni_host_policy : SniHostPolicy;
  ctx_response_body_override : option ResponseBodyOverride;
}.

(** [ProxyCtx::new]. *)
Definition ProxyCtx_new (policy : SniHostPolicy) : ProxyCtx :=
  mkProxyCtx "" None None None None None policy None.

(** [reset_for_request]. *)
Definition reset_for_request (c : ProxyCtx) : ProxyCtx :=
  mkProxyCtx "" None None None None None (ctx_sni_host_policy c) None.

(** [set_route]. *)
Definition set_route (r : Route) (c : ProxyCtx) : ProxyCtx :=
  mkProxyCtx (r_id r) (Some r) (ctx_session_cel_context c) (ctx_cache_handler c)
    (ctx_upstream_state c) (ctx_extensions c) (ctx_sni_host_policy c)
    (ctx_response_body_override c).

Definition set_session_cel_context (x : option SessionCelContext) (c : ProxyCtx) :=
  mkProxyCtx (ctx_route_id c) (ctx_current_route c) x (ctx_cache_handler c)
    (ctx_upstream_state c) (ctx_extensions c) (ctx_sni_host_policy c)
    (ctx_response_body_override c).
Definition set_cache_handler (x : option CacheHandler) (c : ProxyCtx) :=
  mkProxyCtx (ctx_route_id c) (ctx_current_route c) (ctx_session_cel_context c) x
    (ctx_upstream_state c) (ctx_extensions c) (ctx_sni_host_policy c)
    (ctx_response_body_override c).
Definition set_upstream_state (x : option UpstreamState) (c : ProxyCtx) :=
  mkProxyCtx (ctx_route_id c) (ctx_current_route c) (ctx_session_cel_context c)
    (ctx_cache_handler c) x (ctx_extensions c) (ctx_sni_host_policy c)
    (ctx_response_body_override c).
Definition set_extensions (x : option Z) (c : ProxyCtx) :=
  mkProxyCtx (ctx_route_id c) (ctx_current_route c) (ctx_session_cel_context c)
    (ctx_cache_handler c) (ctx_upstream_state c) x (ctx_sni_host_policy c)
    (ctx_response_body_override c).
Definition set_response_body_override (x : option ResponseBodyOverride) (c : ProxyCtx) :=
  mkProxyCtx (ctx_route_id c) (ctx_current_route c) (ctx_session_cel_context c)
    (ctx_cache_handler c) (ctx_upstream_state c) (ctx_extensions c)
    (ctx_sni_host_policy c) x.

(** The state shared by the requests: health states, balancers, the virtual
    listener registry, the error pages, the middlewares' own state, and the
    clock, randomness and trace id of the current step. *)
Record Shared := mkShared' {
  sh_health : HealthHeap;
  sh_lbs : list DynLoadBalancer;
  sh_vjs : VjsRegistry.World;
  sh_pages : list ErrorPageEntry;
  sh_mw : MwState;
  sh_env : EvalEnv;
}.

Definition set_health (h : HealthHeap) (s : Shared) :=
  mkShared' h (sh_lbs s) (sh_vjs s) (sh_pages s) (sh_mw s) (sh_env s).
Definition set_lbs (l : list DynLoadBalancer) (s : Shared) :=
  mkShared' (sh_health s) l (sh_vjs s) (sh_pages s) (sh_mw s) (sh_env s).
Definition set_mw (m : MwState) (s : Shared) :=
  mkShared' (sh_health s) (sh_lbs s) (sh_vjs s) (sh_pages s) m (sh_env s).

Record St := mkSt { st_ctx : ProxyCtx; st_session : Session; st_shared : Shared }.

Definition M (A : Type) : Type := St → result A Error * St.

#[global] Instance M_ret : MRet M := λ A a s, (Ok a, s).
#[global] Instance M_bind : MBind M := λ A B k m s,
  match m s with
  | (Ok a, s') => k a s'
  | (Err e, s') => (Err e, s')
  end.

Definition fail {A} (e : Error) : M A := λ s, (Err e, s).
Definition lift {A} (r : result A Error) : M A := λ s, (r, s).
Definition get : M St := λ s, (Ok s, s).
Definition modify_ctx (f : ProxyCtx → ProxyCtx) : M unit :=
  λ s, (Ok tt, mkSt (f (st_ctx s)) (st_session s) (st_shared s)).
Definition modify_session (f : Session → Session) : M unit :=
  λ s, (Ok tt, mkSt (st_ctx s) (f (st_session s)) (st_shared s)).
Definition modify_shared (f : Shared → Shared) : M unit :=
  λ s, (Ok tt, mkSt (st_ctx s) (st_session s) (f (st_shared s))).
(** [m.map_err(f)?]. *)
Definition map_m_err {A} (f : Error → Error) (m : M A) : M A :=
  λ s, let '(r, s') := m s in (map_err f r, s').

(** [ensure_session_cel_context]: the context is read from the session once
    per request. *)
Definition ensure_session_cel_context : M SessionCelContext := λ s,
  match ctx_session_cel_context (st_ctx s) with
  | Some c => (Ok c, s)
  | None =>
      let c := read_session_cel_context (ses_view (st_session s))
                 (ctx_sni_host_policy (st_ctx s)) (env_now (sh_env (st_shared s))) in
      (Ok c, mkSt (set_session_cel_context (Some c) (st_ctx s)) (st_session s) (st_shared s))
  end.

(** Evaluate a program against the request: [program.execute(ensure_context(..))]. *)
Definition execute (p : Program) : M (result Value string) :=
  c ← ensure_session_cel_context;
  s ← get;
  mret (cel_execute p (sh_env (st_shared s)) c).

(** [should_apply], which every middleware with a [rule] has: no rule, or the
    rule evaluates to [true]. *)
Definition should_apply (rule : option Program) : M bool :=
  match rule with
  | None => mret true
  | Some p => v ← execute p; mret (is_bool_true v)
  end.

(** The session's write operations, with their errors wrapped. *)
Definition write_session (context : string) (w : Written) : M unit := λ s,
  let '(r, ses) := session_write w (st_session s) in
  (map_err (middleware_internal_error context) r, mkSt (st_ctx s) ses (st_shared s)).

(** The pieces [ws] were written, and nothing else happened. *)
Definition after_write (ws : list Written) (s s' : St) : Prop :=
  st_ctx s' = st_ctx s ∧ st_shared s' = st_shared s ∧
  ses_view (st_session s') = ses_view (st_session s) ∧
  ses_keepalive (st_session s') = ses_keepalive (st_session s) ∧
  ses_written (st_session s') = ses_written (st_session s) ++ ws.

Lemma after_write_trans ws1 ws2 s1 s2 s3 :
  after_write ws1 s1 s2 → after_write ws2 s2 s3 → after_write (ws1 ++ ws2) s1 s3.
Proof.
  unfold after_write. intros (A1 & A2 & A3 & A4 & A5) (B1 & B2 & B3 & B4 & B5).
  split_and!; try congruence. by rewrite B5, A5, app_assoc.
Qed.

(** Each write succeeds or fails on its own. *)
Lemma write_session_run context w s :
  ∃ s', (write_session context w s = (Ok tt, s') ∧ after_write [w] s s') ∨
        ((∃ e, write_session context w s = (Err e, s')) ∧ after_write [] s s').
Proof.
  unfold write_session, session_write.
  destruct (default (Ok tt) (head (ses_io (st_session s)))) as [[]|e]; cbn; eexists;
    [left|right]; (split; [eauto|]); unfold after_write; cbn; by rewrite ?app_nil_r.
Qed.

(** [FailToProxy]. *)
Record FailToProxy := mkFailToProxy { ftp_error_code : Z; ftp_can_reuse_downstream : bool }.

(** ** The [Middleware] trait

    One field per hook. A hook that receives a header by mutable reference
    takes it and returns it; the hooks of a route's middlewares run in the order
    of its list. *)
Class Middleware := {
  mw_early_request_filter : MW → M unit;
  mw_request_filter : MW → M bool;
  mw_proxy_upstream_filter : MW → M bool;
  mw_upstream_request_filter : MW → RequestHeader → M RequestHeader;
  mw_connected_to_upstream : MW → bool → HttpPeer → M unit;
  mw_fail_to_connect : MW → HttpPeer → Error → M Error;
  mw_upstream_response_filter : MW → ResponseHeader → M ResponseHeader;
  mw_response_filter : MW → ResponseHeader → M ResponseHeader;
  mw_error_while_proxy : MW → HttpPeer → Error → bool → M Error;
  mw_fail_to_proxy : MW → Error → M (option FailToProxy);
  mw_logging : MW → option Error → M unit;
}.
End Ctx.
