(* ===== verification/Cache.v ===== *)
(** * The cache interface

    [src/proxy/cache.rs]: the data of the framework's response cache that the
    sources build and read, the trait of a cache handler and the bodies its
    default methods have. The cache decision of the framework, its variance
    keys and its conditional filter are the fields of [CacheLib]. *)

From S2P Require Import Prelude Text Http Config Cel CelSession CelRegex CelFunctions.
From S2P Require Import CelEngine CheapExpr Precheck Matcher RouteTable.
From S2P Require Import VjsSocket VjsRegistry LoadBalancer Pingora ErrorPages Ctx.
From stdpp Require Import base tactics strings list gmap.
From Stdlib Require Import ZArith.

(** ** Data *)

Record CacheKeyParts := mkCacheKeyParts {
  ck_namespace : string;
  ck_primary : string;
  ck_user_tag : string;
}.

Inductive ForcedFreshness := ForceExpired | ForceMiss | ForceFresh.

(** [CacheMetaDefaults::new]: the freshness of a status and the two stale
    windows in seconds. *)
Record CacheMetaDefaults := mkCacheMetaDefaults {
  cmd_fresh_sec : Z → option Z;
  cmd_stale_while_revalidate_sec : Z;
  cmd_stale_if_error_sec : Z;
}.

Section CacheData.
Context `{HttpLib}.

(** [CacheMeta], by its accessors; times are in milliseconds. *)
Record CacheMeta := mkCacheMeta {
  cm_fresh_until : Z;
  cm_created : Z;
  cm_updated : Z;
  cm_stale_while_revalidate_sec : Z;
  cm_stale_if_error_sec : Z;
  cm_response_header : ResponseHeader;
}.

(** [CacheMeta::new]: what is stored now was last updated when it was created. *)
Definition CacheMeta_new (fresh_until created swr sie : Z) (h : ResponseHeader) : CacheMeta :=
  mkCacheMeta fresh_until created created swr sie h.

Inductive RespCacheable :=
| Cacheable (meta : CacheMeta)
| Uncacheable (reason : NoCacheReason).
End CacheData.

(** The functions of the framework that decide about caching. *)
Class CacheLib `{HttpLib} := {
  (** [CacheKey::new] of a namespace, a primary and a user tag, which the
      framework hashes. *)
  CacheKey : Type;
  CacheKey_new : string → string → string → CacheKey;
  CacheControl : Type;
  (** [CacheControl::from_resp_headers_named] and [from_resp_headers]. *)
  cache_control_named : string → ResponseHeader → option CacheControl;
  cache_control_default : ResponseHeader → option CacheControl;
  (** [resp_cacheable] at a time. *)
  resp_cacheable : option CacheControl → ResponseHeader → bool → CacheMetaDefaults → Z →
    RespCacheable;
  (** [VarianceBuilder]: [new], [add_value] and [finalize], which hashes. *)
  VarianceBuilder : Type;
  variance_new : VarianceBuilder;
  variance_add : string → string → VarianceBuilder → VarianceBuilder;
  variance_finalize : VarianceBuilder → option string;
  (** [conditional_filter::not_modified_filter]. *)
  not_modified_filter : RequestHeader → ResponseHeader → bool;
}.

(** What the builder documents: a builder without values has no variance. *)
Class CacheLaws `{CacheLib} := {
  variance_finalize_new : variance_finalize variance_new = None;
}.

(** [build_cache_key]. *)
Definition build_cache_key `{CacheLib} (parts : CacheKeyParts) : CacheKey :=
  CacheKey_new (ck_namespace parts) (ck_primary parts) (ck_user_tag parts).

(** ** The trait *)

Section CacheTrait.
Context `{HttpLib, RegexLib, RuleLib, !CelLib, TlsLib, LbLib, MwTypes, !CacheLib}.

(** [ProxyCacheHandler]: a method that gets the session mutably runs in [M];
    one that returns no [Result] and only reads is a function of the state. *)
Class CacheOps := {
  ch_request_cache_filter : CacheHandler → M unit;
  ch_cache_key_callback : CacheHandler → M CacheKeyParts;
  ch_cache_miss : CacheHandler → St → St;
  ch_cache_hit_filter : CacheHandler → CacheMeta → bool → M (option ForcedFreshness);
  ch_response_cache_filter : CacheHandler → ResponseHeader → M RespCacheable;
  ch_response_filter : CacheHandler → ResponseHeader → M ResponseHeader;
  ch_cache_vary_filter : CacheHandler → CacheMeta → RequestHeader → St → option string;
  ch_cache_not_modified_filter : CacheHandler → ResponseHeader → M bool;
  ch_should_serve_stale : CacheHandler → option Error → St → bool * St;
  ch_is_purge : CacheHandler → St → bool;
}.

(** The default methods. *)
Definition default_request_cache_filter : M unit := mret tt.
Definition default_cache_miss (s : St) : St :=
  mkSt (st_ctx s) (set_cache (cache_mark_miss (ses_cache (st_session s))) (st_session s))
    (st_shared s).
Definition default_cache_hit_filter : M (option ForcedFreshness) := mret None.
Definition default_response_cache_filter : M RespCacheable :=
  mret (Uncacheable (NoCacheCustom "default")).
Definition default_response_filter (resp : ResponseHeader) : M ResponseHeader := mret resp.
Definition default_cache_vary_filter : option string := None.
Definition default_cache_not_modified_filter (resp : ResponseHeader) : M bool := λ s,
  (Ok (not_modified_filter (ses_req_header (st_session s)) resp), s).
Definition default_should_serve_stale (error : option Error) (s : St) : bool * St :=
  (match error with Some e => bool_decide (esource e = SrcUpstream) | None => false end, s).
Definition default_is_purge : bool := false.
End CacheTrait.

(** ** Concrete libraries for the witnesses *)

Module RefCache.
(** A response is cacheable for the seconds its [Cache-Control] names; a
    variance key is the list of its values. *)
Definition seconds `{HttpLib} (n : string) (r : ResponseHeader) : option Z :=
  match hm_get n (resp_headers r) with Some v => parse_u16 v | None => None end.

#[export] Instance lib `{HttpLib} : CacheLib := {|
  CacheKey := string * string * string;
  CacheKey_new namespace primary user_tag := (namespace, primary, user_tag);
  CacheControl := Z;
  cache_control_named n r := seconds n r;
  cache_control_default r := seconds "cache-control" r;
  resp_cacheable cc r auth d now :=
    match cc with
    | Some sec => if auth : bool then Uncacheable OriginNotCache
                  else Cacheable (CacheMeta_new (now + 1000 * sec) now 0 0 r)
    | None => Uncacheable OriginNotCache
    end;
  VarianceBuilder := list (string * string);
  variance_new := [];
  variance_add n v b := b ++ [(n, v)];
  variance_finalize b :=
    match b with
    | [] => None
    | _ => Some (Text.join ";" ((λ nv : string * string, nv.1 +:+ "=" +:+ nv.2) <$> b))
    end;
  not_modified_filter _ _ := false;
|}.
#[export] Instance laws `{HttpLib} : CacheLaws.
Proof. by split. Qed.
End RefCache.
