(* ===== verification/Upstream.v ===== *)
(** * Upstream selection

    [src/upstream/upstream.rs] and the peer construction of
    [src/virtual_js/registry_connect.rs]: the pool of a route and the choice of
    the peer a request goes to. *)

From S2P Require Import Prelude Text Http Config Cel CelSession CelRegex CelFunctions.
From S2P Require Import CelEngine CheapExpr Precheck Matcher RouteTable.
From S2P Require Import VjsSocket VjsRegistry LoadBalancer Pingora ErrorPages Ctx.
From stdpp Require Import base tactics strings list gmap.
From Stdlib Require Import ZArith Lia.

(** What the sources call of [pingora] and of the formatters to build a peer:
    [HttpPeer::new_uds] may refuse a path, and messages show values and
    addresses. *)
Class PeerLib := {
  new_uds : string → result unit string;
  value_debug : Value → string;
  addr_display : BackendAddr → string;
}.

Section Upstream.
Context `{HttpLib, RegexLib, RuleLib, !CelLib, TlsLib, LbLib, MwTypes, PeerLib}.

(** ** Construction *)

Definition endpoint_of_config (cfg : UpstreamConfig) : result UpstreamEndpoint string :=
  let? tunables := PeerTunables_from_config cfg in
  let h2c := default false (uc_h2c cfg) in
  let sni := default "" (uc_sni cfg) in
  Ok (match uc_address cfg with
      | AddrTcp address => EpTcp address (uc_tls cfg) h2c sni (uc_weight cfg) tunables
      | AddrUnix path => EpUnix path (uc_tls cfg) h2c sni (uc_weight cfg) tunables
      | AddrVirtualJs key => EpVirtualJs key (uc_tls cfg) h2c sni (uc_weight cfg) tunables
      end).

(** The balancer configuration of a route that gives none. *)
Definition default_lb_cfg (endpoints : list UpstreamEndpoint) : LoadBalancerConfig :=
  if decide (1 < length endpoints)
  then mkLoadBalancerConfig ConsistentHash 32 None
  else LoadBalancerConfig_default.

(** [UpstreamPool::from_config]; the balancer is allocated in the shared state. *)
Definition UpstreamPool_from_config (upstreams : list UpstreamConfig)
    (lb_cfg : option LoadBalancerConfig) (sh : Shared) : result (UpstreamPool * Shared) string :=
  match upstreams with
  | [] => Err "route.upstreams cannot be empty"
  | _ =>
      let? endpoints := try_map endpoint_of_config upstreams in
      let lb_cfg := default (default_lb_cfg endpoints) lb_cfg in
      let? '(lb, health) := build_load_balancer endpoints lb_cfg (sh_health sh) in
      let? program := transpose (λ expr,
        map_err (λ e, "invalid lb.hash_key_rule '" +:+ expr +:+ "': " +:+ e)
          (cel_compile expr)) (lb_hash_key_rule lb_cfg) in
      let sh := set_health health sh in
      Ok (match lb with
          | None => (mkUpstreamPool endpoints None lb_cfg program, sh)
          | Some lb => (mkUpstreamPool endpoints (Some (length (sh_lbs sh))) lb_cfg program,
                        set_lbs (sh_lbs sh ++ [lb]) sh)
          end)
  end.

(** ** Status *)

Definition load_balancer_status (p : UpstreamPool) : LoadBalancerStatus :=
  mkLoadBalancerStatus
    (match lb_algorithm (up_lb_cfg p) with
     | RoundRobin => "round_robin"
     | ConsistentHash => "consistent_hash"
     end)
    (lb_max_iterations (up_lb_cfg p)) (lb_hash_key_rule (up_lb_cfg p)).

Definition pool_lb (p : UpstreamPool) (sh : Shared) : option DynLoadBalancer :=
  up_lb p ≫= λ loc, sh_lbs sh !! loc.

(** The map collected from the balancer's report. *)
Definition health_map (p : UpstreamPool) (sh : Shared) : gmap nat (bool * Z) :=
  match pool_lb p sh with
  | None => ∅
  | Some lb =>
      list_to_map (omap (λ ih : nat * option (bool * Z), pair ih.1 <$> ih.2)
                     (upstream_health lb (env_now (sh_env sh)) (sh_health sh)))
  end.

(** [UpstreamPool::status]. *)
Definition upstream_pool_status (p : UpstreamPool) (sh : Shared) : list UpstreamStatus :=
  imap (λ idx e,
    mkUpstreamStatus (ep_kind e) (ep_address e) (ep_weight e)
      ((λ ht : bool * Z, mkUpstreamHealthStatus ht.1 ht.2) <$> health_map p sh !! idx))
    (up_endpoints p).

(** ** Selection *)

Definition selection_failed (t : ErrorType) (cause : string) : Error :=
  error_because t "upstream selection failed" cause.

(** [selection_key]. *)
Definition selection_key (p : UpstreamPool) : M string :=
  match up_hash_key_program p with
  | None => mret ""
  | Some program =>
      s ← get;
      match ctx_session_cel_context (st_ctx s) with
      | None => fail (selection_failed InternalError "proxy cel context is not initialized")
      | Some c =>
          match cel_execute program (sh_env (st_shared s)) c with
          | Ok (VString v) => mret v
          | Ok (VInt v) => mret (to_string_Z v)
          | Ok (VUInt v) => mret (to_string_Z v)
          | Ok (VBool v) => mret (to_string_bool v)
          | Ok other => fail (selection_failed InternalError
              ("lb.hash_key_rule must resolve to scalar, got " +:+ value_debug other))
          | Err e => fail (selection_failed InternalError
              ("failed to evaluate lb.hash_key_rule: " +:+ e))
          end
      end
  end.

(** [virtual_open_connection]. *)
Definition virtual_open_connection (key : string) (dummy_addr : BackendAddr)
    (tls h2c : bool) (sni : string) (w : VjsRegistry.World) : result HttpPeer string :=
  let? listener := map_err (λ _, "virtual listener '" +:+ key +:+ "' is not registered")
                     (VjsRegistry.listener key w) in
  let peer := HttpPeer_new (TargetDummy dummy_addr) tls sni in
  let options := PeerOptions_new in
  let options := if negb tls && h2c then set_http_version 2 2 options else options in
  let options := mkPeerOptions (po_connection_timeout options) (po_read_timeout options)
                   (po_write_timeout options) (po_idle_timeout options)
                   (po_verify_cert options) (po_ca options) (po_http_version options)
                   (Some listener) in
  Ok (set_options options peer).

Definition with_h2c (tls h2c : bool) (p : HttpPeer) : HttpPeer :=
  if negb tls && h2c then set_options (set_http_version 2 2 (peer_options p)) p else p.

(** [peer_from_endpoint]. *)
Definition peer_from_endpoint (e : UpstreamEndpoint) (w : VjsRegistry.World)
    : result HttpPeer Error :=
  match e with
  | EpTcp address tls h2c sni _ tunables =>
      Ok (with_h2c tls h2c
            (apply_peer_tunables (HttpPeer_new (TargetAddress address) tls sni) tunables))
  | EpUnix path tls h2c sni _ tunables =>
      let? _ := map_err (λ e, selection_failed InternalError
                                ("failed to create uds peer: " +:+ e)) (new_uds path) in
      Ok (with_h2c tls h2c
            (apply_peer_tunables (HttpPeer_new (TargetUds path) tls sni) tunables))
  | EpVirtualJs key tls h2c sni _ _ =>
      let? dummy_addr :=
        map_err (error_because InternalError "synthetic addr for virtual_js creation failed")
          (synthetic_backend_addr e) in
      map_err (selection_failed InternalError)
        (virtual_open_connection key dummy_addr tls h2c sni w)
  end.

(** [peer_from_backend]. *)
Definition peer_from_backend (p : UpstreamPool) (b : Backend) (w : VjsRegistry.World)
    : result HttpPeer Error :=
  let? idx := ok_or (be_index b) (selection_failed InternalError
    ("selected backend '" +:+ addr_display (be_addr b)
     +:+ "' missing endpoint index extension")) in
  let? endpoint := ok_or (up_endpoints p !! idx) (selection_failed InternalError
    ("selected backend '" +:+ addr_display (be_addr b)
     +:+ "' points to invalid endpoint index " +:+ to_string_Z (Z.of_nat idx))) in
  peer_from_endpoint endpoint w.

(** Record the choice on the request: [last_endpoint_index], [last_backend]. *)
Definition record_choice (b : Backend) (c : ProxyCtx) : ProxyCtx :=
  match ctx_upstream_state c with
  | None => c
  | Some st => set_upstream_state
                 (Some (mkUpstreamState (us_retries st) (be_index b) (Some b))) c
  end.

(** Ask the balancer at [loc]; its state moves on. *)
Definition ask_lb (loc : nat)
    (select : DynLoadBalancer → option Backend * DynLoadBalancer) : M (option Backend) := λ s,
  match sh_lbs (st_shared s) !! loc with
  | None => (Ok None, s)
  | Some lb =>
      let '(b, lb') := select lb in
      (Ok b, mkSt (st_ctx s) (st_session s)
               (set_lbs (<[loc := lb']> (sh_lbs (st_shared s))) (st_shared s)))
  end.

Definition no_healthy (route_id : string) : Error :=
  selection_failed (HTTPStatus 502)
    ("route '" +:+ route_id +:+ "' failed to select healthy upstream backend").

(** [UpstreamPool::select_peer]. *)
Definition select_peer (p : UpstreamPool) (route_id : string) : M HttpPeer :=
  key ← selection_key p;
  let n := lb_max_iterations (up_lb_cfg p) in
  s ← get;
  let w := sh_vjs (st_shared s) in
  if decide (length (up_endpoints p) = 1) then
    match up_lb p with
    | None => fail (selection_failed InternalError
                      ("route '" +:+ route_id +:+ "' has no load balancer"))
    | Some loc =>
        b ← ask_lb loc (λ lb, select_backend lb key n);
        match b with
        | None => fail (selection_failed (HTTPStatus 502)
            ("route '" +:+ route_id +:+ "' failed to select an upstream backend"))
        | Some b => _ ← modify_ctx (record_choice b); lift (peer_from_backend p b w)
        end
    end
  else
    match ctx_upstream_state (st_ctx s) with
    | Some _ =>
        match up_lb p with
        | Some loc =>
            b ← ask_lb loc (λ lb, select_backend_with lb key n (λ b healthy,
                  healthy && is_backend_healthy b (env_now (sh_env (st_shared s)))
                               (sh_health (st_shared s))));
            match b with
            | Some b => _ ← modify_ctx (record_choice b); lift (peer_from_backend p b w)
            | None => fail (no_healthy route_id)
            end
        | None => fail (no_healthy route_id)
        end
    | None =>
        match up_lb p with
        | Some loc =>
            b ← ask_lb loc (λ lb, select_backend lb key n);
            match b with
            | Some b => lift (peer_from_backend p b w)
            | None => fail (no_healthy route_id)
            end
        | None => fail (no_healthy route_id)
        end
    end.

(** ** The pool invariant *)

Section Props.
Context `{!LbLaws}.

Definition pool_ok (p : UpstreamPool) (sh : Shared) : Prop :=
  up_endpoints p ≠ [] ∧
  ∃ loc lb base, up_lb p = Some loc ∧ sh_lbs sh !! loc = Some lb ∧
    backends_ok base (up_endpoints p) (up_endpoints p) (dl_backends lb) ∧
    lb_holds (dl_state lb) (dl_backends lb) ∧
    base + length (up_endpoints p) ≤ length (sh_health sh).

Lemma try_map_length {A B E} (f : A → result B E) l l' :
  try_map f l = Ok l' → length l' = length l.
Proof.
  revert l'. induction l as [|x l IH]; intros l'; simpl; [by intros [= <-]|].
  destruct (f x); [|done]. simpl. destruct (try_map f l); [|done]. simpl.
  intros [= <-]. simpl. f_equal. by apply IH.
Qed.

Lemma from_config_facts ups cfg sh p sh' :
  UpstreamPool_from_config ups cfg sh = Ok (p, sh') →
  pool_ok p sh' ∧ try_map endpoint_of_config ups = Ok (up_endpoints p) ∧
  (∀ c, cfg = Some c → up_lb_cfg p = c) ∧
  (cfg = None → up_lb_cfg p = mkLoadBalancerConfig
     (if decide (1 < length ups) then ConsistentHash else RoundRobin) 32 None) ∧
  (is_Some (up_hash_key_program p) ↔ is_Some (lb_hash_key_rule (up_lb_cfg p))).
Proof.
  unfold UpstreamPool_from_config. destruct ups as [|u ups]; [done|]. intros Hf.
  destruct (try_map endpoint_of_config (u :: ups)) as [es|] eqn:Ees; [|done].
  cbn [result_bind] in Hf. set (c := default _ cfg) in Hf.
  destruct (build_load_balancer es c (sh_health sh)) as [[lb health]|] eqn:Elb; [|done].
  cbn [result_bind] in Hf.
  destruct (transpose _ (lb_hash_key_rule c)) as [prog|] eqn:Ep; [|done].
  cbn [result_bind] in Hf. apply try_map_length in Ees as Hlen.
  apply build_load_balancer_ok in Elb as [-> Hlb].
  destruct lb as [lb|]; [|subst es; done]. destruct Hlb as [Hbk Hup].
  injection Hf as <- <-. cbn [up_endpoints up_lb_cfg up_hash_key_program].
  split_and!; [| |by intros ? ->| |].
  - split; [by destruct es|].
    exists (length (sh_lbs sh)), lb, (length (sh_health sh)). cbn. split_and!; try done.
    + by rewrite list_lookup_middle.
    + by eapply lb_update_holds.
    + by rewrite length_app, length_replicate.
  - done.
  - intros ->. subst c. unfold default_lb_cfg, LoadBalancerConfig_default.
    cbn [default option_rect from_option id]. rewrite Hlen. by case_decide.
  - unfold transpose in Ep. destruct (lb_hash_key_rule c) as [rule|]; [|by injection Ep as <-].
    destruct (map_err _ _); [|done]. injection Ep as <-. split; eauto.
Qed.

(** A pool that builds has one endpoint per configured upstream, in order,
    and a balancer over them; without an explicit configuration it hashes
    consistently when there are several endpoints and goes round robin when
    there is one, with 32 iterations either way. *)
Theorem pool_from_config_ok ups cfg sh p sh' :
  UpstreamPool_from_config ups cfg sh = Ok (p, sh') →
  pool_ok p sh' ∧ try_map endpoint_of_config ups = Ok (up_endpoints p) ∧
  (∀ c, cfg = Some c → up_lb_cfg p = c) ∧
  (cfg = None → up_lb_cfg p = mkLoadBalancerConfig
     (if decide (1 < length ups) then ConsistentHash else RoundRobin) 32 None) ∧
  (is_Some (up_hash_key_program p) ↔ is_Some (lb_hash_key_rule (up_lb_cfg p))).
Proof. apply from_config_facts. Qed.

Lemma ask_lb_ok p loc lb base s select b s1 :
  up_endpoints p ≠ [] → up_lb p = Some loc → sh_lbs (st_shared s) !! loc = Some lb →
  backends_ok base (up_endpoints p) (up_endpoints p) (dl_backends lb) →
  base + length (up_endpoints p) ≤ length (sh_health (st_shared s)) →
  dl_backends (select lb).2 = dl_backends lb →
  lb_holds (dl_state (select lb).2) (dl_backends lb) →
  ask_lb loc select s = (b, s1) →
  b = Ok (select lb).1 ∧ st_ctx s1 = st_ctx s ∧ st_session s1 = st_session s ∧
  sh_vjs (st_shared s1) = sh_vjs (st_shared s) ∧
  sh_health (st_shared s1) = sh_health (st_shared s) ∧ pool_ok p (st_shared s1).
Proof.
  intros Hne Hloc Hlb Hbk Hlen Hbs Hh. unfold ask_lb. rewrite Hlb.
  destruct (select lb) as [b' lb'] eqn:E. intros [= <- <-]. cbn in *. split_and!; try done.
  split; [done|]. exists loc, lb', base. cbn. split_and!; try done.
  - apply list_lookup_insert_eq. by eapply lookup_lt_Some.
  - by rewrite Hbs.
  - by rewrite Hbs.
Qed.

(** A backend of the balancer leads to its endpoint's peer. *)
Lemma peer_from_backend_ok base p bs b w :
  backends_ok base (up_endpoints p) (up_endpoints p) bs → b ∈ bs →
  ∃ idx e, be_index b = Some idx ∧ be_health b = Some (base + idx) ∧
    up_endpoints p !! idx = Some e ∧ peer_from_backend p b w = peer_from_endpoint e w.
Proof.
  intros [Hb _ _] Hin. rewrite Forall_forall in Hb.
  destruct (Hb b Hin) as (idx & e & a & He & _ & ->).
  exists idx, e. split_and!; try done. unfold peer_from_backend. simpl. by rewrite He.
Qed.

Lemma key_pure p s : (selection_key p s).2 = s.
Proof.
  unfold selection_key. destruct (up_hash_key_program p) as [prog|]; [|done].
  unfold mbind, M_bind, get. destruct (ctx_session_cel_context (st_ctx s)) as [c|]; [|done].
  by destruct (cel_execute prog _ c) as [[]|].
Qed.

(** The facts about the pool that a selection uses and re-establishes. *)
Definition pool_at (p : UpstreamPool) (sh : Shared) (loc : nat) (lb : DynLoadBalancer)
    (base : nat) : Prop :=
  up_endpoints p ≠ [] ∧ up_lb p = Some loc ∧ sh_lbs sh !! loc = Some lb ∧
  backends_ok base (up_endpoints p) (up_endpoints p) (dl_backends lb) ∧
  lb_holds (dl_state lb) (dl_backends lb) ∧
  base + length (up_endpoints p) ≤ length (sh_health sh).

(** The state after the balancer was asked: only its own state moved. *)
Definition asked (p : UpstreamPool) (s s1 : St) : Prop :=
  st_ctx s1 = st_ctx s ∧ st_session s1 = st_session s ∧
  sh_vjs (st_shared s1) = sh_vjs (st_shared s) ∧
  sh_health (st_shared s1) = sh_health (st_shared s) ∧ pool_ok p (st_shared s1).

Lemma ask_select p s loc lb base key n :
  pool_at p (st_shared s) loc lb base →
  ∃ s1, ask_lb loc (λ lb, select_backend lb key n) s = (Ok (lb_select (dl_state lb) key n).1, s1) ∧
    asked p s s1 ∧
    ∀ x, (lb_select (dl_state lb) key n).1 = Some x → x ∈ dl_backends lb.
Proof.
  intros (Hne & Hloc & Hlb & Hbk & Hh & Hlen).
  destruct (lb_select (dl_state lb) key n) as [b st] eqn:E.
  destruct (lb_select_holds _ _ _ _ _ _ Hh E) as [Hh' Hin].
  destruct (ask_lb loc (λ lb, select_backend lb key n) s) as [r s1] eqn:Ea.
  apply (ask_lb_ok p loc lb base) in Ea; try done.
  - unfold select_backend in Ea. rewrite E in Ea. destruct Ea as (-> & Ha). by exists s1.
  - unfold select_backend. by rewrite E.
  - unfold select_backend. by rewrite E.
Qed.

Lemma ask_select_with p s loc lb base key n accept :
  pool_at p (st_shared s) loc lb base →
  ∃ s1, ask_lb loc (λ lb, select_backend_with lb key n accept) s
          = (Ok (lb_select_with (dl_state lb) key n accept).1, s1) ∧
    asked p s s1 ∧
    ∀ x, (lb_select_with (dl_state lb) key n accept).1 = Some x →
      x ∈ dl_backends lb ∧ ∃ ready, accept x ready = true.
Proof.
  intros (Hne & Hloc & Hlb & Hbk & Hh & Hlen).
  destruct (lb_select_with (dl_state lb) key n accept) as [b st] eqn:E.
  destruct (lb_select_with_holds _ _ _ _ _ _ _ Hh E) as [Hh' Hin].
  destruct (ask_lb loc (λ lb, select_backend_with lb key n accept) s) as [r s1] eqn:Ea.
  apply (ask_lb_ok p loc lb base) in Ea; try done.
  - unfold select_backend_with in Ea. rewrite E in Ea. destruct Ea as (-> & Ha). by exists s1.
  - unfold select_backend_with. by rewrite E.
  - unfold select_backend_with. by rewrite E.
Qed.

(** What is known of a selection once the key is: the backend it chose, if
    any, and the final state. [gated] requests ask for a healthy backend. *)
Definition gated (p : UpstreamPool) (s : St) : Prop :=
  length (up_endpoints p) ≠ 1 ∧ is_Some (ctx_upstream_state (st_ctx s)).

Lemma select_peer_cases p rid s key loc lb base :
  pool_at p (st_shared s) loc lb base → (selection_key p s).1 = Ok key →
  ∃ b s1, asked p s s1 ∧
    (∀ x, b = Some x → x ∈ dl_backends lb ∧
       (gated p s → is_backend_healthy x (env_now (sh_env (st_shared s)))
                      (sh_health (st_shared s)) = true)) ∧
    (length (up_endpoints p) = 1 →
       b = (lb_select (dl_state lb) key (lb_max_iterations (up_lb_cfg p))).1) ∧
    match b with
    | Some x => select_peer p rid s =
        (peer_from_backend p x (sh_vjs (st_shared s)),
         mkSt (record_choice x (st_ctx s)) (st_session s) (st_shared s1))
    | None => ∃ cause, select_peer p rid s =
        (Err (selection_failed (HTTPStatus 502) cause), s1)
    end.
Proof.
  intros Hat Hkey. pose proof (key_pure p s) as Hpure.
  assert (up_lb p = Some loc) as Hloc by apply Hat.
  unfold select_peer, mbind, M_bind.
  destruct (selection_key p s) as [r s0]. simpl in Hkey, Hpure. subst r s0. unfold get.
  set (n := lb_max_iterations (up_lb_cfg p)). rewrite Hloc.
  destruct (decide (length (up_endpoints p) = 1)) as [Hone|Hone];
    [|destruct (ctx_upstream_state (st_ctx s)) as [st|] eqn:Est].
  - destruct (ask_select p s loc lb base key n Hat) as (s1 & -> & Hs1 & Hin).
    eexists _, s1. split; [done|]. split; [|split; [done|]].
    + intros x Hx. split; [by apply Hin|]. by intros [? _].
    + destruct Hs1 as (E1 & E2 & _). destruct (lb_select _ _ _).1; [|by eexists].
      unfold modify_ctx, lift. by rewrite E1, E2.
  - set (acc := λ (b : Backend) (healthy : bool),
      healthy && is_backend_healthy b (env_now (sh_env (st_shared s)))
                   (sh_health (st_shared s))).
    destruct (ask_select_with p s loc lb base key n acc Hat) as (s1 & -> & Hs1 & Hin).
    exists (lb_select_with (dl_state lb) key n acc).1, s1.
    split; [done|]. split; [|split; [done|]].
    + intros x Hx. destruct (Hin x Hx) as [? [ready Hr%andb_true_iff]]. split; [done|]. tauto.
    + destruct Hs1 as (E1 & E2 & _). destruct (lb_select_with _ _ _ _).1; [|by eexists].
      unfold modify_ctx, lift. by rewrite E1, E2.
  - destruct (ask_select p s loc lb base key n Hat) as (s1 & -> & Hs1 & Hin).
    eexists _, s1. split; [done|]. split; [|split; [done|]].
    + intros x Hx. split; [by apply Hin|]. intros [_ [? Hs]]. congruence.
    + destruct Hs1 as (E1 & E2 & _). destruct (lb_select _ _ _).1 as [x|]; [|by eexists].
      unfold lift, record_choice. rewrite Est, <-E1, <-E2. by destruct s1.
Qed.

Lemma pool_ok_at p sh : pool_ok p sh → ∃ loc lb base, pool_at p sh loc lb base.
Proof.
  intros (Hne & loc & lb & base & H'). exists loc, lb, base. split; [done|exact H'].
Qed.

(** On a well-formed pool, selection never takes an internal-error path
    (a missing balancer, a missing or bad endpoint index): once the hash key
    is known the result is that of building the peer of one of the pool's own
    endpoints, or 502. The pool stays well-formed. *)
Lemma select_peer_sound p rid s key :
  pool_ok p (st_shared s) → (selection_key p s).1 = Ok key →
  let '(r, s') := select_peer p rid s in
  ((∃ e, e ∈ up_endpoints p ∧ r = peer_from_endpoint e (sh_vjs (st_shared s))) ∨
   (∃ cause, r = Err (selection_failed (HTTPStatus 502) cause))) ∧
  pool_ok p (st_shared s').
Proof.
  intros (loc & lb & base & Hat)%pool_ok_at Hkey.
  destruct (select_peer_cases p rid s key loc lb base Hat Hkey)
    as (b & s1 & Hs1 & Hb & _ & Hr).
  destruct Hs1 as (_ & _ & _ & _ & Hok). destruct b as [x|].
  - rewrite Hr. split; [|done]. left. destruct (Hb x eq_refl) as [Hin _].
    destruct (peer_from_backend_ok base p (dl_backends lb) x (sh_vjs (st_shared s)))
      as (idx & e & _ & _ & He & ->); [apply Hat|done|].
    exists e. split; [by eapply list_elem_of_lookup_2|done].
  - destruct Hr as [cause ->]. split; [|done]. right. by exists cause.
Qed.

(** With several endpoints and the health check active: which backend was
    selected, that its passive health allowed it, and that the choice is
    recorded. *)
Lemma select_peer_gated p rid s key peer s' loc lb base :
  pool_at p (st_shared s) loc lb base → (selection_key p s).1 = Ok key → gated p s →
  select_peer p rid s = (Ok peer, s') →
  ∃ idx e st b h, up_endpoints p !! idx = Some e ∧
    peer_from_endpoint e (sh_vjs (st_shared s)) = Ok peer ∧
    ctx_upstream_state (st_ctx s) = Some st ∧
    ctx_upstream_state (st_ctx s') = Some (mkUpstreamState (us_retries st) (Some idx) (Some b)) ∧
    be_index b = Some idx ∧ be_health b = Some (base + idx) ∧
    sh_health (st_shared s) !! (base + idx) = Some h ∧
    Health.is_healthy (env_now (sh_env (st_shared s))) h = true ∧
    sh_health (st_shared s') = sh_health (st_shared s).
Proof.
  intros Hat Hkey Hg Hsel.
  destruct (select_peer_cases p rid s key loc lb base Hat Hkey)
    as (b & s1 & Hs1 & Hb & _ & Hr).
  destruct b as [x|]; [|destruct Hr as [cause Hr]; congruence].
  rewrite Hr in Hsel. injection Hsel as Hp <-. destruct (Hb x eq_refl) as [Hin Hh].
  destruct (peer_from_backend_ok base p (dl_backends lb) x (sh_vjs (st_shared s)))
    as (idx & e & Hidx & Hloc & He & Heq); [apply Hat|done|].
  destruct Hg as [Hlen [st Hst]]. specialize (Hh (conj Hlen (mk_is_Some _ _ Hst))).
  destruct Hat as (_ & _ & _ & _ & _ & Hlen').
  destruct (lookup_lt_is_Some_2 (sh_health (st_shared s)) (base + idx)) as [h Eh].
  { apply lookup_lt_Some in He. lia. }
  unfold is_backend_healthy, health_of in Hh. rewrite Hloc in Hh. cbn in Hh. rewrite Eh in Hh.
  exists idx, e, st, x, h. split_and!; try done; [by rewrite <-Heq| |apply Hs1].
  cbn [st_ctx]. unfold record_choice. by rewrite Hst, <-Hidx.
Qed.

(** A selected peer is that of an endpoint whose passive health allows it at
    that moment, and the choice is recorded on the request, where the health
    check will find it. *)
Lemma select_peer_healthy p rid s key peer s' :
  pool_ok p (st_shared s) → (selection_key p s).1 = Ok key → gated p s →
  select_peer p rid s = (Ok peer, s') →
  ∃ idx e st b, up_endpoints p !! idx = Some e ∧
    peer_from_endpoint e (sh_vjs (st_shared s)) = Ok peer ∧
    ctx_upstream_state (st_ctx s') = Some st ∧
    us_last_endpoint_index st = Some idx ∧ us_last_backend st = Some b ∧
    be_index b = Some idx ∧
    ∃ h, health_of b (sh_health (st_shared s)) = Some h ∧
         Health.is_healthy (env_now (sh_env (st_shared s))) h = true.
Proof.
  intros (loc & lb & base & Hat)%pool_ok_at Hkey Hg Hsel.
  destruct (select_peer_gated p rid s key peer s' loc lb base Hat Hkey Hg Hsel)
    as (idx & e & st & b & h & He & Hp & _ & Hst & Hi & Hb & Hh & Hok & _).
  exists idx, e, (mkUpstreamState (us_retries st) (Some idx) (Some b)), b. split_and!; try done.
  exists h. unfold health_of. rewrite Hb. cbn. by rewrite Hh.
Qed.

(** The status of a pool lists its endpoints in order, each with its own
    kind, address and weight; the health data shown for an endpoint are
    those of the tracked state of a backend that carries its index. *)
Theorem pool_status_reports p sh :
  pool_ok p sh →
  (λ u, (us_kind u, us_address u, us_weight u)) <$> upstream_pool_status p sh
    = (λ e, (ep_kind e, ep_address e, ep_weight e)) <$> up_endpoints p ∧
  ∀ idx u h, upstream_pool_status p sh !! idx = Some u → us_health u = Some h →
    ∃ b st, (∃ lb, pool_lb p sh = Some lb ∧ b ∈ dl_backends lb) ∧
      be_index b = Some idx ∧ health_of b (sh_health sh) = Some st ∧
      Health.tracked st = true ∧ uhs_tolerance h = Health.tolerance st ∧
      uhs_healthy h = Health.is_healthy (env_now (sh_env sh)) st.
Proof.
  intros (loc & lb & base & Hat)%pool_ok_at. unfold upstream_pool_status. split.
  { rewrite fmap_imap. unfold compose. cbn. generalize (up_endpoints p). intros l.
    rewrite <-(imap_const _ l). by apply imap_ext. }
  intros idx u h Hu Huh. rewrite list_lookup_imap in Hu.
  destruct (up_endpoints p !! idx) as [e|]; [|done]. cbn in Hu. injection Hu as <-.
  cbn in Huh. destruct (health_map p sh !! idx) as [[hl tol]|] eqn:Em; [|done].
  cbn in Huh. injection Huh as <-. unfold health_map in Em.
  destruct Hat as (_ & Hloc & Hlb & _).
  assert (pool_lb p sh = Some lb) as Hpl by (unfold pool_lb; rewrite Hloc; exact Hlb).
  rewrite Hpl in Em. apply elem_of_list_to_map_2 in Em.
  apply list_elem_of_omap in Em as ([i o] & Hin & Ho). cbn in Ho.
  destruct o as [ht|]; [|done]. cbn in Ho. injection Ho as -> ->.
  unfold upstream_health in Hin. apply list_elem_of_omap in Hin as (b & Hb & Hr).
  unfold backend_report in Hr. destruct (be_index b) as [i|] eqn:Ei; [|done].
  injection Hr as -> Hr. destruct (health_of b (sh_health sh)) as [st|] eqn:Eh; [|done].
  cbn in Hr. destruct (Health.tracked st) eqn:Et; [|done]. injection Hr as <- <-.
  exists b, st. unfold is_backend_healthy. rewrite Eh. split_and!; eauto.
Qed.
End Props.
End Upstream.

(** ** Concrete libraries and witnesses *)

Module RefPeer.
#[export] Instance types : MwTypes := {| MW := unit; CacheHandler := unit; MwState := unit |}.
#[export] Instance lib : PeerLib :=
  {| new_uds := λ _, Ok tt; value_debug := λ _, "value"; addr_display := λ _, "addr" |}.
End RefPeer.

Section UpstreamWitnesses.
Import Demo RefLb RefPeer.

Definition demo_upstream (addr : string) : UpstreamConfig :=
  mkUpstreamConfig (AddrTcp addr) false None None 1 None None None None None None None None.
Definition demo_shared : Shared :=
  mkShared' [] [] VjsRegistry.World_new [] tt env.

(** The state of a request with the health check active, on the pool of the
    given upstreams. *)
Definition demo_pool (ups : list UpstreamConfig) : option (UpstreamPool * Shared) :=
  result_ok (UpstreamPool_from_config ups None demo_shared).
Definition demo_state (sh : Shared) : St :=
  mkSt (set_upstream_state (Some (mkUpstreamState 0 None None)) (ProxyCtx_new Strict))
    (new_session (view "a.com" "/") None []) sh.

Definition demo_two := [demo_upstream "10.0.0.1:80"; demo_upstream "10.0.0.2:80"].
Definition demo_one := [demo_upstream "10.0.0.1:80"].

Lemma demo_pool_built ups p sh :
  demo_pool ups = Some (p, sh) → UpstreamPool_from_config ups None demo_shared = Ok (p, sh).
Proof.
  unfold demo_pool. destruct (UpstreamPool_from_config ups None demo_shared); [|done].
  by intros [= ->].
Qed.

Example demo_two_runs :
  match demo_pool demo_two with
  | Some (p, sh) =>
      us_last_endpoint_index <$> ctx_upstream_state
        (st_ctx (select_peer p "r" (demo_state sh)).2) = Some (Some 0) ∧
      is_ok (select_peer p "r" (demo_state sh)).1 = true ∧
      lb_algorithm (up_lb_cfg p) = ConsistentHash ∧ length (up_endpoints p) = 2 ∧
      (selection_key p (demo_state sh)).1 = Ok "" ∧
      ctx_upstream_state (st_ctx (demo_state sh)) = Some (mkUpstreamState 0 None None)
  | None => False
  end.
Proof. vm_compute. repeat split; reflexivity. Qed.

Lemma pool_from_config_ok_witness :
  match demo_pool demo_two with
  | Some (p, sh) => pool_ok p sh
  | None => False
  end.
Proof.
  pose proof demo_two_runs as Hd. destruct (demo_pool demo_two) as [[p sh]|] eqn:E; [|done].
  apply demo_pool_built in E. exact (proj1 (pool_from_config_ok _ _ _ _ _ E)).
Defined.

Lemma demo_pool_ok ups p sh : demo_pool ups = Some (p, sh) → pool_ok p sh.
Proof. intros E%demo_pool_built. exact (proj1 (from_config_facts _ _ _ _ _ E)). Qed.

Lemma select_peer_sound_witness :
  match demo_pool demo_two with
  | Some (p, sh) => pool_ok p (st_shared (select_peer p "r" (demo_state sh)).2)
  | None => False
  end.
Proof.
  pose proof demo_two_runs as Hd. destruct (demo_pool demo_two) as [[p sh]|] eqn:E; [|done].
  destruct Hd as (_ & _ & _ & _ & Hkey & _).
  pose proof (select_peer_sound p "r" (demo_state sh) "" (demo_pool_ok _ _ _ E) Hkey) as Hs.
  destruct (select_peer p "r" (demo_state sh)). exact (proj2 Hs).
Defined.

Lemma select_peer_healthy_witness :
  match demo_pool demo_two with
  | Some (p, sh) =>
      ∃ idx st, ctx_upstream_state (st_ctx (select_peer p "r" (demo_state sh)).2) = Some st ∧
        us_last_endpoint_index st = Some idx
  | None => False
  end.
Proof.
  pose proof demo_two_runs as Hd. destruct (demo_pool demo_two) as [[p sh]|] eqn:E; [|done].
  destruct Hd as (_ & Hok & _ & Hlen & Hkey & Hst).
  destruct (select_peer p "r" (demo_state sh)) as [[peer|err] s'] eqn:Es; [|done].
  destruct (select_peer_healthy p "r" (demo_state sh) "" peer s' (demo_pool_ok _ _ _ E) Hkey)
    as (idx & e & st & b & _ & _ & ? & ? & _); [|exact Es|by exists idx, st].
  split; [by rewrite Hlen|by rewrite Hst].
Defined.

(** A pool of one endpoint whose backend has tripped. *)
Definition trip (sh : Shared) : Shared :=
  set_health (Health.observe false 1000 5000 1 <$> sh_health sh) sh.

Example demo_one_runs :
  match demo_pool demo_one with
  | Some (p, sh) =>
      Health.is_healthy 1000 <$> (sh_health (trip sh)) !! 0 = Some false ∧
      up_endpoints p = [EpTcp "10.0.0.1:80" false false "" 1 PeerTunables_default] ∧
      lb_max_iterations (up_lb_cfg p) = 32%Z ∧
      (selection_key p (demo_state (trip sh))).1 = Ok "" ∧
      us_health <$> upstream_pool_status p (trip sh) !! 0
        = Some (Some (mkUpstreamHealthStatus false (-1)))
  | None => False
  end.
Proof. vm_compute. repeat split; reflexivity. Qed.

Lemma trip_pool_ok p sh : pool_ok p sh → pool_ok p (trip sh).
Proof.
  intros (Hne & loc & lb & base & ? & ? & ? & ? & Hlen). split; [done|].
  exists loc, lb, base. split_and!; try done. cbn. by rewrite length_fmap.
Qed.

Lemma pool_status_reports_witness :
  match demo_pool demo_one with
  | Some (p, sh) =>
      (λ u, (us_kind u, us_address u, us_weight u)) <$> upstream_pool_status p (trip sh)
      = (λ e, (ep_kind e, ep_address e, ep_weight e)) <$> up_endpoints p
  | None => False
  end.
Proof.
  pose proof demo_one_runs as Hd. destruct (demo_pool demo_one) as [[p sh]|] eqn:E; [|done].
  apply pool_status_reports, trip_pool_ok. by eapply demo_pool_ok.
Defined.
End UpstreamWitnesses.
