(* ===== verification/Response.v ===== *)
(** * Generated responses

    [src/proxy/response.rs]: responses the proxy or a middleware writes itself,
    and the error pages that replace bare error responses. *)

From S2P Require Import Prelude Text Http Config Cel CelSession CelRegex CelFunctions.
From S2P Require Import CelEngine CheapExpr Precheck Matcher RouteTable.
From S2P Require Import VjsSocket VjsRegistry LoadBalancer Pingora ErrorPages Ctx Upstream.
From stdpp Require Import base tactics strings list gmap.
From Stdlib Require Import ZArith Lia.

(** [f64::to_string] on the bits of the number. *)
Class FmtLib := { float_to_string : Z → string }.

Section Response.
Context `{HttpLib, RegexLib, RuleLib, !CelLib, TlsLib, LbLib, MwTypes, FmtLib}.

Record RenderedErrorPage := mkRenderedErrorPage {
  rp_status : Z;
  rp_headers : list (string * string);
  rp_content_type : option string;
  rp_body : string;
}.

(** The transient error status, on the session object the context holds. *)
Definition set_ctx_error_status (status : option Z) (c : ProxyCtx) : ProxyCtx :=
  set_session_cel_context
    ((λ x, mkSessionCelContext (cel_variables x)
             (set_error_status status (cel_http_session x))) <$> ctx_session_cel_context c) c.

(** The scan of [lookup_error_page]. *)
Fixpoint find_page (status : Z) (entries : list ErrorPageEntry) : M (option ErrorPageEntry) :=
  match entries with
  | [] => mret None
  | entry :: rest =>
      if negb (bool_decide (ep_statuses entry = [])) &&
         negb (bool_decide (status ∈ ep_statuses entry))
      then find_page status rest
      else match ep_matcher entry with
           | Some matcher =>
               v ← execute matcher;
               if is_bool_true v then mret (Some entry) else find_page status rest
           | None => mret (Some entry)
           end
  end.

(** [lookup_error_page]. *)
Definition lookup_error_page (status : Z) : M (option ErrorPageEntry) :=
  _ ← ensure_session_cel_context;
  _ ← modify_ctx (set_ctx_error_status (Some status));
  s ← get;
  find_page status (sh_pages (st_shared s)).

(** [render_error_page_body]. *)
Definition scalar_text (v : result Value string) : string :=
  match v with
  | Ok (VString v) => v
  | Ok (VInt v) => to_string_Z v
  | Ok (VUInt v) => to_string_Z v
  | Ok (VFloat v) => float_to_string v
  | Ok (VBool v) => to_string_bool v
  | _ => ""
  end.
Definition render_error_page_body (page : ErrorPageEntry) : M string :=
  match ep_body_program page with
  | Some program => v ← execute program; mret (scalar_text v)
  | None => mret (default "" (ep_body page))
  end.

(** [resolve_error_page]. *)
Definition resolve_error_page (status : Z) : M (option RenderedErrorPage) :=
  entry ← lookup_error_page status;
  match entry with
  | None => mret None
  | Some entry =>
      body ← render_error_page_body entry;
      mret (Some (mkRenderedErrorPage (default status (ep_status_override entry))
                    (ep_headers entry)
                    (Some (default "text/html; charset=utf-8" (ep_content_type entry))) body))
  end.

(** The header insertions: the first failure ends the response. *)
Fixpoint insert_headers (context : string) (hs : list (string * string))
    (resp : ResponseHeader) : result ResponseHeader Error :=
  match hs with
  | [] => Ok resp
  | (name, value) :: hs' =>
      let? resp := map_err (middleware_internal_error context)
                     (resp_insert_header name value resp) in
      insert_headers context hs' resp
  end.

(** A page's headers are parsed already, and are inserted as they are. *)
Fixpoint insert_parsed (hs : list (string * string)) (resp : ResponseHeader)
    : ResponseHeader :=
  match hs with
  | [] => resp
  | (name, value) :: hs' =>
      insert_parsed hs' (mkResponseHeader (resp_status resp)
                           (hm_insert name value (resp_headers resp)))
  end.

(** The header of [write_response] for a body and a status. *)
Definition response_head (status : Z) (page_headers headers : list (string * string))
    (body : string) (content_type : option string) : result ResponseHeader Error :=
  let? resp := map_err (middleware_internal_error "build generated response failed")
                 (response_build status) in
  let resp := insert_parsed page_headers resp in
  let? resp := insert_headers "insert response header failed" headers resp in
  let? resp :=
    if is_empty body then Ok resp
    else map_err (middleware_internal_error "insert content-type failed")
           (resp_insert_header "Content-Type"
              (default "text/plain; charset=utf-8" content_type) resp) in
  map_err (middleware_internal_error "insert content-length failed")
    (resp_insert_header "Content-Length" (to_string_Z (Z.of_nat (String.length body))) resp).

(** What to write: the body, status, page headers and content type. *)
Definition response_content (status : Z) (explicit_body content_type : option string)
    : M (string * Z * list (string * string) * option string) :=
  match explicit_body with
  | Some body => mret (body, status, [], content_type)
  | None =>
      if (400 <=? status)%Z then
        page ← resolve_error_page status;
        match page with
        | Some page => mret (rp_body page, rp_status page, rp_headers page, rp_content_type page)
        | None => mret ("", status, [], content_type)
        end
      else mret ("", status, [], content_type)
  end.

(** [write_response]. *)
Definition write_response (status : Z) (headers : list (string * string))
    (explicit_body content_type : option string) : M unit :=
  _ ← (if (400 <=? status)%Z then modify_session (set_keepalive None) else mret tt);
  '(body, effective_status, page_headers, effective_content_type) ←
    response_content status explicit_body content_type;
  resp ← lift (response_head effective_status page_headers headers body
                 effective_content_type);
  _ ← write_session "write generated response failed" (WroteHeader resp (is_empty body));
  if is_empty body then mret tt
  else write_session "write generated response body failed" (WroteBody body true).

(** ** The chosen page *)

(** The request's evaluation context, read now if it was not yet. *)
Definition cel_context (s : St) : SessionCelContext :=
  match ctx_session_cel_context (st_ctx s) with
  | Some c => c
  | None => read_session_cel_context (ses_view (st_session s))
              (ctx_sni_host_policy (st_ctx s)) (env_now (sh_env (st_shared s)))
  end.

Lemma ensure_eq s :
  ensure_session_cel_context s =
    (Ok (cel_context s),
     mkSt (set_session_cel_context (Some (cel_context s)) (st_ctx s)) (st_session s)
       (st_shared s)).
Proof.
  unfold ensure_session_cel_context, cel_context.
  destruct (ctx_session_cel_context (st_ctx s)) as [c|] eqn:E; [|done].
  destruct s as [[] ? ?]. cbn in *. by subst.
Qed.

Lemma execute_eq p s c :
  ctx_session_cel_context (st_ctx s) = Some c →
  execute p s = (Ok (cel_execute p (sh_env (st_shared s)) c), s).
Proof.
  intros Hc. unfold execute, mbind, M_bind, ensure_session_cel_context. by rewrite Hc.
Qed.

(** An entry applies: it serves the status, and its matcher accepts. *)
Definition page_applies (status : Z) (env : EvalEnv) (c : SessionCelContext)
    (e : ErrorPageEntry) : bool :=
  (bool_decide (ep_statuses e = []) || bool_decide (status ∈ ep_statuses e)) &&
  match ep_matcher e with
  | None => true
  | Some m => is_bool_true (cel_execute m env c)
  end.

(** The context with the error status visible to matchers and bodies. *)
Definition error_context (status : Z) (s : St) : SessionCelContext :=
  mkSessionCelContext (cel_variables (cel_context s))
    (set_error_status (Some status) (cel_http_session (cel_context s))).
Definition error_state (status : Z) (s : St) : St :=
  mkSt (set_session_cel_context (Some (error_context status s)) (st_ctx s)) (st_session s)
    (st_shared s).

Lemma find_page_eq status es s c :
  ctx_session_cel_context (st_ctx s) = Some c →
  find_page status es s =
    (Ok (head (filter (λ e, page_applies status (sh_env (st_shared s)) c e = true) es)), s).
Proof.
  intros Hc. induction es as [|e es IH]; [done|]. cbn [find_page]. rewrite filter_cons.
  destruct (decide (page_applies status (sh_env (st_shared s)) c e = true)) as [Ha|Ha];
    unfold page_applies in Ha;
    destruct (bool_decide (ep_statuses e = [])), (bool_decide (status ∈ ep_statuses e));
    cbn in Ha |- *; try done; (destruct (ep_matcher e) as [m|]; [|done]);
    unfold mbind, M_bind; rewrite (execute_eq _ _ _ Hc); by destruct (is_bool_true _).
Qed.

Lemma lookup_error_page_eq status s :
  lookup_error_page status s =
    (Ok (head (filter (λ e, page_applies status (sh_env (st_shared s))
                              (error_context status s) e = true) (sh_pages (st_shared s)))),
     error_state status s).
Proof.
  unfold lookup_error_page, mbind, M_bind. rewrite ensure_eq. unfold modify_ctx, get.
  by rewrite (find_page_eq _ _ _ (error_context status s)).
Qed.

(** C34: The error page served for a status applies to it (it lists the status
    or lists none, and its matcher, seeing the error status, holds) and no
    applicable page has a higher priority; no page is served only when none
    applies. *)
Theorem error_page_choice status s :
  store_wf (sh_pages (st_shared s)) →
  let applies := page_applies status (sh_env (st_shared s)) (error_context status s) in
  match (lookup_error_page status s).1 with
  | Ok (Some e) => e ∈ sh_pages (st_shared s) ∧ applies e = true ∧
      ∀ x, x ∈ sh_pages (st_shared s) → applies x = true → (ep_priority x ≤ ep_priority e)%Z
  | Ok None => ∀ x, x ∈ sh_pages (st_shared s) → applies x = false
  | Err _ => False
  end.
Proof.
  intros (_ & Hs & _) applies. rewrite lookup_error_page_eq. cbn [fst]. fold applies.
  generalize dependent (sh_pages (st_shared s)). intros es Hs.
  induction Hs as [|e es Hes IH He]; [by intros x ?%elem_of_nil|].
  rewrite filter_cons. destruct (decide (applies e = true)) as [Ha|Ha].
  - cbn. split; [by left|]. split; [done|]. intros x [->|Hx]%elem_of_cons _; [done|].
    rewrite Forall_forall in He. by apply He.
  - destruct (head (filter (λ e, applies e = true) es)) as [y|].
    + destruct IH as (Hy & Hay & Hmax). split; [by right|]. split; [done|].
      intros x [->|Hx]%elem_of_cons Hax; [done|by apply Hmax].
    + intros x [->|Hx]%elem_of_cons; [by destruct (applies e)|by apply IH].
Qed.

(** ** The wire *)

Lemma insert_headers_status context hs r r' :
  insert_headers context hs r = Ok r' → resp_status r' = resp_status r.
Proof.
  revert r. induction hs as [|[n v] hs IH]; intros r; cbn; [by intros [= <-]|].
  unfold resp_insert_header. destruct (checked_insert n v (resp_headers r)); [|done].
  cbn. by intros ->%IH.
Qed.

Lemma insert_parsed_status hs r : resp_status (insert_parsed hs r) = resp_status r.
Proof. revert r. induction hs as [|[n v] hs IH]; intros r; [done|]. cbn. by rewrite IH. Qed.

(** A name is in no header of the list. *)
Definition absent (n : string) (hs : list (string * string)) : Prop :=
  Forall (λ h, eq_ignore_ascii_case h.1 n = false) hs.

Lemma insert_headers_absent `{!HttpLaws} context n hs r r' :
  absent n hs → insert_headers context hs r = Ok r' →
  hm_get_all n (resp_headers r') = hm_get_all n (resp_headers r).
Proof.
  intros Hn. revert r. induction Hn as [|[m v] hs Hm _ IH]; intros r; simpl; [by intros [= ->]|].
  unfold resp_insert_header.
  destruct (checked_insert m v (resp_headers r)) as [x|] eqn:E; [|done]. simpl.
  intros ->%IH. simpl. by apply (checked_insert_other _ _ _ _ _ E).
Qed.

Lemma insert_headers_get `{!HttpLaws} context n v hs1 hs2 r r' :
  absent n hs2 → insert_headers context (hs1 ++ (n, v) :: hs2) r = Ok r' →
  hm_get_all n (resp_headers r') = [v].
Proof.
  intros Hn. revert r. induction hs1 as [|[m w] hs1 IH]; intros r; simpl;
    unfold resp_insert_header; (destruct (checked_insert _ _ (resp_headers r)) as [x|] eqn:E;
    [|done]); simpl; [|by apply IH].
  intros Hr. rewrite (insert_headers_absent _ _ _ _ _ Hn Hr). simpl.
  by apply checked_insert_get in E.
Qed.

Lemma response_head_ok `{!HttpLaws} status ph hs body ct r :
  response_head status ph hs body ct = Ok r →
  resp_status r = status ∧ (100 ≤ status ≤ 999)%Z ∧
  hm_get_all "Content-Length" (resp_headers r)
    = [to_string_Z (Z.of_nat (String.length body))] ∧
  (is_empty body = false →
     hm_get_all "Content-Type" (resp_headers r) = [default "text/plain; charset=utf-8" ct]) ∧
  (∀ hs1 n v hs2, hs = hs1 ++ (n, v) :: hs2 → absent n hs2 →
     absent n [("Content-Type", ""); ("Content-Length", "")] →
     hm_get_all n (resp_headers r) = [v]).
Proof.
  unfold response_head, response_build. intros Hr.
  destruct (status_from_u16 status) as [[]|] eqn:Est; [|done]. cbn [result_bind map_err] in Hr.
  destruct (insert_headers _ hs _) as [r1|] eqn:E1; [|done]. cbn [result_bind] in Hr.
  assert (∀ hs1 n v hs2, hs = hs1 ++ (n, v) :: hs2 → absent n hs2 →
     hm_get_all n (resp_headers r1) = [v]) as Hget.
  { intros hs1 n v hs2 -> Hn. by apply (insert_headers_get _ _ _ _ _ _ _ Hn E1). }
  apply insert_headers_status in E1. rewrite insert_parsed_status in E1. cbn in E1.
  set (r2' := if is_empty body then _ else _) in Hr.
  destruct r2' as [r2|] eqn:E2; [|done]. subst r2'. cbn [result_bind] in Hr.
  unfold resp_insert_header in Hr.
  destruct (checked_insert "Content-Length" _ (resp_headers r2)) as [m|] eqn:E3; [|done].
  injection Hr as <-. cbn [resp_status resp_headers].
  apply status_from_u16_Ok in Est. pose proof (checked_insert_get _ _ _ _ E3) as Hcl.
  assert (∀ hs1 n v hs2, hs = hs1 ++ (n, v) :: hs2 → absent n hs2 →
     absent n [("Content-Type", ""); ("Content-Length", "")] →
     hm_get_all n m = [v]) as Hget'.
  { intros hs1 n v hs2 Eh Hn [Ht [Hl _]%Forall_cons_1]%Forall_cons_1.
    rewrite (checked_insert_other _ _ _ _ _ E3) by exact Hl.
    destruct (is_empty body); [simplify_eq; by eauto|]. unfold resp_insert_header in E2.
    destruct (checked_insert "Content-Type" _ (resp_headers r1)) as [m2|] eqn:E4; [|done].
    injection E2 as <-. cbn [resp_headers].
    rewrite (checked_insert_other _ _ _ _ _ E4) by exact Ht. by eauto. }
  destruct (is_empty body); [by simplify_eq|].
  unfold resp_insert_header in E2.
  destruct (checked_insert "Content-Type" _ (resp_headers r1)) as [m2|] eqn:E4; [|done].
  injection E2 as <-. cbn [resp_status resp_headers] in *. split_and!; [done|lia|lia|done| |done]. intros _.
  rewrite (checked_insert_other _ _ _ _ _ E3) by reflexivity.
  by apply checked_insert_get in E4.
Qed.

(** What a successful response puts on the wire. *)
Definition wire (status : Z) (body : string) (h : ResponseHeader) : list Written :=
  WroteHeader h (is_empty body) :: (if is_empty body then [] else [WroteBody body true]).

Lemma response_content_pure status eb ct s r s' :
  response_content status eb ct s = (r, s') →
  st_session s' = st_session s ∧ st_shared s' = st_shared s ∧ is_ok r = true.
Proof.
  unfold response_content. destruct eb as [b|]; [by intros [= <- <-]|].
  destruct (400 <=? status)%Z; [|by intros [= <- <-]].
  unfold resolve_error_page, mbind, M_bind. rewrite lookup_error_page_eq.
  destruct (head _) as [e|]; [|by intros [= <- <-]]. unfold render_error_page_body.
  destruct (ep_body_program e) as [p|]; [|by intros [= <- <-]].
  unfold mbind, M_bind. rewrite (execute_eq p _ (error_context status s)) by done.
  by intros [= <- <-].
Qed.

(** What a successful response puts on the wire, and its headers. *)
Lemma write_response_run `{!HttpLaws} status hs eb ct s s' :
  write_response status hs eb ct s = (Ok tt, s') →
  ∃ st body h,
    ses_written (st_session s') = ses_written (st_session s) ++ wire st body h ∧
    resp_status h = st ∧ (100 ≤ st ≤ 999)%Z ∧
    hm_get_all "Content-Length" (resp_headers h)
      = [to_string_Z (Z.of_nat (String.length body))] ∧
    (400 ≤ status → ses_keepalive (st_session s') = None)%Z ∧
    (∀ b, eb = Some b → st = status ∧ body = b) ∧
    (∀ hs1 n v hs2, hs = hs1 ++ (n, v) :: hs2 → absent n hs2 →
       absent n [("Content-Type", ""); ("Content-Length", "")] →
       hm_get_all n (resp_headers h) = [v]).
Proof.
  unfold write_response, mbind, M_bind. intros Hw.
  set (s1 := if (400 <=? status)%Z
             then mkSt (st_ctx s) (set_keepalive None (st_session s)) (st_shared s) else s).
  assert ((if (400 <=? status)%Z then modify_session (set_keepalive None) else mret tt) s
          = (Ok tt, s1)) as E1 by (subst s1; by destruct (400 <=? status)%Z).
  rewrite E1 in Hw. destruct (response_content status eb ct s1) as [r s2] eqn:E2.
  pose proof (response_content_pure _ _ _ _ _ _ E2) as (Es & _ & Hr).
  destruct r as [[[[body st] ph] ect]|]; [|done]. unfold lift in Hw.
  destruct (response_head st ph hs body ect) as [h|] eqn:Eh; [|done].
  apply response_head_ok in Eh as (Hst & Hrange & Hcl & _ & Hget).
  exists st, body, h.
  assert (∀ b, eb = Some b → st = status ∧ body = b) as Heb.
  { intros b ->. cbn in E2. by injection E2 as <- <- _ _ _. }
  assert (ses_written (st_session s1) = ses_written (st_session s)) as Ew.
  { subst s1. by destruct (400 <=? status)%Z. }
  assert (400 ≤ status → ses_keepalive (st_session s1) = None)%Z as Ek.
  { intros Hge. subst s1. by destruct (Z.leb_spec 400 status); [|lia]. }
  rewrite <-Es in Ew, Ek. unfold wire.
  destruct (write_session_run "write generated response failed" (WroteHeader h (is_empty body)) s2)
    as (s3 & [[E3 (_ & _ & _ & K3 & W3)]|[[e E3] _]]); rewrite E3 in Hw; [|done].
  destruct (is_empty body); [injection Hw as <-; rewrite W3, Ew, K3; auto 10|].
  destruct (write_session_run "write generated response body failed" (WroteBody body true) s3)
    as (s4 & [[E4 (_ & _ & _ & K4 & W4)]|[[e E4] _]]); rewrite E4 in Hw; [|done].
  injection Hw as <-. rewrite W4, W3, Ew, K4, K3, <-app_assoc. auto 10.
Qed.
(** C35: A generated response that succeeds puts exactly one header and, iff
    the body is not empty, exactly one body on the wire, with the stream ended
    by the last of them. Its [Content-Length] is the length of the body, its
    status is valid, and an error status also ends keep-alive. Content the
    caller provided is sent verbatim with the caller's status. *)
Theorem write_response_wire `{!HttpLaws} status hs eb ct s s' :
  write_response status hs eb ct s = (Ok tt, s') →
  ∃ st body h,
    ses_written (st_session s') = ses_written (st_session s) ++ wire st body h ∧
    resp_status h = st ∧ (100 ≤ st ≤ 999)%Z ∧
    hm_get_all "Content-Length" (resp_headers h)
      = [to_string_Z (Z.of_nat (String.length body))] ∧
    (400 ≤ status → ses_keepalive (st_session s') = None)%Z ∧
    (∀ b, eb = Some b → st = status ∧ body = b).
Proof.
  intros (st & body & h & Hw & Hst & Hr & Hcl & Hk & Heb & _)%write_response_run.
  by exists st, body, h.
Qed.
End Response.

Module RefFmt.
#[export] Instance lib : FmtLib := {| float_to_string := λ _, "0" |}.
End RefFmt.

Section ResponseWitnesses.
Import Demo RefLb RefPeer RefFmt.

Definition demo_page (id : string) (status : option string) (prio : Z) : ErrorPageConfig :=
  mkErrorPageConfig id status None (Some ("page " +:+ id)) None None [("X-Page", id)] None prio.
Definition demo_pages : list ErrorPageEntry :=
  run_page_ops [PageUpdate (demo_page "any" None 1); PageUpdate (demo_page "404" (Some "404") 5);
                PageUpdate (demo_page "5xx" (Some "500-599") 9)].
Definition demo_error_state : St :=
  mkSt (ProxyCtx_new Strict) (new_session (view "a.com" "/") (Some 60%Z) [])
    (mkShared' [] [] VjsRegistry.World_new demo_pages tt env).

Example demo_page_404 :
  match (lookup_error_page 404 demo_error_state).1 with
  | Ok (Some e) => ep_id e = "404"
  | _ => False
  end.
Proof. vm_compute. reflexivity. Qed.

Lemma error_page_choice_witness :
  match (lookup_error_page 404 demo_error_state).1 with
  | Ok (Some e) => ∀ x, x ∈ sh_pages (st_shared demo_error_state) →
      page_applies 404 (sh_env (st_shared demo_error_state))
        (error_context 404 demo_error_state) x = true →
      (ep_priority x ≤ ep_priority e)%Z
  | _ => False
  end.
Proof.
  pose proof demo_page_404 as Hd.
  pose proof (error_page_choice 404 demo_error_state (run_page_ops_wf _)) as Hc.
  destruct (lookup_error_page 404 demo_error_state).1 as [[e|]|]; [|destruct Hd..].
  exact (proj2 (proj2 Hc)).
Defined.

Example demo_written :
  match write_response 404 [("X-A", "1")] None None demo_error_state with
  | (Ok _, s') => length (ses_written (st_session s')) = 2
  | _ => False
  end.
Proof. vm_compute. reflexivity. Qed.

Lemma write_response_wire_witness :
  match write_response 404 [("X-A", "1")] None None demo_error_state with
  | (Ok _, s') => ses_keepalive (st_session s') = None ∧
      ∃ st body h, ses_written (st_session s')
        = ses_written (st_session demo_error_state) ++ wire st body h
  | _ => False
  end.
Proof.
  pose proof demo_written as Hd.
  destruct (write_response 404 [("X-A", "1")] None None demo_error_state) as [[[]|e] s'] eqn:E;
    [|destruct Hd].
  destruct (write_response_wire _ _ _ _ _ _ E) as (st & body & h & Hw & _ & _ & _ & Hk & _).
  split; [apply Hk; lia|]. exists st, body, h. exact Hw.
Defined.
End ResponseWitnesses.
