(* ===== verification/Frame.v ===== *)
(** * The frame of a request

    What every hook of a middleware leaves alone while it runs: the route, the
    host policy, and the identity of the request that rules see. The state
    operations of the previous files keep this frame; the database [frame]
    composes them. *)

From S2P Require Import Prelude Text Http Config Cel CelSession CelRegex CelFunctions.
From S2P Require Import CelEngine CheapExpr Precheck Matcher RouteTable.
From S2P Require Import VjsSocket VjsRegistry LoadBalancer Pingora ErrorPages Ctx.
From S2P Require Import Upstream Response.
From stdpp Require Import base tactics strings list gmap relations.
From Stdlib Require Import ZArith Lia.

Create HintDb frame.

Section Frame.
Context `{HttpLib, RegexLib, RuleLib, !CelLib, TlsLib, LbLib, MwTypes, FmtLib}.

(** What of a request a rule sees is fixed when it arrives. *)
Definition same_request (a b : CelHttpSession) : Prop :=
  req_header a = req_header b ∧ client_addr a = client_addr b ∧ tls_sni a = tls_sni b ∧
  sni_host_policy a = sni_host_policy b ∧ request_time a = request_time b ∧
  host_cell a = host_cell b ∧ path_cell a = path_cell b ∧
  client_ip_cell a = client_ip_cell b ∧ query_pairs_cell a = query_pairs_cell b.

#[global] Instance same_request_equiv : Equivalence same_request.
Proof.
  split; unfold same_request; [intros a|intros a b|intros a b c];
    intuition congruence.
Qed.

(** The names a request is known by are functions of that. *)
#[global] Instance sni_proper : Proper (same_request ==> eq) sni.
Proof. intros a b (_ & _ & E & _). unfold sni. by rewrite E. Qed.
#[global] Instance authority_sources_proper : Proper (same_request ==> eq) authority_sources.
Proof. intros a b (E & _). unfold authority_sources. by rewrite E. Qed.
#[global] Instance http_authority_proper : Proper (same_request ==> eq) http_authority.
Proof. intros a b E. unfold http_authority. by rewrite (authority_sources_proper a b E). Qed.
#[global] Instance authority_conflict_proper : Proper (same_request ==> eq) authority_conflict.
Proof. intros a b E. unfold authority_conflict. by rewrite (authority_sources_proper a b E). Qed.
#[global] Instance host_proper : Proper (same_request ==> eq) host.
Proof.
  intros a b E. unfold host, compute_host.
  rewrite (sni_proper a b E), (http_authority_proper a b E). destruct E as (_ & _ & _ & -> & _ & -> & _). reflexivity.
Qed.

(** What of a session the middlewares never change: the header fields of the
    request and the two ends of the connection. The method and the URI may be
    rewritten. *)
Definition same_wire (a b : Session) : Prop :=
  req_headers (ses_req_header a) = req_headers (ses_req_header b) ∧
  sv_client_addr (ses_view a) = sv_client_addr (ses_view b) ∧
  sv_ssl_digest (ses_view a) = sv_ssl_digest (ses_view b).

#[global] Instance same_wire_equiv : Equivalence same_wire.
Proof.
  split; unfold same_wire; [intros a|intros a b|intros a b c]; intuition congruence.
Qed.

(** What a request leaves alone of the state it shares: it adds and removes no
    health state, balancer or error page, and moves a balancer only by asking
    it. *)
Inductive lb_step : LbState → LbState → Prop :=
| lb_step_select st key n : lb_step st (lb_select st key n).2
| lb_step_select_with st key n accept : lb_step st (lb_select_with st key n accept).2.
Definition lb_moved (a b : DynLoadBalancer) : Prop :=
  dl_backends b = dl_backends a ∧ rtc lb_step (dl_state a) (dl_state b).
#[global] Instance lb_moved_preorder : PreOrder lb_moved.
Proof.
  split; unfold lb_moved.
  - intros a. split; [done|apply rtc_refl].
  - intros a b c [E1 S1] [E2 S2]. split; [congruence|by etransitivity].
Qed.

Record shared_frame (sh sh' : Shared) : Prop := {
  sf_pages : sh_pages sh' = sh_pages sh;
  sf_vjs : sh_vjs sh' = sh_vjs sh;
  sf_env : sh_env sh' = sh_env sh;
  sf_health : length (sh_health sh') = length (sh_health sh);
  sf_lbs : Forall2 lb_moved (sh_lbs sh) (sh_lbs sh');
}.
#[global] Instance shared_frame_preorder : PreOrder shared_frame.
Proof.
  split.
  - intros sh. by split.
  - intros a b c [A1 A2 A3 A4 A5] [B1 B2 B3 B4 B5]. split; [congruence..|]. by etransitivity.
Qed.
Lemma shared_frame_mw m sh : shared_frame sh (set_mw m sh).
Proof. by split. Qed.

(** A hook leaves the route, the policy and the request's identity alone. *)
Record keeps_frame (s s' : St) : Prop := {
  kf_route : ctx_current_route (st_ctx s') = ctx_current_route (st_ctx s);
  kf_route_id : ctx_route_id (st_ctx s') = ctx_route_id (st_ctx s);
  kf_policy : ctx_sni_host_policy (st_ctx s') = ctx_sni_host_policy (st_ctx s);
  kf_wire : same_wire (st_session s) (st_session s');
  kf_shared : shared_frame (st_shared s) (st_shared s');
  kf_context : ∀ c, ctx_session_cel_context (st_ctx s) = Some c →
    ∃ c', ctx_session_cel_context (st_ctx s') = Some c' ∧
      same_request (cel_http_session c) (cel_http_session c');
}.

(** A change that leaves the context alone. *)
Lemma keeps_frame_ctx s s' :
  st_ctx s' = st_ctx s → same_wire (st_session s) (st_session s') →
  shared_frame (st_shared s) (st_shared s') → keeps_frame s s'.
Proof. intros E Hw Hs. split; rewrite ?E; try done. intros c Hc. by exists c. Qed.

#[global] Instance keeps_frame_preorder : PreOrder keeps_frame.
Proof.
  split.
  - intros s. by apply keeps_frame_ctx.
  - intros s1 s2 s3 [E1 E2 E3 E4 E5 E6] [F1 F2 F3 F4 F5 F6].
    split; [congruence..|by transitivity (st_session s2)|by transitivity (st_shared s2)|].
    intros c (c' & Hc' & Hs)%E6. apply F6 in Hc' as (c'' & Hc'' & Hs'). exists c''.
    split; [done|]. by transitivity (cel_http_session c').
Qed.

Definition framed {A} (m : M A) : Prop := ∀ s, keeps_frame s (m s).2.

Lemma framed_ret {A} (a : A) : framed (mret a).
Proof. intros s. reflexivity. Qed.
Lemma framed_bind {A B} (m : M A) (k : A → M B) :
  framed m → (∀ a, framed (k a)) → framed (m ≫= k).
Proof.
  intros Hm Hk s. unfold mbind, M_bind. specialize (Hm s).
  destruct (m s) as [[a|e] s']; [|done]. etransitivity; [exact Hm|apply Hk].
Qed.
(** ** The operations of the monad *)

Lemma framed_fail {A} (e : Error) : framed (fail (A := A) e).
Proof. intros s. reflexivity. Qed.
Lemma framed_lift {A} (r : result A Error) : framed (lift r).
Proof. intros s. reflexivity. Qed.
Lemma framed_get : framed get.
Proof. intros s. reflexivity. Qed.
Lemma framed_modify_session f :
  (∀ ses, same_wire ses (f ses)) → framed (modify_session f).
Proof. intros Hf s. apply keeps_frame_ctx; [done|apply Hf|done]. Qed.
Lemma framed_modify_shared f :
  (∀ sh, shared_frame sh (f sh)) → framed (modify_shared f).
Proof. intros Hf s. apply keeps_frame_ctx; [done..|apply Hf]. Qed.
Lemma framed_modify_ctx f :
  (∀ c, ctx_current_route (f c) = ctx_current_route c ∧
        ctx_route_id (f c) = ctx_route_id c ∧
        ctx_sni_host_policy (f c) = ctx_sni_host_policy c ∧
        ctx_session_cel_context (f c) = ctx_session_cel_context c) →
  framed (modify_ctx f).
Proof.
  intros Hf s. destruct (Hf (st_ctx s)) as (E1 & E2 & E3 & E4).
  split; simpl; [done..|]. rewrite E4. intros c Hc. by exists c.
Qed.
(** Changing the evaluation context without the identity of the request. *)
Lemma framed_modify_cel g :
  (∀ c, same_request (cel_http_session c) (cel_http_session (g c))) →
  framed (modify_ctx (λ c, set_session_cel_context (g <$> ctx_session_cel_context c) c)).
Proof.
  intros Hg s. split; [done..|]. intros c Hc. simpl. rewrite Hc. exists (g c).
  split; [done|apply Hg].
Qed.
Lemma framed_map_m_err {A} f (m : M A) : framed m → framed (map_m_err f m).
Proof. intros Hm s. specialize (Hm s). unfold map_m_err. by destruct (m s). Qed.
Lemma session_write_wire w ses : same_wire ses (session_write w ses).2.
Proof. done. Qed.
Lemma framed_write_session context w : framed (write_session context w).
Proof.
  intros s. unfold write_session. pose proof (session_write_wire w (st_session s)).
  destruct (session_write w (st_session s)). by apply keeps_frame_ctx.
Qed.
Lemma framed_ensure : framed ensure_session_cel_context.
Proof.
  intros s. rewrite ensure_eq. split; [done..|]. intros c Hc.
  exists (cel_context s). split; [done|]. unfold cel_context. by rewrite Hc.
Qed.
(** A handler whose result alone is used. *)
Lemma framed_pure {A} (m : M A) : (∀ s, (m s).2 = s) → framed m.
Proof. intros Hm s. by rewrite Hm. Qed.
End Frame.

#[export] Hint Resolve framed_ret framed_bind framed_fail framed_lift framed_get
  framed_modify_session framed_modify_shared framed_map_m_err framed_write_session
  framed_ensure : frame.
(** The setters of a session keep the wire, those of a context the frame. *)
#[export] Hint Extern 1 (same_wire _ _) => done : frame.
#[export] Hint Extern 2 (framed (modify_ctx _)) => (by apply framed_modify_ctx) : frame.

(** Decompose a handler into the operations above. *)
Ltac solve_framed :=
  repeat first
    [ progress intros
    | solve [auto with frame]
    | apply framed_bind
    | apply framed_map_m_err
    | case_match ].

Section FrameOps.
Context `{HttpLib, RegexLib, RuleLib, !CelLib, TlsLib, LbLib, MwTypes, FmtLib}.

Lemma framed_execute p : framed (execute p).
Proof. unfold execute. solve_framed. Qed.

Lemma framed_should_apply rule : framed (should_apply rule).
Proof. unfold should_apply. pose proof framed_execute. solve_framed. Qed.

Lemma framed_set_error_status st : framed (modify_ctx (set_ctx_error_status st)).
Proof. unfold set_ctx_error_status. apply framed_modify_cel. by intros c. Qed.

Lemma framed_find_page status es : framed (find_page status es).
Proof.
  pose proof framed_execute. induction es as [|e es IH]; simpl; solve_framed.
Qed.

Lemma framed_resolve_error_page status : framed (resolve_error_page status).
Proof.
  unfold resolve_error_page, lookup_error_page, render_error_page_body.
  pose proof framed_execute. pose proof framed_find_page. pose proof framed_set_error_status.
  solve_framed.
Qed.

Lemma framed_write_response status hs eb ct : framed (write_response status hs eb ct).
Proof.
  unfold write_response, response_content. pose proof framed_resolve_error_page.
  solve_framed.
Qed.

(** A generated response leaves the shared state alone. *)
Lemma write_response_shared status hs eb ct s :
  st_shared (write_response status hs eb ct s).2 = st_shared s.
Proof.
  unfold write_response, mbind, M_bind.
  set (s1 := if (400 <=? status)%Z
             then mkSt (st_ctx s) (set_keepalive None (st_session s)) (st_shared s) else s).
  assert ((if (400 <=? status)%Z then modify_session (set_keepalive None) else mret tt) s
          = (Ok tt, s1)) as -> by (subst s1; by destruct (400 <=? status)%Z).
  assert (st_shared s1 = st_shared s) as <- by (subst s1; by destruct (400 <=? status)%Z).
  destruct (response_content status eb ct s1) as [r s2] eqn:E.
  apply response_content_pure in E as (_ & <- & Hok).
  destruct r as [[[[body st] ph] ect]|]; [|done]. unfold lift.
  destruct (response_head st ph hs body ect) as [r|]; [|done].
  destruct (write_session_run "write generated response failed" (WroteHeader r (is_empty body)) s2)
    as (s3 & [[-> (_ & Hs & _)]|[[e ->] (_ & Hs & _)]]); [|done].
  destruct (is_empty body); [done|]. rewrite <-Hs.
  destruct (write_session_run "write generated response body failed" (WroteBody body true) s3)
    as (s4 & [[-> (_ & Hs4 & _)]|[[e ->] (_ & Hs4 & _)]]); exact Hs4.
Qed.
End FrameOps.

#[export] Hint Resolve framed_execute framed_should_apply framed_resolve_error_page
  framed_write_response : frame.
