(* ===== verification/Proxy.v ===== *)
(** * The proxy

    [src/proxy/proxy.rs] and [src/proxy/cache.rs]: the callbacks the framework
    invokes for a request, in its order: [early_request_filter] routes the
    request, [request_filter] applies the host policy and the middlewares,
    [upstream_peer] selects the upstream, the response filters run, and the
    error callbacks finish what failed. The theorems are proved for any
    middlewares that keep the frame [MiddlewareLaws] states. *)

From S2P Require Import Prelude Text Http Config Cel CelSession CelRegex CelFunctions.
From S2P Require Import CelEngine CheapExpr Precheck Matcher RouteTable.
From S2P Require Import VjsSocket VjsRegistry LoadBalancer Pingora ErrorPages Ctx.
From S2P Require Import Cache Upstream Response Frame.
From stdpp Require Import base tactics strings list gmap.
From Stdlib Require Import ZArith Lia.

Section Proxy.
Context `{HttpLib, RegexLib, RuleLib, !CelLib, TlsLib, LbLib, MwTypes, PeerLib, FmtLib,
          !ProxyFmt, !Middleware, !CacheLib, !CacheOps}.

(** [LonesomeProxy]; [px_routes] is the snapshot read for the request. *)
Record LonesomeProxy := mkLonesomeProxy {
  px_routes : list Route;
  px_sni_host_policy : SniHostPolicy;
  px_downstream_read_timeout : option Z;
  px_downstream_write_timeout : option Z;
}.

(** [Route::matches]. *)
Definition route_matches (r : Route) (s : St) : bool * St :=
  match ensure_session_cel_context s with
  | (Ok c, s') => (matches (r_matcher r) (sh_env (st_shared s')) c, s')
  | (Err _, s') => (false, s')
  end.

(** [ensure_ctx_route]. *)
Definition ensure_ctx_route (px : LonesomeProxy) : M bool := λ s,
  let '(r, s') := find_first_match route_matches (px_routes px) s in
  match r with
  | Some r => (Ok true, mkSt (set_route r (st_ctx s')) (st_session s') (st_shared s'))
  | None => (Ok false, s')
  end.

Definition current_route : M (option Route) := λ s, (Ok (ctx_current_route (st_ctx s)), s).
Definition current_cache_handler : M (option CacheHandler) := λ s,
  (Ok (ctx_cache_handler (st_ctx s)), s).

(** *** The host policy *)

(** [sni_host_policy_reject]. *)
Definition sni_host_policy_reject (policy : SniHostPolicy) (sni authority : option string)
    (authority_conflict : bool) : option Z :=
  match policy with
  | Strict =>
      if authority_conflict then Some 400%Z
      else match sni, authority with
           | Some sni, Some authority => if hostname_eq sni authority then None else Some 421%Z
           | _, _ => None
           end
  | StrictRewriteHeader => if authority_conflict then Some 400%Z else None
  | LooseBySni | LooseByHeader => None
  end.

(** [sni_host_reject]. *)
Definition sni_host_reject (px : LonesomeProxy) : M (option Z) :=
  c ← ensure_session_cel_context;
  let cs := cel_http_session c in
  mret (sni_host_policy_reject (px_sni_host_policy px) (sni cs) (http_authority cs)
          (authority_conflict cs)).

(** [force_authority]: a value or a URI that does not build is skipped. *)
Definition force_authority (authority : string) (req : RequestHeader) : RequestHeader :=
  let req := match hv_from_str authority with
             | Ok value => mkRequestHeader (req_method req) (req_uri req)
                             (hm_insert "host" value (req_headers req))
             | Err _ => req
             end in
  match uri_build (Some (default "https" (uri_scheme_str (req_uri req)))) (Some authority)
          (default "/" (uri_path_and_query (req_uri req))) with
  | Ok uri => req_set_uri uri req
  | Err _ => req
  end.

(** *** Running the hooks of a route in order *)

Fixpoint run_hooks (hook : MW → M unit) (ms : list MW) : M unit :=
  match ms with
  | [] => mret tt
  | m :: ms' => _ ← hook m; run_hooks hook ms'
  end.

(** Stop at the first hook that returns [stop]. *)
Fixpoint run_until (stop : bool) (hook : MW → M bool) (ms : list MW) : M bool :=
  match ms with
  | [] => mret (negb stop)
  | m :: ms' => b ← hook m; if eqb b stop then mret stop else run_until stop hook ms'
  end.

(** Thread a header through the hooks. *)
Fixpoint run_threaded {A} (hook : MW → A → M A) (ms : list MW) (a : A) : M A :=
  match ms with
  | [] => mret a
  | m :: ms' => a' ← hook m a; run_threaded hook ms' a'
  end.

(** Thread an error: a hook that fails replaces it by its own failure. *)
Fixpoint run_errors (context : string) (hook : MW → Error → M Error) (ms : list MW) (e : Error)
    : M Error :=
  match ms with
  | [] => mret e
  | m :: ms' => λ s,
      match hook m e s with
      | (Ok next, s') => run_errors context hook ms' next s'
      | (Err mw_err, s') =>
          run_errors context hook ms'
            (middleware_internal_error context (error_display mw_err)) s'
      end
  end.

Definition on_route {A} (none : A) (k : list MW → M A) : M A :=
  r ← current_route;
  match r with
  | None => mret none
  | Some route => k (r_middlewares route)
  end.

(** ** The callbacks *)

Definition new_ctx (px : LonesomeProxy) : ProxyCtx := ProxyCtx_new (px_sni_host_policy px).

Definition set_timeouts (px : LonesomeProxy) (s : Session) : Session :=
  let s := match px_downstream_read_timeout px with
           | Some t => set_read_timeout (Some t) s | None => s end in
  match px_downstream_write_timeout px with
  | Some t => set_write_timeout (Some t) s | None => s end.

Definition early_request_filter (px : LonesomeProxy) : M unit :=
  _ ← modify_ctx reset_for_request;
  _ ← modify_session (set_timeouts px);
  _ ← ensure_session_cel_context;
  _ ← ensure_ctx_route px;
  on_route tt (run_hooks mw_early_request_filter).

Definition request_filter (px : LonesomeProxy) : M bool :=
  reject ← sni_host_reject px;
  match reject with
  | Some status => _ ← write_response status [] None None; mret true
  | None => on_route false (run_until true mw_request_filter)
  end.

Definition proxy_upstream_filter : M bool :=
  on_route true (run_until false mw_proxy_upstream_filter).

(** [Route::select_upstream_peer] on the current route. *)
Definition upstream_peer : M HttpPeer :=
  r ← current_route;
  match r with
  | None => fail (error_explain (HTTPStatus 404) "no route matched")
  | Some route => select_peer (r_upstream_pool route) (r_id route)
  end.

Definition connected_to_upstream (reused : bool) (peer : HttpPeer) : M unit :=
  on_route tt (run_hooks (λ m, mw_connected_to_upstream m reused peer)).

Definition fail_to_connect (peer : HttpPeer) (e : Error) : M Error :=
  on_route e (λ ms, run_errors "middleware fail_to_connect hook error"
                      (λ m, mw_fail_to_connect m peer) ms e).

Definition upstream_request_filter (px : LonesomeProxy) (req : RequestHeader)
    : M RequestHeader :=
  on_route req (λ ms,
    req ← run_threaded mw_upstream_request_filter ms req;
    if decide (px_sni_host_policy px = StrictRewriteHeader) then
      c ← ensure_session_cel_context;
      match sni (cel_http_session c) with
      | Some x => mret (force_authority x req)
      | None => mret req
      end
    else mret req).

Definition set_ctx_upstream_response (h : ResponseHeader) (c : ProxyCtx) : ProxyCtx :=
  set_session_cel_context
    ((λ x, mkSessionCelContext (cel_variables x)
             (set_upstream_res_header (Some h) (cel_http_session x)))
       <$> ctx_session_cel_context c) c.

Definition upstream_response_filter (h : ResponseHeader) : M ResponseHeader :=
  on_route h (λ ms,
    _ ← modify_ctx (set_ctx_upstream_response h);
    run_threaded mw_upstream_response_filter ms h).

(** The body swap: the chunk as the client will get it. *)
Definition upstream_response_body_filter (body : option string) : M (option string) := λ s,
  match ctx_response_body_override (st_ctx s) with
  | Some (Replace replacement) =>
      (Ok (Some replacement),
       mkSt (set_response_body_override (Some DropRemaining) (st_ctx s)) (st_session s)
         (st_shared s))
  | Some DropRemaining => (Ok None, s)
  | None => (Ok body, s)
  end.

Definition response_filter (h : ResponseHeader) : M ResponseHeader :=
  cache ← current_cache_handler;
  h ← match cache with
      | Some cache => ch_response_filter cache h
      | None => mret h
      end;
  on_route h (λ ms, run_threaded mw_response_filter ms h).

(** *** Cache callbacks *)

Definition request_cache_filter : M unit :=
  cache ← current_cache_handler;
  match cache with
  | None => mret tt
  | Some cache => ch_request_cache_filter cache
  end.

Definition cache_key_callback : M CacheKey :=
  cache ← current_cache_handler;
  match cache with
  | None => fail (error_explain InternalError "cache middleware not configured")
  | Some cache => parts ← ch_cache_key_callback cache; mret (build_cache_key parts)
  end.

Definition cache_miss (s : St) : St :=
  match ctx_cache_handler (st_ctx s) with
  | Some cache => ch_cache_miss cache s
  | None => mkSt (st_ctx s) (set_cache (cache_mark_miss (ses_cache (st_session s))) (st_session s))
              (st_shared s)
  end.

Definition cache_hit_filter (meta : CacheMeta) (is_fresh : bool) : M (option ForcedFreshness) :=
  cache ← current_cache_handler;
  match cache with
  | None => mret None
  | Some cache => ch_cache_hit_filter cache meta is_fresh
  end.

Definition response_cache_filter (resp : ResponseHeader) : M RespCacheable :=
  cache ← current_cache_handler;
  match cache with
  | None => mret (Uncacheable (NoCacheCustom "default"))
  | Some cache => ch_response_cache_filter cache resp
  end.

Definition cache_vary_filter (meta : CacheMeta) (req : RequestHeader) (s : St) : option string :=
  match ctx_cache_handler (st_ctx s) with
  | Some cache => ch_cache_vary_filter cache meta req s
  | None => None
  end.

Definition cache_not_modified_filter (resp : ResponseHeader) : M bool := λ s,
  match ctx_cache_handler (st_ctx s) with
  | None => (Ok (not_modified_filter (ses_req_header (st_session s)) resp), s)
  | Some cache => ch_cache_not_modified_filter cache resp s
  end.

Definition should_serve_stale (error : option Error) (s : St) : bool * St :=
  match ctx_cache_handler (st_ctx s) with
  | Some cache => ch_should_serve_stale cache error s
  | None => (match error with
             | Some e => bool_decide (esource e = SrcUpstream)
             | None => false
             end, s)
  end.

Definition is_purge (s : St) : bool :=
  match ctx_cache_handler (st_ctx s) with
  | Some cache => ch_is_purge cache s
  | None => false
  end.

(** *** Error callbacks *)

(** [truncated] is [session.retry_buffer_truncated()]. *)
Definition error_while_proxy (peer : HttpPeer) (e : Error) (client_reused truncated : bool)
    : M Error :=
  let err := more_context ("Peer: " +:+ peer_display peer) e in
  let err := decide_reuse (client_reused && negb truncated) err in
  on_route err (λ ms, run_errors "middleware error_while_proxy hook error"
                        (λ m e, mw_error_while_proxy m peer e client_reused) ms err).

(** The first middleware that handles the error wins; its failures are
    skipped. *)
Fixpoint run_fail_hooks (ms : list MW) (e : Error) : M (option FailToProxy) :=
  match ms with
  | [] => mret None
  | m :: ms' => λ s,
      match mw_fail_to_proxy m e s with
      | (Ok (Some v), s') => (Ok (Some v), s')
      | (Ok None, s') => run_fail_hooks ms' e s'
      | (Err _, s') => run_fail_hooks ms' e s'
      end
  end.

Definition error_code (e : Error) : Z :=
  match etype e with HTTPStatus code => code | _ => 502%Z end.

(** [let _ = f.await]: the outcome is dropped. *)
Definition ignore {A} (m : M A) : M unit := λ s, (Ok tt, (m s).2).

Definition fail_to_proxy (e : Error) : M FailToProxy :=
  handled ← on_route None (λ ms, run_fail_hooks ms e);
  match handled with
  | Some v => mret v
  | None =>
      let code := error_code e in
      _ ← (if (0 <? code)%Z then ignore (write_response code [] None None) else mret tt);
      mret (mkFailToProxy code false)
  end.

Definition logging (e : option Error) : M unit :=
  on_route tt (run_hooks (λ m, ignore (mw_logging m e))).

(** ** Middlewares keep the frame *)

Class MiddlewareLaws := {
  early_framed m : framed (mw_early_request_filter m);
  request_framed m : framed (mw_request_filter m);
  proxy_upstream_framed m : framed (mw_proxy_upstream_filter m);
  upstream_request_framed m req : framed (mw_upstream_request_filter m req);
  connected_framed m reused peer : framed (mw_connected_to_upstream m reused peer);
  fail_to_connect_framed m peer e : framed (mw_fail_to_connect m peer e);
  upstream_response_framed m h : framed (mw_upstream_response_filter m h);
  response_framed m h : framed (mw_response_filter m h);
  error_while_proxy_framed m peer e b : framed (mw_error_while_proxy m peer e b);
  fail_to_proxy_framed m e : framed (mw_fail_to_proxy m e);
  logging_framed m e : framed (mw_logging m e);
}.

(** What a cache handler, which gets the context to read, leaves alone. *)
Class CacheFramed := {
  request_cache_framed h : framed (ch_request_cache_filter h);
  cache_key_framed h : framed (ch_cache_key_callback h);
  cache_miss_framed h s : keeps_frame s (ch_cache_miss h s);
  cache_hit_framed h meta b : framed (ch_cache_hit_filter h meta b);
  response_cache_framed h resp : framed (ch_response_cache_filter h resp);
  cache_response_framed h resp : framed (ch_response_filter h resp);
  not_modified_framed h resp : framed (ch_cache_not_modified_filter h resp);
  serve_stale_framed h e s : keeps_frame s (ch_should_serve_stale h e s).2;
}.

Lemma framed_hooks hook ms : (∀ m, framed (hook m)) → framed (run_hooks hook ms).
Proof.
  intros Hh. induction ms as [|m ms IH]; [apply framed_ret|].
  by apply framed_bind.
Qed.
Lemma framed_on_route {A} (none : A) k : (∀ ms, framed (k ms)) → framed (on_route none k).
Proof.
  intros Hk s. unfold on_route, mbind, M_bind, current_route.
  destruct (ctx_current_route (st_ctx s)); [apply Hk|reflexivity].
Qed.

(** ** Routing *)

(** The context of a request, as the first callback reads it. *)
Definition fresh_context (px : LonesomeProxy) (s : St) : SessionCelContext :=
  read_session_cel_context (ses_view (st_session s)) (ctx_sni_host_policy (st_ctx s))
    (env_now (sh_env (st_shared s))).

Lemma set_timeouts_view px ses : ses_view (set_timeouts px ses) = ses_view ses.
Proof.
  unfold set_timeouts. by destruct (px_downstream_read_timeout px),
    (px_downstream_write_timeout px).
Qed.

(** The state in which the route is looked up. *)
Definition routed_state (px : LonesomeProxy) (s : St) : St :=
  mkSt (set_session_cel_context (Some (fresh_context px s)) (reset_for_request (st_ctx s)))
    (set_timeouts px (st_session s)) (st_shared s).

Definition rule_holds (px : LonesomeProxy) (s : St) (r : Route) : bool :=
  matches (r_matcher r) (sh_env (st_shared s)) (fresh_context px s).

Lemma route_matches_stable px s :
  verdict_stable route_matches (λ x, x = routed_state px s) (rule_holds px s).
Proof. intros r x ->. split; reflexivity. Qed.

Lemma find_first_match_state px s t :
  (find_first_match route_matches t (routed_state px s)).2 = routed_state px s.
Proof.
  induction t as [|r t IH]; [done|]. cbn.
  by destruct (matches _ _ _).
Qed.

Definition chosen_route (px : LonesomeProxy) (s : St) : option Route :=
  (find_first_match route_matches (px_routes px) (routed_state px s)).1.

(** The first callback, up to the middlewares. *)
Lemma early_request_filter_eq px s :
  early_request_filter px s =
    match chosen_route px s with
    | None => (Ok tt, routed_state px s)
    | Some r =>
        run_hooks mw_early_request_filter (r_middlewares r)
          (mkSt (set_route r (st_ctx (routed_state px s)))
             (set_timeouts px (st_session s)) (st_shared s))
    end.
Proof.
  unfold early_request_filter, mbind, M_bind, modify_ctx, modify_session.
  unfold ensure_session_cel_context. cbn [st_ctx st_session st_shared].
  cbn [ctx_session_cel_context reset_for_request ctx_sni_host_policy].
  rewrite set_timeouts_view. fold (fresh_context px s) (routed_state px s).
  unfold ensure_ctx_route, chosen_route.
  pose proof (find_first_match_state px s (px_routes px)) as Hst.
  destruct (find_first_match _ _ _) as [[r|] s']; cbn in Hst; subst s'; done.
Qed.

(** The chosen route of a well-formed table: its rule holds, and no route whose
    rule holds precedes it in priority order. *)
Lemma chosen_route_best px s :
  table_wf (px_routes px) →
  match chosen_route px s with
  | Some r => r ∈ px_routes px ∧ rule_holds px s r = true ∧
      ∀ x, x ∈ px_routes px → rule_holds px s x = true → x = r ∨ route_le r x
  | None => ∀ x, x ∈ px_routes px → rule_holds px s x = false
  end.
Proof.
  apply (find_first_match_best route_matches _ _ _ _ (route_matches_stable px s) eq_refl).
Qed.

(** The first callback leaves the chosen route and the request as it read it,
    whatever the middlewares' early hooks do. *)
Lemma early_route `{!MiddlewareLaws} px s :
  let s' := (early_request_filter px s).2 in
  ctx_current_route (st_ctx s') = chosen_route px s ∧
  ctx_route_id (st_ctx s') = default "" (r_id <$> chosen_route px s) ∧
  ctx_sni_host_policy (st_ctx s') = ctx_sni_host_policy (st_ctx s) ∧
  same_wire (st_session s) (st_session s') ∧ shared_frame (st_shared s) (st_shared s') ∧
  ∃ c, ctx_session_cel_context (st_ctx s') = Some c ∧
    same_request (cel_http_session (fresh_context px s)) (cel_http_session c).
Proof.
  assert (same_wire (st_session s) (set_timeouts px (st_session s))) as Hw.
  { unfold same_wire, ses_req_header. by rewrite set_timeouts_view. }
  cbv zeta. rewrite early_request_filter_eq. destruct (chosen_route px s) as [r|].
  - match goal with |- context [run_hooks ?h ?ms ?s0] =>
      destruct (framed_hooks h ms early_framed s0) as [-> -> -> Hw' Hsh Hc] end.
    split_and!; [done..| |done|by apply Hc]. by etransitivity.
  - split_and!; [done..|]. by eexists.
Qed.

(** C8: Nothing of the previous request on a connection reaches the next: what
    the first callback leaves behind does not depend on the context it found,
    the host policy apart. *)
Theorem early_request_no_leak px s1 s2 :
  ctx_sni_host_policy (st_ctx s1) = ctx_sni_host_policy (st_ctx s2) →
  st_session s1 = st_session s2 → st_shared s1 = st_shared s2 →
  early_request_filter px s1 = early_request_filter px s2.
Proof.
  intros Hp Hses Hsh. rewrite !early_request_filter_eq.
  assert (routed_state px s1 = routed_state px s2) as Hr.
  { unfold routed_state, fresh_context, reset_for_request. by rewrite Hp, Hses, Hsh. }
  unfold chosen_route. by rewrite Hr, Hses, Hsh.
Qed.

(** ** The host policy *)

Lemma sni_host_reject_eq px s :
  sni_host_reject px s =
    let cs := cel_http_session (cel_context s) in
    (Ok (sni_host_policy_reject (px_sni_host_policy px) (sni cs) (http_authority cs)
           (authority_conflict cs)),
     mkSt (set_session_cel_context (Some (cel_context s)) (st_ctx s)) (st_session s)
       (st_shared s)).
Proof. unfold sni_host_reject, mbind, M_bind. by rewrite ensure_eq. Qed.

(** What the host policy [policy] has nothing against. *)
Definition gate_open (policy : SniHostPolicy) (cs : CelHttpSession) : Prop :=
  sni_host_policy_reject policy (sni cs) (http_authority cs) (authority_conflict cs) = None.

#[global] Instance gate_open_proper policy : Proper (same_request ==> iff) (gate_open policy).
Proof.
  intros a b E. unfold gate_open.
  by rewrite (sni_proper a b E), (http_authority_proper a b E), (authority_conflict_proper a b E).
Qed.

(** What the gate of [strict] implies for a request it lets through. *)
Lemma strict_gate cs name :
  gate_open Strict cs → sni cs = Some name →
  authority_conflict cs = false ∧
  (∀ a, http_authority cs = Some a → hostname_eq name a = true).
Proof.
  unfold gate_open. intros Hg Hsni. rewrite Hsni in Hg. cbn [sni_host_policy_reject] in Hg.
  destruct (authority_conflict cs); [discriminate|]. split; [done|].
  intros a Ha. rewrite Ha in Hg. by destruct (hostname_eq name a).
Qed.

(** No URI can be built of the scheme and the path of a request and a name. *)
Definition no_uri_for (name : string) (req : RequestHeader) : Prop :=
  ∃ e, uri_build (Some (default "https" (uri_scheme_str (req_uri req)))) (Some name)
         (default "/" (uri_path_and_query (req_uri req))) = Err e.

Lemma force_authority_host `{!HttpLaws} name req :
  hv_from_str name = Ok name →
  hm_get_all "host" (req_headers (force_authority name req)) = [name] ∧
  (authority_as_str <$> uri_authority (req_uri (force_authority name req)) = Some name ∨
   no_uri_for name (force_authority name req)).
Proof.
  intros Hv. unfold force_authority. rewrite Hv. cbn [req_uri].
  destruct (uri_build _ _ _) as [u|e] eqn:Eu; cbn [req_headers req_uri req_set_uri];
    rewrite hm_get_all_insert; (split; [done|]); [left|right; by exists e].
  by apply uri_build_Ok in Eu as (_ & ? & _).
Qed.

(** What is forwarded went through [force_authority] last. *)
Lemma upstream_request_forced px s req req' s' name :
  px_sni_host_policy px = StrictRewriteHeader →
  is_Some (ctx_current_route (st_ctx s)) →
  upstream_request_filter px req s = (Ok req', s') →
  sni (cel_http_session (cel_context s')) = Some name →
  ∃ req1, req' = force_authority name req1.
Proof.
  intros Hpx [r Hr] Hf Hsni.
  unfold upstream_request_filter, on_route, mbind, M_bind, current_route in Hf.
  rewrite Hr in Hf.
  destruct (run_threaded _ _ req s) as [[req1|e] s1]; [|done].
  rewrite decide_True, ensure_eq in Hf by done.
  destruct (sni (cel_http_session (cel_context s1))) as [x|] eqn:Ex; injection Hf as <- <-;
    unfold cel_context at 1 in Hsni; cbn in Hsni; rewrite Ex in Hsni; [|done].
  injection Hsni as ->. by exists req1.
Qed.

(** ** Response bodies *)

(** The chunks of an upstream body through the filter. *)
Fixpoint filter_body (chunks : list (option string)) : M (list (option string)) :=
  match chunks with
  | [] => mret []
  | c :: cs => c' ← upstream_response_body_filter c; cs' ← filter_body cs; mret (c' :: cs')
  end.

Definition body_text (chunks : list (option string)) : string :=
  foldr String.append "" (default "" <$> chunks).

Lemma filter_body_drop chunks s :
  ctx_response_body_override (st_ctx s) = Some DropRemaining →
  filter_body chunks s = (Ok (replicate (length chunks) None), s).
Proof.
  intros Ho. induction chunks as [|c cs IH]; [done|]. cbn.
  unfold mbind, M_bind, upstream_response_body_filter. by rewrite Ho, IH.
Qed.

Lemma filter_body_replace chunks s b :
  chunks ≠ [] → ctx_response_body_override (st_ctx s) = Some (Replace b) →
  ∃ out, (filter_body chunks s).1 = Ok out ∧ length out = length chunks ∧ body_text out = b.
Proof.
  intros Hne Hb. destruct chunks as [|c cs]; [done|]. cbn [filter_body].
  unfold mbind, M_bind, upstream_response_body_filter. rewrite Hb.
  rewrite filter_body_drop by done. eexists. split; [done|]. cbn.
  rewrite length_replicate. split; [done|].
  assert (∀ n, body_text (replicate n None) = "") as Hnil by (induction n; by cbn).
  unfold body_text in *. cbn. rewrite Hnil. apply append_empty_r.
Qed.

(** When a middleware took over the response body, the client gets the
    replacement exactly once, in place of the whole upstream body, however
    that body is cut into chunks; otherwise every chunk passes unchanged. *)
Theorem body_override_exact chunks s :
  chunks ≠ [] →
  (∀ b, ctx_response_body_override (st_ctx s) = Some (Replace b) →
     ∃ out, (filter_body chunks s).1 = Ok out ∧ length out = length chunks ∧
            body_text out = b) ∧
  (ctx_response_body_override (st_ctx s) = None →
     (filter_body chunks s).1 = Ok chunks).
Proof.
  intros Hne. split; [intros b; by apply filter_body_replace|].
  intros Hno. induction chunks as [|c cs IH]; [done|]. clear Hne. cbn [filter_body].
  unfold mbind, M_bind, upstream_response_body_filter. rewrite Hno.
  destruct cs as [|c' cs]; [done|]. specialize (IH ltac:(done)).
  destruct (filter_body (c' :: cs) s) as [[out|e] s']; cbn in IH; [|done].
  by injection IH as ->.
Qed.

(** ** Failures *)

Lemma fail_to_proxy_answered e s s1 :
  on_route None (λ ms, run_fail_hooks ms e) s = (Ok None, s1) →
  (fail_to_proxy e s).1 = Ok (mkFailToProxy (error_code e) false) ∧
  ((0 < error_code e)%Z →
     (fail_to_proxy e s).2 = (write_response (error_code e) [] None None s1).2).
Proof.
  intros Hr. unfold fail_to_proxy, mbind, M_bind. rewrite Hr.
  destruct (Z.ltb_spec 0 (error_code e)) as [Hlt|Hge].
  - unfold ignore. split; [done|]. intros _. reflexivity.
  - split; [done|]. lia.
Qed.

(** A failure that no middleware takes over is answered with the status it
    carries, 502 for any other error, and the downstream connection is not
    reused; writing the answer cannot fail the request. *)
Theorem fail_to_proxy_answers e s s1 :
  on_route None (λ ms, run_fail_hooks ms e) s = (Ok None, s1) →
  (fail_to_proxy e s).1 = Ok (mkFailToProxy (error_code e) false) ∧
  ((0 < error_code e)%Z →
     (fail_to_proxy e s).2 = (write_response (error_code e) [] None None s1).2).
Proof. apply fail_to_proxy_answered. Qed.

(** A request that matched no route is refused with 404 by [upstream_peer],
    having run no middleware: no filter phase does anything without a route,
    whatever the middlewares are. *)
Theorem unrouted_is_404 s :
  ctx_current_route (st_ctx s) = None →
  upstream_peer s = (Err (error_explain (HTTPStatus 404) "no route matched"), s) ∧
  proxy_upstream_filter s = (Ok true, s) ∧
  (∀ px req, upstream_request_filter px req s = (Ok req, s)) ∧
  (∀ h, upstream_response_filter h s = (Ok h, s)) ∧
  (∀ peer e, fail_to_connect peer e s = (Ok e, s)) ∧
  (∀ e, logging e s = (Ok tt, s)) ∧
  (∀ e, (fail_to_proxy e s).1 = Ok (mkFailToProxy (error_code e) false)).
Proof.
  intros Hr.
  assert (∀ A (a : A) k, on_route a k s = (Ok a, s)) as Hno.
  { intros A a k. unfold on_route, mbind, M_bind, current_route. by rewrite Hr. }
  split_and!; intros; try apply Hno.
  - unfold upstream_peer, mbind, M_bind, current_route. by rewrite Hr.
  - apply fail_to_proxy_answered with s. apply Hno.
Qed.
End Proxy.

(** ** A concrete chain and the witnesses *)

Module RefProxy.
Import Demo RefLb RefPeer RefFmt RefCache.

(** The trait's default methods. *)
#[export] Instance mw : Middleware := {|
  mw_early_request_filter _ := mret tt;
  mw_request_filter _ := mret false;
  mw_proxy_upstream_filter _ := mret true;
  mw_upstream_request_filter _ h := mret h;
  mw_connected_to_upstream _ _ _ := mret tt;
  mw_fail_to_connect _ _ e := mret e;
  mw_upstream_response_filter _ h := mret h;
  mw_response_filter _ h := mret h;
  mw_error_while_proxy _ _ e _ := mret e;
  mw_fail_to_proxy _ _ := mret None;
  mw_logging _ _ := mret tt;
|}.
#[export] Instance laws : MiddlewareLaws.
Proof. split; intros; apply framed_ret. Qed.
#[export] Instance cache : CacheOps := {|
  ch_request_cache_filter _ := default_request_cache_filter;
  ch_cache_key_callback _ := mret (mkCacheKeyParts "" "" "");
  ch_cache_miss _ := default_cache_miss;
  ch_cache_hit_filter _ _ _ := default_cache_hit_filter;
  ch_response_cache_filter _ _ := default_response_cache_filter;
  ch_response_filter _ := default_response_filter;
  ch_cache_vary_filter _ _ _ _ := default_cache_vary_filter;
  ch_cache_not_modified_filter _ := default_cache_not_modified_filter;
  ch_should_serve_stale _ := default_should_serve_stale;
  ch_is_purge _ _ := default_is_purge;
|}.
#[export] Instance cache_frame : CacheFramed.
Proof.
  split; intros; try apply framed_ret; try (by apply framed_pure); try done.
  by apply keeps_frame_ctx.
Qed.
End RefProxy.

Section ProxyWitnesses.
Import Demo RefLb RefPeer RefFmt RefProxyFmt RefProxy.

Definition demo_route (id rule : string) (prio : Z) : Route :=
  mkRoute id prio
    (default (mkMatcher "" (OtherExpr "") None) (result_ok (from_cel rule))) [tt]
    (mkUpstreamPool [] None LoadBalancerConfig_default None).
Definition demo_updates : list (RouteUpdate Route) :=
  [UpsertRoute (demo_route "low" "*.example.com" 1);
   UpsertRoute (demo_route "high" "api.example.com" 9)].
Definition demo_proxy (policy : SniHostPolicy) : LonesomeProxy :=
  mkLonesomeProxy (run_updates demo_updates []).1 policy (Some 30%Z) None.

(** A request for [h] over TLS with server name [name]. *)
Definition tls_state (policy : SniHostPolicy) (h name : string) : St :=
  mkSt (ProxyCtx_new policy)
    (new_session (mkSessionView (sv_req_header (view h "/")) None
                    (Some (Some (mkDownstreamTlsInfo (Some name))))) None [])
    demo_shared.

Example demo_routed :
  r_id <$> ctx_current_route (st_ctx (early_request_filter (demo_proxy Strict)
    (tls_state Strict "api.example.com" "api.example.com")).2) = Some "high".
Proof. vm_compute. reflexivity. Qed.

Lemma early_request_no_leak_witness :
  early_request_filter (demo_proxy Strict)
    (mkSt (set_response_body_override (Some (Replace "old")) (ProxyCtx_new Strict))
       (st_session (tls_state Strict "a.com" "a.com")) demo_shared)
  = early_request_filter (demo_proxy Strict) (tls_state Strict "a.com" "a.com").
Proof. apply early_request_no_leak; reflexivity. Defined.

Example demo_fronting_refused :
  match request_filter (demo_proxy Strict) (early_request_filter (demo_proxy Strict)
          (tls_state Strict "victim.example.com" "api.example.com")).2 with
  | (Ok b, s') => b = true ∧ length (ses_written (st_session s')) = 1
  | (Err _, _) => False
  end.
Proof. vm_compute. split; reflexivity. Qed.

Lemma body_override_exact_witness :
  ∃ out, (filter_body [Some "upstream"; None; Some "rest"]
    (mkSt (set_response_body_override (Some (Replace "page")) (ProxyCtx_new Strict))
       (st_session (tls_state Strict "a.com" "a.com")) demo_shared)).1 = Ok out ∧
    body_text out = "page".
Proof.
  destruct (proj1 (body_override_exact [Some "upstream"; None; Some "rest"]
    (mkSt (set_response_body_override (Some (Replace "page")) (ProxyCtx_new Strict))
       (st_session (tls_state Strict "a.com" "a.com")) demo_shared) ltac:(discriminate))
    "page" eq_refl) as (out & Ho & _ & Hb).
  exists out. exact (conj Ho Hb).
Defined.

Lemma fail_to_proxy_answers_witness :
  (fail_to_proxy (error_explain ConnectError "refused")
     (tls_state Strict "a.com" "a.com")).1 = Ok (mkFailToProxy 502 false).
Proof.
  apply (fail_to_proxy_answers (error_explain ConnectError "refused")
           (tls_state Strict "a.com" "a.com") (tls_state Strict "a.com" "a.com")).
  reflexivity.
Defined.

Lemma unrouted_is_404_witness :
  upstream_peer (tls_state Strict "a.com" "a.com")
  = (Err (error_explain (HTTPStatus 404) "no route matched"), tls_state Strict "a.com" "a.com").
Proof. apply unrouted_is_404. reflexivity. Defined.
End ProxyWitnesses.
