(* ===== verification/Request.v ===== *)
(** * A request from arrival to log

    The callbacks of [src/proxy/proxy.rs] as the framework may call them for one
    request: in any order and number after [early_request_filter], with any
    arguments. The identity of the request (its route and what it arrived with)
    survives all of them, and what that means for routing and the host policy.
    [System.v] interleaves requests with one another and with the program. *)

From S2P Require Import Prelude Text Http Config Cel CelSession CelRegex CelFunctions.
From S2P Require Import CelEngine CheapExpr Precheck Matcher RouteTable.
From S2P Require Import VjsSocket VjsRegistry LoadBalancer Pingora ErrorPages Ctx.
From S2P Require Import Cache Upstream Response Frame Proxy.
From stdpp Require Import base tactics strings list gmap relations.
From Stdlib Require Import ZArith Lia.

Section Request.
Context `{HttpLib, RegexLib, RuleLib, !CelLib, TlsLib, LbLib, MwTypes, PeerLib, FmtLib,
          !ProxyFmt, !Middleware, !CacheLib, !CacheOps}.

(** The callbacks that follow [early_request_filter], with what the framework
    passes to each. *)
Inductive Callback :=
| CbRequestFilter
| CbProxyUpstreamFilter
| CbUpstreamPeer
| CbConnectedToUpstream (reused : bool) (peer : HttpPeer)
| CbFailToConnect (peer : HttpPeer) (e : Error)
| CbUpstreamRequestFilter (req : RequestHeader)
| CbUpstreamResponseFilter (h : ResponseHeader)
| CbUpstreamResponseBodyFilter (body : option string)
| CbResponseFilter (h : ResponseHeader)
| CbRequestCacheFilter
| CbCacheKey
| CbCacheMiss
| CbCacheHitFilter (meta : CacheMeta) (is_fresh : bool)
| CbResponseCacheFilter (resp : ResponseHeader)
| CbCacheNotModifiedFilter (resp : ResponseHeader)
| CbShouldServeStale (e : option Error)
| CbErrorWhileProxy (peer : HttpPeer) (e : Error) (client_reused truncated : bool)
| CbFailToProxy (e : Error)
| CbLogging (e : option Error).

(** The state a callback leaves. [cache_vary_filter] and [is_purge] only read. *)
Definition run_callback (px : LonesomeProxy) (cb : Callback) (s : St) : St :=
  match cb with
  | CbRequestFilter => (request_filter px s).2
  | CbProxyUpstreamFilter => (proxy_upstream_filter s).2
  | CbUpstreamPeer => (upstream_peer s).2
  | CbConnectedToUpstream reused peer => (connected_to_upstream reused peer s).2
  | CbFailToConnect peer e => (fail_to_connect peer e s).2
  | CbUpstreamRequestFilter req => (upstream_request_filter px req s).2
  | CbUpstreamResponseFilter h => (upstream_response_filter h s).2
  | CbUpstreamResponseBodyFilter body => (upstream_response_body_filter body s).2
  | CbResponseFilter h => (response_filter h s).2
  | CbRequestCacheFilter => (request_cache_filter s).2
  | CbCacheKey => (cache_key_callback s).2
  | CbCacheMiss => cache_miss s
  | CbCacheHitFilter meta is_fresh => (cache_hit_filter meta is_fresh s).2
  | CbResponseCacheFilter resp => (response_cache_filter resp s).2
  | CbCacheNotModifiedFilter resp => (cache_not_modified_filter resp s).2
  | CbShouldServeStale e => (should_serve_stale e s).2
  | CbErrorWhileProxy peer e reused truncated => (error_while_proxy peer e reused truncated s).2
  | CbFailToProxy e => (fail_to_proxy e s).2
  | CbLogging e => (logging e s).2
  end.

(** One hook of one middleware, as a callback that is suspended between two of
    them runs it. *)
Inductive HookCall :=
| HkEarlyRequest
| HkRequest
| HkProxyUpstream
| HkUpstreamRequest (req : RequestHeader)
| HkConnected (reused : bool) (peer : HttpPeer)
| HkFailToConnect (peer : HttpPeer) (e : Error)
| HkUpstreamResponse (h : ResponseHeader)
| HkResponse (h : ResponseHeader)
| HkErrorWhileProxy (peer : HttpPeer) (e : Error) (reused : bool)
| HkFailToProxy (e : Error)
| HkLogging (e : option Error).

Definition run_hook (m : MW) (hk : HookCall) (s : St) : St :=
  match hk with
  | HkEarlyRequest => (mw_early_request_filter m s).2
  | HkRequest => (mw_request_filter m s).2
  | HkProxyUpstream => (mw_proxy_upstream_filter m s).2
  | HkUpstreamRequest req => (mw_upstream_request_filter m req s).2
  | HkConnected reused peer => (mw_connected_to_upstream m reused peer s).2
  | HkFailToConnect peer e => (mw_fail_to_connect m peer e s).2
  | HkUpstreamResponse h => (mw_upstream_response_filter m h s).2
  | HkResponse h => (mw_response_filter m h s).2
  | HkErrorWhileProxy peer e reused => (mw_error_while_proxy m peer e reused s).2
  | HkFailToProxy e => (mw_fail_to_proxy m e s).2
  | HkLogging e => (mw_logging m e s).2
  end.

(** ** The callbacks keep the frame *)

Section Framed.
Context `{!MiddlewareLaws, !CacheFramed}.

Lemma framed_until (stop : bool) (hook : MW → M bool) ms :
  (∀ m, framed (hook m)) → framed (run_until stop hook ms).
Proof. intros Hh. induction ms as [|m ms IH]; simpl; [apply framed_ret|]. solve_framed. Qed.
Lemma framed_threaded {A} (hook : MW → A → M A) ms a :
  (∀ m a, framed (hook m a)) → framed (run_threaded hook ms a).
Proof.
  intros Hh. revert a. induction ms as [|m ms IH]; intros a; simpl; [apply framed_ret|].
  solve_framed.
Qed.
Lemma framed_errors context (hook : MW → Error → M Error) ms e :
  (∀ m e, framed (hook m e)) → framed (run_errors context hook ms e).
Proof.
  intros Hh. revert e. induction ms as [|m ms IH]; intros e; simpl; [apply framed_ret|].
  intros s. specialize (Hh m e s). destruct (hook m e s) as [[e'|e'] s'];
    (etransitivity; [exact Hh|apply IH]).
Qed.
Lemma framed_fail_hooks ms e : framed (run_fail_hooks ms e).
Proof.
  induction ms as [|m ms IH]; simpl; [apply framed_ret|]. intros s.
  pose proof (fail_to_proxy_framed m e s) as Hh.
  destruct (mw_fail_to_proxy m e s) as [[[v|]|e'] s']; [exact Hh|..];
    (etransitivity; [exact Hh|apply IH]).
Qed.
Lemma framed_ignore {A} (m : M A) : framed m → framed (ignore m).
Proof. intros Hm s. apply Hm. Qed.
Lemma framed_current_cache_handler : framed current_cache_handler.
Proof. by apply framed_pure. Qed.
Lemma framed_current_route : framed current_route.
Proof. by apply framed_pure. Qed.

Lemma framed_ask_lb loc select :
  (∀ lb, lb_moved lb (select lb).2) → framed (ask_lb loc select).
Proof.
  intros Hs s. unfold ask_lb. destruct (sh_lbs (st_shared s) !! loc) as [lb|] eqn:E; [|done].
  specialize (Hs lb). destruct (select lb) as [b lb']. apply keeps_frame_ctx; [done..|].
  split; [done..|]. simpl. rewrite <-(list_insert_id _ _ _ E) at 1.
  by apply Forall2_insert.
Qed.
Lemma select_backend_moved lb key n : lb_moved lb (select_backend lb key n).2.
Proof.
  unfold select_backend. pose proof (lb_step_select (dl_state lb) key n) as Hs.
  destruct (lb_select _ _ _). split; [done|by apply rtc_once].
Qed.
Lemma select_backend_with_moved lb key n accept :
  lb_moved lb (select_backend_with lb key n accept).2.
Proof.
  unfold select_backend_with.
  pose proof (lb_step_select_with (dl_state lb) key n accept) as Hs.
  destruct (lb_select_with _ _ _ _). split; [done|by apply rtc_once].
Qed.
Lemma framed_record_choice b : framed (modify_ctx (record_choice b)).
Proof.
  apply framed_modify_ctx. intros c. unfold record_choice.
  by destruct (ctx_upstream_state c).
Qed.
Lemma framed_select_peer p rid : framed (select_peer p rid).
Proof.
  unfold select_peer. pose proof framed_record_choice.
  apply framed_bind; [apply framed_pure; intros s; apply key_pure|]. intros key.
  apply framed_bind; [auto with frame|]. intros s.
  repeat case_match; try solve [auto with frame];
    (apply framed_bind;
       [apply framed_ask_lb; intros lb; first [apply select_backend_moved
                                              |apply select_backend_with_moved]|]);
    solve_framed.
Qed.
Lemma framed_set_upstream_response h : framed (modify_ctx (set_ctx_upstream_response h)).
Proof. unfold set_ctx_upstream_response. apply framed_modify_cel. by intros c. Qed.

Lemma framed_request_filter px : framed (request_filter px).
Proof.
  unfold request_filter, sni_host_reject. apply framed_bind; [solve_framed|].
  intros [st|]; [solve_framed|]. apply framed_on_route. intros ms.
  apply framed_until, request_framed.
Qed.
Lemma framed_upstream_request px req : framed (upstream_request_filter px req).
Proof.
  unfold upstream_request_filter. apply framed_on_route. intros ms.
  apply framed_bind; [apply framed_threaded, upstream_request_framed|]. solve_framed.
Qed.
Lemma framed_response h : framed (response_filter h).
Proof.
  unfold response_filter. apply framed_bind; [apply framed_current_cache_handler|].
  intros o. apply framed_bind; [destruct o; [apply cache_response_framed|apply framed_ret]|].
  intros h'. apply framed_on_route. intros ms. apply framed_threaded, response_framed.
Qed.
Lemma framed_fail_to_proxy e : framed (fail_to_proxy e).
Proof.
  unfold fail_to_proxy. pose proof (@framed_ignore).
  apply framed_bind; [apply framed_on_route; intros ms; apply framed_fail_hooks|].
  solve_framed.
Qed.
(** A cache callback: the handler's, or the default without one. *)
Lemma framed_on_cache {A} (none : M A) (k : CacheHandler → M A) :
  framed none → (∀ h, framed (k h)) →
  framed (cache ← current_cache_handler; match cache with None => none | Some h => k h end).
Proof.
  intros Hn Hk. apply framed_bind; [apply framed_current_cache_handler|].
  intros [h|]; auto.
Qed.

Lemma run_callback_framed px cb s : keeps_frame s (run_callback px cb s).
Proof.
  destruct cb; simpl; revert s.
  - apply framed_request_filter.
  - apply framed_on_route. intros ms. apply framed_until, proxy_upstream_framed.
  - apply framed_bind; [apply framed_current_route|]. intros [r|]; [|auto with frame].
    apply framed_select_peer.
  - apply framed_on_route. intros ms. apply framed_hooks. intros m. apply connected_framed.
  - apply framed_on_route. intros ms. apply framed_errors. intros m. apply fail_to_connect_framed.
  - apply framed_upstream_request.
  - apply framed_on_route. intros ms. apply framed_bind; [apply framed_set_upstream_response|].
    intros _. apply framed_threaded, upstream_response_framed.
  - intros s. unfold upstream_response_body_filter.
    destruct (ctx_response_body_override (st_ctx s)) as [[b|]|]; [|done..].
    split; [done..|]. intros c Hc. by exists c.
  - apply framed_response.
  - apply framed_on_cache; [apply framed_ret|apply request_cache_framed].
  - apply framed_on_cache; [auto with frame|]. intros h.
    apply framed_bind; [apply cache_key_framed|auto with frame].
  - intros s. unfold cache_miss. case_match; [apply cache_miss_framed|]. by apply keeps_frame_ctx.
  - apply framed_on_cache; [apply framed_ret|]. intros h. apply cache_hit_framed.
  - apply framed_on_cache; [apply framed_ret|]. intros h. apply response_cache_framed.
  - intros s. unfold cache_not_modified_filter. case_match; [|done]. apply not_modified_framed.
  - intros s. unfold should_serve_stale. case_match; [|done]. apply serve_stale_framed.
  - apply framed_on_route. intros ms. apply framed_errors. intros m e'.
    apply error_while_proxy_framed.
  - apply framed_fail_to_proxy.
  - apply framed_on_route. intros ms. apply framed_hooks. intros m.
    apply framed_ignore, logging_framed.
Qed.

Lemma run_hook_framed m hk s : keeps_frame s (run_hook m hk s).
Proof.
  destruct hk; simpl.
  - apply early_framed.
  - apply request_framed.
  - apply proxy_upstream_framed.
  - apply upstream_request_framed.
  - apply connected_framed.
  - apply fail_to_connect_framed.
  - apply upstream_response_framed.
  - apply response_framed.
  - apply error_while_proxy_framed.
  - apply fail_to_proxy_framed.
  - apply logging_framed.
Qed.

(** ** The identity of a request *)

(** The request that arrived in [s0]. *)
Record identity (px : LonesomeProxy) (s0 s : St) : Prop := {
  id_route : ctx_current_route (st_ctx s) = chosen_route px s0;
  id_route_id : ctx_route_id (st_ctx s) = default "" (r_id <$> chosen_route px s0);
  id_wire : same_wire (st_session s0) (st_session s);
  id_request : ∃ c, ctx_session_cel_context (st_ctx s) = Some c ∧
    same_request (cel_http_session (fresh_context px s0)) (cel_http_session c);
}.

Lemma identity_early px s0 : identity px s0 (early_request_filter px s0).2.
Proof. destruct (early_route px s0) as (? & ? & _ & ? & _ & ?). by split. Qed.

Lemma identity_frame px s0 s s' : keeps_frame s s' → identity px s0 s → identity px s0 s'.
Proof.
  intros [K1 K2 _ K4 _ K6] [I1 I2 I3 (c & Hc & Hs)].
  split; [congruence..|by etransitivity|]. destruct (K6 c Hc) as (c' & Hc' & Hs').
  exists c'. split; [done|]. by etransitivity.
Qed.

(** The request as rules see it, at any time. *)
Lemma identity_context px s0 s :
  identity px s0 s →
  same_request (cel_http_session (fresh_context px s0)) (cel_http_session (cel_context s)).
Proof. intros [_ _ _ (c & Hc & Hs)]. unfold cel_context. by rewrite Hc. Qed.

(** On a well-formed table the request is served by the best route whose rule
    held when it arrived, and its peer is asked of that route's pool. *)
Lemma identity_served px s0 s :
  table_wf (px_routes px) → identity px s0 s →
  match ctx_current_route (st_ctx s) with
  | Some r => r ∈ px_routes px ∧ rule_holds px s0 r = true ∧
      (∀ x, x ∈ px_routes px → rule_holds px s0 x = true → x = r ∨ route_le r x) ∧
      ctx_route_id (st_ctx s) = r_id r ∧
      upstream_peer s = select_peer (r_upstream_pool r) (r_id r) s
  | None => (∀ x, x ∈ px_routes px → rule_holds px s0 x = false) ∧
      upstream_peer s = (Err (error_explain (HTTPStatus 404) "no route matched"), s)
  end.
Proof.
  intros Hwf Hr. pose proof (chosen_route_best px s0 Hwf) as Hb.
  unfold upstream_peer, mbind, M_bind, current_route.
  rewrite (id_route _ _ _ Hr), (id_route_id _ _ _ Hr).
  destruct (chosen_route px s0) as [r|]; [|done]. destruct Hb as (? & ? & ?). by split_and!.
Qed.

(** What the gate of [strict] let through was routed by the name of its
    connection. *)
Lemma strict_routed px s0 name :
  ctx_sni_host_policy (st_ctx s0) = Strict →
  let cs := cel_http_session (fresh_context px s0) in
  gate_open Strict cs → sni cs = Some name →
  authority_conflict cs = false ∧
  (∀ a, http_authority cs = Some a → host cs = a ∧ hostname_eq name (host cs) = true).
Proof.
  intros Hctx cs Hg Hsni. destruct (strict_gate cs name Hg Hsni) as [Hc Hn].
  split; [done|]. intros a Ha.
  assert (host cs = a) as ->; [|split; [done|by apply Hn]].
  change (host cs) with (compute_host cs). unfold compute_host.
  change (sni_host_policy cs) with (ctx_sni_host_policy (st_ctx s0)). by rewrite Hctx, Ha.
Qed.

(** What a proxy that rewrites the host forwards. *)
Lemma identity_forwards_sni `{!HttpLaws} px px' s0 s req req' s' name :
  px_sni_host_policy px' = StrictRewriteHeader →
  identity px s0 s → is_Some (ctx_current_route (st_ctx s)) →
  sni (cel_http_session (fresh_context px s0)) = Some name → hv_from_str name = Ok name →
  upstream_request_filter px' req s = (Ok req', s') →
  hm_get_all "host" (req_headers req') = [name] ∧
  (authority_as_str <$> uri_authority (req_uri req') = Some name ∨ no_uri_for name req').
Proof.
  intros Hpx Hr Hroute Hsni Hv Hf.
  assert (sni (cel_http_session (cel_context s')) = Some name) as Hsni'.
  { assert (identity px s0 s') as Hid.
    { eapply identity_frame; [|exact Hr]. pose proof (framed_upstream_request px' req s) as Hk.
      by rewrite Hf in Hk. }
    by rewrite <-(sni_proper _ _ (identity_context px s0 s' Hid)). }
  destruct (upstream_request_forced _ _ _ _ _ _ Hpx Hroute Hf Hsni') as [req1 ->].
  by apply force_authority_host.
Qed.
End Framed.
End Request.
