(* ===== verification/Filter.v ===== *)
(** * The request filters, one at a time

    [request_filter] of [src/proxy/proxy.rs] as a machine. Between two
    middlewares the task may wait (a middleware waits for JavaScript or for the
    client) while other requests run, so the callback is not one step of the
    system: it has a control state that says where it is. Run without
    interruption, the machine is [Proxy.request_filter]. *)

From S2P Require Import Prelude Text Http Config Cel CelSession CelRegex CelFunctions.
From S2P Require Import CelEngine CheapExpr Precheck Matcher RouteTable.
From S2P Require Import VjsSocket VjsRegistry LoadBalancer Pingora ErrorPages Ctx.
From S2P Require Import Cache Upstream Response Frame Proxy Request.
From stdpp Require Import base tactics strings list gmap relations.
From Stdlib Require Import ZArith Lia.

Section Filter.
Context `{HttpLib, RegexLib, RuleLib, !CelLib, TlsLib, LbLib, MwTypes, PeerLib, FmtLib,
          !ProxyFmt, !Middleware, !CacheLib, !CacheOps}.

(** Not called yet; before the host policy; before the middlewares that are
    left; returned. *)
Inductive FilterState :=
| FilterIdle
| FilterGate
| FilterHooks (rest : list MW)
| FilterDone (r : result bool Error).

(** The host policy, and the middlewares to run after it. *)
Definition filter_gate (px : LonesomeProxy) (s : St) : FilterState * St :=
  match sni_host_reject px s with
  | (Err e, s1) => (FilterDone (Err e), s1)
  | (Ok (Some status), s1) =>
      match write_response status [] None None s1 with
      | (Err e, s2) => (FilterDone (Err e), s2)
      | (Ok _, s2) => (FilterDone (Ok true), s2)
      end
  | (Ok None, s1) =>
      (match ctx_current_route (st_ctx s1) with
       | None => FilterDone (Ok false)
       | Some r => FilterHooks (r_middlewares r)
       end, s1)
  end.

(** One middleware. *)
Definition filter_hook (m : MW) (rest : list MW) (s : St) : FilterState * St :=
  match mw_request_filter m s with
  | (Err e, s1) => (FilterDone (Err e), s1)
  | (Ok true, s1) => (FilterDone (Ok true), s1)
  | (Ok false, s1) => (FilterHooks rest, s1)
  end.

Definition filter_step (px : LonesomeProxy) (pc : FilterState) (s : St) : FilterState * St :=
  match pc with
  | FilterIdle => (FilterGate, s)
  | FilterGate => filter_gate px s
  | FilterHooks [] => (FilterDone (Ok false), s)
  | FilterHooks (m :: rest) => filter_hook m rest s
  | FilterDone r => (FilterDone r, s)
  end.

Fixpoint filter_steps (n : nat) (px : LonesomeProxy) (pc : FilterState) (s : St)
    : FilterState * St :=
  match n with
  | 0 => (pc, s)
  | S n' => let '(pc', s') := filter_step px pc s in filter_steps n' px pc' s'
  end.

(** [request_filter] has neither refused the request nor still to consult the
    host policy. *)
Definition past_gate (pc : FilterState) : bool :=
  match pc with FilterHooks _ | FilterDone (Ok false) => true | _ => false end.

(** How many steps are left, at most. *)
Definition filter_left (s : St) (pc : FilterState) : nat :=
  let hooks := match ctx_current_route (st_ctx s) with
               | Some r => length (r_middlewares r) | None => 0 end in
  match pc with
  | FilterIdle => 3 + hooks
  | FilterGate => 2 + hooks
  | FilterHooks rest => 1 + length rest
  | FilterDone _ => 0
  end.

(** ** The machine and the callback *)

Lemma filter_steps_done n px r s :
  filter_steps n px (FilterDone r) s = (FilterDone r, s).
Proof. induction n as [|n IH]; [done|exact IH]. Qed.

Lemma filter_steps_hooks n px ms s :
  length ms < n →
  filter_steps n px (FilterHooks ms) s =
    let '(r, s') := run_until true mw_request_filter ms s in (FilterDone r, s').
Proof.
  revert n s. induction ms as [|m ms IH]; intros n s Hn; (destruct n as [|n]; [simpl in Hn; lia|]);
    simpl in *.
  - apply filter_steps_done.
  - unfold filter_hook, mbind, M_bind.
    destruct (mw_request_filter m s) as [[[]|e] s1]; [apply filter_steps_done| |apply filter_steps_done].
    simpl. apply IH. lia.
Qed.

Lemma filter_steps_gate n px s :
  filter_left s FilterGate ≤ n →
  filter_steps n px FilterGate s =
    let '(r, s') := request_filter px s in (FilterDone r, s').
Proof.
  unfold filter_left. destruct n as [|n]; [lia|]. intros Hn. simpl.
  unfold filter_gate, request_filter, mbind, M_bind. rewrite sni_host_reject_eq. cbv zeta.
  destruct (sni_host_policy_reject _ _ _ _) as [status|].
  { destruct (write_response _ _ _ _ _) as [[[]|e] s2]; apply filter_steps_done. }
  unfold on_route, mbind, M_bind, current_route. simpl.
  destruct (ctx_current_route (st_ctx s)) as [r|]; [|apply filter_steps_done].
  apply filter_steps_hooks. lia.
Qed.

(** The machine implements the callback: run without interruption it returns
    within a bound that only depends on the number of middlewares of the
    route, with the result of [request_filter] and the state it leaves. *)
Theorem filter_machine_exact px s n :
  filter_left s FilterIdle ≤ n →
  filter_steps n px FilterIdle s =
    (FilterDone (request_filter px s).1, (request_filter px s).2).
Proof.
  destruct n as [|n]; [simpl; lia|]. intros Hn. simpl.
  rewrite filter_steps_gate by (simpl in *; lia). by destruct (request_filter px s).
Qed.

(** ** Its steps *)

Section Framed.
Context `{!MiddlewareLaws}.

Lemma filter_step_framed px pc s : keeps_frame s (filter_step px pc s).2.
Proof.
  destruct pc as [| |[|m rest]|r]; simpl; try reflexivity.
  - unfold filter_gate. assert (framed (sni_host_reject px)) as Hg
      by (unfold sni_host_reject; solve_framed).
    specialize (Hg s). destruct (sni_host_reject px s) as [[[status|]|e] s1]; try exact Hg.
    assert (framed (write_response status [] None None)) as Hw by auto with frame.
    specialize (Hw s1). destruct (write_response _ _ _ _ s1) as [[|] s2]; by etransitivity.
  - unfold filter_hook. pose proof (request_framed m s) as Hm.
    by destruct (mw_request_filter m s) as [[[]|] s1].
Qed.

(** Past the gate, the middlewares to run are those of the route. *)
Lemma filter_gate_passed px s pc s' :
  filter_gate px s = (pc, s') →
  match pc with
  | FilterHooks ms => gate_open (px_sni_host_policy px) (cel_http_session (cel_context s)) ∧
      ∃ r, ctx_current_route (st_ctx s) = Some r ∧ ms = r_middlewares r
  | FilterDone (Ok false) =>
      gate_open (px_sni_host_policy px) (cel_http_session (cel_context s)) ∧
      ctx_current_route (st_ctx s) = None
  | FilterDone _ => True
  | _ => False
  end.
Proof.
  unfold filter_gate, gate_open. rewrite sni_host_reject_eq. cbv zeta.
  destruct (sni_host_policy_reject _ _ _ _) as [status|].
  { destruct (write_response _ _ _ _ _) as [[[]|e] s2]; by intros [= <- <-]. }
  simpl. intros [= <- <-]. destruct (ctx_current_route (st_ctx s)) as [r|]; [|done].
  split; [done|]. by exists r.
Qed.
End Framed.
End Filter.

(** ** A routed request, as a witness *)
Section FilterWitness.
Import Demo RefLb RefPeer RefFmt RefProxyFmt RefCache RefProxy.

Definition filter_demo : St :=
  (early_request_filter (demo_proxy Strict)
     (tls_state Strict "api.example.com" "api.example.com")).2.

Lemma filter_machine_exact_witness :
  filter_left filter_demo FilterIdle = 4 ∧
  filter_steps 4 (demo_proxy Strict) FilterIdle filter_demo =
    (FilterDone (request_filter (demo_proxy Strict) filter_demo).1,
     (request_filter (demo_proxy Strict) filter_demo).2).
Proof.
  assert (filter_left filter_demo FilterIdle = 4) as Hn by (vm_compute; reflexivity).
  split; [exact Hn|].
  exact (filter_machine_exact (demo_proxy Strict) filter_demo 4 (Nat.eq_le_incl _ _ Hn)).
Defined.
End FilterWitness.
