(* ===== verification/Middleware.v ===== *)
(** * The middleware trait

    [src/middlewares/middleware.rs]: the hooks of a middleware with the default
    bodies the trait gives them, and what the middlewares' constructors share.
    A middleware is a record of hooks that overrides some of the defaults. *)

From S2P Require Import Prelude Text Http Config Cel CelSession CelRegex CelFunctions.
From S2P Require Import CelEngine CheapExpr Precheck Matcher RouteTable.
From S2P Require Import VjsSocket VjsRegistry LoadBalancer Pingora ErrorPages Ctx.
From S2P Require Import Upstream Response Frame.
From stdpp Require Import base tactics strings list gmap.
From Stdlib Require Import ZArith Lia.

Section MiddlewareTrait.
Context `{HttpLib, RegexLib, RuleLib, !CelLib, TlsLib, LbLib, MwTypes}.

Record Hooks := mkHooks {
  h_early_request_filter : M unit;
  h_request_filter : M bool;
  h_proxy_upstream_filter : M bool;
  h_upstream_request_filter : RequestHeader → M RequestHeader;
  h_connected_to_upstream : bool → HttpPeer → M unit;
  h_fail_to_connect : HttpPeer → Error → M Error;
  h_upstream_response_filter : ResponseHeader → M ResponseHeader;
  h_response_filter : ResponseHeader → M ResponseHeader;
  h_error_while_proxy : HttpPeer → Error → bool → M Error;
  h_fail_to_proxy : Error → M (option FailToProxy);
  h_logging : option Error → M unit;
}.

(** The default methods of the trait. *)
Definition default_hooks : Hooks := {|
  h_early_request_filter := mret tt;
  h_request_filter := mret false;
  h_proxy_upstream_filter := mret true;
  h_upstream_request_filter req := mret req;
  h_connected_to_upstream _ _ := mret tt;
  h_fail_to_connect _ e := mret e;
  h_upstream_response_filter resp := mret resp;
  h_response_filter resp := mret resp;
  h_error_while_proxy _ e _ := mret e;
  h_fail_to_proxy _ := mret None;
  h_logging _ := mret tt;
|}.

(** Overriding one hook. *)
Definition with_early (f : M unit) (h : Hooks) : Hooks :=
  mkHooks f (h_request_filter h) (h_proxy_upstream_filter h) (h_upstream_request_filter h)
    (h_connected_to_upstream h) (h_fail_to_connect h) (h_upstream_response_filter h)
    (h_response_filter h) (h_error_while_proxy h) (h_fail_to_proxy h) (h_logging h).
Definition with_request_filter (f : M bool) (h : Hooks) : Hooks :=
  mkHooks (h_early_request_filter h) f (h_proxy_upstream_filter h)
    (h_upstream_request_filter h) (h_connected_to_upstream h) (h_fail_to_connect h)
    (h_upstream_response_filter h) (h_response_filter h) (h_error_while_proxy h)
    (h_fail_to_proxy h) (h_logging h).
Definition with_upstream_request (f : RequestHeader → M RequestHeader) (h : Hooks) : Hooks :=
  mkHooks (h_early_request_filter h) (h_request_filter h) (h_proxy_upstream_filter h) f
    (h_connected_to_upstream h) (h_fail_to_connect h) (h_upstream_response_filter h)
    (h_response_filter h) (h_error_while_proxy h) (h_fail_to_proxy h) (h_logging h).
Definition with_connected (f : bool → HttpPeer → M unit) (h : Hooks) : Hooks :=
  mkHooks (h_early_request_filter h) (h_request_filter h) (h_proxy_upstream_filter h)
    (h_upstream_request_filter h) f (h_fail_to_connect h) (h_upstream_response_filter h)
    (h_response_filter h) (h_error_while_proxy h) (h_fail_to_proxy h) (h_logging h).
Definition with_fail_to_connect (f : HttpPeer → Error → M Error) (h : Hooks) : Hooks :=
  mkHooks (h_early_request_filter h) (h_request_filter h) (h_proxy_upstream_filter h)
    (h_upstream_request_filter h) (h_connected_to_upstream h) f
    (h_upstream_response_filter h) (h_response_filter h) (h_error_while_proxy h)
    (h_fail_to_proxy h) (h_logging h).
Definition with_upstream_response (f : ResponseHeader → M ResponseHeader) (h : Hooks)
    : Hooks :=
  mkHooks (h_early_request_filter h) (h_request_filter h) (h_proxy_upstream_filter h)
    (h_upstream_request_filter h) (h_connected_to_upstream h) (h_fail_to_connect h) f
    (h_response_filter h) (h_error_while_proxy h) (h_fail_to_proxy h) (h_logging h).
Definition with_response (f : ResponseHeader → M ResponseHeader) (h : Hooks) : Hooks :=
  mkHooks (h_early_request_filter h) (h_request_filter h) (h_proxy_upstream_filter h)
    (h_upstream_request_filter h) (h_connected_to_upstream h) (h_fail_to_connect h)
    (h_upstream_response_filter h) f (h_error_while_proxy h) (h_fail_to_proxy h)
    (h_logging h).
Definition with_logging (f : option Error → M unit) (h : Hooks) : Hooks :=
  mkHooks (h_early_request_filter h) (h_request_filter h) (h_proxy_upstream_filter h)
    (h_upstream_request_filter h) (h_connected_to_upstream h) (h_fail_to_connect h)
    (h_upstream_response_filter h) (h_response_filter h) (h_error_while_proxy h)
    (h_fail_to_proxy h) f.

(** Every hook keeps the frame. *)
Record hooks_framed (h : Hooks) : Prop := {
  hf_early : framed (h_early_request_filter h);
  hf_request : framed (h_request_filter h);
  hf_proxy_upstream : framed (h_proxy_upstream_filter h);
  hf_upstream_request req : framed (h_upstream_request_filter h req);
  hf_connected reused peer : framed (h_connected_to_upstream h reused peer);
  hf_fail_to_connect peer e : framed (h_fail_to_connect h peer e);
  hf_upstream_response resp : framed (h_upstream_response_filter h resp);
  hf_response resp : framed (h_response_filter h resp);
  hf_error_while_proxy peer e reused : framed (h_error_while_proxy h peer e reused);
  hf_fail_to_proxy e : framed (h_fail_to_proxy h e);
  hf_logging e : framed (h_logging h e);
}.

(** [headers.get(name).and_then(|v| v.to_str().ok())]. *)
Definition header_text (name : string) (h : HM) : option string :=
  match hm_get name h with Some v => hv_to_str v | None => None end.

(** [Program::compile(&expr).map_err(..)] with the middleware's message. *)
Definition compile_named (what expr : string) : result Program string :=
  map_err (λ e : string, "failed to compile " +:+ what +:+ " '" +:+ expr +:+ "': " +:+ e)
    (cel_compile expr).

(** Guard the work of a hook by its rule. *)
Definition when_applies {A} (rule : option Program) (otherwise : A) (m : M A) : M A :=
  b ← should_apply rule; if (b : bool) then m else mret otherwise.

Lemma framed_when_applies {A} rule (a : A) (m : M A) : framed m → framed (when_applies rule a m).
Proof. intros Hm. unfold when_applies. solve_framed. Qed.

(** ** Responses of a header alone *)

(** [insert_header] in order, each with the context of its error. *)
Fixpoint insert_each (hs : list (string * string * string)) (resp : ResponseHeader)
    : result ResponseHeader Error :=
  match hs with
  | [] => Ok resp
  | (context, name, value) :: hs' =>
      let? resp := map_err (middleware_internal_error context)
                     (resp_insert_header name value resp) in
      insert_each hs' resp
  end.

(** [ResponseHeader::build], the insertions, and the header is written. *)
Definition header_only (created written : string) (status : Z)
    (hs : list (string * string * string)) : M unit :=
  resp ← lift (let? resp := map_err (middleware_internal_error created)
                              (response_build status) in insert_each hs resp);
  write_session written (WroteHeader resp true).

Lemma insert_each_ok `{!HttpLaws} hs r r' :
  insert_each hs r = Ok r' →
  resp_status r' = resp_status r ∧
  (∀ n, absent n ((λ x, (x.1.2, x.2)) <$> hs) →
     hm_get_all n (resp_headers r') = hm_get_all n (resp_headers r)) ∧
  (∀ hs1 x n v hs2, hs = hs1 ++ (x, n, v) :: hs2 →
     absent n ((λ x, (x.1.2, x.2)) <$> hs2) → hm_get_all n (resp_headers r') = [v]).
Proof.
  revert r. induction hs as [|[[x n] v] hs IH]; intros r; simpl.
  { intros [= <-]. split_and!; [done..|]. by intros []. }
  unfold resp_insert_header.
  destruct (checked_insert n v (resp_headers r)) as [h|] eqn:E; [|done]. simpl.
  intros (Hs & Ho & Hg)%IH. simpl in *. split_and!; [done| |].
  - intros n' [Hn Ha]%Forall_cons_1. rewrite Ho by exact Ha.
    by apply (checked_insert_other _ _ _ _ _ E).
  - intros [|y hs1] x' n' v' hs2 Eq Ha; simplify_eq/=; [|by apply (Hg hs1 x' n' v' hs2)].
    rewrite Ho by done. by apply checked_insert_get in E.
Qed.

Lemma header_only_run `{!HttpLaws} created written status hs s s' :
  header_only created written status hs s = (Ok tt, s') →
  st_ctx s' = st_ctx s ∧ st_shared s' = st_shared s ∧
  ∃ h, ses_written (st_session s') = ses_written (st_session s) ++ [WroteHeader h true] ∧
    resp_status h = status ∧
    ∀ hs1 x n v hs2, hs = hs1 ++ (x, n, v) :: hs2 →
      absent n ((λ x, (x.1.2, x.2)) <$> hs2) → hm_get_all n (resp_headers h) = [v].
Proof.
  unfold header_only, mbind, M_bind, lift, response_build. intros Hw.
  destruct (status_from_u16 status) as [[]|]; [|done]. cbn [result_bind map_err] in Hw.
  destruct (insert_each hs _) as [h|] eqn:E; [|done].
  apply insert_each_ok in E as (Hs & _ & Hg).
  destruct (write_session_run written (WroteHeader h true) s) as (s2 & [[E2 Ha]|[[e E2] _]]);
    rewrite E2 in Hw; [|done]. injection Hw as <-. destruct Ha as (? & ? & _ & _ & ?).
  split_and!; [done..|]. by exists h.
Qed.

Lemma framed_header_only created written status hs :
  framed (header_only created written status hs).
Proof. unfold header_only. solve_framed. Qed.

(** ** Running hooks *)

(** The verdict of a rule and the context it leaves. *)
Lemma should_apply_run rule s :
  ∃ b s', should_apply rule s = (Ok b, s') ∧ st_session s' = st_session s ∧
    st_shared s' = st_shared s ∧ cel_context s' = cel_context s ∧
    ctx_upstream_state (st_ctx s') = ctx_upstream_state (st_ctx s) ∧
    ctx_response_body_override (st_ctx s') = ctx_response_body_override (st_ctx s).
Proof.
  destruct rule as [p|]; simpl.
  - unfold mbind, M_bind. unfold execute. unfold mbind, M_bind. rewrite ensure_eq. simpl.
    eexists _, _. split; [done|]. unfold cel_context. simpl. split_and!; done.
  - by exists true, s.
Qed.

(** The verdict a rule gives in a state. *)
Definition applies (rule : option Program) (s : St) : bool :=
  match rule with
  | None => true
  | Some p => is_bool_true (cel_execute p (sh_env (st_shared s)) (cel_context s))
  end.

(** Once the context is read, a rule is evaluated without effect. *)
Lemma should_apply_read rule s c :
  ctx_session_cel_context (st_ctx s) = Some c → should_apply rule s = (Ok (applies rule s), s).
Proof.
  intros Hc. destruct rule as [p|]; [|done]. unfold should_apply, mbind, M_bind.
  rewrite (execute_eq _ _ _ Hc). unfold applies, cel_context. by rewrite Hc.
Qed.

Lemma when_applies_read {A} rule (a : A) (m : M A) s c :
  ctx_session_cel_context (st_ctx s) = Some c →
  when_applies rule a m s = if applies rule s then m s else (Ok a, s).
Proof.
  intros Hc. unfold when_applies, mbind, M_bind. rewrite (should_apply_read _ _ _ Hc).
  by destruct (applies rule s).
Qed.
End MiddlewareTrait.

#[export] Hint Resolve framed_when_applies framed_header_only : frame.

(** A middleware's hooks keep the frame: the defaults do, and the goals left are
    those of the hooks it overrides. *)
Ltac hooks_frame := split; simpl; intros; try apply framed_ret.
