(* ===== verification/MwCache.v ===== *)
(** * The response cache

    [src/middlewares/cache]: the middleware that turns caching on for a request
    and the handler behind the proxy's cache callbacks. Storage, the cache
    decision and hashing are the framework's; the handler chooses the key, caps
    the time to live, and makes entries of a purged route miss. *)

From S2P Require Import Prelude Text Http Config Cel CelSession CelRegex CelFunctions.
From S2P Require Import CelEngine CheapExpr Precheck Matcher RouteTable.
From S2P Require Import VjsSocket VjsRegistry LoadBalancer Pingora ErrorPages Ctx.
From S2P Require Import Cache Upstream Response Frame Proxy Middleware.
From stdpp Require Import base tactics strings list gmap sorting.
From Stdlib Require Import ZArith Lia Ascii Sorted.

(** The purge times are a static of the process: a part of the middlewares'
    state. *)
Class PurgeState `{MwTypes} := {
  get_purge : MwState → gmap string Z;
  put_purge : gmap string Z → MwState → MwState;
  get_put_purge p s : get_purge (put_purge p s) = p;
}.

(** [SystemTime + Duration::from_secs], in milliseconds: a panic when the sum
    does not fit the clock's 64-bit seconds. *)
Definition system_time_add_secs (t secs : Z) : option Z :=
  if (t + 1000 * secs <? 1000 * 2 ^ 63)%Z then Some (t + 1000 * secs)%Z else None.

Module CacheMw.

Record CacheConfig := mkCacheConfig {
  cfg_max_ttl_secs : option N;
  cfg_max_file_size_bytes : option Z;
  cfg_inject_cache_headers : option bool;
  cfg_rule : option string;
}.

Definition validate (c : CacheConfig) : result unit string :=
  match cfg_max_ttl_secs c with
  | Some ttl => guard_err (ttl =? 0)%N "middleware cache.max_ttl_secs must be > 0"
  | None => Ok tt
  end.

(** [handler::CacheHandler]. *)
Record Handler := mkHandler {
  max_ttl_secs : Z;
  max_file_size_bytes : option Z;
  inject_cache_headers : bool;
}.

Definition CACHE_DECISION_DEFAULTS : CacheMetaDefaults := mkCacheMetaDefaults (λ _, None) 1 1.

(** ** Purging *)

(** [purge_route_namespace] at a time. *)
Definition purge_route_namespace (route_id : string) (now : Z) (m : gmap string Z)
    : gmap string Z :=
  if is_empty route_id then m else <[route_id := now]> m.

Definition run_purges (ps : list (string * Z)) (m : gmap string Z) : gmap string Z :=
  foldl (λ m p, purge_route_namespace p.1 p.2 m) m ps.

Section Handler.
Context `{HttpLib, RegexLib, RuleLib, !CelLib, TlsLib, LbLib, MwTypes, !CacheLib, !PurgeState}.

(** ** The handler's callbacks *)

(** [has_vary_star]. *)
Definition is_star (part : string) : bool := eq_ignore_ascii_case (trim part) "*".
Definition has_vary_star (resp : ResponseHeader) : bool :=
  existsb (λ value, match hv_to_str value with
                    | Some raw => existsb is_star (str_split "," raw)
                    | None => false
                    end) (hm_get_all "vary" (resp_headers resp)).

Definition request_cache_filter (h : Handler) : M unit :=
  _ ← modify_session (λ s, set_cache (cache_enable (Some 2%Z) (ses_cache s)) s);
  match max_file_size_bytes h with
  | Some max => modify_session (λ s, set_cache (cache_set_max_file_size max (ses_cache s)) s)
  | None => mret tt
  end.

Definition phase_status (p : CachePhase) : string :=
  match p with
  | PhaseHit => "hit"
  | PhaseMiss => "miss"
  | PhaseStale => "stale"
  | PhaseStaleUpdating => "updating"
  | PhaseExpired => "expired"
  | PhaseRevalidated => "revalidated"
  | PhaseRevalidatedNoCache _ => "revalidated"
  | PhaseBypass => "bypass"
  | PhaseDisabled _ => "bypass"
  | PhaseUninit => "bypass"
  | PhaseCacheKey => "bypass"
  end.

Definition response_filter (h : Handler) (resp : ResponseHeader) : M ResponseHeader :=
  if negb (inject_cache_headers h) then mret resp
  else
    s ← get;
    lift (map_err (middleware_internal_error "insert Cdn-Cache-Status failed")
            (resp_insert_header "Cdn-Cache-Status"
               (phase_status (cache_phase (ses_cache (st_session s)))) resp)).

(** The host and path a key is made of. *)
Definition key_host (req : RequestHeader) : string :=
  match hm_get "host" (req_headers req) ≫= hv_to_str with
  | Some v => v
  | None => default "" (authority_as_str <$> uri_authority (req_uri req))
  end.
Definition key_path (req : RequestHeader) : string :=
  default "/" (uri_path_and_query (req_uri req)).

Definition cache_key_callback : M CacheKeyParts :=
  s ← get;
  let req := ses_req_header (st_session s) in
  mret (mkCacheKeyParts (ctx_route_id (st_ctx s)) (key_host req +:+ key_path req) "").

Definition cache_hit_filter (meta : CacheMeta) : M (option ForcedFreshness) :=
  s ← get;
  match get_purge (sh_mw (st_shared s)) !! ctx_route_id (st_ctx s) with
  | Some ts => if (cm_updated meta <=? ts)%Z then mret (Some ForceMiss) else mret None
  | None => mret None
  end.

Definition response_cache_filter (h : Handler) (resp : ResponseHeader) : M RespCacheable :=
  if has_vary_star resp then mret (Uncacheable OriginNotCache)
  else
    s ← get;
    let cc := match cache_control_named "cdn-cache-control" resp with
              | Some cc => Some cc
              | None => cache_control_default resp
              end in
    let has_authorization :=
      bool_decide (is_Some (hm_get "authorization"
                              (req_headers (ses_req_header (st_session s))))) in
    match resp_cacheable cc resp has_authorization CACHE_DECISION_DEFAULTS
            (env_now (sh_env (st_shared s))) with
    | Cacheable meta =>
        match system_time_add_secs (cm_created meta) (max_ttl_secs h) with
        | Some capped_until =>
            mret (Cacheable (CacheMeta_new (Z.min (cm_fresh_until meta) capped_until)
                               (cm_created meta) (cm_stale_while_revalidate_sec meta)
                               (cm_stale_if_error_sec meta) (cm_response_header meta)))
        | None => fail (panic_error "overflow when adding duration to instant")
        end
    | Uncacheable reason => mret (Uncacheable reason)
    end.

Definition vary_names (meta : CacheMeta) : list string :=
  (λ v, to_lowercase (trim v)) <$>
    (omap hv_to_str (hm_get_all "vary" (resp_headers (cm_response_header meta)))
       ≫= str_split ",").

Definition cache_vary_filter (meta : CacheMeta) (req : RequestHeader) : option string :=
  match vary_names meta with
  | [] => None
  | names =>
      variance_finalize
        (foldl (λ key n, variance_add n (default "" (hm_get n (req_headers req))) key)
           variance_new names)
  end.

(** ** The middleware *)

(** [Arc<dyn ProxyCacheHandler>]: the handler as the context holds it. *)
Context (as_dyn : Handler → CacheHandler).

Record CacheMiddleware := mkCacheMiddleware {
  handler : Handler;
  cel_program : option Program;
}.

Definition from_config (c : CacheConfig) : result CacheMiddleware string :=
  validate c ;?
  let? cel_program := transpose (compile_named "cache rule") (cfg_rule c) in
  Ok (mkCacheMiddleware
        (mkHandler (Z.of_N (default 3600%N (cfg_max_ttl_secs c))) (cfg_max_file_size_bytes c)
           (default true (cfg_inject_cache_headers c))) cel_program).

Definition early_request_filter (m : CacheMiddleware) : M unit :=
  when_applies (cel_program m) tt
    (s ← get;
     match ctx_cache_handler (st_ctx s) with
     | Some _ => fail (error_explain InternalError "multiple cache middlewares are not allowed")
     | None => modify_ctx (set_cache_handler (Some (as_dyn (handler m))))
     end).

Definition hooks (m : CacheMiddleware) : Hooks := with_early (early_request_filter m) default_hooks.

Lemma cache_framed m : hooks_framed (hooks m).
Proof.
  hooks_frame. unfold early_request_filter. apply framed_when_applies. solve_framed.
Qed.

(** ** What a purge does *)

(** The time of the last purge of a route stays. *)
Lemma run_purges_lookup id ps m :
  id ≠ "" →
  run_purges ps m !! id =
    match last (snd <$> filter (λ p, p.1 = id) ps) with Some t => Some t | None => m !! id end.
Proof.
  intros Hid. induction ps as [|[i t] ps IH] using rev_ind; [done|].
  unfold run_purges in *. rewrite foldl_app, filter_app, fmap_app. simpl.
  unfold purge_route_namespace at 1. rewrite filter_cons. simpl.
  destruct (decide (i = id)) as [->|Hne]; simpl.
  - rewrite last_snoc. destruct id; [done|]. simpl. by rewrite lookup_insert_eq.
  - rewrite app_nil_r, <-IH. destruct i; [done|]. simpl. by rewrite lookup_insert_ne.
Qed.

(** In order, the last is the latest. *)
Lemma last_latest (l : list Z) u :
  StronglySorted Z.le l →
  (∃ t, last l = Some t ∧ (u ≤ t)%Z) ↔ (∃ t, t ∈ l ∧ (u ≤ t)%Z).
Proof.
  induction l as [|x l IH] using rev_ind; intros Hs; [set_solver|].
  rewrite last_snoc. split.
  - intros (t & [= <-] & ?). exists x. set_solver.
  - intros (t & [Ht|Ht]%elem_of_app & ?); exists x; (split; [done|]);
      [|apply list_elem_of_singleton in Ht; lia].
    apply StronglySorted_app in Hs as (Hx & _ & _).
    specialize (Hx t x Ht (list_elem_of_here _ _)). lia.
Qed.

(** C19: Over any history of purges, whether an entry of the cache is forced
    to miss is decided by the last purge of its own route alone: it is, if and
    only if that purge was recorded with the time the entry was last updated
    or a later one. So, when the clock did not run backwards between the
    purges, it is if and only if its route was purged at that time or later;
    and purges of other routes never matter. (The route has an id that is not
    empty.) *)
Theorem purge_exact ps meta s :
  ctx_route_id (st_ctx s) ≠ "" → get_purge (sh_mw (st_shared s)) = run_purges ps ∅ →
  let own := snd <$> filter (λ p, p.1 = ctx_route_id (st_ctx s)) ps in
  (cache_hit_filter meta s).2 = s ∧
  ((cache_hit_filter meta s).1 = Ok (Some ForceMiss) ∨ (cache_hit_filter meta s).1 = Ok None) ∧
  ((cache_hit_filter meta s).1 = Ok (Some ForceMiss) ↔
     ∃ t, last own = Some t ∧ (cm_updated meta ≤ t)%Z) ∧
  (StronglySorted Z.le own →
   (cache_hit_filter meta s).1 = Ok (Some ForceMiss) ↔
     ∃ t, (ctx_route_id (st_ctx s), t) ∈ ps ∧ (cm_updated meta ≤ t)%Z).
Proof.
  intros Hid Hp own.
  assert (((cache_hit_filter meta s).1 = Ok (Some ForceMiss) ↔
     ∃ t, last own = Some t ∧ (cm_updated meta ≤ t)%Z) ∧ (cache_hit_filter meta s).2 = s ∧
    ((cache_hit_filter meta s).1 = Ok (Some ForceMiss) ∨ (cache_hit_filter meta s).1 = Ok None))
    as (Hl & H2' & H3').
  { unfold cache_hit_filter, mbind, M_bind, get.
    rewrite Hp, run_purges_lookup, lookup_empty by done. fold own.
    destruct (last own) as [t|]; [|split_and!; [|done|by right]].
    - destruct (Z.leb_spec (cm_updated meta) t); cbn; (split_and!; [|done|by auto]).
      + split; [|done]. intros _. by exists t.
      + split; [done|]. intros (x & [= ->] & ?). lia.
    - cbn. split; [done|]. by intros (? & ? & _). }
  split_and!; [done..|]. intros Hs. rewrite Hl, last_latest by done.
  split; intros (t & Ht & ?); exists t; (split; [|done]).
  - apply list_elem_of_fmap in Ht as ([i x] & -> & [Hi Hin]%list_elem_of_filter).
    simpl in Hi. by subst i.
  - apply list_elem_of_fmap. exists (ctx_route_id (st_ctx s), t). split; [done|].
    by apply list_elem_of_filter.
Qed.

(** A clock that ran backwards: the second purge takes back the first, and an
    entry that the first had made stale is served again. *)
Lemma purge_taken_back meta s id :
  id ≠ "" → ctx_route_id (st_ctx s) = id → cm_updated meta = 150%Z →
  get_purge (sh_mw (st_shared s)) = run_purges [(id, 200%Z); (id, 100%Z)] ∅ →
  (cache_hit_filter meta s).1 = Ok None.
Proof.
  intros Hid Hs Hm Hp. unfold cache_hit_filter, mbind, M_bind, get.
  rewrite Hp, run_purges_lookup, Hs by (by rewrite Hs).
  rewrite !filter_cons_True by done. cbn. by rewrite Hm.
Qed.

(** ** What is stored, and for how long *)

(** C27: A response is stored only when no [Vary] header of it has a part that
    is [*] and the framework finds it cacheable: by its [CDN-Cache-Control]
    when it has one and else by its [Cache-Control], knowing whether the
    request had an [Authorization] header, at the present time. It then stays
    fresh exactly as long as the framework says or the configured time to
    live, whichever is shorter, and everything else of its metadata is the
    framework's. *)
Theorem cache_ttl_capped h resp s meta s' :
  response_cache_filter h resp s = (Ok (Cacheable meta), s') →
  s' = s ∧
  (∀ v raw part, v ∈ hm_get_all "vary" (resp_headers resp) → hv_to_str v = Some raw →
     part ∈ str_split "," raw → trim part ≠ "*") ∧
  ∃ cc auth meta0,
    (∀ x, cache_control_named "cdn-cache-control" resp = Some x → cc = Some x) ∧
    (cache_control_named "cdn-cache-control" resp = None → cc = cache_control_default resp) ∧
    (auth = true ↔ is_Some (hm_get "authorization" (req_headers (ses_req_header (st_session s))))) ∧
    resp_cacheable cc resp auth CACHE_DECISION_DEFAULTS (env_now (sh_env (st_shared s)))
      = Cacheable meta0 ∧
    cm_fresh_until meta
      = Z.min (cm_fresh_until meta0) (cm_created meta0 + 1000 * max_ttl_secs h)%Z ∧
    cm_created meta = cm_created meta0 ∧ cm_updated meta = cm_created meta0 ∧
    cm_stale_while_revalidate_sec meta = cm_stale_while_revalidate_sec meta0 ∧
    cm_stale_if_error_sec meta = cm_stale_if_error_sec meta0 ∧
    cm_response_header meta = cm_response_header meta0.
Proof.
  unfold response_cache_filter, mbind, M_bind, get. intros Hr.
  destruct (has_vary_star resp) eqn:Ev; [done|].
  match type of Hr with context [resp_cacheable ?cc _ ?a _ _] => set (x := cc) in *; set (y := a) in * end.
  destruct (resp_cacheable x resp y _ _) as [meta0|] eqn:Ec; [|done].
  unfold system_time_add_secs in Hr. destruct (_ <? _)%Z; [|done]. injection Hr as <- <-.
  split_and!; [done| |].
  2:{ exists x, y, meta0. subst x y. split_and!; try done.
      - by intros c ->.
      - by intros ->.
      - apply bool_decide_eq_true. }
  intros v raw part Hv Hraw Hpart Hstar. apply not_true_iff_false in Ev. apply Ev.
  apply existsb_exists. exists v. split; [by apply list_elem_of_In|]. rewrite Hraw.
  apply existsb_exists. exists part. split; [by apply list_elem_of_In|].
  unfold is_star. by rewrite Hstar.
Qed.

(** The cap does not overflow the clock for any time to live that a JavaScript
    number holds exactly. *)
Lemma cap_no_overflow created ttl :
  (0 ≤ created < 1000 * 2 ^ 62)%Z → (0 ≤ ttl ≤ 2 ^ 53)%Z →
  system_time_add_secs created ttl = Some (created + 1000 * ttl)%Z.
Proof. intros. unfold system_time_add_secs. rewrite (proj2 (Z.ltb_lt _ _)); [done|lia]. Qed.

(** ** Keys *)


(** With a slash in the host, which a client may send, the parts collide: host
    [h/d] with path [p] gives the key of host [h] with path [/dp]. *)
Lemma cache_key_host_slash s1 s2 h d p :
  ctx_route_id (st_ctx s1) = ctx_route_id (st_ctx s2) →
  key_host (ses_req_header (st_session s1)) = h +:+ "/" +:+ d →
  key_path (ses_req_header (st_session s1)) = p →
  key_host (ses_req_header (st_session s2)) = h →
  key_path (ses_req_header (st_session s2)) = "/" +:+ d +:+ p →
  (cache_key_callback s1).1 = (cache_key_callback s2).1.
Proof.
  intros Hr Hh1 Hp1 Hh2 Hp2. unfold cache_key_callback, mbind, M_bind, get. cbn.
  by rewrite Hr, Hh1, Hp1, Hh2, Hp2, !append_assoc_str.
Qed.

(** Under [strict_rewrite_header] the upstream is asked for the host of the
    SNI, but the key names the host of the request: two requests that differ
    in their SNI only are forwarded to different hosts and share one entry. *)
Theorem cache_key_ignores_sni `{!HttpLaws, PeerLib, FmtLib, !Ctx.Middleware}
    px s1 s2 req req1 req2 s1' s2' n1 n2 :
  px_sni_host_policy px = StrictRewriteHeader →
  ctx_route_id (st_ctx s1) = ctx_route_id (st_ctx s2) →
  ses_req_header (st_session s1) = ses_req_header (st_session s2) →
  is_Some (ctx_current_route (st_ctx s1)) → is_Some (ctx_current_route (st_ctx s2)) →
  upstream_request_filter px req s1 = (Ok req1, s1') →
  upstream_request_filter px req s2 = (Ok req2, s2') →
  sni (cel_http_session (cel_context s1')) = Some n1 → hv_from_str n1 = Ok n1 →
  sni (cel_http_session (cel_context s2')) = Some n2 → hv_from_str n2 = Ok n2 →
  (cache_key_callback s1).1 = (cache_key_callback s2).1 ∧
  hm_get_all "host" (req_headers req1) = [n1] ∧ hm_get_all "host" (req_headers req2) = [n2].
Proof.
  intros Hpx Hid Hreq Hr1 Hr2 Hf1 Hf2 Hs1 Hv1 Hs2 Hv2.
  destruct (upstream_request_forced _ _ _ _ _ _ Hpx Hr1 Hf1 Hs1) as [q1 ->].
  destruct (upstream_request_forced _ _ _ _ _ _ Hpx Hr2 Hf2 Hs2) as [q2 ->].
  split_and!; [|by apply force_authority_host..].
  unfold cache_key_callback, mbind, M_bind, get. cbn. by rewrite Hid, Hreq.
Qed.
End Handler.
End CacheMw.

(** ** Witnesses *)

Module RefPurge.
#[export] Instance types : MwTypes :=
  {| MW := unit; CacheHandler := CacheMw.Handler; MwState := gmap string Z |}.
#[export] Program Instance state : PurgeState :=
  {| get_purge := λ s : gmap string Z, s; put_purge := λ p _, p |}.
Next Obligation. done. Qed.
End RefPurge.

Section CacheWitnesses.
Import Demo RefLb RefPeer RefFmt RefCache RefPurge.
#[local] Existing Instance RefPurge.types | 0.
#[local] Instance mw : Ctx.Middleware := {|
  mw_early_request_filter _ := mret tt;
  mw_request_filter _ := mret false;
  mw_proxy_upstream_filter _ := mret true;
  mw_upstream_request_filter _ h := mret h;
  mw_connected_to_upstream _ _ _ := mret tt;
  mw_fail_to_connect _ _ e := mret e;
  mw_upstream_response_filter _ h := mret h;
  mw_response_filter _ h := mret h;
  mw_error_while_proxy _ _ e _ := mret e;
  mw_fail_to_proxy _ _ := mret None;
  mw_logging _ _ := mret tt;
|}.

Definition cached_route : Route :=
  mkRoute "r1" 0 (mkMatcher "" (OtherExpr "") None) []
    (mkUpstreamPool [] None LoadBalancerConfig_default None).
Definition cache_state (name : string) (purges : gmap string Z) : St :=
  mkSt (set_route cached_route (ProxyCtx_new StrictRewriteHeader))
    (new_session (mkSessionView (sv_req_header (view "b.com" "/x")) None
                    (Some (Some (mkDownstreamTlsInfo (Some name))))) None [])
    (mkShared' [] [] VjsRegistry.World_new [] purges env).

Definition demo_purges : list (string * Z) := [("r1", 100); ("r2", 150); ("r1", 200)]%Z.
Definition demo_meta (updated : Z) : CacheMeta :=
  CacheMeta_new 5000 updated 0 0 (mkResponseHeader 200 hm_empty).

Lemma purge_exact_witness :
  (CacheMw.cache_hit_filter (demo_meta 180) (cache_state "b.com" (CacheMw.run_purges demo_purges ∅))).1
    = Ok (Some ForceMiss) ∧
  (CacheMw.cache_hit_filter (demo_meta 201) (cache_state "b.com" (CacheMw.run_purges demo_purges ∅))).1
    ≠ Ok (Some ForceMiss).
Proof.
  pose (s := cache_state "b.com" (CacheMw.run_purges demo_purges ∅)).
  destruct (CacheMw.purge_exact demo_purges (demo_meta 180) s ltac:(discriminate) eq_refl)
    as (_ & _ & H180 & _).
  destruct (CacheMw.purge_exact demo_purges (demo_meta 201) s ltac:(discriminate) eq_refl)
    as (_ & _ & H201 & _).
  split.
  - apply H180. exists 200%Z. split; [reflexivity|vm_compute; congruence].
  - intros Hm. apply H201 in Hm as (t & Hin & Ht). injection Hin as <-. cbn in Ht. lia.
Defined.

Definition demo_handler : CacheMw.Handler := CacheMw.mkHandler 60 None true.
Definition demo_cacheable (vary : string) : ResponseHeader :=
  mkResponseHeader 200 (hm_insert "Vary" vary (hm_insert "Cache-Control" "300" hm_empty)).

Definition demo_stored : CacheMeta := CacheMeta_new 61000 1000 0 0 (demo_cacheable "Accept").

Example demo_stored_runs :
  CacheMw.response_cache_filter demo_handler (demo_cacheable "Accept") (cache_state "b.com" ∅)
  = (Ok (Cacheable demo_stored), cache_state "b.com" ∅).
Proof. reflexivity. Qed.

Lemma cache_ttl_capped_witness :
  ∃ meta0, cm_fresh_until demo_stored = Z.min (cm_fresh_until meta0) (cm_created meta0 + 60000) ∧
    cm_updated demo_stored = cm_created meta0.
Proof.
  destruct (CacheMw.cache_ttl_capped _ _ _ _ _ demo_stored_runs)
    as (_ & _ & cc & auth & m0 & _ & _ & _ & _ & Hf & _ & Hu & _).
  exists m0. split; [exact Hf|exact Hu].
Defined.

(** A response that varies on everything is not stored. *)
Example vary_star_uncached :
  (CacheMw.response_cache_filter demo_handler (demo_cacheable "Accept, *")
     (cache_state "b.com" ∅)).1 = Ok (Uncacheable OriginNotCache).
Proof. reflexivity. Qed.


Definition demo_rewrite : LonesomeProxy := mkLonesomeProxy [] StrictRewriteHeader None None.
Definition demo_forward (name : string) : result RequestHeader Error * St :=
  upstream_request_filter demo_rewrite (sv_req_header (view "b.com" "/x")) (cache_state name ∅).

Lemma cache_key_ignores_sni_witness :
  (CacheMw.cache_key_callback (cache_state "a.com" ∅)).1
    = (CacheMw.cache_key_callback (cache_state "b.com" ∅)).1 ∧
  hm_get_all "host" (req_headers (force_authority "a.com" (sv_req_header (view "b.com" "/x"))))
    = ["a.com"] ∧
  hm_get_all "host" (req_headers (force_authority "b.com" (sv_req_header (view "b.com" "/x"))))
    = ["b.com"].
Proof.
  apply (CacheMw.cache_key_ignores_sni demo_rewrite (cache_state "a.com" ∅)
           (cache_state "b.com" ∅) (sv_req_header (view "b.com" "/x"))
           (force_authority "a.com" (sv_req_header (view "b.com" "/x")))
           (force_authority "b.com" (sv_req_header (view "b.com" "/x")))
           (demo_forward "a.com").2 (demo_forward "b.com").2);
    solve [reflexivity|by eexists].
Defined.
End CacheWitnesses.
