(* ===== verification/MwGuards.v ===== *)
(** * Middlewares that guard a route

    [src/middlewares/health_check], [rate_limit] and [basic_auth]: passive
    health with bounded retries, a limiter shared by the process, and HTTP basic
    authentication. *)

From S2P Require Import Prelude Text Http Config Cel CelSession CelRegex CelFunctions.
From S2P Require Import CelEngine CheapExpr Precheck Matcher RouteTable.
From S2P Require Import VjsSocket VjsRegistry LoadBalancer Pingora ErrorPages Ctx.
From S2P Require Import Upstream Response Frame Middleware.
From stdpp Require Import base tactics strings list gmap.
From Stdlib Require Import ZArith Lia SpecFloat Ascii.

(** ** Health check *)

Module HealthCheck.
Section HealthCheck.
Context `{HttpLib, RegexLib, RuleLib, !CelLib, TlsLib, LbLib, MwTypes}.

Record HealthCheckConfig := mkHealthCheckConfig {
  cfg_retries : option Z;
  cfg_failure_window_ms : option Z;
  cfg_max_attempts : option Z;
  cfg_include_http_errors : option bool;
}.

Definition validate (c : HealthCheckConfig) : result unit string :=
  guard_err (default 0 (cfg_retries c) <? 0)%Z
    "middleware health_check.retries must be >= 0" ;?
  guard_err (default 10000 (cfg_failure_window_ms c) <=? 0)%Z
    "middleware health_check.failure_window_ms must be > 0" ;?
  guard_err (default 1 (cfg_max_attempts c) <? 0)%Z
    "middleware health_check.max_attempts must be >= 0".

Record HealthCheckMiddleware := mkHealthCheck {
  retries : Z;
  failure_window_ms : Z;
  max_attempts : Z;
  include_http_errors : bool;
}.

Definition from_config (c : HealthCheckConfig) : result HealthCheckMiddleware string :=
  validate c ;?
  Ok (mkHealthCheck (default 0 (cfg_retries c))%Z
        (default 10000 (cfg_failure_window_ms c))%Z (default 1 (cfg_max_attempts c))%Z
        (default false (cfg_include_http_errors c))).

(** [mark_success] and [mark_failure]: the outcome is recorded on the backend
    chosen for the request. *)
Definition mark (success : bool) (m : HealthCheckMiddleware) : M unit := λ s,
  match ctx_upstream_state (st_ctx s) ≫= us_last_backend with
  | None => (Ok tt, s)
  | Some b =>
      let sh := st_shared s in
      (Ok tt, mkSt (st_ctx s) (st_session s)
         (set_health (observe_backend_health b success (env_now (sh_env sh))
                        (failure_window_ms m) (max_attempts m) (sh_health sh)) sh))
  end.
Definition mark_success := mark true.
Definition mark_failure := mark false.

Definition early_request_filter : M unit :=
  s ← get;
  match ctx_upstream_state (st_ctx s) with
  | Some _ => fail (error_explain InternalError "multiple health checks are not allowed")
  | None => modify_ctx (set_upstream_state (Some (mkUpstreamState 0 None None)))
  end.

Definition connected_to_upstream (m : HealthCheckMiddleware) : M unit := mark_success m.

(** The retry counter is an [i32]. *)
Definition fail_to_connect (m : HealthCheckMiddleware) (error : Error) : M Error :=
  _ ← mark_failure m;
  s ← get;
  match ctx_upstream_state (st_ctx s) with
  | Some st =>
      if (us_retries st <? retries m)%Z then
        _ ← modify_ctx (set_upstream_state
               (Some (mkUpstreamState (wrap_i32 (us_retries st + 1))
                        (us_last_endpoint_index st) (us_last_backend st))));
        mret (set_retry true error)
      else mret error
  | None => mret error
  end.

(** [StatusCode::is_server_error]. *)
Definition is_server_error (status : Z) : bool := ((500 <=? status) && (status <? 600))%Z.

Definition upstream_response_filter (m : HealthCheckMiddleware) (resp : ResponseHeader)
    : M ResponseHeader :=
  _ ← (if include_http_errors m && is_server_error (resp_status resp) then mark_failure m
       else mret tt);
  mret resp.

Definition hooks (m : HealthCheckMiddleware) : Hooks :=
  with_early early_request_filter
    (with_connected (λ _ _, connected_to_upstream m)
       (with_fail_to_connect (λ _ e, fail_to_connect m e)
          (with_upstream_response (upstream_response_filter m) default_hooks))).

Lemma framed_mark success m : framed (mark success m).
Proof.
  intros s. unfold mark. case_match; [|by apply keeps_frame_ctx].
  apply keeps_frame_ctx; [done..|]. split; [done..| |done]. simpl.
  unfold observe_backend_health. case_match; [apply length_alter|done].
Qed.

Lemma health_check_framed m : hooks_framed (hooks m).
Proof.
  pose proof framed_mark. hooks_frame;
    unfold early_request_filter, connected_to_upstream, fail_to_connect,
      upstream_response_filter, mark_success, mark_failure; solve_framed.
Qed.

(** *** Retries *)

(** Attempts to connect: the pool records its choice, then connecting fails. *)
Fixpoint run_attempts (m : HealthCheckMiddleware) (l : list (Backend * Error)) : M (list Error) :=
  match l with
  | [] => mret []
  | (b, e) :: l' =>
      _ ← modify_ctx (record_choice b);
      e ← fail_to_connect m e;
      es ← run_attempts m l';
      mret (e :: es)
  end.

(** The health states after the failures of a list of backends. *)
Definition failures (m : HealthCheckMiddleware) (now : Z) (heap : HealthHeap)
    (l : list (Backend * Error)) : HealthHeap :=
  foldl (λ h x, observe_backend_health x.1 false now (failure_window_ms m)
                  (max_attempts m) h) heap l.

Lemma attempt_step m b e s st :
  in_i32 (retries m) → ctx_upstream_state (st_ctx s) = Some st → (0 ≤ us_retries st)%Z →
  ∃ s1 s2 st2, modify_ctx (record_choice b) s = (Ok tt, s1) ∧
    fail_to_connect m e s1 =
      (Ok (if (us_retries st <? retries m)%Z then set_retry true e else e), s2) ∧
    ctx_upstream_state (st_ctx s2) = Some st2 ∧
    us_retries st2 =
      (if us_retries st <? retries m then us_retries st + 1 else us_retries st)%Z ∧
    sh_env (st_shared s2) = sh_env (st_shared s) ∧
    sh_health (st_shared s2) = observe_backend_health b false (env_now (sh_env (st_shared s)))
      (failure_window_ms m) (max_attempts m) (sh_health (st_shared s)).
Proof.
  intros Hr Hs Hpos. unfold fail_to_connect, mark_failure, mark, mbind, M_bind, get.
  destruct (Z.ltb_spec (us_retries st) (retries m)) as [Hlt|Hge];
    eexists _, _, _; (split; [reflexivity|]); unfold record_choice; cbn [st_ctx];
    rewrite Hs; cbn.
  - rewrite (proj2 (Z.ltb_lt _ _) Hlt). split_and!; try reflexivity. cbn.
    apply wrap_signed_id; unfold in_i32 in Hr; lia.
  - rewrite (proj2 (Z.ltb_ge _ _) Hge). split_and!; reflexivity.
Qed.

Lemma run_attempts_from m l s st :
  in_i32 (retries m) → ctx_upstream_state (st_ctx s) = Some st → (0 ≤ us_retries st)%Z →
  (run_attempts m l s).1 =
    Ok (imap (λ i x, if (us_retries st + Z.of_nat i <? retries m)%Z
                     then set_retry true x.2 else x.2) l) ∧
  sh_health (st_shared (run_attempts m l s).2) =
    failures m (env_now (sh_env (st_shared s))) (sh_health (st_shared s)) l.
Proof.
  intros Hr. revert s st. induction l as [|[b e] l IH]; intros s st Hs Hpos; [done|].
  destruct (attempt_step m b e s st Hr Hs Hpos) as (s1 & s2 & st2 & E1 & E2 & E3 & E4 & E5 & E6).
  cbn [run_attempts imap]. unfold mbind, M_bind. rewrite E1, E2.
  destruct (IH s2 st2 E3) as [Hes Hh]; [rewrite E4; case_match; lia|].
  destruct (run_attempts m l s2) as [[es|] s3]; cbn in *; [|done].
  injection Hes as ->. rewrite Hh, E5, E6, Z.add_0_r. split; [|done]. do 2 f_equal.
  apply imap_ext. intros i x _. cbn. rewrite E4.
  destruct (Z.ltb_spec (us_retries st) (retries m));
    repeat match goal with |- context [Z.ltb ?a ?c] => destruct (Z.ltb_spec a c) end;
    solve [done|lia].
Qed.

(** C26: With the health check on, a failed connection is retried until the
    configured number of retries is used up, and not once more: the first
    [retries] failures of a request are marked for retry and later ones keep
    their own mark. Every failure is recorded on the backend that was chosen
    for the attempt, and on no other. *)
Theorem health_check_retries c m l s s0 :
  from_config c = Ok m → in_i32 (default 0 (cfg_retries c))%Z →
  early_request_filter s0 = (Ok tt, s) →
  (run_attempts m l s).1 =
    Ok (imap (λ i x, if (Z.of_nat i <? default 0 (cfg_retries c))%Z
                     then set_retry true x.2 else x.2) l) ∧
  sh_health (st_shared (run_attempts m l s).2) =
    failures m (env_now (sh_env (st_shared s))) (sh_health (st_shared s)) l.
Proof.
  intros Hc Hr He. unfold from_config in Hc. destruct (validate c); [|done].
  assert (default 0%Z (cfg_retries c) = retries m) as Em by (by injection Hc as <-).
  rewrite Em in *. unfold early_request_filter, mbind, M_bind, get in He.
  destruct (ctx_upstream_state (st_ctx s0)); [done|].
  apply (run_attempts_from m l s (mkUpstreamState 0 None None) Hr); [|done].
  by injection He as <-.
Qed.
End HealthCheck.
End HealthCheck.

(** ** Rate limit *)

(** [pingora_limits::rate::Rate]: [rate_observe key events now] counts events and
    returns the count of the key in the current interval. *)
Class RateLib := {
  Rate : Type;
  rate_observe : string → Z → Z → Rate → Z * Rate;
}.

(** What the estimator documents: within an interval the returned count is at
    least the number of events observed for the key (hash collisions can only
    add to it), counts of other keys do not go down, and observing does not end
    the interval. *)
Class RateLaws `{RateLib} := {
  rate_hits : string → Rate → Z;
  rate_expired : Z → Rate → bool;
  rate_hits_nonneg k r : (0 ≤ rate_hits k r)%Z;
  rate_observe_count k n now r :
    (0 < n)%Z → rate_expired now r = false →
    (rate_hits k r + n ≤ rate_hits k (rate_observe k n now r).2)%Z ∧
    (rate_hits k (rate_observe k n now r).2 ≤ (rate_observe k n now r).1)%Z;
  rate_observe_other k k' n now r :
    (0 < n)%Z → rate_expired now r = false →
    (rate_hits k r ≤ rate_hits k (rate_observe k' n now r).2)%Z;
  rate_observe_interval k n now now' r :
    rate_expired now r = false → rate_expired now' (rate_observe k n now r).2 = rate_expired now' r;
}.

(** The limiter is one static of the process: a part of the middlewares' state. *)
Class RateState `{MwTypes, RateLib} := {
  get_rate : MwState → Rate;
  put_rate : Rate → MwState → MwState;
  get_put_rate r s : get_rate (put_rate r s) = r;
}.

(** *** [f64] *)

(** An IEEE double, as the Standard Library's specification has it. *)
Abbreviation f64 := spec_float.
Definition f64_mul : f64 → f64 → f64 := SFmul 53 1024.
Definition f64_of_Z (z : Z) : f64 := binary_normalize 53 1024 z 0 false.
(** [x.round() as isize]: half away from zero, then a saturating cast. *)
Definition f64_round_as_isize (x : f64) : Z :=
  match x with
  | S754_nan | S754_zero _ => 0
  | S754_infinity s => if s then - 2 ^ 63 else 2 ^ 63 - 1
  | S754_finite s m e =>
      let n := if 0 <=? e then Zpos m * 2 ^ e else (Zpos m + 2 ^ (- e - 1)) / 2 ^ (- e) in
      Z.max (- 2 ^ 63) (Z.min (2 ^ 63 - 1) (if s then - n else n))
  end%Z.
(** [x <= 0.0]. *)
Definition f64_le_zero (x : f64) : bool := SFleb x (S754_zero false).

Lemma f64_mul_positive x y :
  f64_le_zero x = false → f64_le_zero y = false →
  (0 ≤ f64_round_as_isize (f64_mul x y))%Z.
Proof.
  assert (∀ sx mx ex lx, sx = false →
    (0 ≤ f64_round_as_isize (binary_round_aux 53 1024 sx mx ex lx))%Z) as Haux.
  { intros sx mx ex lx ->. unfold binary_round_aux.
    destruct (shr_fexp 53 1024 mx ex lx) as [mrs e'].
    destruct (shr_fexp 53 1024 _ e' loc_Exact) as [mrs'' e''].
    destruct (shr_m mrs'') as [|p|p]; cbn; try lia.
    destruct (e'' <=? _)%Z; cbn; [|lia].
    assert (0 ≤ (if 0 <=? e'' then Z.pos p * 2 ^ e''
                 else (Z.pos p + 2 ^ (- e'' - 1)) / 2 ^ (- e'')))%Z.
    { destruct (Z.leb_spec 0 e''); [apply Z.mul_nonneg_nonneg; [lia|apply Z.pow_nonneg; lia]|].
      apply Z.div_pos; [|apply Z.pow_pos_nonneg; lia].
      pose proof (Z.pow_nonneg 2 (- e'' - 1)). lia. }
    lia. }
  destruct x as [[]|[]| |[] mx ex], y as [[]|[]| |[] my ey];
    unfold f64_le_zero; try discriminate; intros _ _; try (cbn; lia);
    apply Haux; reflexivity.
Qed.

Module RateLimit.
Section RateLimit.
Context `{HttpLib, RegexLib, RuleLib, !CelLib, TlsLib, LbLib, MwTypes, FmtLib, !ProxyFmt,
          !RateLib, !RateState}.

Definition OBSERVE_SECONDS : Z := 10.

Inductive LimitModeConfig :=
| CfgRemoteIp
| CfgHeader (header_name : string)
| CfgExpression (key : string).

Record RateLimitConfig := mkRateLimitConfig {
  cfg_mode : LimitModeConfig;
  cfg_max_rps : f64;
  cfg_status : option Z;
  cfg_include_headers : option bool;
  cfg_rule : option string;
}.

Definition validate_mode (m : LimitModeConfig) : result unit string :=
  match m with
  | CfgRemoteIp => Ok tt
  | CfgHeader n => guard_err (is_empty (trim n))
                     "middleware rate_limit.header_name cannot be empty"
  | CfgExpression k => guard_err (is_empty (trim k))
                         "middleware rate_limit.key cannot be empty"
  end.

Definition validate (c : RateLimitConfig) : result unit string :=
  validate_mode (cfg_mode c) ;?
  guard_err (f64_le_zero (cfg_max_rps c)) "middleware rate_limit.max_rps must be > 0" ;?
  match cfg_status c with
  | Some status => guard_err (negb ((100 <=? status) && (status <=? 999)))%Z
                     "middleware rate_limit.status must be within [100, 999]"
  | None => Ok tt
  end.

Inductive LimitMode :=
| RemoteIp
| Header (header_name : string)
| Expression (key_program : Program).

Record RateLimitMiddleware := mkRateLimit {
  mode : LimitMode;
  max_requests_per_observe : Z;
  status : Z;
  include_headers : bool;
  cel_program : option Program;
}.

Definition from_config (c : RateLimitConfig) : result RateLimitMiddleware string :=
  validate c ;?
  let? mode := match cfg_mode c with
               | CfgRemoteIp => Ok RemoteIp
               | CfgHeader n => Ok (Header n)
               | CfgExpression key =>
                   let? p := compile_named "rate_limit.key" key in Ok (Expression p)
               end in
  let? cel_program := transpose (compile_named "rate_limit rule") (cfg_rule c) in
  Ok (mkRateLimit mode
        (f64_round_as_isize (f64_mul (cfg_max_rps c) (f64_of_Z OBSERVE_SECONDS)))
        (default 429 (cfg_status c))%Z (default true (cfg_include_headers c)) cel_program).

(** A non-empty text. *)
Definition non_empty (s : string) : option string := if is_empty s then None else Some s.

Definition key_of_value (v : result Value string) : option string :=
  match v with
  | Ok (VString v) => non_empty v
  | Ok (VInt v) => Some (to_string_Z v)
  | Ok (VUInt v) => Some (to_string_Z v)
  | Ok (VFloat v) => Some (float_to_string v)
  | Ok (VBool v) => Some (to_string_bool v)
  | _ => None
  end.

Definition remote_ip (ses : Session) : option string :=
  match sv_client_addr (ses_view ses) with
  | Some (Inet ip _) => non_empty ip
  | _ => None
  end.
Definition header_key (name : string) (ses : Session) : option string :=
  match header_text name (req_headers (ses_req_header ses)) with
  | Some v => non_empty (trim v)
  | None => None
  end.

Definition key_value (m : RateLimitMiddleware) : M (option string) :=
  match mode m with
  | RemoteIp => s ← get; mret (remote_ip (st_session s))
  | Header n => s ← get; mret (header_key n (st_session s))
  | Expression p => v ← execute p; mret (key_of_value v)
  end.

Definition observe (key : string) : M Z := λ s,
  let sh := st_shared s in
  let '(n, r) := rate_observe key 1 (env_now (sh_env sh)) (get_rate (sh_mw sh)) in
  (Ok n, mkSt (st_ctx s) (st_session s) (set_mw (put_rate r (sh_mw sh)) sh)).

Definition limit_headers (m : RateLimitMiddleware) : list (string * string) :=
  if include_headers m then
    [("X-RateLimit-Limit", to_string_Z (max_requests_per_observe m));
     ("X-RateLimit-Remaining", "0"); ("X-RateLimit-Reset", to_string_Z OBSERVE_SECONDS)]
  else [].

Definition refuse (m : RateLimitMiddleware) : M bool :=
  _ ← modify_session (set_keepalive None);
  _ ← map_m_err (λ e, middleware_internal_error "rate_limit write response failed"
                        (error_display e))
        (write_response (status m) (limit_headers m) None None);
  mret true.

Definition request_filter (m : RateLimitMiddleware) : M bool :=
  when_applies (cel_program m) false
    (key ← key_value m;
     match key with
     | None => mret false
     | Some key =>
         n ← observe key;
         if (n <=? max_requests_per_observe m)%Z then mret false else refuse m
     end).

Definition hooks (m : RateLimitMiddleware) : Hooks :=
  with_request_filter (request_filter m) default_hooks.

Lemma framed_observe key : framed (observe key).
Proof.
  intros s. unfold observe. destruct (rate_observe _ _ _ _).
  by apply keeps_frame_ctx.
Qed.

Lemma rate_limit_framed m : hooks_framed (hooks m).
Proof.
  hooks_frame. unfold request_filter, key_value, refuse.
  pose proof framed_observe. apply framed_when_applies. solve_framed.
Qed.

(** A validated configuration never has a negative limit. *)
Lemma limit_nonneg c m : from_config c = Ok m → (0 ≤ max_requests_per_observe m)%Z.
Proof.
  unfold from_config, validate. intros Hm. invert_ok. simplify_eq. simpl.
  by apply f64_mul_positive.
Qed.

(** *** How many requests pass *)

(** The key of a request whose evaluation context was read. *)
Definition limit_key (m : RateLimitMiddleware) (s : St) : option string :=
  match mode m with
  | RemoteIp => remote_ip (st_session s)
  | Header n => header_key n (st_session s)
  | Expression p => key_of_value (cel_execute p (sh_env (st_shared s)) (cel_context s))
  end.

Lemma key_value_read m s c :
  ctx_session_cel_context (st_ctx s) = Some c → key_value m s = (Ok (limit_key m s), s).
Proof.
  intros Hc. unfold key_value, limit_key. destruct (mode m) as [|n|p]; [done..|].
  unfold mbind, M_bind. rewrite (execute_eq _ _ _ Hc). unfold cel_context. by rewrite Hc.
Qed.

(** A request that arrives: its context, its session, and the clock and
    randomness of its step. *)
Record Arrival := mkArrival { ar_ctx : ProxyCtx; ar_session : Session; ar_env : EvalEnv }.
Definition set_env (e : EvalEnv) (s : Shared) : Shared :=
  mkShared' (sh_health s) (sh_lbs s) (sh_vjs s) (sh_pages s) (sh_mw s) e.
Definition arrive (a : Arrival) (sh : Shared) : St :=
  mkSt (ar_ctx a) (ar_session a) (set_env (ar_env a) sh).

(** The requests of one route, one after the other, and which of those with
    key [k] were let through. *)
Fixpoint passed (m : RateLimitMiddleware) (k : string) (l : list Arrival) (sh : Shared) : Z :=
  match l with
  | [] => 0
  | a :: l' =>
      let s := arrive a sh in
      let '(r, s') := request_filter m s in
      let rest := passed m k l' (st_shared s') in
      if applies (cel_program m) s && bool_decide (limit_key m s = Some k)
         && bool_decide (result_ok r = Some false)
      then 1 + rest else rest
  end%Z.

Abbreviation rate_of sh := (get_rate (sh_mw sh)).

Lemma request_filter_read m s c :
  ctx_session_cel_context (st_ctx s) = Some c →
  request_filter m s =
    if applies (cel_program m) s then
      match limit_key m s with
      | None => (Ok false, s)
      | Some key =>
          let s1 := (observe key s).2 in
          if ((rate_observe key 1 (env_now (sh_env (st_shared s))) (rate_of (st_shared s))).1
                <=? max_requests_per_observe m)%Z
          then (Ok false, s1) else refuse m s1
      end
    else (Ok false, s).
Proof.
  intros Hc. unfold request_filter. rewrite (when_applies_read _ _ _ _ _ Hc).
  destruct (applies _ s); [|done]. unfold mbind, M_bind. rewrite (key_value_read _ _ _ Hc).
  destruct (limit_key m s) as [key|]; [|done]. unfold observe.
  destruct (rate_observe _ _ _ _) as [n r]. simpl. by destruct (n <=? _)%Z.
Qed.

Lemma refuse_run m s :
  result_ok (refuse m s).1 ≠ Some false ∧ st_shared (refuse m s).2 = st_shared s.
Proof.
  unfold refuse, mbind, M_bind, modify_session, map_m_err.
  match goal with |- context [write_response ?st ?h ?b ?c ?x] =>
    pose proof (write_response_shared st h b c x) as Hs;
    destruct (write_response st h b c x) as [[u|e] s'] end; by simpl in *.
Qed.

Lemma passed_bound `{!RateLaws} m k l sh :
  Forall (λ a, is_Some (ctx_session_cel_context (ar_ctx a))) l →
  Forall (λ a, rate_expired (env_now (ar_env a)) (rate_of sh) = false) l →
  (passed m k l sh ≤ Z.max 0 (max_requests_per_observe m - rate_hits k (rate_of sh)))%Z.
Proof.
  intros Hc. revert sh. induction Hc as [|a l [c Ha] _ IH]; intros sh Hx; [simpl; lia|].
  apply Forall_cons in Hx as [Hxa Hx]. cbn [passed].
  rewrite (request_filter_read m (arrive a sh) c Ha).
  destruct (applies _ (arrive a sh)); cbn [andb]; [|by apply (IH (set_env (ar_env a) sh))].
  destruct (limit_key m (arrive a sh)) as [key|] eqn:Ek;
    [|rewrite bool_decide_eq_false_2 by done; by apply (IH (set_env (ar_env a) sh))].
  unfold observe. cbn [arrive st_shared set_env sh_mw sh_env].
  pose proof (rate_observe_interval key 1 (env_now (ar_env a))) as Hint.
  pose proof (rate_observe_other k key 1 (env_now (ar_env a)) (rate_of sh) ltac:(lia) Hxa) as Hle.
  pose proof (rate_observe_count key 1 (env_now (ar_env a)) (rate_of sh) ltac:(lia) Hxa) as Hcnt.
  specialize (λ now', Hint now' (rate_of sh) Hxa).
  destruct (rate_observe key 1 (env_now (ar_env a)) (rate_of sh)) as [n r]. cbn [fst snd] in *.
  assert (∀ sh', rate_of sh' = r →
    (passed m k l sh' ≤ Z.max 0 (max_requests_per_observe m - rate_hits k r))%Z) as Hrest.
  { intros sh' <-. apply IH. eapply Forall_impl; [exact Hx|]. intros x Hxx. simpl.
    by rewrite Hint. }
  destruct (Z.leb_spec n (max_requests_per_observe m)) as [Hn|Hn].
  - specialize (Hrest (set_mw (put_rate r (sh_mw sh)) (set_env (ar_env a) sh))
                  (get_put_rate _ _)).
    cbn [st_shared arrive]. case_bool_decide as Hk; cbn [andb bool_decide].
    + injection Hk as ->. rewrite bool_decide_eq_true_2 by done. lia.
    + lia.
  - match goal with |- context [refuse m ?x] => pose proof (refuse_run m x) as [Hr Hsh];
      destruct (refuse m x) as [res s'] end. cbn [fst snd] in *.
    rewrite (bool_decide_eq_false_2 (result_ok res = Some false)) by done.
    rewrite andb_false_r. specialize (Hrest (st_shared s')).
    rewrite Hsh in *. cbn [st_shared set_mw sh_mw] in Hrest.
    specialize (Hrest (get_put_rate _ _)). cbn [st_shared]. lia.
Qed.

(** C25: Within one observation interval at most [round(max_rps * 10)]
    requests of a key are let through by a rate limit, however many arrive and
    whatever other keys do in between; what the key had used before counts. *)
Theorem rate_limit_bound `{!RateLaws} cfg m k l sh :
  from_config cfg = Ok m →
  Forall (λ a, is_Some (ctx_session_cel_context (ar_ctx a))) l →
  Forall (λ a, rate_expired (env_now (ar_env a)) (rate_of sh) = false) l →
  (passed m k l sh ≤
     Z.max 0 (f64_round_as_isize (f64_mul (cfg_max_rps cfg) (f64_of_Z OBSERVE_SECONDS))
              - rate_hits k (rate_of sh)))%Z.
Proof.
  intros Hm Hc Hx. pose proof (passed_bound m k l sh Hc Hx) as Hp.
  unfold from_config in Hm. invert_ok. by simplify_eq.
Qed.
End RateLimit.
End RateLimit.

(** ** Basic authentication *)

(** [base64]'s standard engine, [str::from_utf8] on its bytes, and
    [password_auth::verify_password]. *)
Class AuthLib := {
  base64_decode : string → option string;
  from_utf8 : string → option string;
  password_verify : string → string → bool;
}.

Module BasicAuth.
Section BasicAuth.
Context `{HttpLib, RegexLib, RuleLib, !CelLib, TlsLib, LbLib, MwTypes, FmtLib, !ProxyFmt,
          !AuthLib}.

Record BasicUser := mkBasicUser { name : string; password_hash : string }.
Record BasicAuthConfig := mkBasicAuthConfig {
  cfg_realm : option string;
  cfg_users : list BasicUser;
  cfg_rule : option string;
}.

Definition validate_user (u : BasicUser) : result unit string :=
  guard_err (is_empty (trim (name u)))
    "middleware basic_auth.users[].name cannot be empty" ;?
  guard_err (is_empty (trim (password_hash u)))
    "middleware basic_auth.users[].password_hash cannot be empty".
Definition validate (c : BasicAuthConfig) : result unit string :=
  guard_err (bool_decide (length (cfg_users c) = 0))
    "middleware basic_auth.users cannot be empty" ;?
  try_iter validate_user (cfg_users c).

Record BasicAuthMiddleware := mkBasicAuth {
  realm : string;
  users : gmap string string;
  cel_program : option Program;
}.

(** [HashMap::insert] in order: the last entry of a name stays. *)
Definition user_map (us : list BasicUser) : gmap string string :=
  foldl (λ m u, <[name u := password_hash u]> m) ∅ us.

Definition from_config (c : BasicAuthConfig) : result BasicAuthMiddleware string :=
  validate c ;?
  let? cel_program := transpose (compile_named "basic_auth rule") (cfg_rule c) in
  Ok (mkBasicAuth (default "restricted" (cfg_realm c)) (user_map (cfg_users c)) cel_program).

(** The double quote. *)
Definition dq : string := String (ascii_of_nat 34) EmptyString.
Definition www_authenticate (m : BasicAuthMiddleware) : string :=
  "Basic realm=" +:+ dq +:+ realm m +:+ dq +:+ ", charset=" +:+ dq +:+ "UTF-8" +:+ dq.

Definition issue_challenge (m : BasicAuthMiddleware) : M bool :=
  _ ← map_m_err (λ e, middleware_internal_error "basic_auth write 401 failed"
                        (error_display e))
        (write_response 401 [("WWW-Authenticate", www_authenticate m)] None None);
  mret true.

Definition parse_basic_credentials (auth_value : string) : option (string * string) :=
  if starts_with "Basic " auth_value then
    let encoded := trim (trim_start_matches "Basic " auth_value) in
    match base64_decode encoded with
    | None => None
    | Some raw =>
        match from_utf8 raw with
        | None => None
        | Some decoded => split_once ":" decoded
        end
    end
  else None.

Definition verify_password (password hash_str : string) : bool :=
  password_verify password hash_str.

Definition authorization (ses : Session) : string :=
  default "" (trim <$> header_text "authorization" (req_headers (ses_req_header ses))).

Definition authenticate (m : BasicAuthMiddleware) : M bool :=
  s ← get;
  match parse_basic_credentials (authorization (st_session s)) with
  | None => issue_challenge m
  | Some (username, password) =>
      match users m !! username with
      | None => issue_challenge m
      | Some hash_str =>
          if verify_password password hash_str then mret false else issue_challenge m
      end
  end.

Definition request_filter (m : BasicAuthMiddleware) : M bool :=
  when_applies (cel_program m) false (authenticate m).

Definition hooks (m : BasicAuthMiddleware) : Hooks :=
  with_request_filter (request_filter m) default_hooks.

Lemma basic_auth_framed m : hooks_framed (hooks m).
Proof.
  hooks_frame. unfold request_filter, authenticate, issue_challenge.
  apply framed_when_applies. solve_framed.
Qed.

(** The hash of a user is that of the last entry with the name. *)
Lemma user_map_lookup us u h :
  user_map us !! u = Some h ↔
  ∃ us1 us2, us = us1 ++ mkBasicUser u h :: us2 ∧ Forall (λ x, name x ≠ u) us2.
Proof.
  induction us as [|x us IH] using rev_ind.
  { unfold user_map; simpl; rewrite lookup_empty; split; [done|]. intros ([|] & us2 & Hx & _); discriminate Hx. }
  unfold user_map in *. rewrite foldl_app. simpl. rewrite lookup_insert_Some, IH. split.
  - intros [[<- <-]|[Hne (us1 & us2 & -> & Hf)]].
    + exists us, []. by destruct x.
    + exists us1, (us2 ++ [x]). rewrite <-app_assoc. split; [done|].
      apply Forall_app. split; [done|by constructor].
  - intros (us1 & us2 & Hx & Hf). destruct us2 as [|y us2 _] using rev_ind.
    + apply app_inj_tail in Hx as [<- ->]. by left.
    + rewrite app_comm_cons, app_assoc in Hx. apply app_inj_tail in Hx as [-> <-].
      apply Forall_app in Hf as [Hf [Hy _]%Forall_cons_1]. right. split; [exact Hy|]. eauto.
Qed.

Lemma issue_challenge_wire `{!HttpLaws} m s s' r :
  issue_challenge m s = (Ok r, s') →
  r = true ∧ ∃ body h,
    ses_written (st_session s') = ses_written (st_session s) ++ wire (resp_status h) body h ∧
    hm_get_all "WWW-Authenticate" (resp_headers h) = [www_authenticate m] ∧
    ses_keepalive (st_session s') = None.
Proof.
  unfold issue_challenge, mbind, M_bind, map_m_err.
  destruct (write_response _ _ _ _ s) as [[[]|] s1] eqn:E; [|done]. intros [= <- <-].
  apply write_response_run in E as (st & body & h & Hw & Hst & _ & _ & Hk & _ & Hget).
  split; [done|]. exists body, h. subst st. split_and!; [done| |by apply Hk].
  apply (Hget [] _ _ []); [done|constructor|by repeat constructor].
Qed.

(** The credentials of a configured user. *)
Definition credentials (m : BasicAuthMiddleware) (ses : Session) : Prop :=
  ∃ user pass hash, parse_basic_credentials (authorization ses) = Some (user, pass) ∧
    users m !! user = Some hash ∧ verify_password pass hash = true.

Lemma issue_challenge_stops m s s' : issue_challenge m s ≠ (Ok false, s').
Proof.
  unfold issue_challenge, mbind, M_bind, map_m_err.
  by destruct (write_response _ _ _ _ s) as [[]].
Qed.

Lemma authenticate_passed m s s' :
  authenticate m s = (Ok false, s') → credentials m (st_session s) ∧ s' = s.
Proof.
  unfold authenticate, credentials, mbind, M_bind, get.
  destruct (parse_basic_credentials _) as [[user pass]|];
    [|by intros ?%issue_challenge_stops].
  destruct (users m !! user) as [hash|] eqn:Eu; [|by intros ?%issue_challenge_stops].
  destruct (verify_password pass hash) eqn:Ev; [|by intros ?%issue_challenge_stops].
  intros [= <-]. by eauto 8.
Qed.

(** C17: A request to which basic authentication applies gets past it only
    with the credentials of a configured user: its [Authorization] header
    decodes to a name and a password, the name is configured, and the password
    verifies against the hash of the last entry of that name. Every other
    request is answered with exactly one response that carries the challenge,
    on a connection that is not kept alive. *)
Theorem basic_auth_sound `{!HttpLaws} cfg m s c r s' :
  from_config cfg = Ok m → ctx_session_cel_context (st_ctx s) = Some c →
  applies (cel_program m) s = true → request_filter m s = (Ok r, s') →
  (r = false ∧ s' = s ∧
   ∃ user pass hash us1 us2,
     parse_basic_credentials (authorization (st_session s)) = Some (user, pass) ∧
     cfg_users cfg = us1 ++ mkBasicUser user hash :: us2 ∧
     Forall (λ x, name x ≠ user) us2 ∧ verify_password pass hash = true) ∨
  (r = true ∧ ∃ body h,
     ses_written (st_session s') = ses_written (st_session s) ++ wire (resp_status h) body h ∧
     hm_get_all "WWW-Authenticate" (resp_headers h) = [www_authenticate m] ∧
     ses_keepalive (st_session s') = None).
Proof.
  intros Hm Hc Ha. unfold request_filter. rewrite (when_applies_read _ _ _ _ _ Hc), Ha.
  intros Hr. destruct r.
  - right. revert Hr. unfold authenticate, mbind, M_bind, get.
    repeat case_match; try by intros [=]. all: by apply issue_challenge_wire.
  - apply authenticate_passed in Hr as [(user & pass & hash & Hp & Eu & Hv) ->].
    left. split_and!; [done..|]. unfold from_config in Hm. invert_ok. simplify_eq.
    apply user_map_lookup in Eu as (us1 & us2 & E1 & E2). by exists user, pass, hash, us1, us2.
Qed.
End BasicAuth.
End BasicAuth.

(** ** Concrete libraries and witnesses *)

(** An exact counter over aligned intervals of ten seconds. *)
Module RefRate.
Definition interval (now : Z) : Z := (now / 10000)%Z.
Definition observe (k : string) (n now : Z) (r : gmap string Z * Z)
    : Z * (gmap string Z * Z) :=
  let m := if decide (interval now = r.2) then r.1 else ∅ in
  let c := (Z.max 0 (default 0 (m !! k)) + n)%Z in
  (c, (<[k := c]> m, interval now)).

#[export] Instance types : MwTypes :=
  {| MW := unit; CacheHandler := unit; MwState := gmap string Z * Z |}.
#[export] Instance rate : RateLib := {| Rate := gmap string Z * Z; rate_observe := observe |}.
#[export] Program Instance state : RateState :=
  {| get_rate := λ s : gmap string Z * Z, s; put_rate := λ r _, r |}.
Next Obligation. done. Qed.

#[export] Program Instance laws : RateLaws := {|
  rate_hits k r := Z.max 0 (default 0 (r.1 !! k))%Z;
  rate_expired now r := negb (bool_decide (interval now = r.2));
|}.
Next Obligation. intros. simpl. lia. Qed.
Next Obligation.
  intros k n now [m i] Hn Hx%negb_false_iff%bool_decide_eq_true_1. simpl in *. unfold observe.
  simpl. rewrite decide_True by done. simpl. rewrite lookup_insert_eq. simpl.
  destruct (m !! k); simpl; lia.
Qed.
Next Obligation.
  intros k k' n now [m i] Hn Hx%negb_false_iff%bool_decide_eq_true_1. simpl in *. unfold observe.
  simpl. rewrite decide_True by done. simpl. destruct (decide (k = k')) as [->|Hne].
  - rewrite lookup_insert_eq. simpl. lia.
  - by rewrite lookup_insert_ne.
Qed.
Next Obligation.
  intros k n now now' [m i] Hx%negb_false_iff%bool_decide_eq_true_1. simpl in *. by rewrite Hx.
Qed.
End RefRate.

(** Base 64 and hashing stand-ins: the text itself. *)
Module RefAuth.
#[export] Instance lib : AuthLib :=
  {| base64_decode := λ s, if is_empty s then None else Some s; from_utf8 := Some;
     password_verify := λ p h, bool_decide (p = h) |}.
End RefAuth.

Section GuardWitnesses.
Import Demo RefLb RefPeer RefFmt RefProxyFmt RefRate RefAuth.

Definition guard_shared : Shared :=
  mkShared' [Health.default; Health.default] [] VjsRegistry.World_new [] (∅, 0%Z) env.
Definition guard_state (req : RequestHeader) : St :=
  mkSt (set_session_cel_context (Some (ctx "a.com" "/")) (ProxyCtx_new Strict))
    (new_session (mkSessionView req (Some (Inet "10.0.0.1" 4000)) None) (Some 60%Z) [])
    guard_shared.

Definition demo_backend (i : nat) : Backend :=
  mkBackend (AddrV6 [] 1 0 0) 1 (Some i) (Some i).
Definition demo_attempts : list (Backend * Error) :=
  [(demo_backend 0, error_explain ConnectError "a"); (demo_backend 1, error_explain ConnectError "b");
   (demo_backend 1, error_explain ConnectError "c")].

Lemma health_check_retries_witness :
  result_ok (HealthCheck.from_config (HealthCheck.mkHealthCheckConfig (Some 2%Z) None None None))
    = Some (HealthCheck.mkHealthCheck 2 10000 1 false) ∧
  map err_retry <$> result_ok (HealthCheck.run_attempts (HealthCheck.mkHealthCheck 2 10000 1 false)
     demo_attempts (HealthCheck.early_request_filter
                      (guard_state (sv_req_header (view "a.com" "/")))).2).1
  = Some [Decided true; Decided true; Decided false].
Proof.
  split; [reflexivity|].
  destruct (HealthCheck.health_check_retries
              (HealthCheck.mkHealthCheckConfig (Some 2%Z) None None None)
              (HealthCheck.mkHealthCheck 2 10000 1 false) demo_attempts
              (HealthCheck.early_request_filter (guard_state (sv_req_header (view "a.com" "/")))).2
              (guard_state (sv_req_header (view "a.com" "/"))) eq_refl) as [Hr _];
    [unfold in_i32; simpl; lia|reflexivity|].
  rewrite Hr. reflexivity.
Defined.

Definition demo_limit : RateLimit.RateLimitConfig :=
  RateLimit.mkRateLimitConfig RateLimit.CfgRemoteIp (S754_finite false 1 (-2)) None None None.
Definition demo_limiter : RateLimit.RateLimitMiddleware :=
  RateLimit.mkRateLimit RateLimit.RemoteIp 3 429 true None.
Definition demo_arrivals : list RateLimit.Arrival :=
  replicate 5 (RateLimit.mkArrival (st_ctx (guard_state (sv_req_header (view "a.com" "/"))))
                 (st_session (guard_state (sv_req_header (view "a.com" "/")))) env).

(** [0.25] requests a second: [2.5] in ten seconds, rounded to three. *)
Example demo_limit_built : RateLimit.from_config demo_limit = Ok demo_limiter.
Proof. vm_compute. reflexivity. Qed.
Example demo_limit_passes : RateLimit.passed demo_limiter "10.0.0.1" demo_arrivals guard_shared = 3%Z.
Proof. vm_compute. reflexivity. Qed.

Lemma rate_limit_bound_witness :
  RateLimit.from_config demo_limit = Ok demo_limiter ∧
  (RateLimit.passed demo_limiter "10.0.0.1" demo_arrivals guard_shared ≤ 3)%Z.
Proof.
  split; [vm_compute; reflexivity|].
  assert (Z.max 0 (f64_round_as_isize
             (f64_mul (RateLimit.cfg_max_rps demo_limit) (f64_of_Z RateLimit.OBSERVE_SECONDS))
            - rate_hits "10.0.0.1" (get_rate (sh_mw guard_shared))) = 3)%Z as <-
    by (vm_compute; reflexivity).
  apply (RateLimit.rate_limit_bound demo_limit demo_limiter "10.0.0.1" demo_arrivals guard_shared).
  - vm_compute. reflexivity.
  - repeat constructor; eexists; reflexivity.
  - repeat constructor; reflexivity.
Defined.

Definition demo_auth : BasicAuth.BasicAuthConfig :=
  BasicAuth.mkBasicAuthConfig None
    [BasicAuth.mkBasicUser "ann" "old"; BasicAuth.mkBasicUser "ann" "secret"] None.
Definition demo_auth_mw : BasicAuth.BasicAuthMiddleware :=
  BasicAuth.mkBasicAuth "restricted" {[ "ann" := "secret" ]} None.
Definition auth_state (credentials : string) : St :=
  guard_state (mkRequestHeader "GET" (mkUri None None (Some "/") "/" None)
                 (hm_insert "Authorization" ("Basic " +:+ credentials) hm_empty)).

Example demo_auth_runs :
  (BasicAuth.request_filter demo_auth_mw (auth_state "ann:secret")).1 = Ok false ∧
  match BasicAuth.request_filter demo_auth_mw (auth_state "ann:old") with
  | (Ok b, s') => b = true ∧ length (ses_written (st_session s')) = 1
  | _ => False
  end.
Proof. vm_compute. repeat split; reflexivity. Qed.

Lemma basic_auth_sound_witness :
  is_ok (BasicAuth.from_config demo_auth) = true ∧
  (BasicAuth.request_filter demo_auth_mw (auth_state "ann:secret")).1 = Ok false ∧
  ∃ user pass hash us1 us2,
     BasicAuth.parse_basic_credentials
       (BasicAuth.authorization (st_session (auth_state "ann:secret"))) = Some (user, pass) ∧
     BasicAuth.cfg_users demo_auth = us1 ++ BasicAuth.mkBasicUser user hash :: us2 ∧
     Forall (λ x, BasicAuth.name x ≠ user) us2 ∧ BasicAuth.verify_password pass hash = true.
Proof.
  split; [vm_compute; reflexivity|].
  pose proof (proj1 demo_auth_runs) as Hrun. split; [exact Hrun|].
  destruct (BasicAuth.request_filter demo_auth_mw (auth_state "ann:secret")) as [r s'] eqn:E.
  simpl in Hrun. subst r.
  destruct (BasicAuth.basic_auth_sound demo_auth demo_auth_mw (auth_state "ann:secret")
              (ctx "a.com" "/") false s' ltac:(vm_compute; reflexivity) eq_refl eq_refl E)
    as [(_ & _ & Hx)|[Hx _]]; [exact Hx|discriminate Hx].
Defined.
End GuardWitnesses.
