(* ===== verification/MwJwt.v ===== *)
(** * JSON web tokens

    [src/middlewares/jwt]: the token of a request is verified with the keys of a
    key set, or decrypted, and its claims become visible to rules. Cryptography,
    the JSON of key sets and the compact serialization are the [josekit] crate:
    the fields of [JoseLib]. *)

From S2P Require Import Prelude Text Http Config Cel CelSession CelRegex CelFunctions.
From S2P Require Import CelEngine CheapExpr Precheck Matcher RouteTable.
From S2P Require Import VjsSocket VjsRegistry LoadBalancer Pingora ErrorPages Ctx.
From S2P Require Import Upstream Response Frame Middleware.
From stdpp Require Import base tactics strings list gmap.
From Stdlib Require Import ZArith Lia Ascii.

(** The algorithm objects of [josekit::jws] and [josekit::jwe]. *)
Inductive JwsAlgorithm :=
| HS256 | HS384 | HS512 | RS256 | RS384 | RS512 | PS256 | PS384 | PS512
| ES256 | ES384 | ES512 | ES256K | EdDSA.
Inductive JweAlgorithm :=
| Dir | RSA_OAEP | RSA_OAEP_256 | RSA_OAEP_384 | RSA_OAEP_512
| A128KW | A192KW | A256KW | A128GCMKW | A192GCMKW | A256GCMKW
| ECDH_ES | ECDH_ES_A128KW | ECDH_ES_A192KW | ECDH_ES_A256KW.

Class JoseLib := {
  Jwk : Type;
  JwsVerifier : Type;
  JweDecrypter : Type;
  (** [JwkSet::from_bytes(..).keys()] and [Jwk::key_id]. *)
  jwk_set_from_bytes : string → result (list Jwk) string;
  jwk_key_id : Jwk → option string;
  verifier_from_jwk : JwsAlgorithm → Jwk → result JwsVerifier string;
  decrypter_from_jwk : JweAlgorithm → Jwk → result JweDecrypter string;
  (** [jwt::decode_header], by [claim]. *)
  jwt_decode_header : string → result (gmap string JsonValue) string;
  (** The payload of a token that a verifier or decrypter accepts. *)
  decode_with_verifier : string → JwsVerifier → result JwtPayload string;
  decode_with_decrypter : string → JweDecrypter → result JwtPayload string;
  (** [JwtPayload::not_before] and [expires_at], in milliseconds. *)
  payload_not_before : JwtPayload → option Z;
  payload_expires_at : JwtPayload → option Z;
}.

(** ** Keys and algorithms: [jwt/algorithms.rs] *)

Section Algorithms.
Context `{JoseLib}.

Record JwksVerifierPool := mkPool { keys : list Jwk }.

Definition from_jwks (jwks_json : string) : result JwksVerifierPool string :=
  let? ks := map_err (λ e : string, "invalid jwt.jwks: " +:+ e) (jwk_set_from_bytes jwks_json) in
  match ks with
  | [] => Err "middleware jwt.jwks cannot be empty"
  | _ => Ok (mkPool ks)
  end.

(** [create_verifier] and [create_decrypter]: the algorithms by name. *)
Definition jws_algorithm (alg : string) : option JwsAlgorithm :=
  match alg with
  | "HS256" => Some HS256
  | "HS384" => Some HS384
  | "HS512" => Some HS512
  | "RS256" => Some RS256
  | "RS384" => Some RS384
  | "RS512" => Some RS512
  | "PS256" => Some PS256
  | "PS384" => Some PS384
  | "PS512" => Some PS512
  | "ES256" => Some ES256
  | "ES384" => Some ES384
  | "ES512" => Some ES512
  | "ES256K" => Some ES256K
  | "EdDSA" => Some EdDSA
  | _ => None
  end%string.
Definition create_verifier (alg : string) (jwk : Jwk) : option JwsVerifier :=
  match jws_algorithm alg with
  | Some a => result_ok (verifier_from_jwk a jwk)
  | None => None
  end.

Definition jwe_algorithm (alg : string) : option JweAlgorithm :=
  match alg with
  | "dir" => Some Dir
  | "RSA-OAEP" => Some RSA_OAEP
  | "RSA-OAEP-256" => Some RSA_OAEP_256
  | "RSA-OAEP-384" => Some RSA_OAEP_384
  | "RSA-OAEP-512" => Some RSA_OAEP_512
  | "A128KW" => Some A128KW
  | "A192KW" => Some A192KW
  | "A256KW" => Some A256KW
  | "A128GCMKW" => Some A128GCMKW
  | "A192GCMKW" => Some A192GCMKW
  | "A256GCMKW" => Some A256GCMKW
  | "ECDH-ES" => Some ECDH_ES
  | "ECDH-ES+A128KW" => Some ECDH_ES_A128KW
  | "ECDH-ES+A192KW" => Some ECDH_ES_A192KW
  | "ECDH-ES+A256KW" => Some ECDH_ES_A256KW
  | _ => None
  end%string.
Definition create_decrypter (alg : string) (jwk : Jwk) : option JweDecrypter :=
  match jwe_algorithm alg with
  | Some a => result_ok (decrypter_from_jwk a jwk)
  | None => None
  end.

(** [candidate_keys]: a key id in the header selects its keys. *)
Definition key_matches (kid : option string) (jwk : Jwk) : Prop :=
  match kid with Some expected => jwk_key_id jwk = Some expected | None => True end.
#[global] Instance key_matches_dec kid jwk : Decision (key_matches kid jwk).
Proof. unfold key_matches. destruct kid; apply _. Defined.
Definition candidate_keys (kid : option string) (p : JwksVerifierPool)
    : result (list Jwk) string :=
  match filter (key_matches kid) (keys p), kid with
  | [], Some kid => Err ("jwt kid not found in jwks: " +:+ kid)
  | [], None => Err "no jwks key available for token"
  | ks, _ => Ok ks
  end.

Definition verifiers_for (alg : string) (kid : option string) (p : JwksVerifierPool)
    : result (list JwsVerifier) string :=
  let? candidates := candidate_keys kid p in
  match omap (create_verifier alg) candidates with
  | [] => Err ("jwt alg not supported by jwks keys: " +:+ alg)
  | vs => Ok vs
  end.

Definition decrypters_for (alg : string) (kid : option string) (p : JwksVerifierPool)
    : result (list JweDecrypter) string :=
  let? candidates := candidate_keys kid p in
  match omap (create_decrypter alg) candidates with
  | [] => Err ("jwe alg not supported by jwks keys: " +:+ alg)
  | ds => Ok ds
  end.

Definition json_as_str (v : JsonValue) : option string :=
  match v with JString s => Some s | _ => None end.

Definition read_alg_kid (token : string) : result (string * option string) string :=
  let? header := map_err (λ e : string, "jwt decode header failed: " +:+ e)
                   (jwt_decode_header token) in
  let? alg := ok_or (header !! "alg" ≫= json_as_str) "jwt header missing alg" in
  Ok (alg, header !! "kid" ≫= json_as_str).
End Algorithms.

(** ** The middleware: [jwt/mod.rs] *)

Module Jwt.
Section Jwt.
Context `{HttpLib, RegexLib, RuleLib, !CelLib, TlsLib, LbLib, MwTypes, FmtLib, !ProxyFmt,
          !JoseLib}.

Inductive JwtErrorModeConfig := Deny | Passthrough.

Record JwtConfig := mkJwtConfig {
  cfg_header_name : string;
  cfg_bearer_prefix : string;
  cfg_jwks : string;
  cfg_validate_time : bool;
  cfg_on_error : JwtErrorModeConfig;
  cfg_rule : option string;
}.

(** The defaults of a configuration that only has a key set. *)
Definition default_header_name : string := "authorization".
Definition default_bearer_prefix : string := "Bearer ".
Definition default_error_mode : JwtErrorModeConfig := Deny.

Definition validate (c : JwtConfig) : result unit string :=
  guard_err (is_empty (trim (cfg_header_name c))) "middleware jwt.header_name cannot be empty" ;?
  guard_err (is_empty (trim (cfg_jwks c))) "middleware jwt.jwks cannot be empty".

Record JwtMiddleware := mkJwt {
  header_name : string;
  bearer_prefix : string;
  on_error : JwtErrorModeConfig;
  validate_time : bool;
  jwks_pool : JwksVerifierPool;
  rule_program : option Program;
}.

Definition from_config (c : JwtConfig) : result JwtMiddleware string :=
  validate c ;?
  let? rule_program := transpose (compile_named "jwt rule") (cfg_rule c) in
  let? pool := from_jwks (cfg_jwks c) in
  Ok (mkJwt (cfg_header_name c) (cfg_bearer_prefix c) (cfg_on_error c) (cfg_validate_time c)
        pool rule_program).

Definition extract_token (m : JwtMiddleware) (ses : Session) : result string string :=
  let? header_val := ok_or (trim <$> header_text (header_name m) (req_headers (ses_req_header ses)))
                       ("missing auth header: " +:+ header_name m) in
  if is_empty (bearer_prefix m) then Ok header_val
  else
    match str_strip_prefix (bearer_prefix m) header_val with
    | None => Err ("invalid auth header prefix on " +:+ header_name m)
    | Some rest =>
        let token := trim rest in
        if is_empty token then Err "empty jwt token" else Ok token
    end.

(** The first verifier that accepts the token decides its payload. *)
Fixpoint first_ok {A B} (f : A → result B string) (l : list A) : option B :=
  match l with
  | [] => None
  | a :: l' => match f a with Ok b => Some b | Err _ => first_ok f l' end
  end.

Definition decode_jwt (m : JwtMiddleware) (token : string) : result JwtPayload string :=
  let? '(alg, kid) := read_alg_kid token in
  let? verifiers := verifiers_for alg kid (jwks_pool m) in
  ok_or (first_ok (decode_with_verifier token) verifiers) "jwt verify failed".

Definition decode_jwe (m : JwtMiddleware) (token : string) : result JwtPayload string :=
  let? '(alg, kid) := read_alg_kid token in
  let? decrypters := decrypters_for alg kid (jwks_pool m) in
  ok_or (first_ok (decode_with_decrypter token) decrypters) "jwe decrypt failed".

Definition validate_time_claims (now : Z) (payload : JwtPayload) : result unit string :=
  guard_err (match payload_not_before payload with
             | Some nbf => (now <? nbf)%Z | None => false end) "jwt nbf is in the future" ;?
  guard_err (match payload_expires_at payload with
             | Some exp => (exp <=? now)%Z | None => false end) "jwt exp is expired".

Definition verify_or_decrypt_payload (m : JwtMiddleware) (now : Z) (token : string)
    : result JwtPayload string :=
  let part_count := length (str_split "." token) in
  let? payload :=
    match part_count with
    | 3 => decode_jwt m token
    | 5 => decode_jwe m token
    | _ => Err ("invalid token format: expected 3(JWT) or 5(JWE) segments, got "
                +:+ to_string_Z (Z.of_nat part_count))
    end in
  (if validate_time m then validate_time_claims now payload else Ok tt) ;?
  Ok payload.

(** [set_cel_claims]: the session gets the payload, the context a variable. *)
Definition with_payload (p : JwtPayload) (c : SessionCelContext) : SessionCelContext :=
  mkSessionCelContext (cel_variables c) (set_jwt_payload (Some p) (cel_http_session c)).
Definition claims_json (p : JwtPayload) : JsonValue := JObject (map_to_list (jwt_claims p)).
Definition update_cel (f : SessionCelContext → SessionCelContext) : M unit :=
  _ ← ensure_session_cel_context;
  modify_ctx (λ c, set_session_cel_context (f <$> ctx_session_cel_context c) c).

Definition set_cel_claims (p : JwtPayload) : M unit :=
  _ ← update_cel (with_payload p);
  cel_payload ← lift (map_err (middleware_internal_error "jwt payload to cel value failed")
                        (json_to_value (claims_json p)));
  update_cel (add_variable "jwt_payload" cel_payload).

Definition deny_unauthorized : M bool :=
  _ ← map_m_err (λ e, middleware_internal_error "jwt write 401 failed" (error_display e))
        (write_response 401 [] None None);
  mret true.

(** The closure of [request_filter]; its failure is a text. *)
Definition authenticate (m : JwtMiddleware) : M (result unit string) := λ s,
  match (let? token := extract_token m (st_session s) in
         verify_or_decrypt_payload m (env_now (sh_env (st_shared s))) token) with
  | Err e => (Ok (Err e), s)
  | Ok payload =>
      let '(r, s') := set_cel_claims payload s in (Ok (map_err error_display r), s')
  end.

Definition request_filter (m : JwtMiddleware) : M bool :=
  when_applies (rule_program m) false
    (r ← authenticate m;
     match r with
     | Ok _ => mret false
     | Err _ => match on_error m with
                | Passthrough => mret false
                | Deny => deny_unauthorized
                end
     end).

Definition hooks (m : JwtMiddleware) : Hooks :=
  with_request_filter (request_filter m) default_hooks.

Lemma framed_update_cel f :
  (∀ c, same_request (cel_http_session c) (cel_http_session (f c))) → framed (update_cel f).
Proof.
  intros Hf. unfold update_cel. apply framed_bind; [auto with frame|]. intros _.
  by apply framed_modify_cel.
Qed.

Lemma framed_set_cel_claims p : framed (set_cel_claims p).
Proof.
  unfold set_cel_claims.
  apply framed_bind; [apply framed_update_cel; by intros []|]. intros _.
  apply framed_bind; [auto with frame|]. intros v. by apply framed_update_cel.
Qed.

Lemma framed_authenticate m : framed (authenticate m).
Proof.
  intros s. unfold authenticate. case_match; [|reflexivity].
  pose proof (framed_set_cel_claims a s) as Hs. by destruct (set_cel_claims a s).
Qed.

Lemma jwt_framed m : hooks_framed (hooks m).
Proof.
  hooks_frame. unfold request_filter, deny_unauthorized.
  apply framed_when_applies. apply framed_bind; [apply framed_authenticate|]. solve_framed.
Qed.

(** ** What is accepted *)

(** A key of the set, of the header's key id when there is one, for which the
    header's algorithm is supported, accepts the token with a payload. *)
Definition verified_by (ks : list Jwk) (token : string) (payload : JwtPayload) : Prop :=
  ∃ alg kid key, read_alg_kid token = Ok (alg, kid) ∧ key ∈ ks ∧ key_matches kid key ∧
    (length (str_split "." token) = 3 ∧
       (∃ a v, jws_algorithm alg = Some a ∧ verifier_from_jwk a key = Ok v ∧
          decode_with_verifier token v = Ok payload) ∨
     length (str_split "." token) = 5 ∧
       (∃ a d, jwe_algorithm alg = Some a ∧ decrypter_from_jwk a key = Ok d ∧
          decode_with_decrypter token d = Ok payload)).

Definition in_time (now : Z) (payload : JwtPayload) : Prop :=
  (∀ nbf, payload_not_before payload = Some nbf → (nbf ≤ now)%Z) ∧
  (∀ exp, payload_expires_at payload = Some exp → (now < exp)%Z).

Lemma validate_time_claims_ok now p : validate_time_claims now p = Ok tt ↔ in_time now p.
Proof.
  unfold validate_time_claims, in_time. rewrite bind_ok_unit, !guard_err_ok.
  destruct (payload_not_before p) as [nbf|], (payload_expires_at p) as [exp|];
    rewrite ?Z.ltb_ge, ?Z.leb_gt; naive_solver.
Qed.

Lemma first_ok_Some {A B} (f : A → result B string) l b :
  first_ok f l = Some b → ∃ a, a ∈ l ∧ f a = Ok b.
Proof.
  induction l as [|a l IH]; simpl; [done|]. destruct (f a) eqn:E.
  - intros [= ->]. exists a. split; [left|done].
  - intros (x & Hx & Hf)%IH. exists x. split; [by right|done].
Qed.
Lemma first_ok_None {A B} (f : A → result B string) l a b :
  first_ok f l = None → a ∈ l → f a = Ok b → False.
Proof.
  induction l as [|x l IH]; simpl; [by intros _ ?%not_elem_of_nil|].
  destruct (f x) eqn:E; [done|]. intros Hl [->|Ha]%elem_of_cons Hf; [congruence|eauto].
Qed.

Lemma candidate_keys_ok kid p ks : candidate_keys kid p = Ok ks → ks = filter (key_matches kid) (keys p).
Proof. unfold candidate_keys. destruct (filter _ _), kid; by intros [= <-]. Qed.
Lemma candidate_keys_elem kid p k :
  k ∈ keys p → key_matches kid k → candidate_keys kid p = Ok (filter (key_matches kid) (keys p)).
Proof.
  intros Hk Hm. unfold candidate_keys.
  assert (k ∈ filter (key_matches kid) (keys p)) as Hin by (by apply list_elem_of_filter).
  by destruct (filter _ _); [apply not_elem_of_nil in Hin|].
Qed.

(** Selecting keys, building what they verify with and trying each in turn, in
    the shape both kinds of token share. *)
Section Select.
Context {V : Type} (make : Jwk → option V) (run : V → result JwtPayload string).
Context (kid : option string) (p : JwksVerifierPool) (e1 e2 : string).

Definition select : result JwtPayload string :=
  let? vs := (let? ks := candidate_keys kid p in
              match omap make ks with [] => Err e1 | vs => Ok vs end) in
  ok_or (first_ok run vs) e2.

Definition accepts (payload : JwtPayload) : Prop :=
  ∃ key v, key ∈ keys p ∧ key_matches kid key ∧ make key = Some v ∧ run v = Ok payload.

Lemma select_sound payload : select = Ok payload → accepts payload.
Proof.
  unfold select. destruct (candidate_keys kid p) as [ks|] eqn:Ek; [|done]. simpl.
  apply candidate_keys_ok in Ek as ->.
  destruct (omap make _) as [|v vs] eqn:Ev; [done|]. cbn [result_bind].
  destruct (first_ok run (v :: vs)) as [p'|] eqn:Ef; [|done]. intros [= ->].
  apply first_ok_Some in Ef as (w & Hw & Hr). rewrite <-Ev in Hw.
  apply list_elem_of_omap in Hw as (key & [Hm Hk]%list_elem_of_filter & Hmk).
  by exists key, w.
Qed.

Lemma select_complete payload : accepts payload → ∃ payload', select = Ok payload'.
Proof.
  intros (key & v & Hk & Hm & Hv & Hr). unfold select.
  rewrite (candidate_keys_elem kid p key) by done. simpl.
  assert (v ∈ omap make (filter (key_matches kid) (keys p))) as Hin.
  { apply list_elem_of_omap. exists key. by rewrite list_elem_of_filter. }
  destruct (omap make _) as [|w vs]; [by apply not_elem_of_nil in Hin|].
  cbn [result_bind]. destruct (first_ok run (w :: vs)) as [p'|] eqn:Ef; [by exists p'|].
  exfalso. by apply (first_ok_None run _ _ _ Ef Hin Hr).
Qed.
End Select.

Lemma verified_by_select m token payload alg kid :
  read_alg_kid token = Ok (alg, kid) →
  verified_by (keys (jwks_pool m)) token payload ↔
  (length (str_split "." token) = 3 ∧
     accepts (create_verifier alg) (decode_with_verifier token) kid (jwks_pool m) payload) ∨
  (length (str_split "." token) = 5 ∧
     accepts (create_decrypter alg) (decode_with_decrypter token) kid (jwks_pool m) payload).
Proof.
  intros Hr. unfold verified_by, accepts, create_verifier, create_decrypter. split.
  - intros (alg' & kid' & key & Hr' & Hk & Hm & Hv). rewrite Hr in Hr'. simplify_eq.
    destruct Hv as [[Hl (a & v & Ha & Hv & Hd)]|[Hl (a & v & Ha & Hv & Hd)]]; [left|right];
      (split; [done|]); exists key, v; rewrite Ha, Hv; by split_and!.
  - intros [[Hl (key & v & Hk & Hm & Hv & Hd)]|[Hl (key & v & Hk & Hm & Hv & Hd)]];
      exists alg, kid, key; (split_and!; [done..|]); [left|right]; (split; [done|]);
      case_match; try done; eexists _, v; (split_and!; [done| |done]).
    + by destruct (verifier_from_jwk _ key); simplify_eq/=.
    + by destruct (decrypter_from_jwk _ key); simplify_eq/=.
Qed.

(** Only the two compact serializations are decoded. *)
Lemma decoded_parts {A} (n : nat) (x y z : result A string) a :
  match n with 3 => x | 5 => y | _ => z end = Ok a → (∀ e, z = Err e → False) ∨
  (n = 3 ∧ x = Ok a) ∨ (n = 5 ∧ y = Ok a).
Proof. destruct n as [|[|[|[|[|[|n]]]]]]; auto; intros ->; left; intros e [=]. Qed.

(** A payload is accepted only from a token that verifies and is in time. *)
Lemma payload_sound m now token payload :
  verify_or_decrypt_payload m now token = Ok payload →
  verified_by (keys (jwks_pool m)) token payload ∧
  (validate_time m = true → in_time now payload).
Proof.
  unfold verify_or_decrypt_payload. intros Hv. set (n := length (str_split "." token)) in *.
  destruct (match n with 3 => _ | _ => _ end) as [p|] eqn:Ep; [|done].
  assert (p = payload ∧ (validate_time m = true → in_time now payload)) as [-> Ht].
  { simpl in Hv. destruct (validate_time m).
    - destruct (validate_time_claims now p) as [[]|] eqn:Et; [|done]. injection Hv as ->.
      split; [done|]. intros _. by apply validate_time_claims_ok.
    - by injection Hv as ->. }
  split; [|done]. apply decoded_parts in Ep as [Hz|[[Hn Ep]|[Hn Ep]]]; [by destruct (Hz _ eq_refl)| |].
  - unfold decode_jwt in Ep. destruct (read_alg_kid token) as [[alg kid]|] eqn:Er; [|done].
    apply (verified_by_select _ _ _ alg kid Er). left. split; [done|]. by eapply select_sound.
  - unfold decode_jwe in Ep. destruct (read_alg_kid token) as [[alg kid]|] eqn:Er; [|done].
    apply (verified_by_select _ _ _ alg kid Er). right. split; [done|]. by eapply select_sound.
Qed.

(** A token that a key verifies is accepted, when whatever it says is in time. *)
Lemma payload_complete m now token payload :
  verified_by (keys (jwks_pool m)) token payload →
  (validate_time m = true →
     ∀ p, verified_by (keys (jwks_pool m)) token p → in_time now p) →
  ∃ payload', verify_or_decrypt_payload m now token = Ok payload'.
Proof.
  intros Hv Ht. destruct (id Hv) as (alg & kid & _ & Hr & _).
  pose proof (verified_by_select m token) as Hsel. apply (Hsel _ _ _ Hr) in Hv as Hs.
  assert (∃ p, match length (str_split "." token) with
     | 3 => decode_jwt m token | 5 => decode_jwe m token
     | _ => Err ("invalid token format: expected 3(JWT) or 5(JWE) segments, got "
                +:+ to_string_Z (Z.of_nat (length (str_split "." token))))
     end = Ok p ∧ verified_by (keys (jwks_pool m)) token p) as (p & Hp & Hpv).
  { destruct Hs as [[Hl Ha]|[Hl Ha]]; rewrite Hl; unfold decode_jwt, decode_jwe; rewrite Hr.
    - destruct (select_complete _ _ _ _ ("jwt alg not supported by jwks keys: " +:+ alg)
                  "jwt verify failed" _ Ha) as [p Hp].
      exists p. split; [exact Hp|]. apply (Hsel _ _ _ Hr). left. split; [done|].
      by eapply select_sound.
    - destruct (select_complete _ _ _ _ ("jwe alg not supported by jwks keys: " +:+ alg)
                  "jwe decrypt failed" _ Ha) as [p Hp].
      exists p. split; [exact Hp|]. apply (Hsel _ _ _ Hr). right. split; [done|].
      by eapply select_sound. }
  exists p. unfold verify_or_decrypt_payload. rewrite Hp. simpl.
  destruct (validate_time m); [|done]. by rewrite (proj2 (validate_time_claims_ok now p)) by auto.
Qed.

(** ** The hook *)

Lemma update_cel_run f s c :
  ctx_session_cel_context (st_ctx s) = Some c →
  update_cel f s =
    (Ok tt, mkSt (set_session_cel_context (Some (f c)) (st_ctx s)) (st_session s) (st_shared s)).
Proof.
  intros Hc. unfold update_cel, mbind, M_bind, ensure_session_cel_context, modify_ctx.
  by rewrite Hc, Hc.
Qed.

Lemma set_cel_claims_run p s c :
  ctx_session_cel_context (st_ctx s) = Some c →
  ∃ s' c', set_cel_claims p s =
      (match json_to_value (claims_json p) with
       | Ok _ => Ok tt
       | Err e => Err (middleware_internal_error "jwt payload to cel value failed" e)
       end, s') ∧
    st_session s' = st_session s ∧ st_shared s' = st_shared s ∧
    ctx_session_cel_context (st_ctx s') = Some c' ∧
    jwt_payload (cel_http_session c') = Some p ∧
    (∀ v, json_to_value (claims_json p) = Ok v → cel_variables c' !! "jwt_payload" = Some v).
Proof.
  intros Hc. unfold set_cel_claims, mbind, M_bind at 1. rewrite (update_cel_run _ _ _ Hc).
  unfold mbind, M_bind, lift. destruct (json_to_value (claims_json p)) as [v|e]; cbn [map_err].
  - rewrite (update_cel_run _ _ (with_payload p c)) by done. eexists _, _.
    split; [done|]. split_and!; try done. intros v' [= <-]. simpl. apply lookup_insert_eq.
  - eexists _, _. split; [done|]. by split_and!.
Qed.

(** A token that admits a request at the time [now]. *)
Definition token_admits (m : JwtMiddleware) (now : Z) (ses : Session) : Prop :=
  ∃ token payload, extract_token m ses = Ok token ∧
    verified_by (keys (jwks_pool m)) token payload ∧
    (validate_time m = true → in_time now payload).

(** Without a rule, in the mode [deny], nothing else passes. *)
Lemma jwt_passed m s s' :
  rule_program m = None → on_error m = Deny → request_filter m s = (Ok false, s') →
  token_admits m (env_now (sh_env (st_shared s))) (st_session s).
Proof.
  intros Hrule Ho. unfold request_filter, when_applies, should_apply.
  rewrite Hrule, Ho. unfold mbind, M_bind, mret, M_ret, authenticate.
  assert (∀ s1, deny_unauthorized s1 ≠ (Ok false, s')) as Hdeny.
  { intros s1. unfold deny_unauthorized, mbind, M_bind, map_m_err.
    by destruct (write_response _ _ _ _ s1) as [[]]. }
  destruct (let? token := _ in _) as [payload|e] eqn:Ep; [|by intros ?%Hdeny].
  intros _. destruct (extract_token m (st_session s)) as [token|] eqn:Et; [|done].
  apply payload_sound in Ep as [Hv Ht]. exists token, payload. by split_and!.
Qed.

(** C18: In the mode [deny], a request to which the middleware applies passes
    only with a token that a key of the configured set verifies or decrypts:
    the key has the key id the token's header names, if it names one, and was
    asked for the algorithm the header names, which is one of the supported
    ones; with [validate_time] the token is also in its validity period. Rules
    then see the payload of exactly that token. Every other request is
    answered with one generated response on a connection that is closed. *)
Theorem jwt_sound `{!HttpLaws} cfg m s c r s' :
  from_config cfg = Ok m → cfg_on_error cfg = Deny →
  ctx_session_cel_context (st_ctx s) = Some c → applies (rule_program m) s = true →
  request_filter m s = (Ok r, s') →
  (r = false ∧ st_session s' = st_session s ∧
   ∃ ks token payload c',
     jwk_set_from_bytes (cfg_jwks cfg) = Ok ks ∧ extract_token m (st_session s) = Ok token ∧
     verified_by ks token payload ∧
     (cfg_validate_time cfg = true → in_time (env_now (sh_env (st_shared s))) payload) ∧
     ctx_session_cel_context (st_ctx s') = Some c' ∧
     jwt_payload (cel_http_session c') = Some payload) ∨
  (r = true ∧ ∃ body h,
     ses_written (st_session s') = ses_written (st_session s) ++ wire (resp_status h) body h ∧
     ses_keepalive (st_session s') = None).
Proof.
  intros Hm Hd Hc Ha. unfold request_filter. rewrite (when_applies_read _ _ _ _ _ Hc), Ha.
  assert (on_error m = Deny ∧ validate_time m = cfg_validate_time cfg ∧
          jwk_set_from_bytes (cfg_jwks cfg) = Ok (keys (jwks_pool m))) as (Eo & Et & Ek).
  { unfold from_config, from_jwks in Hm. invert_ok.
    destruct (jwk_set_from_bytes (cfg_jwks cfg)) as [[|k ks]|]; simplify_eq/=. by split_and!. }
  assert (∀ s1, ses_written (st_session s1) = ses_written (st_session s) →
    deny_unauthorized s1 = (Ok r, s') → r = true ∧ ∃ body h,
     ses_written (st_session s') = ses_written (st_session s) ++ wire (resp_status h) body h ∧
     ses_keepalive (st_session s') = None) as Hdeny.
  { intros s1 Ew. unfold deny_unauthorized, mbind, M_bind, map_m_err.
    destruct (write_response 401 [] None None s1) as [[[]|] s2] eqn:E; [|done].
    intros [= <- <-]. split; [done|].
    apply write_response_run in E as (st & body & h & Hw & <- & _ & _ & Hk & _).
    exists body, h. rewrite <-Ew. split; [done|by apply Hk]. }
  unfold mbind, M_bind, authenticate. rewrite Eo.
  destruct (let? token := _ in _) as [payload|e] eqn:Ep; [|intros Hr; right; by apply Hdeny in Hr].
  destruct (set_cel_claims_run payload s c Hc) as (s1 & c' & Er & Es & _ & Hc' & Hp & _).
  rewrite Er. destruct (json_to_value (claims_json payload)); cbn [map_err];
    [|intros Hr; right; apply Hdeny in Hr; [done|by rewrite Es]].
  intros [= <- <-]. left. split_and!; [done..|].
  destruct (extract_token m (st_session s)) as [token|]; [|done].
  apply payload_sound in Ep as [Hv Ht]. exists (keys (jwks_pool m)), token, payload, c'.
  rewrite <-Et. by split_and!.
Qed.

(** In either mode, a request with such a token is never refused. *)
Lemma jwt_complete m s c token payload :
  ctx_session_cel_context (st_ctx s) = Some c →
  extract_token m (st_session s) = Ok token →
  verified_by (keys (jwks_pool m)) token payload →
  (validate_time m = true → ∀ p, verified_by (keys (jwks_pool m)) token p →
     in_time (env_now (sh_env (st_shared s))) p) →
  (∀ p, is_ok (json_to_value (claims_json p)) = true) →
  ∃ s', request_filter m s = (Ok false, s') ∧ st_session s' = st_session s.
Proof.
  intros Hc Htok Hv Ht Hj. unfold request_filter. rewrite (when_applies_read _ _ _ _ _ Hc).
  destruct (applies (rule_program m) s); [|by exists s].
  unfold mbind, M_bind, authenticate. rewrite Htok. cbn [result_bind].
  destruct (payload_complete m _ token payload Hv Ht) as [p ->].
  destruct (set_cel_claims_run p s c Hc) as (s1 & c' & Er & Es & _). rewrite Er.
  specialize (Hj p). destruct (json_to_value (claims_json p)); [|done]. by exists s1.
Qed.

(** In the mode [passthrough] no request is refused. *)
Lemma jwt_passthrough m s c :
  on_error m = Passthrough → ctx_session_cel_context (st_ctx s) = Some c →
  ∃ s', request_filter m s = (Ok false, s') ∧ st_session s' = st_session s.
Proof.
  intros Ho Hc. unfold request_filter. rewrite (when_applies_read _ _ _ _ _ Hc).
  destruct (applies (rule_program m) s); [|by exists s].
  unfold mbind, M_bind, authenticate. rewrite Ho.
  destruct (let? token := _ in _) as [payload|e]; [|by exists s].
  destruct (set_cel_claims_run payload s c Hc) as (s1 & c' & -> & Es & _).
  by destruct (json_to_value (claims_json payload)); exists s1.
Qed.
End Jwt.
End Jwt.

(** ** Witnesses *)

(** A key is its id; a token is signed by repeating the id of its key. *)
Module RefJose.
Definition signed (t v : string) : result JwtPayload string :=
  match str_split "." t with
  | k :: body :: sig => if decide (last sig = Some v) then Ok (mkJwtPayload ∅ body)
                        else Err "signature does not match"
  | _ => Err "invalid token"
  end.
#[export] Instance lib : JoseLib := {|
  Jwk := string; JwsVerifier := string; JweDecrypter := string;
  jwk_set_from_bytes s := Ok (str_split "," s);
  jwk_key_id := Some;
  verifier_from_jwk _ k := Ok k;
  decrypter_from_jwk _ k := Ok k;
  jwt_decode_header t := Ok {[ "alg" := JString "ES256"; "kid" := JString (split_on "." t).1 ]};
  decode_with_verifier := signed;
  decode_with_decrypter := signed;
  payload_not_before _ := None;
  payload_expires_at _ := Some 5000%Z;
|}.
End RefJose.

Section JwtWitnesses.
Import Demo RefLb RefPeer RefFmt RefProxyFmt RefJose.

Definition jwt_config : Jwt.JwtConfig :=
  Jwt.mkJwtConfig Jwt.default_header_name Jwt.default_bearer_prefix "k1,k2" true
    Jwt.default_error_mode None.
Definition demo_jwt : Jwt.JwtMiddleware :=
  Jwt.mkJwt "authorization" "Bearer " Jwt.Deny true (mkPool ["k1"; "k2"]) None.
Definition jwt_state (token : string) : St :=
  mkSt (set_session_cel_context (Some (ctx "a.com" "/")) (ProxyCtx_new Strict))
    (new_session (mkSessionView
       (mkRequestHeader "GET" (mkUri None None (Some "/") "/" None)
          (hm_insert "Authorization" ("Bearer " +:+ token) hm_empty)) None None)
       (Some 60%Z) []) demo_shared.

(** A token of the second key passes; one that the first key signed in its
    name does not. *)
Example demo_jwt_runs :
  (Jwt.request_filter demo_jwt (jwt_state "k2.me.k2")).1 = Ok false ∧
  (Jwt.request_filter demo_jwt (jwt_state "k2.me.k1")).1 = Ok true ∧
  (Jwt.request_filter demo_jwt (jwt_state "k2.me")).1 = Ok true.
Proof. vm_compute. by split_and!. Qed.

Lemma jwt_sound_witness :
  ∃ ks token payload,
    Jwt.verified_by ks token payload ∧ Jwt.extract_token demo_jwt
      (st_session (jwt_state "k2.me.k2")) = Ok token ∧ Jwt.in_time 1000 payload.
Proof.
  destruct (Jwt.request_filter demo_jwt (jwt_state "k2.me.k2")) as [r s'] eqn:E.
  pose proof (proj1 demo_jwt_runs) as Hr. rewrite E in Hr. cbn in Hr. subst r.
  destruct (Jwt.jwt_sound jwt_config demo_jwt (jwt_state "k2.me.k2") (ctx "a.com" "/") false s'
              eq_refl eq_refl eq_refl eq_refl E)
    as [(_ & _ & ks & token & payload & c' & _ & Htok & Hv & Ht & _)|[[=] _]].
  exists ks, token, payload. split_and!; [exact Hv|exact Htok|by apply Ht].
Defined.
End JwtWitnesses.
