(* ===== verification/MwInterceptor.v ===== *)
(** * Interceptors

    [src/interceptor] and [src/middlewares/interceptor]: JavaScript functions
    registered under a key, and the middleware that asks one of them what to do
    with a request. A thread-safe function is a handle; what JavaScript replies
    to a call is the environment's choice ([JsReply]). Calling a function
    suspends the request, so a call has two halves, between which the registry
    may change. *)

From S2P Require Import Prelude Text Http Config Cel CelSession CelRegex CelFunctions.
From S2P Require Import CelEngine CheapExpr Precheck Matcher RouteTable.
From S2P Require Import VjsSocket VjsRegistry LoadBalancer Pingora ErrorPages Ctx.
From S2P Require Import Upstream Response Frame Middleware.
From stdpp Require Import base tactics strings list gmap relations.
From Stdlib Require Import ZArith Lia Ascii.

(** ** [interceptor/types.rs] *)

Record InterceptorCall := mkInterceptorCall {
  ic_key : string;
  ic_method : string;
  ic_path : string;
}.

Inductive InterceptorAction := Continue | Respond.

Record InterceptorResult := mkInterceptorResult {
  ir_action : InterceptorAction;
  ir_status : option Z;
  ir_body : option string;
  ir_content_type : option string;
}.

(** [on_intercept] is the handle of a thread-safe function. *)
Record Interceptor := mkInterceptor { i_key : string; i_on_intercept : nat }.

(** [napi::Status], as far as the sources distinguish it. *)
Inductive NapiStatus := Closing | Cancelled | OtherStatus (name : string).

(** What becomes of a call: it is not made, its promise is rejected, or the
    promise resolves. *)
Inductive JsReply :=
| CallFailed (status : NapiStatus) (message : string)
| Rejected (message : string)
| Resolved (v : option JsonValue).

(** ** [interceptor/registry.rs] *)

Abbreviation InterceptorMap := (gmap string Interceptor).

(** [Registry::register_interceptor]. *)
Definition registry_register (key : string) (on_intercept : nat) (m : InterceptorMap)
    : result unit string * InterceptorMap :=
  match m !! key with
  | Some _ => (Err ("interceptor '" +:+ key +:+ "' already exists"), m)
  | None => (Ok tt, <[key := mkInterceptor key on_intercept]> m)
  end.

(** [Registry::unregister_interceptor]. *)
Definition registry_unregister (key : string) (m : InterceptorMap)
    : result bool string * InterceptorMap :=
  match m !! key with
  | None => (Ok false, m)
  | Some _ => (Ok true, delete key m)
  end.

(** [register_interceptor]; [tsfn] is the outcome of building the function. *)
Definition register_interceptor (key : string) (tsfn : result nat string) (m : InterceptorMap)
    : result unit string * InterceptorMap :=
  if is_empty (trim key) then (Err "interceptor key cannot be empty", m)
  else match map_err (λ e : string, "failed to build interceptor tsfn: " +:+ e) tsfn with
       | Err e => (Err e, m)
       | Ok f => registry_register key f m
       end.

(** [unregister_interceptor]. *)
Definition unregister_interceptor (key : string) (m : InterceptorMap)
    : result bool string * InterceptorMap :=
  if is_empty (trim key) then (Err "interceptor key cannot be empty", m)
  else registry_unregister key m.

Definition tsfn_closed (s : NapiStatus) : bool :=
  match s with Closing | Cancelled => true | OtherStatus _ => false end.

(** [run_interceptor] up to its call, and from the reply on. *)
Definition run_begin (key : string) (m : InterceptorMap) : option Interceptor := m !! key.
Definition run_finish (i : Interceptor) (reply : JsReply) (m : InterceptorMap)
    : result (option JsonValue) Error * InterceptorMap :=
  match reply with
  | CallFailed status message =>
      if tsfn_closed status then (Ok None, (registry_unregister (i_key i) m).2)
      else (Err (error_because ConnectError "interceptor call failed" message), m)
  | Rejected message => (Err (error_because ConnectError "interceptor rejected" message), m)
  | Resolved v => (Ok v, m)
  end.

(** *** Interleavings *)

(** The registry and the calls under way. *)
Record IWorld := mkIWorld { iw_registry : InterceptorMap; iw_calls : list Interceptor }.

Inductive i_step : IWorld → IWorld → Prop :=
| i_register key tsfn w :
    i_step w (mkIWorld (register_interceptor key tsfn (iw_registry w)).2 (iw_calls w))
| i_unregister key w :
    i_step w (mkIWorld (unregister_interceptor key (iw_registry w)).2 (iw_calls w))
| i_begin key i w :
    run_begin key (iw_registry w) = Some i →
    i_step w (mkIWorld (iw_registry w) (i :: iw_calls w))
| i_finish l1 i l2 reply w :
    iw_calls w = l1 ++ i :: l2 →
    i_step w (mkIWorld (run_finish i reply (iw_registry w)).2 (l1 ++ l2)).

(** Every entry knows its own key, and no key is blank. *)
Record i_inv (w : IWorld) : Prop := {
  i_keys : ∀ k i, iw_registry w !! k = Some i → i_key i = k ∧ is_empty (trim k) = false;
  i_calls : Forall (λ i, is_empty (trim (i_key i)) = false) (iw_calls w);
}.

Lemma register_keys key f m (P : string → Interceptor → Prop) :
  (∀ k i, m !! k = Some i → P k i) →
  (is_empty (trim key) = false → ∀ g, P key (mkInterceptor key g)) →
  ∀ k i, (register_interceptor key f m).2 !! k = Some i → P k i.
Proof.
  intros Hm Hn k i. unfold register_interceptor, registry_register.
  destruct (is_empty (trim key)); [apply Hm|]. destruct f as [g|]; simpl; [|apply Hm].
  destruct (m !! key); simpl; [apply Hm|].
  rewrite lookup_insert_Some. intros [[<- <-]|[_ ?]]; auto.
Qed.

Lemma unregister_keys key m k i :
  (registry_unregister key m).2 !! k = Some i → m !! k = Some i.
Proof.
  unfold registry_unregister. destruct (m !! key); simpl; [|done].
  by intros [_ ?]%lookup_delete_Some.
Qed.

Lemma i_inv_step w w' : i_step w w' → i_inv w → i_inv w'.
Proof.
  intros Hs [Hk Hc]. destruct Hs as [key f w|key w|key i w Hb|l1 i l2 reply w Hl];
    split; simpl; try done.
  - apply register_keys; [exact Hk|]. by intros Hb g.
  - intros k i. unfold unregister_interceptor. destruct (is_empty (trim key)); [apply Hk|].
    intros ?%unregister_keys. by apply Hk.
  - constructor; [|done]. by apply Hk in Hb as [-> ?].
  - intros k i'. destruct reply as [st msg|msg|v]; simpl; [|apply Hk..].
    destruct (tsfn_closed st); simpl; [|apply Hk]. intros ?%unregister_keys. by apply Hk.
  - rewrite Hl in Hc. apply Forall_app in Hc as [? [_ ?]%Forall_cons_1]. by apply Forall_app.
Qed.

Lemma i_reachable_inv w : rtc i_step (mkIWorld ∅ []) w → i_inv w.
Proof.
  intros Hr. assert (i_inv (mkIWorld ∅ [])) as Hnew
    by (split; simpl; [intros k i; by rewrite lookup_empty|constructor]).
  induction Hr as [|w1 w2 w3 Hs _ IH]; [done|]. by apply IH, (i_inv_step w1).
Qed.

Lemma register_fresh key f m :
  is_empty (trim key) = false → m !! key = None →
  (register_interceptor key (Ok f) m).2 = <[key := mkInterceptor key f]> m.
Proof.
  intros Hk Hm. unfold register_interceptor, registry_register. rewrite Hk. simpl. by rewrite Hm.
Qed.
Lemma unregister_present key m :
  is_Some (m !! key) → (registry_unregister key m).2 = delete key m.
Proof. intros [i Hi]. unfold registry_unregister. by rewrite Hi. Qed.

(** A call that was begun on a function that then closed removes whatever is
    registered under its key when it finishes: a new function that took over
    the key meanwhile is unregistered in its stead. *)
Theorem stale_close_unregisters key f g m message :
  is_empty (trim key) = false → m !! key = None →
  let m1 := (register_interceptor key (Ok f) m).2 in
  let m2 := (unregister_interceptor key m1).2 in
  let m3 := (register_interceptor key (Ok g) m2).2 in
  ∃ i, run_begin key m1 = Some i ∧ i_on_intercept i = f ∧
    i_on_intercept <$> m3 !! key = Some g ∧
    (run_finish i (CallFailed Closing message) m3).2 !! key = None.
Proof.
  intros Hk Hm m1 m2 m3.
  assert (m1 = <[key := mkInterceptor key f]> m) as E1 by (by apply register_fresh).
  assert (m2 = m) as E2.
  { subst m2. unfold unregister_interceptor. rewrite Hk, E1, unregister_present by
      (by rewrite lookup_insert_eq). by rewrite delete_insert_id. }
  assert (m3 = <[key := mkInterceptor key g]> m) as E3
    by (subst m3; rewrite E2; by apply register_fresh).
  exists (mkInterceptor key f). unfold run_begin. rewrite E1, E3, !lookup_insert_eq.
  split_and!; [done..|]. simpl. rewrite unregister_present by (by rewrite lookup_insert_eq).
  apply lookup_delete_eq.
Qed.

(** ** The middleware: [middlewares/interceptor/mod.rs] *)

(** [serde_json::Value]: [as_str], [as_u64] and a member of an object. *)
Definition as_str (v : JsonValue) : option string :=
  match v with JString s => Some s | _ => None end.
Definition as_u64 (v : JsonValue) : option Z :=
  match v with
  | JNumber t => if is_empty t then None
                 else match parse_digits 0 t with
                      | Some n => if (n <? 2 ^ 64)%Z then Some n else None
                      | None => None
                      end
  | _ => None
  end.
Fixpoint member (k : string) (l : list (string * JsonValue)) : option JsonValue :=
  match l with
  | [] => None
  | (k', v) :: l' => if decide (k' = k) then Some v else member k l'
  end.

Definition continue_result : InterceptorResult := mkInterceptorResult Continue None None None.

(** [parse_result]. *)
Definition parse_result (value : JsonValue) : result InterceptorResult Error :=
  match value with
  | JNull => Ok continue_result
  | JObject obj =>
      let action := default "continue" (member "action" obj ≫= as_str) in
      if decide (action = "continue") then Ok continue_result
      else if decide (action = "respond") then
        let? status :=
          match member "status" obj ≫= as_u64 with
          | Some v => if ((100 <=? v) && (v <=? 999))%Z then Ok v
                      else Err (middleware_internal_error "interceptor invalid status"
                                  "status must be within [100, 999]")
          | None => Ok 200%Z
          end in
        let content_type := match member "contentType" obj with
                            | Some v => Some v
                            | None => member "content_type" obj
                            end in
        Ok (mkInterceptorResult Respond (Some status) (member "body" obj ≫= as_str)
              (content_type ≫= as_str))
      else Err (middleware_internal_error "interceptor invalid action"
                  ("unsupported action '" +:+ action +:+ "'"))
  | _ => Err (middleware_internal_error "interceptor invalid result"
                "expected null/undefined or object result")
  end.

(** The replies of JavaScript, and the registry in the middlewares' state. *)
Class JsCalls := { js_intercept : nat → InterceptorCall → EvalEnv → JsReply }.
Class InterceptState `{MwTypes} := {
  get_interceptors : MwState → InterceptorMap;
  put_interceptors : InterceptorMap → MwState → MwState;
  get_put_interceptors m s : get_interceptors (put_interceptors m s) = m;
  put_get_interceptors s : put_interceptors (get_interceptors s) s = s;
}.

Module InterceptorMw.
Section InterceptorMw.
Context `{HttpLib, RegexLib, RuleLib, !CelLib, TlsLib, LbLib, MwTypes, !JsCalls,
          !InterceptState}.

Record InterceptorConfig := mkInterceptorConfig { cfg_key : string }.

Definition validate (c : InterceptorConfig) : result unit string :=
  guard_err (is_empty (trim (cfg_key c))) "middleware interceptor.key cannot be empty".

Record InterceptorMiddleware := mkInterceptorMw { key : string }.

Definition from_config (c : InterceptorConfig) : result InterceptorMiddleware string :=
  validate c ;? Ok (mkInterceptorMw (cfg_key c)).

(** [run_interceptor] in a request. *)
Definition run_interceptor (key method path : string) : M (option JsonValue) := λ s,
  let sh := st_shared s in
  match run_begin key (get_interceptors (sh_mw sh)) with
  | None => (Ok None, s)
  | Some i =>
      let reply := js_intercept (i_on_intercept i) (mkInterceptorCall key method path) (sh_env sh) in
      let '(r, m) := run_finish i reply (get_interceptors (sh_mw sh)) in
      (r, mkSt (st_ctx s) (st_session s) (set_mw (put_interceptors m (sh_mw sh)) sh))
  end.

Definition short_headers (body : string) (content_type : option string)
    : list (string * string * string) :=
  (if is_empty body then []
   else [("interceptor insert content-type failed", "Content-Type",
          default "text/plain; charset=utf-8" content_type)]) ++
  [("interceptor insert content-length failed", "Content-Length",
    to_string_Z (Z.of_nat (String.length body)))].

Definition write_short_response (res : InterceptorResult) : M bool :=
  let body := default "" (ir_body res) in
  resp ← lift (let? resp := map_err
                 (middleware_internal_error "interceptor create response header failed")
                 (response_build (default 200 (ir_status res))%Z) in
               insert_each (short_headers body (ir_content_type res)) resp);
  _ ← write_session "interceptor write response header failed" (WroteHeader resp (is_empty body));
  _ ← (if is_empty body then mret tt
       else write_session "interceptor write response body failed" (WroteBody body true));
  mret true.

Definition request_filter (m : InterceptorMiddleware) : M bool :=
  s ← get;
  let req := ses_req_header (st_session s) in
  let path := default (uri_path (req_uri req)) (uri_path_and_query (req_uri req)) in
  raw_result ← run_interceptor (key m) (req_method req) path;
  match raw_result with
  | None => mret false
  | Some v =>
      res ← lift (parse_result v);
      match ir_action res with
      | Continue => mret false
      | Respond => write_short_response res
      end
  end.

Definition hooks (m : InterceptorMiddleware) : Hooks :=
  with_request_filter (request_filter m) default_hooks.

Lemma framed_run_interceptor k meth path : framed (run_interceptor k meth path).
Proof.
  intros s. unfold run_interceptor. destruct (run_begin _ _); [|reflexivity].
  destruct (run_finish _ _ _). by apply keeps_frame_ctx.
Qed.

Lemma interceptor_framed m : hooks_framed (hooks m).
Proof.
  hooks_frame. unfold request_filter, write_short_response.
  pose proof framed_run_interceptor. solve_framed.
Qed.

(** ** What a request gets *)

(** What a reply that says [respond] asks for: the status and the body. A status
    that is no unsigned number counts as none, a body that is no string too. *)
Definition said_respond (v : JsonValue) (status : Z) (body : string) : Prop :=
  ∃ obj, v = JObject obj ∧ member "action" obj = Some (JString "respond") ∧
    (member "status" obj ≫= as_u64 = Some status ∨
     status = 200%Z ∧ member "status" obj ≫= as_u64 = None) ∧
    (member "body" obj = Some (JString body) ∨
     body = "" ∧ ∀ b, member "body" obj ≠ Some (JString b)).

(** The call a request makes, and the reply it gets. *)
Definition call_of (m : InterceptorMiddleware) (s : St) : InterceptorCall :=
  let req := ses_req_header (st_session s) in
  mkInterceptorCall (key m) (req_method req)
    (default (uri_path (req_uri req)) (uri_path_and_query (req_uri req))).
Definition replied (m : InterceptorMiddleware) (s : St) (v : JsonValue) : Prop :=
  ∃ i, get_interceptors (sh_mw (st_shared s)) !! key m = Some i ∧
    js_intercept (i_on_intercept i) (call_of m s) (sh_env (st_shared s)) = Resolved (Some v).

Lemma body_said obj :
  let body := default "" (member "body" obj ≫= as_str) in
  member "body" obj = Some (JString body) ∨ body = "" ∧ ∀ b, member "body" obj ≠ Some (JString b).
Proof. destruct (member "body" obj) as [[]|]; simpl; auto. Qed.

Lemma parse_respond v res :
  parse_result v = Ok res → ir_action res = Respond →
  ∃ status, ir_status res = Some status ∧ (100 ≤ status ≤ 999)%Z ∧
    said_respond v status (default "" (ir_body res)).
Proof.
  unfold parse_result. intros Hp Ha. destruct v as [| | | | |obj]; simplify_eq/=.
  case_decide; [by simplify_eq/=|]. case_decide as Hact; [|done].
  assert (member "action" obj = Some (JString "respond")) as Hm.
  { destruct (member "action" obj) as [[]|]; simplify_eq/=; congruence. }
  pose proof (body_said obj) as Hb. unfold said_respond.
  destruct (member "status" obj ≫= as_u64) as [n|] eqn:En.
  - destruct (_ && _) eqn:E; [|done]. apply andb_true_iff in E as [?%Z.leb_le ?%Z.leb_le].
    simplify_eq/=. exists n. split_and!; [done..|]. exists obj. by split_and!; [| |left|].
  - simplify_eq/=. exists 200%Z. split_and!; [done..|]. exists obj. by split_and!; [| |right|].
Qed.

(** A reply that says [respond] is not taken for anything else. *)
Lemma respond_parsed v status body res :
  said_respond v status body → parse_result v = Ok res → ir_action res = Respond.
Proof.
  intros (obj & -> & Ha & _). unfold parse_result. rewrite Ha. simpl.
  destruct (match member "status" obj ≫= as_u64 with Some _ => _ | None => _ end); [|done].
  by intros [= <-].
Qed.

(** What is written, whichever write fails. *)
Lemma write_short_run `{!HttpLaws} res s :
  let body := default "" (ir_body res) in
  ∃ r s', write_short_response res s = (r, s') ∧
    ((∃ e, r = Err e) ∧ after_write [] s s' ∨
     ∃ h, resp_status h = default 200%Z (ir_status res) ∧
       hm_get_all "Content-Length" (resp_headers h)
         = [to_string_Z (Z.of_nat (String.length body))] ∧
       (r = Ok true ∧ after_write (wire (resp_status h) body h) s s' ∨
        (∃ e, r = Err e) ∧ body ≠ "" ∧ after_write [WroteHeader h false] s s')).
Proof.
  cbv zeta. set (body := default "" (ir_body res)).
  assert (after_write [] s s) as Hid by (unfold after_write; by rewrite app_nil_r).
  unfold write_short_response, mbind, M_bind, lift, response_build. fold body.
  destruct (status_from_u16 _) as [[]|]; [|by eexists _, s; split; [done|left; eauto]].
  cbn [result_bind map_err].
  destruct (insert_each _ _) as [h|] eqn:E; [|by eexists _, s; split; [done|left; eauto]].
  apply insert_each_ok in E as (Hs & _ & Hg).
  specialize (Hg _ _ _ _ [] eq_refl (List.Forall_nil _)) as Hlen.
  destruct (write_session_run "interceptor write response header failed"
    (WroteHeader h (is_empty body)) s) as (s1 & [[-> W1]|[[e ->] W1]]);
    [|by eexists _, s1; split; [done|left; eauto]].
  destruct (is_empty body) eqn:Eb.
  { eexists _, s1. split; [reflexivity|]. right. exists h. split_and!; [done..|]. left.
    split; [done|]. unfold wire. by rewrite Eb. }
  destruct (write_session_run "interceptor write response body failed" (WroteBody body true) s1)
    as (s2 & [[-> W2]|[[e ->] W2]]); eexists _, s2; (split; [reflexivity|]); right; exists h;
    (split_and!; [done..|]); [left|right].
  - split; [done|]. unfold wire. rewrite Eb. by eapply (after_write_trans [_] [_]).
  - split_and!; [eauto|by intros ->|]. by eapply (after_write_trans [_] []).
Qed.

(** C29: Whatever the JavaScript function replies, a request goes on, with
    nothing written, only if the reply does not say [respond]. It is answered
    only if the reply, of the function registered under the key, says
    [respond], and then with exactly one response: of the status the reply
    names (200 when it names none), which is between 100 and 999, with the
    body it names and a [Content-Length] that is the length of that body. When
    the filter fails, nothing was written, or the header of that response was
    and writing its body failed. *)
Theorem interceptor_answers `{!HttpLaws} m s r s' :
  request_filter m s = (r, s') →
  let before := ses_written (st_session s) in
  let after := ses_written (st_session s') in
  match r with
  | Ok false => st_session s' = st_session s ∧
      ∀ v status body, replied m s v → ¬ said_respond v status body
  | Ok true => ∃ v status body h, replied m s v ∧ said_respond v status body ∧
      (100 ≤ status ≤ 999)%Z ∧ resp_status h = status ∧
      hm_get_all "Content-Length" (resp_headers h)
        = [to_string_Z (Z.of_nat (String.length body))] ∧
      after = before ++ wire status body h
  | Err _ => after = before ∨
      ∃ v status body h, replied m s v ∧ said_respond v status body ∧ body ≠ "" ∧
        resp_status h = status ∧ after = before ++ [WroteHeader h false]
  end.
Proof.
  unfold request_filter, mbind, M_bind, get. unfold run_interceptor at 1, run_begin.
  assert (∀ v i, get_interceptors (sh_mw (st_shared s)) !! key m = Some i → replied m s v →
    js_intercept (i_on_intercept i) (call_of m s) (sh_env (st_shared s)) = Resolved (Some v)) as Hrep.
  { intros v i Hi (i' & Hi' & Hv). congruence. }
  destruct (get_interceptors _ !! key m) as [i|] eqn:Ei.
  2:{ intros [= <- <-]. split; [done|]. intros v ? ? (i & Hi & _). congruence. }
  change (mkInterceptorCall _ _ _) with (call_of m s). specialize (λ v, Hrep v i eq_refl).
  destruct (js_intercept (i_on_intercept i) (call_of m s) _) as [st msg|msg|v] eqn:Ej; simpl.
  { destruct (tsfn_closed st); intros [= <- <-]; [|by left].
    split; [done|]. intros v ? ? Hv. by discriminate (Hrep v Hv). }
  { intros [= <- <-]. by left. }
  destruct v as [v|].
  2:{ intros [= <- <-]. split; [done|]. intros v ? ? Hv. by discriminate (Hrep v Hv). }
  unfold lift. destruct (parse_result v) as [res|e] eqn:Ep; [|intros [= <- <-]; by left].
  destruct (ir_action res) eqn:Ea.
  { intros [= <- <-]. split; [done|]. intros v' ? ? Hv Hsaid.
    injection (Hrep v' Hv) as ->. pose proof (respond_parsed _ _ _ _ Hsaid Ep). congruence. }
  destruct (parse_respond v res Ep Ea) as (status & Hst & Hrange & Hsaid).
  assert (replied m s v) as Hv by (by exists i).
  set (s1 := mkSt _ _ _). destruct (write_short_run res s1) as (r1 & s2 & -> & Hw).
  rewrite Hst in Hw. intros [= <- <-].
  destruct Hw as [[[e ->] (_ & _ & _ & _ & W)]
                 |(h & Hh & Hcl & [[-> (_ & _ & _ & _ & W)]|([e ->] & Hb & (_ & _ & _ & _ & W))])];
    simpl in *.
  - left. by rewrite W, app_nil_r.
  - exists v, status, (default "" (ir_body res)), h. split_and!; try done; try lia; exact W.
  - right. exists v, status, (default "" (ir_body res)), h. split_and!; try done; try lia; exact W.
Qed.
End InterceptorMw.
End InterceptorMw.

(** ** Witnesses *)

(** The function of handle [1] answers, that of [2] has closed. *)
Module RefIntercept.
#[export] Instance calls : JsCalls := {|
  js_intercept f _ _ :=
    match f with
    | 1 => Resolved (Some (JObject [("action", JString "respond"); ("status", JNumber "418");
                                    ("body", JString "teapot")]))
    | 2 => CallFailed Closing "closed"
    | _ => Resolved None
    end |}.
#[export] Instance types : MwTypes :=
  {| MW := unit; CacheHandler := unit; MwState := InterceptorMap |}.
#[export] Program Instance state : InterceptState :=
  {| get_interceptors := λ s : InterceptorMap, s; put_interceptors := λ m _, m |}.
Next Obligation. done. Qed.
Next Obligation. done. Qed.
End RefIntercept.

Section InterceptorWitnesses.
Import Demo RefLb RefPeer RefFmt RefIntercept.
#[local] Existing Instance RefIntercept.types | 0.

Definition intercept_state (f : nat) : St :=
  mkSt (set_session_cel_context (Some (ctx "a.com" "/")) (ProxyCtx_new Strict))
    (new_session (view "a.com" "/") None [])
    (mkShared' [] [] VjsRegistry.World_new [] {[ "k" := mkInterceptor "k" f ]} env).

Example demo_intercepted :
  (InterceptorMw.request_filter (InterceptorMw.mkInterceptorMw "k") (intercept_state 1)).1 = Ok true ∧
  (InterceptorMw.request_filter (InterceptorMw.mkInterceptorMw "k") (intercept_state 2)).1 = Ok false ∧
  sh_mw (st_shared (InterceptorMw.request_filter (InterceptorMw.mkInterceptorMw "k")
                      (intercept_state 2)).2) = ∅.
Proof. by split_and!. Qed.

Lemma interceptor_answers_witness :
  ∃ status body h,
    ses_written (st_session (InterceptorMw.request_filter (InterceptorMw.mkInterceptorMw "k")
                               (intercept_state 1)).2) = wire status body h ∧
    (100 ≤ status ≤ 999)%Z.
Proof.
  destruct (InterceptorMw.request_filter (InterceptorMw.mkInterceptorMw "k") (intercept_state 1))
    as [r s'] eqn:E.
  pose proof (proj1 demo_intercepted) as Hr. rewrite E in Hr. cbn in Hr. subst r.
  destruct (InterceptorMw.interceptor_answers _ _ _ _ E)
    as (v & status & body & h & _ & _ & Hs & _ & _ & Hw).
  exists status, body, h. split; [exact Hw|exact Hs].
Defined.

(** The client leaves between the two writes. *)
Example demo_half_written :
  let s := intercept_state 1 in
  let s := mkSt (st_ctx s) (new_session (view "a.com" "/") None [Ok tt; Err "gone"]) (st_shared s) in
  match InterceptorMw.request_filter (InterceptorMw.mkInterceptorMw "k") s with
  | (Err _, s') => length (ses_written (st_session s')) = 1
  | _ => False
  end.
Proof. reflexivity. Qed.

Lemma stale_close_unregisters_witness :
  (run_finish (mkInterceptor "k" 1) (CallFailed Closing "")
     (register_interceptor "k" (Ok 2)
        (unregister_interceptor "k" (register_interceptor "k" (Ok 1) ∅).2).2).2).2 !! "k" = None.
Proof.
  destruct (stale_close_unregisters "k" 1 2 ∅ "" eq_refl (lookup_empty _))
    as (i & Hb & Hf & _ & Hn).
  injection Hb as <-. exact Hn.
Defined.
End InterceptorWitnesses.
