(* ===== verification/MwAccessLog.v ===== *)
(** * The access log

    [src/middlewares/access_log]: one line per request, queued to a sink that
    all middlewares of a file share. A sink is a bounded channel and a writer
    task that drains it. Requests, the task and the end of the runtime the task
    was spawned on interleave freely: a run is a list of [SinkOp]s. *)

From S2P Require Import Prelude Text Http Config Cel CelSession CelRegex CelFunctions.
From S2P Require Import CelEngine CheapExpr Precheck Matcher RouteTable.
From S2P Require Import VjsSocket VjsRegistry LoadBalancer Pingora ErrorPages Ctx.
From S2P Require Import Upstream Response Frame Middleware.
From stdpp Require Import base tactics strings list gmap.
From Stdlib Require Import ZArith Lia Ascii.

(** ** Sinks *)

Module Sink.

(** The task [access_log_writer]: not spawned yet, opening its file, waiting for
    a line, writing one, or ended with its receiver dropped. *)
Inductive Writer := NotSpawned | Opening | Waiting | Writing (line : string) | Gone.

(** [AccessLogSink]: [tx] is the content of the channel once it exists, and
    [file] what was appended to the file. *)
Record AccessLogSink := mkSink {
  path : string;
  tx : option (list string);
  writer : Writer;
  file : string;
}.

Definition new_sink (p : string) : AccessLogSink := mkSink p None NotSpawned "".

Definition CHANNEL_CAPACITY : nat := 1024.

(** [Sender::try_send]: fails when the receiver is gone or the channel full. *)
Definition try_send (line : string) (s : AccessLogSink) : bool * AccessLogSink :=
  match tx s, writer s with
  | Some q, Gone => (false, s)
  | Some q, w => if decide (length q < CHANNEL_CAPACITY)
                 then (true, mkSink (path s) (Some (q ++ [line])) w (file s))
                 else (false, s)
  | None, _ => (false, s)
  end.

(** [send_line]; [in_runtime] is whether there is a current runtime, and [append]
    appends to the file when it opens. The flag tells whether the line was
    queued. *)
Definition send_line (in_runtime : bool) (append : string → string → string) (line : string)
    (s : AccessLogSink) : bool * AccessLogSink :=
  match tx s with
  | Some _ => try_send line s
  | None =>
      if in_runtime then try_send line (mkSink (path s) (Some []) Opening (file s))
      else (false, mkSink (path s) (tx s) (writer s) (append line (file s)))
  end.

(** What can happen to a sink while requests run in the runtime. *)
Inductive SinkOp :=
| OpSend (line : string)
| OpOpen (opened : bool)
| OpRecv
| OpWritten
| OpWriteFailed (n : nat)
| OpRuntimeStops.

(** [access_log_writer], one action at a time. A write that fails may have
    appended the first bytes of its line. *)
Definition writer_step (o : SinkOp) (s : AccessLogSink) : AccessLogSink :=
  match o, writer s, tx s with
  | OpOpen opened, Opening, _ =>
      mkSink (path s) (tx s) (if opened then Waiting else Gone) (file s)
  | OpRecv, Waiting, Some (line :: q) => mkSink (path s) (Some q) (Writing line) (file s)
  | OpWritten, Writing line, _ => mkSink (path s) (tx s) Waiting (file s +:+ line)
  | OpWriteFailed n, Writing line, _ =>
      mkSink (path s) (tx s) Gone (file s +:+ String.substring 0 n line)
  | OpRuntimeStops, NotSpawned, _ => s
  | OpRuntimeStops, _, _ => mkSink (path s) (tx s) Gone (file s)
  | _, _, _ => s
  end.

Definition sink_step (o : SinkOp) (s : AccessLogSink) : list string * AccessLogSink :=
  match o with
  | OpSend line =>
      let '(queued, s') := send_line true (λ l f, f +:+ l) line s in
      (if queued : bool then [line] else [], s')
  | _ => ([], writer_step o s)
  end.

(** The lines queued by a run and the sink it leaves. *)
Fixpoint run (ops : list SinkOp) (s : AccessLogSink) : list string * AccessLogSink :=
  match ops with
  | [] => ([], s)
  | o :: ops' =>
      let '(q1, s1) := sink_step o s in
      let '(q2, s2) := run ops' s1 in
      (q1 ++ q2, s2)
  end.

(** The lines requests asked to log. *)
Definition sent (ops : list SinkOp) : list string :=
  omap (λ o, match o with OpSend l => Some l | _ => None end) ops.

(** ** Lines stay whole and in order *)

Fixpoint concat_lines (l : list string) : string :=
  match l with [] => "" | x :: l' => x +:+ concat_lines l' end.

Lemma concat_lines_app l1 l2 : concat_lines (l1 ++ l2) = concat_lines l1 +:+ concat_lines l2.
Proof. induction l1 as [|x l1 IH]; [done|]. simpl. by rewrite IH, append_assoc_str. Qed.

(** The lines that wait: in the writer's hands and in the channel. *)
Definition waiting (s : AccessLogSink) : list string :=
  (match writer s with Writing l => [l] | _ => [] end) ++ default [] (tx s).

(** The file holds whole lines, in the order they were queued; the rest of
    what was queued waits, unless the writer is gone. *)
Record sink_inv (queued : list string) (s : AccessLogSink) : Prop := {
  si_bound : length (default [] (tx s)) ≤ CHANNEL_CAPACITY;
  si_spawned : writer s = NotSpawned ↔ tx s = None;
  si_file : ∃ whole rest part,
    queued = whole ++ rest ∧ file s = concat_lines whole +:+ part ∧
    (writer s ≠ Gone → part = "" ∧ rest = waiting s) ∧
    (part = "" ∨ ∃ l n, head rest = Some l ∧ part = String.substring 0 n l);
}.

Lemma try_send_inv queued line s :
  sink_inv queued s → tx s ≠ None →
  sink_inv (queued ++ (if (try_send line s).1 then [line] else [])) (try_send line s).2.
Proof.
  intros [Hb Hw (whole & rest & part & Hq & Hf & Hwait & Hp)] Htx. unfold try_send.
  destruct (tx s) as [q|] eqn:Eq; [|done].
  assert (sink_inv (queued ++ []) s) as Hsame.
  { rewrite app_nil_r. split; rewrite ?Eq; try done. by exists whole, rest, part. }
  assert (writer s ≠ Gone → length q < CHANNEL_CAPACITY →
    sink_inv (queued ++ [line]) (mkSink (path s) (Some (q ++ [line])) (writer s) (file s))) as Hnew.
  { intros Hg Hl. destruct (Hwait Hg) as [-> ->]. split; simpl.
    - rewrite length_app. simpl. lia.
    - rewrite Hw. by split.
    - exists whole, (waiting s ++ [line]), "". rewrite Hq, <-app_assoc. split_and!; [done..| |by left].
      intros _. split; [done|]. unfold waiting. simpl. rewrite Eq. simpl. by rewrite app_assoc. }
  destruct (writer s) eqn:Ew; simpl; try done;
    (case_decide; simpl; [by apply Hnew|done]).
Qed.

(** The writer ends: what it wrote stays. *)
Lemma gone_inv queued s :
  sink_inv queued s → writer s ≠ NotSpawned →
  sink_inv queued (mkSink (path s) (tx s) Gone (file s)).
Proof.
  intros [Hb Hw (whole & rest & part & Hq & Hf & _ & Hp)] Hn. split; simpl; [done| |].
  - split; [done|]. by intros ?%Hw.
  - by exists whole, rest, part.
Qed.

(** The writer changes what it does, with the same lines waiting. *)
Lemma busy_inv queued s q w :
  sink_inv queued s → writer s ≠ Gone → writer s ≠ NotSpawned → w ≠ NotSpawned →
  length q ≤ CHANNEL_CAPACITY →
  waiting (mkSink (path s) (Some q) w (file s)) = waiting s →
  sink_inv queued (mkSink (path s) (Some q) w (file s)).
Proof.
  intros [Hb Hw (whole & rest & part & Hq & Hf & Hg & Hp)] Hng Hn Hn' Hl Hwait.
  destruct (Hg Hng) as [-> ->]. split; simpl; [done|by split|].
  exists whole, (waiting s), "". split_and!; [done..| |by left]. by rewrite Hwait.
Qed.

Lemma writer_step_inv o s queued : sink_inv queued s → sink_inv queued (writer_step o s).
Proof.
  intros Hi. pose proof (gone_inv queued s Hi) as Hgone.
  pose proof (λ q w, busy_inv queued s q w Hi) as Hbusy.
  destruct (id Hi) as [Hb Hw (whole & rest & part & Hq & Hf & Hg & Hp)].
  unfold writer_step. destruct o as [line|opened| | |n|], (writer s) eqn:Ew; try done;
    try (by apply Hgone); destruct (tx s) as [q|] eqn:Eq; 
    try (discriminate (proj2 Hw eq_refl)); try done.
  - destruct opened; [|by apply Hgone]. apply Hbusy; try done. unfold waiting. by rewrite Ew, Eq.
  - destruct q as [|line q]; [done|]. apply Hbusy; try done; [simpl in Hb; lia|].
    unfold waiting. by rewrite Ew, Eq.
  - destruct Hg as [-> ->]; [done|]. split; simpl; [done|by split|].
    exists (whole ++ [line]), q, "". rewrite Hq, Hf. unfold waiting. rewrite Ew, Eq. simpl.
    rewrite <-app_assoc, concat_lines_app. simpl. rewrite !append_empty_r.
    split_and!; [done..|by left].
  - destruct Hg as [-> ->]; [done|]. split; simpl; [done|by split|].
    exists whole, (waiting s), (String.substring 0 n line). rewrite Hq. unfold waiting.
    rewrite Hf, Ew, Eq, append_empty_r. simpl. split_and!; [done..|]. right. by exists line, n.
Qed.

Lemma sink_step_inv o s queued :
  sink_inv queued s → sink_inv (queued ++ (sink_step o s).1) (sink_step o s).2.
Proof.
  intros Hi. destruct o as [line|opened| | |n|]; cycle 1.
  1-5: cbn [sink_step fst snd]; rewrite app_nil_r; by apply writer_step_inv.
  assert (∃ s0, send_line true (λ l f, f +:+ l) line s = try_send line s0 ∧
    sink_inv queued s0 ∧ tx s0 ≠ None) as (s0 & E & Hi0 & Htx).
  { unfold send_line. destruct (tx s) as [q|] eqn:Eq; [exists s; by rewrite Eq|].
    eexists. split; [done|]. split; [|done].
    destruct Hi as [_ Hw (whole & rest & part & Hq & Hf & Hg & Hp)].
    rewrite Eq in Hw. assert (writer s = NotSpawned) as Ew by (by apply Hw).
    destruct Hg as [-> ->]; [by rewrite Ew|]. split; simpl; [lia|done|].
    exists whole, (waiting s), "". split_and!; [done..| |by left].
    intros _. split; [done|]. unfold waiting. simpl. by rewrite Ew, Eq. }
  pose proof (try_send_inv queued line s0 Hi0 Htx) as Ht. unfold sink_step. rewrite E.
  by destruct (try_send line s0) as [[] s1].
Qed.

Lemma run_inv ops s queued :
  sink_inv queued s → sink_inv (queued ++ (run ops s).1) (run ops s).2.
Proof.
  revert s queued. induction ops as [|o ops IH]; intros s queued Hi; simpl; [by rewrite app_nil_r|].
  pose proof (sink_step_inv o s queued Hi) as Hi1. destruct (sink_step o s) as [q1 s1].
  specialize (IH s1 _ Hi1). destruct (run ops s1) as [q2 s2]. simpl in *. by rewrite app_assoc.
Qed.

(** Queued lines are sent lines, in the order they were sent. *)
Lemma queued_sublist ops s : (run ops s).1 `sublist_of` sent ops.
Proof.
  revert s. induction ops as [|o ops IH]; intros s; simpl; [done|].
  destruct (sink_step o s) as [q1 s1] eqn:E. specialize (IH s1).
  destruct (run ops s1) as [q2 s2]. simpl in *.
  destruct o as [line|opened| | |n|]; simpl in *; try (by injection E as <- <-).
  destruct (send_line _ _ line s) as [[] s']; injection E as <- <-; simpl;
    [by constructor|by apply sublist_cons].
Qed.

(** C28: However requests, the writer, failures and the end of the runtime
    interleave, the file of a sink holds whole lines, in the order in which
    the requests logged them, with at most a part of one line after them; that
    part is there only once the writer has ended. No line that was queued is
    lost while the writer lives: it is in the file or waits for the writer. At
    most 1024 lines wait in the channel. *)
Theorem log_lines_whole p ops :
  let '(queued, s) := run ops (new_sink p) in
  length (default [] (tx s)) ≤ CHANNEL_CAPACITY ∧ queued `sublist_of` sent ops ∧
  ∃ whole rest part,
    queued = whole ++ rest ∧ file s = concat_lines whole +:+ part ∧
    (writer s ≠ Gone → part = "" ∧ rest = waiting s) ∧
    (part = "" ∨ ∃ l n, head rest = Some l ∧ part = String.substring 0 n l).
Proof.
  assert (sink_inv [] (new_sink p)) as Hi.
  { split; simpl; [lia|done|]. exists [], [], "". split_and!; [done..|by left]. }
  apply (run_inv ops) in Hi. pose proof (queued_sublist ops (new_sink p)) as Hs.
  destruct (run ops (new_sink p)) as [queued s]. destruct Hi as [Hb _ Hf]. by split_and!.
Qed.

(** Once the writer of a sink has ended, with the runtime it was spawned on or
    for a failure, nothing is logged to the file again: the sink keeps its
    closed channel. *)
Theorem dead_sink_stays_dead ops s :
  writer s = Gone → tx s ≠ None →
  (run ops s).1 = [] ∧ file (run ops s).2 = file s ∧ writer (run ops s).2 = Gone.
Proof.
  intros Hg Ht. assert (∀ o, sink_step o s = ([], s)) as Hstep.
  { destruct s as [sp [q|] w f]; simpl in *; [|done]. subst w.
    by intros [line|opened| | |n|]. }
  induction ops as [|o ops IH]; simpl; [done|]. rewrite Hstep.
  destruct (run ops s) as [q2 s2]. by simpl in *.
Qed.
End Sink.

(** ** The middleware *)

(** Formatting: [chrono]'s [to_rfc3339] of a time, [Display] of a URI and of
    a JSON value. [log_open] opens a file for appending. *)
Class LogLib := {
  rfc3339 : Z → string;
  uri_display : Uri → string;
  json_to_string : JsonValue → string;
  log_open : string → result unit string;
}.

(** The sinks of the process. *)
Class LogState `{MwTypes} := {
  get_sinks : MwState → gmap string Sink.AccessLogSink;
  put_sinks : gmap string Sink.AccessLogSink → MwState → MwState;
  get_put_sinks m s : get_sinks (put_sinks m s) = m;
  put_get_sinks s : put_sinks (get_sinks s) s = s;
  put_put_sinks m m' s : put_sinks m (put_sinks m' s) = put_sinks m s;
}.

(** [sink_for]: opening fails early; a path has one sink. *)
Definition sink_for `{LogLib} (path : string) (m : gmap string Sink.AccessLogSink)
    : result Sink.AccessLogSink string * gmap string Sink.AccessLogSink :=
  match map_err (λ e : string, "failed to open access log file '" +:+ path +:+ "': " +:+ e)
          (log_open path) with
  | Err e => (Err e, m)
  | Ok _ =>
      match m !! path with
      | Some existing => (Ok existing, m)
      | None => (Ok (Sink.new_sink path), <[path := Sink.new_sink path]> m)
      end
  end.

(** The sink of a path, whether it was created already or not. *)
Definition sink_at (path : string) (m : gmap string Sink.AccessLogSink) : Sink.AccessLogSink :=
  default (Sink.new_sink path) (m !! path).

(** Some sinks were created: those there were are the same, and a new one has
    nothing queued and no writer yet. *)
Definition sinks_added (m m' : gmap string Sink.AccessLogSink) : Prop :=
  ∀ path, m' !! path = m !! path ∨ m !! path = None ∧ m' !! path = Some (Sink.new_sink path).
Lemma sinks_added_refl m : sinks_added m m.
Proof. intros path. by left. Qed.
Lemma sinks_added_trans m1 m2 m3 : sinks_added m1 m2 → sinks_added m2 m3 → sinks_added m1 m3.
Proof. intros H12 H23 path. specialize (H12 path). specialize (H23 path). naive_solver congruence. Qed.

(** Creating a sink changes no sink. *)
Lemma sink_for_added `{LogLib} path m : sinks_added m (sink_for path m).2.
Proof.
  unfold sink_for. destruct (log_open path); simpl; [|apply sinks_added_refl].
  destruct (m !! path) as [x|] eqn:E; simpl; [apply sinks_added_refl|].
  intros path'. destruct (decide (path = path')) as [->|Hne]; [right|left].
  - by rewrite lookup_insert_eq.
  - by rewrite lookup_insert_ne.
Qed.

(** Of the middlewares' global state only the map of sinks changed, and only by
    new sinks. *)
Definition logs_added `{LogState} (g g' : MwState) : Prop :=
  ∃ k, g' = put_sinks k g ∧ sinks_added (get_sinks g) k.
Lemma logs_added_refl `{LogState} g : logs_added g g.
Proof. exists (get_sinks g). rewrite put_get_sinks. split; [done|apply sinks_added_refl]. Qed.
Lemma logs_added_trans `{LogState} g1 g2 g3 :
  logs_added g1 g2 → logs_added g2 g3 → logs_added g1 g3.
Proof.
  intros (k1 & -> & H1) (k2 & -> & H2). exists k2. rewrite put_put_sinks. split; [done|].
  rewrite get_put_sinks in H2. by eapply sinks_added_trans.
Qed.

Definition newline : string := String (ascii_of_nat 10) EmptyString.

(** The number of line ends in a text. *)
Fixpoint newlines (s : string) : nat :=
  match s with
  | EmptyString => 0
  | String a s' => (if decide (a = ascii_of_nat 10) then 1 else 0) + newlines s'
  end.

(** Compact JSON has no line end: control characters in strings are escaped. *)
Class LogLaws `{LogLib} := { json_one_line v : newlines (json_to_string v) = 0 }.

Lemma newlines_app x y : newlines (x +:+ y) = newlines x + newlines y.
Proof. induction x as [|a x IH]; [done|]. rewrite append_String. simpl. rewrite IH. lia. Qed.

Lemma parse_digits_newlines a s v : parse_digits a s = Some v → newlines s = 0.
Proof.
  revert a. induction s as [|c s IH]; intros a; simpl; [done|].
  destruct (digit_value c) as [d|] eqn:E; [|done]. intros Hp.
  rewrite decide_False; [by eapply IH|]. intros ->. by vm_compute in E.
Qed.

Lemma newlines_number z : (0 ≤ z)%Z → newlines (to_string_Z z) = 0.
Proof. intros Hz%parse_to_string_Z. by eapply parse_digits_newlines. Qed.

Module AccessLog.
Section AccessLog.
Context `{HttpLib, RegexLib, RuleLib, !CelLib, TlsLib, LbLib, MwTypes, PeerLib, FmtLib,
          !ProxyFmt, !LogLib, !LogState}.

Record AccessLogConfig := mkAccessLogConfig {
  cfg_format : option string;
  cfg_file : option string;
  cfg_ext : option string;
}.

Definition compile_ext (ext : string) : result Program string :=
  map_err (λ e : string, "failed to compile access_log.ext expression '" +:+ ext +:+ "': " +:+ e)
    (cel_compile ext).

Definition validate (c : AccessLogConfig) : result unit string :=
  match cfg_format c with
  | Some format => guard_err (negb (bool_decide (format = "text") || bool_decide (format = "json")))
                     "middleware access_log.format must be 'text' or 'json'"
  | None => Ok tt
  end ;?
  guard_err (is_empty (trim (default "" (cfg_file c)))) "middleware access_log.file is required" ;?
  match cfg_ext c with
  | Some ext => let? _ := compile_ext ext in Ok tt
  | None => Ok tt
  end.

(** The sink is the one of its path. *)
Record AccessLogMiddleware := mkAccessLog {
  json : bool;
  sink : string;
  ext_program : option Program;
}.

(** [from_config]: the sink is created in the map of the process. *)
Definition from_config (c : AccessLogConfig) (m : gmap string Sink.AccessLogSink)
    : result AccessLogMiddleware string * gmap string Sink.AccessLogSink :=
  let file := default "" (cfg_file c) in
  match (validate c ;? transpose compile_ext (cfg_ext c)) with
  | Err e => (Err e, m)
  | Ok ext_program =>
      let '(sink, m) := sink_for file m in
      (let? _ := sink in
       Ok (mkAccessLog (bool_decide (cfg_format c = Some "json")) file ext_program), m)
  end.

Lemma from_config_added c m : sinks_added m (from_config c m).2.
Proof.
  unfold from_config. destruct (_ ;? _); [|apply sinks_added_refl].
  pose proof (sink_for_added (default "" (cfg_file c)) m) as Hs.
  by destruct (sink_for _ m).
Qed.

Definition ext_text (v : result Value string) : string :=
  match v with
  | Ok (VString v) => v
  | Ok (VInt v) => to_string_Z v
  | Ok (VUInt v) => to_string_Z v
  | Ok (VFloat v) => float_to_string v
  | Ok (VBool v) => to_string_bool v
  | _ => ""
  end.
Definition eval_ext (m : AccessLogMiddleware) : M string :=
  match ext_program m with
  | None => mret ""
  | Some p => v ← execute p; mret (ext_text v)
  end.

(** [AccessLogStart]: the time is the context's extension. *)
Definition early_request_filter : M unit :=
  s ← get;
  modify_ctx (set_extensions (Some (env_now (sh_env (st_shared s))))).

(** What a line says. *)
Record Entry := mkEntry {
  e_ts : string;
  e_method : string;
  e_path : string;
  e_status : Z;
  e_latency_ms : Z;
  e_upstream : string;
  e_ext : string;
  e_error : option string;
}.

Definition text_line (e : Entry) : string :=
  let ext_suffix := if is_empty (e_ext e) then "" else " ext=" +:+ e_ext e in
  let error_suffix := match e_error e with Some x => " error=" +:+ x | None => "" end in
  e_ts e +:+ " " +:+ e_method e +:+ " " +:+ e_path e +:+ " status=" +:+
  to_string_Z (e_status e) +:+ " latency=" +:+ to_string_Z (e_latency_ms e) +:+ "ms upstream="
  +:+ e_upstream e +:+ ext_suffix +:+ error_suffix +:+ newline.

Definition json_line (e : Entry) : string :=
  json_to_string (JObject
    [("ts", JString (e_ts e)); ("method", JString (e_method e)); ("path", JString (e_path e));
     ("status", JNumber (to_string_Z (e_status e)));
     ("latency_ms", JNumber (to_string_Z (e_latency_ms e)));
     ("upstream", JString (e_upstream e)); ("ext", JString (e_ext e));
     ("error", match e_error e with Some x => JString x | None => JNull end)]) +:+ newline.

Definition entry (error : option Error) (ext : string) (s : St) : Entry :=
  let now := env_now (sh_env (st_shared s)) in
  let start := default now (ctx_extensions (st_ctx s)) in
  mkEntry (rfc3339 now) (req_method (ses_req_header (st_session s)))
    (uri_display (req_uri (ses_req_header (st_session s))))
    (match response_written (st_session s) with Some h => resp_status h | None => 0 end)
    (Z.max 0 (now - start))
    (match ctx_upstream_state (st_ctx s) ≫= us_last_backend with
     | Some b => addr_display (be_addr b) | None => "" end)
    ext (error_display <$> error).

Definition log_to (path line : string) : M unit := λ s,
  let sh := st_shared s in
  let m := get_sinks (sh_mw sh) in
  let sink' := (Sink.send_line true (λ l f, f +:+ l) line (sink_at path m)).2 in
  (Ok tt, mkSt (st_ctx s) (st_session s) (set_mw (put_sinks (<[path := sink']> m) (sh_mw sh)) sh)).

Definition logging (m : AccessLogMiddleware) (error : option Error) : M unit :=
  s ← get;
  ext ← eval_ext m;
  let e := entry error ext s in
  log_to (sink m) (if json m then json_line e else text_line e).

Definition hooks (m : AccessLogMiddleware) : Hooks :=
  with_logging (logging m) (with_early early_request_filter default_hooks).

Lemma framed_log_to path line : framed (log_to path line).
Proof. intros s. by apply keeps_frame_ctx. Qed.

Lemma access_log_framed m : hooks_framed (hooks m).
Proof.
  hooks_frame.
  - unfold early_request_filter. solve_framed.
  - unfold logging, eval_ext, ext_text. pose proof framed_log_to. solve_framed.
Qed.

(** ** What a request logs *)

Lemma eval_ext_run m s :
  ∃ ext s', eval_ext m s = (Ok ext, s') ∧ st_session s' = st_session s ∧
    st_shared s' = st_shared s ∧ (ext_program m = None → ext = "" ∧ s' = s).
Proof.
  unfold eval_ext. destruct (ext_program m) as [p|]; [|by exists "", s].
  unfold mbind, M_bind, execute. unfold mbind, M_bind. rewrite ensure_eq.
  by eexists _, _.
Qed.

(** Logging a request never fails, leaves its session alone, and sends exactly
    one line to the sink of the configured file and to no other; the line ends
    the text it belongs to. A JSON line is one line whatever the request
    holds. A text line is one line plus one for each line end in what it
    quotes, so it can be more than one only through [ext], the error, or a
    method, target or address that prints a line end. *)
Theorem log_one_line `{!LogLaws} m error s :
  (0 ≤ e_status (entry error "" s))%Z →
  ∃ ext s', logging m error s = (Ok tt, s') ∧ st_session s' = st_session s ∧
    let e := entry error ext s in
    let line := if json m then json_line e else text_line e in
    (∀ path, sink_at path (get_sinks (sh_mw (st_shared s'))) =
       let old := sink_at path (get_sinks (sh_mw (st_shared s))) in
       if decide (path = sink m) then (Sink.send_line true (λ l f, f +:+ l) line old).2 else old) ∧
    (∃ text, line = text +:+ newline) ∧
    newlines line =
      if json m then 1
      else 1 + newlines (e_ts e) + newlines (e_method e) + newlines (e_path e) +
           newlines (e_upstream e) + newlines (e_ext e) + newlines (default "" (e_error e)).
Proof.
  intros Hst. destruct (eval_ext_run m s) as (ext & s1 & Er & Es & Esh & _).
  exists ext. unfold logging. unfold mbind, M_bind, get. rewrite Er. unfold log_to.
  eexists. split; [reflexivity|]. split; [done|]. cbv zeta. split_and!.
  - intros path. simpl. rewrite get_put_sinks, Esh. unfold sink_at at 1.
    case_decide as Hp; [subst; by rewrite lookup_insert_eq|].
    by rewrite lookup_insert_ne.
  - destruct (json m); [by eexists|]. unfold text_line. eexists. by rewrite <-!append_assoc_str.
  - destruct (json m).
    + unfold json_line. by rewrite newlines_app, json_one_line.
    + assert (newlines (to_string_Z (e_status (entry error ext s))) = 0) as E1
        by (by apply newlines_number).
      assert (newlines (to_string_Z (e_latency_ms (entry error ext s))) = 0) as E2
        by (apply newlines_number; simpl; lia).
      unfold text_line. rewrite !newlines_app, E1, E2.
      replace (newlines (if is_empty (e_ext _) then _ else _)) with (newlines ext)
        by (by destruct ext).
      replace (newlines (match e_error _ with Some x => _ | None => _ end))
        with (newlines (default "" (e_error (entry error ext s)))) by (by destruct error).
      simpl. lia.
Qed.

(** A value of [ext] with a line end in it forges a line of a text log: what
    follows the line end stands on a line of its own. *)
Theorem ext_forges_line e a b :
  e_ext e = a +:+ newline +:+ b → e_error e = None →
  ∃ text, text_line e = text +:+ newline +:+ b +:+ newline.
Proof.
  intros He Hr. unfold text_line. rewrite He, Hr.
  replace (is_empty (a +:+ newline +:+ b)) with false by (by destruct a).
  eexists. rewrite append_empty. by rewrite <-!append_assoc_str.
Qed.

(** The upstream of a line is known only when a health check keeps track of it. *)
Lemma upstream_needs_health_check error ext s :
  ctx_upstream_state (st_ctx s) = None → e_upstream (entry error ext s) = "".
Proof. intros Hu. simpl. by rewrite Hu. Qed.
End AccessLog.
End AccessLog.

(** ** Witnesses *)

Module RefLog.
#[export] Instance lib : LogLib := {|
  rfc3339 t := to_string_Z t;
  uri_display u := default (uri_path u) (uri_path_and_query u);
  json_to_string _ := "{}";
  log_open p := if bool_decide (p = "/root/b.log") then Err "permission denied" else Ok tt;
|}.
#[export] Instance laws : LogLaws.
Proof. by split. Qed.
#[export] Instance types : MwTypes :=
  {| MW := unit; CacheHandler := unit; MwState := gmap string Sink.AccessLogSink |}.
#[export] Program Instance state : LogState :=
  {| get_sinks := λ s : gmap string Sink.AccessLogSink, s; put_sinks := λ m _, m |}.
Next Obligation. done. Qed.
Next Obligation. done. Qed.
Next Obligation. done. Qed.
End RefLog.

Section LogWitnesses.
Import Demo RefLb RefPeer RefFmt RefProxyFmt RefLog.
#[local] Existing Instance RefLog.types | 0.

Definition log_state : St :=
  mkSt (set_extensions (Some 990%Z)
          (set_session_cel_context (Some (ctx "a.com" "/")) (ProxyCtx_new Strict)))
    (new_session (view "a.com" "/x") None [])
    (mkShared' [] [] VjsRegistry.World_new [] ∅ env).
Definition demo_log : AccessLog.AccessLogMiddleware := AccessLog.mkAccessLog false "a.log" None.

Example demo_log_line :
  Sink.tx (sink_at "a.log" (sh_mw (st_shared (AccessLog.logging demo_log None log_state).2)))
  = Some ["1000 GET /x status=0 latency=10ms upstream=" +:+ newline].
Proof. reflexivity. Qed.

Lemma log_one_line_witness :
  ∃ ext s', AccessLog.logging demo_log None log_state = (Ok tt, s') ∧
    1 + newlines ext ≤ newlines (AccessLog.text_line (AccessLog.entry None ext log_state)).
Proof.
  destruct (AccessLog.log_one_line demo_log None log_state) as (ext & s' & Hr & _ & _ & _ & Hn).
  { vm_compute. congruence. }
  exists ext, s'. split; [exact Hr|]. change (AccessLog.json demo_log) with false in Hn. cbv iota in Hn.
  rewrite Hn. change (AccessLog.e_ext _) with ext. lia.
Defined.

Lemma ext_forges_line_witness :
  ∃ text, AccessLog.text_line
    (AccessLog.mkEntry "t" "GET" "/%0Aforged" 200 1 "" ("/" +:+ newline +:+ "forged") None)
    = text +:+ newline +:+ "forged" +:+ newline.
Proof. apply (AccessLog.ext_forges_line _ "/"); reflexivity. Defined.

(** A writer that has ended, as when the server of its runtime was stopped. *)
Example demo_restart :
  let '(queued, s) := Sink.run [Sink.OpSend "a"; Sink.OpOpen true; Sink.OpRecv; Sink.OpWritten;
                                Sink.OpRuntimeStops; Sink.OpSend "b"] (Sink.new_sink "a.log") in
  queued = ["a"] ∧ Sink.file s = "a" ∧ Sink.writer s = Sink.Gone.
Proof. by split_and!. Qed.

Lemma dead_sink_stays_dead_witness :
  Sink.file (Sink.run [Sink.OpSend "b"] (Sink.mkSink "a.log" (Some []) Sink.Gone "a")).2 = "a".
Proof. by apply Sink.dead_sink_stays_dead. Defined.
End LogWitnesses.
