(* ===== verification/MwCompression.v ===== *)
(** * Compression

    [src/middlewares/compression]: the configured levels are set on the
    downstream compression module of the session, and decompression on its
    upstream one. The modules are the framework's ([CompressionCtx]). *)

From S2P Require Import Prelude Text Http Config Cel CelSession CelRegex CelFunctions.
From S2P Require Import CelEngine CheapExpr Precheck Matcher RouteTable.
From S2P Require Import VjsSocket VjsRegistry LoadBalancer Pingora ErrorPages Ctx.
From S2P Require Import Upstream Response Frame Middleware.
From stdpp Require Import base tactics strings list gmap.
From Stdlib Require Import ZArith Lia.

(** What the module documents: a setting that was adjusted has the new value,
    and the others keep theirs. *)
Class CompressionLaws `{HttpLib} := {
  comp_level : Algorithm → CompressionCtx → option Z;
  comp_decompress : CompressionCtx → bool;
  comp_preserve_etag : CompressionCtx → bool;
  comp_level_adjust a b n c :
    comp_level b (adjust_algorithm_level a n c) = if decide (a = b) then Some n else comp_level b c;
  comp_level_decompress b x c : comp_level b (adjust_decompression x c) = comp_level b c;
  comp_level_etag b x c : comp_level b (adjust_preserve_etag x c) = comp_level b c;
  comp_decompress_adjust x c : comp_decompress (adjust_decompression x c) = x;
  comp_decompress_etag x c : comp_decompress (adjust_preserve_etag x c) = comp_decompress c;
  comp_etag_adjust x c : comp_preserve_etag (adjust_preserve_etag x c) = x;
  comp_etag_level a n c :
    comp_preserve_etag (adjust_algorithm_level a n c) = comp_preserve_etag c;
  comp_etag_decompress x c :
    comp_preserve_etag (adjust_decompression x c) = comp_preserve_etag c;
}.

Module Compression.
Section Compression.
Context `{HttpLib, RegexLib, RuleLib, !CelLib, TlsLib, LbLib, MwTypes}.

Record CompressionConfig := mkCompressionConfig {
  gzip : option N;
  br : option N;
  zstd : option N;
  decompress_upstream : option bool;
  preserve_etag : option bool;
  rule : option string;
}.

(** [validate_level]; a level is a [u32]. *)
Definition validate_level (name : string) (level : option N) : result unit string :=
  match level with
  | Some n => guard_err (11 <? n)%N ("middleware compression." +:+ name +:+ " must be within [0, 11]")
  | None => Ok tt
  end.

Definition validate (c : CompressionConfig) : result unit string :=
  validate_level "gzip" (gzip c) ;?
  validate_level "br" (br c) ;?
  validate_level "zstd" (zstd c).

Record CompressionMiddleware := mkCompression {
  cfg : CompressionConfig;
  cel_program : option Program;
}.

Definition from_config (c : CompressionConfig) : result CompressionMiddleware string :=
  validate c ;?
  let? cel_program := transpose (compile_named "compression rule") (rule c) in
  Ok (mkCompression c cel_program).

(** [if let Some(v) = o { f(v) }]. *)
Definition adjust {A} (f : A → CompressionCtx → CompressionCtx) (o : option A)
    (c : CompressionCtx) : CompressionCtx :=
  match o with Some v => f v c | None => c end.

Definition adjust_downstream (c : CompressionConfig) (x : CompressionCtx) : CompressionCtx :=
  let x := adjust (adjust_algorithm_level Gzip) (Z.of_N <$> gzip c) x in
  let x := adjust (adjust_algorithm_level Brotli) (Z.of_N <$> br c) x in
  let x := adjust (adjust_algorithm_level Zstd) (Z.of_N <$> zstd c) x in
  adjust adjust_preserve_etag (preserve_etag c) x.

Definition apply_downstream (m : CompressionMiddleware) : M unit :=
  s ← get;
  match ses_compression (st_session s) with
  | None => fail (middleware_internal_error "compression downstream module missing"
                    "downstream compression module is not initialized")
  | Some x => modify_session (λ s, set_compression (Some (adjust_downstream (cfg m) x))
                                     (ses_upstream_compression s) s)
  end.

Definition adjust_upstream (c : CompressionConfig) (x : CompressionCtx) : CompressionCtx :=
  let x := adjust adjust_decompression (decompress_upstream c) x in
  adjust adjust_preserve_etag (preserve_etag c) x.

Definition apply_upstream (m : CompressionMiddleware) : M unit :=
  modify_session (λ s, set_compression (ses_compression s)
                         (adjust_upstream (cfg m) (ses_upstream_compression s)) s).

Definition early_request_filter (m : CompressionMiddleware) : M unit :=
  when_applies (cel_program m) tt (_ ← apply_downstream m; apply_upstream m).

Definition hooks (m : CompressionMiddleware) : Hooks :=
  with_early (early_request_filter m) default_hooks.

Lemma compression_framed m : hooks_framed (hooks m).
Proof.
  hooks_frame. unfold early_request_filter, apply_downstream, apply_upstream.
  apply framed_when_applies. solve_framed.
Qed.

(** The configured level of an algorithm. *)
Definition configured (c : CompressionConfig) (a : Algorithm) : option Z :=
  Z.of_N <$> match a with Gzip => gzip c | Brotli => br c | Zstd => zstd c end.

Lemma validate_levels c :
  validate c = Ok tt → ∀ a n, configured c a = Some n → (0 ≤ n ≤ 11)%Z.
Proof.
  unfold validate, validate_level. rewrite !bind_ok_unit. intros (Hg & Hb & Hz) a n Hn.
  destruct a; unfold configured in Hn; apply fmap_Some in Hn as (x & Hx & ->); rewrite Hx in *;
    match goal with H : guard_err _ _ = _ |- _ => apply guard_err_ok, N.ltb_ge in H end; lia.
Qed.

(** When the middleware applies, the downstream module has exactly the
    configured levels, each at most 11, every algorithm that is not configured
    keeps its level, and the upstream module decompresses as configured; a
    session without the module is an error. Nothing else of the session
    changes. *)
Theorem compression_settings `{!CompressionLaws} c m s x ctx s' r :
  from_config c = Ok m → ctx_session_cel_context (st_ctx s) = Some ctx →
  applies (cel_program m) s = true → early_request_filter m s = (r, s') →
  ses_compression (st_session s) = Some x →
  r = Ok tt ∧ ∃ x',
    st_session s' = set_compression (Some x')
      (adjust_upstream c (ses_upstream_compression (st_session s))) (st_session s) ∧
    (∀ a, comp_level a x' = match configured c a with
                            | Some n => Some n | None => comp_level a x end) ∧
    (∀ a n, configured c a = Some n → (0 ≤ n ≤ 11)%Z) ∧
    comp_preserve_etag x' = default (comp_preserve_etag x) (preserve_etag c) ∧
    comp_decompress (adjust_upstream c (ses_upstream_compression (st_session s)))
      = default (comp_decompress (ses_upstream_compression (st_session s)))
          (decompress_upstream c).
Proof.
  intros Hm Hc Ha. unfold early_request_filter. rewrite (when_applies_read _ _ _ _ _ Hc), Ha.
  assert (cfg m = c ∧ validate c = Ok tt) as [Ec Hv].
  { unfold from_config in Hm. destruct (validate c) as [[]|]; [|done]. simpl in Hm. invert_ok.
    by simplify_eq. }
  unfold mbind, M_bind, apply_downstream, apply_upstream. unfold mbind, M_bind, get, modify_session.
  intros Hr Hx. rewrite Hx in Hr. rewrite Ec in Hr. cbn in Hr. injection Hr as <- <-.
  split; [done|]. exists (adjust_downstream c x). split; [done|]. split_and!.
  - intros a. unfold adjust_downstream, adjust, configured.
    destruct (gzip c), (br c), (zstd c), (preserve_etag c), a; cbn;
      rewrite ?comp_level_etag, ?comp_level_adjust; repeat case_decide; try done; congruence.
  - by apply validate_levels.
  - unfold adjust_downstream, adjust. destruct (gzip c), (br c), (zstd c), (preserve_etag c);
      cbn; by rewrite ?comp_etag_adjust, ?comp_etag_level.
  - unfold adjust_upstream, adjust. destruct (decompress_upstream c), (preserve_etag c);
      cbn; by rewrite ?comp_decompress_etag, ?comp_decompress_adjust.
Qed.
End Compression.
End Compression.

(** ** Witness *)

Module RefCompression.
#[export] Program Instance laws : @CompressionLaws AssocHttp.http := {|
  comp_level a c := snd <$> find (λ x, bool_decide (x.1 = a)) (AssocHttp.rz_levels c);
  comp_decompress := AssocHttp.rz_decompress;
  comp_preserve_etag := AssocHttp.rz_preserve_etag;
|}.
Next Obligation. intros a b n c. simpl. case_decide; case_bool_decide; simplify_eq; done. Qed.
Solve Obligations with done.
End RefCompression.

Section CompressionWitness.
Import Demo RefLb RefPeer RefCompression.

Lemma compression_settings_witness :
  let c := Compression.mkCompressionConfig (Some 6%N) None None (Some true) None None in
  let s := mkSt (set_session_cel_context (Some (ctx "a.com" "/")) (ProxyCtx_new Strict))
             (new_session (view "a.com" "/") None []) demo_shared in
  ∃ x', comp_level Gzip x' = Some 6%Z ∧ comp_level Zstd x' = None ∧
    ses_compression (st_session
      (Compression.early_request_filter (Compression.mkCompression c None) s).2) = Some x'.
Proof.
  intros c s.
  destruct (Compression.early_request_filter (Compression.mkCompression c None) s) as [r s'] eqn:E.
  destruct (Compression.compression_settings c (Compression.mkCompression c None) s compression_new
              (ctx "a.com" "/") s' r eq_refl eq_refl eq_refl E eq_refl)
    as (_ & x' & Hs & Hl & _).
  exists x'. split_and!; [apply (Hl Gzip)|apply (Hl Zstd)|]. simpl. by rewrite Hs.
Defined.
End CompressionWitness.
