(* ===== verification/MwRequest.v ===== *)
(** * Middlewares that redirect or rewrite a request

    [src/middlewares/redirect], [redirect_https], [rewrite] and
    [rewrite_method]. *)

From S2P Require Import Prelude Text Http Config Cel CelSession CelRegex CelFunctions.
From S2P Require Import CelEngine CheapExpr Precheck Matcher RouteTable.
From S2P Require Import VjsSocket VjsRegistry LoadBalancer Pingora ErrorPages Ctx.
From S2P Require Import Upstream Response Frame Middleware.
From stdpp Require Import base tactics strings list gmap.
From Stdlib Require Import ZArith Lia Ascii.

(** The codes a redirect may use. *)
Definition redirect_code (code : Z) : bool :=
  bool_decide (code ∈ [301; 302; 303; 307; 308]%Z).

(** [uri.path_and_query().map(|v| v.as_str()).unwrap_or("/")]. *)
Definition path_and_query `{HttpLib} (ses : Session) : string :=
  default "/" (uri_path_and_query (req_uri (ses_req_header ses))).

(** ** Redirect *)

Module Redirect.
Section Redirect.
Context `{HttpLib, RegexLib, RuleLib, !CelLib, TlsLib, LbLib, MwTypes}.

Inductive RedirectTargetConfig :=
| CfgStatic (target : string)
| CfgCel (expression : string)
| CfgRegexReplace (find replace : string).
Record RedirectConfig := mkRedirectConfig {
  cfg_code : Z;
  cfg_target : RedirectTargetConfig;
  cfg_rule : option string;
}.

Definition validate (c : RedirectConfig) : result unit string :=
  guard_err (negb (redirect_code (cfg_code c)))
    "middleware redirect.code must be one of 301,302,303,307,308" ;?
  match cfg_target c with
  | CfgStatic target => guard_err (is_empty (trim target))
                          "middleware redirect.target cannot be empty"
  | CfgCel expression => guard_err (is_empty (trim expression))
                           "middleware redirect.expression cannot be empty"
  | CfgRegexReplace find _ => guard_err (is_empty find)
                                "middleware redirect.find cannot be empty"
  end.

Inductive RedirectTarget :=
| Static (target : string)
| Cel (program : Program)
| RegexReplace (regex : Regex) (replace : string).
Record RedirectMiddleware := mkRedirect {
  code : Z;
  target : RedirectTarget;
  cel_program : option Program;
}.

Definition from_config (c : RedirectConfig) : result RedirectMiddleware string :=
  validate c ;?
  let? target :=
    match cfg_target c with
    | CfgStatic target => Ok (Static target)
    | CfgCel expression =>
        let? p := compile_named "redirect expression" expression in Ok (Cel p)
    | CfgRegexReplace find replace =>
        let? regex := map_err (λ e, "middleware redirect.find is invalid regex: " +:+ e)
                        (regex_new find) in
        Ok (RegexReplace regex replace)
    end in
  let? cel_program := transpose (compile_named "redirect rule") (cfg_rule c) in
  Ok (mkRedirect (cfg_code c) target cel_program).

Definition target_location (m : RedirectMiddleware) : M (option string) :=
  match target m with
  | Static v => mret (Some v)
  | Cel p =>
      v ← execute p;
      mret (match v with Ok (VString v) => Some v | _ => None end)
  | RegexReplace regex replace =>
      s ← get;
      let input := path_and_query (st_session s) in
      mret (if regex_is_match regex input then Some (regex_replace regex input replace)
            else None)
  end.

Definition location_headers (location : string) : list (string * string * string) :=
  [("redirect insert location failed", "Location", location);
   ("redirect insert content-length failed", "Content-Length", "0")].

Definition request_filter (m : RedirectMiddleware) : M bool :=
  when_applies (cel_program m) false
    (location ← target_location m;
     match location with
     | None => mret false
     | Some location =>
         _ ← header_only "redirect create response header failed"
               "redirect write response failed" (code m) (location_headers location);
         mret true
     end).

Definition hooks (m : RedirectMiddleware) : Hooks :=
  with_request_filter (request_filter m) default_hooks.

Lemma redirect_framed m : hooks_framed (hooks m).
Proof.
  hooks_frame. unfold request_filter, target_location.
  apply framed_when_applies. solve_framed.
Qed.

(** A redirect writes one header with the configured code and location. *)
Lemma request_filter_wire `{!HttpLaws} m s c s' :
  ctx_session_cel_context (st_ctx s) = Some c → request_filter m s = (Ok true, s') →
  ∃ h location, (target_location m s).1 = Ok (Some location) ∧
    ses_written (st_session s') = ses_written (st_session s) ++ [WroteHeader h true] ∧
    resp_status h = code m ∧ hm_get_all "Location" (resp_headers h) = [location].
Proof.
  intros Hc. unfold request_filter. rewrite (when_applies_read _ _ _ _ _ Hc).
  destruct (applies (cel_program m) s); [|done]. unfold mbind, M_bind.
  assert ((target_location m s).2 = s) as Es.
  { unfold target_location. destruct (target m); [done| |done].
    unfold mbind, M_bind. by rewrite (execute_eq _ _ _ Hc). }
  destruct (target_location m s) as [[[loc|]|] s1]; try done. simpl in Es. subst s1.
  destruct (header_only _ _ _ _ s) as [[[]|] s2] eqn:E; [|done]. intros [= <-].
  apply header_only_run in E as (_ & _ & h & Hw & Hst & Hg).
  exists h, loc. split_and!; [done..|].
  eapply (Hg []); [reflexivity|]. by repeat constructor.
Qed.
End Redirect.
End Redirect.

(** ** Redirect to HTTPS *)

Module RedirectHttps.
Section RedirectHttps.
Context `{HttpLib, RegexLib, RuleLib, !CelLib, TlsLib, LbLib, MwTypes}.

Record RedirectHttpsConfig := mkRedirectHttpsConfig {
  cfg_code : option Z;
  cfg_port : option Z;
  cfg_to_http : option bool;
  cfg_rule : option string;
}.

Definition validate (c : RedirectHttpsConfig) : result unit string :=
  match cfg_code c with
  | Some code => guard_err (negb (redirect_code code))
                   "middleware redirect_https.code must be one of 301,302,303,307,308"
  | None => Ok tt
  end.

Record RedirectHttpsMiddleware := mkRedirectHttps {
  code : Z;
  port : option Z;
  to_http : bool;
  cel_program : option Program;
}.

Definition from_config (c : RedirectHttpsConfig) : result RedirectHttpsMiddleware string :=
  validate c ;?
  let? cel_program := transpose (compile_named "redirect_https rule") (cfg_rule c) in
  Ok (mkRedirectHttps (default 301 (cfg_code c))%Z (cfg_port c) (default false (cfg_to_http c))
        cel_program).

(** The host without its port, from the [Host] header or the authority. *)
Definition redirect_host (ses : Session) : option string :=
  let req := ses_req_header ses in
  match header_text "host" (req_headers req) with
  | Some h => Some (split_on ":" h).1
  | None => authority_host <$> uri_authority (req_uri req)
  end.

Definition scheme_of (m : RedirectHttpsMiddleware) : string :=
  if to_http m then "http" else "https".

Definition port_suffix (m : RedirectHttpsMiddleware) : string :=
  match port m with
  | Some port =>
      let target_port := (if to_http m then 80 else 443)%Z in
      if decide (port = target_port) then "" else ":" +:+ to_string_Z port
  | None => ""
  end.

Definition redirect_location (m : RedirectHttpsMiddleware) (ses : Session) : option string :=
  match redirect_host ses with
  | None => None
  | Some host =>
      Some (scheme_of m +:+ "://" +:+ host +:+ port_suffix m +:+ path_and_query ses)
  end.

Definition request_scheme (ses : Session) : string :=
  let by_tls := match sv_ssl_digest (ses_view ses) with Some _ => "https" | None => "http" end in
  match uri_scheme_str (req_uri (ses_req_header ses)) with
  | Some s =>
      if eq_ignore_ascii_case s "https" then "https"
      else if eq_ignore_ascii_case s "http" then "http" else by_tls
  | None => by_tls
  end.

Definition location_headers (location : string) : list (string * string * string) :=
  [("redirect_https insert location failed", "Location", location);
   ("redirect_https insert content-length failed", "Content-Length", "0")].

Definition request_filter (m : RedirectHttpsMiddleware) : M bool :=
  when_applies (cel_program m) false
    (s ← get;
     let scheme := request_scheme (st_session s) in
     if (negb (to_http m) && bool_decide (scheme = "https"))
        || (to_http m && bool_decide (scheme = "http"))
     then mret false
     else match redirect_location m (st_session s) with
          | None => mret false
          | Some location =>
              _ ← header_only "redirect_https create response header failed"
                    "redirect_https write response failed" (code m) (location_headers location);
              mret true
          end).

Definition hooks (m : RedirectHttpsMiddleware) : Hooks :=
  with_request_filter (request_filter m) default_hooks.

Lemma redirect_https_framed m : hooks_framed (hooks m).
Proof.
  hooks_frame. unfold request_filter. apply framed_when_applies.
  solve_framed.
Qed.

Lemma request_scheme_cases ses : request_scheme ses = "https" ∨ request_scheme ses = "http".
Proof. unfold request_scheme. repeat case_match; auto. Qed.

(** What the redirecting branch leaves behind. *)
Lemma redirect_written `{!HttpLaws} m s r s' :
  redirect_code (code m) = true →
  match redirect_location m (st_session s) with
  | None => mret false
  | Some location =>
      _ ← header_only "redirect_https create response header failed"
            "redirect_https write response failed" (code m) (location_headers location);
      mret true
  end s = (Ok r, s') →
  (r = false → s' = s) ∧
  (r = true → ∃ h host rest, redirect_host (st_session s) = Some host ∧
     ses_written (st_session s') = ses_written (st_session s) ++ [WroteHeader h true] ∧
     redirect_code (resp_status h) = true ∧
     hm_get_all "Location" (resp_headers h) = [scheme_of m +:+ "://" +:+ host +:+ rest]).
Proof.
  intros Hcode. unfold redirect_location.
  destruct (redirect_host (st_session s)) as [host|]; [|by intros [= <- <-]].
  unfold mbind, M_bind. match goal with |- context [header_only ?a ?b ?c ?d s] =>
    destruct (header_only a b c d s) as [[[]|] s2] eqn:E end; [|done].
  intros [= <- <-]. split; [done|]. intros _.
  apply header_only_run in E as (_ & _ & h & Hw & Hst & Hg).
  eexists h, host, _. split_and!; [done|done|by rewrite Hst|].
  eapply (Hg []); [reflexivity|by repeat constructor].
Qed.

(** The scheme redirect cannot loop and goes where it says: a request that
    already uses the wanted scheme passes untouched; a redirected one used the
    other scheme and gets exactly one response header, with a redirect code
    and a [Location] that starts with the wanted scheme and the host the
    request named. *)
Theorem redirect_https_target `{!HttpLaws} cfg m s c r s' :
  from_config cfg = Ok m → ctx_session_cel_context (st_ctx s) = Some c →
  request_filter m s = (Ok r, s') →
  (request_scheme (st_session s) = scheme_of m → r = false ∧ s' = s) ∧
  (r = false → s' = s) ∧
  (r = true → request_scheme (st_session s) ≠ scheme_of m ∧
     ∃ h host rest, redirect_host (st_session s) = Some host ∧
       ses_written (st_session s') = ses_written (st_session s) ++ [WroteHeader h true] ∧
       redirect_code (resp_status h) = true ∧
       hm_get_all "Location" (resp_headers h) = [scheme_of m +:+ "://" +:+ host +:+ rest]).
Proof.
  intros Hm Hc. assert (redirect_code (code m) = true) as Hcode.
  { unfold from_config, validate in Hm. destruct (cfg_code cfg) as [k|] eqn:Ek;
      invert_ok; simplify_eq; simpl; [|done]. by apply negb_false_iff. }
  unfold request_filter. rewrite (when_applies_read _ _ _ _ _ Hc).
  destruct (applies (cel_program m) s); [|by intros [= <- <-]].
  unfold mbind at 1, M_bind at 1, get.
  assert ((negb (to_http m) && bool_decide (request_scheme (st_session s) = "https"))
        || (to_http m && bool_decide (request_scheme (st_session s) = "http"))
        = bool_decide (request_scheme (st_session s) = scheme_of m)) as ->.
  { unfold scheme_of. by destruct (to_http m); simpl; rewrite ?orb_false_r. }
  case_bool_decide as Hs; [by intros [= <- <-]|]. intros Hrun.
  destruct (redirect_written m s r s' Hcode Hrun) as [Hf Ht].
  split; [done|]. split; [exact Hf|]. intros Hr. split; [exact Hs|by apply Ht].
Qed.
End RedirectHttps.
End RedirectHttps.

(** ** Rewrite *)

Module Rewrite.
Section Rewrite.
Context `{HttpLib, RegexLib, RuleLib, !CelLib, TlsLib, LbLib, MwTypes}.

Inductive RewriteModeConfig :=
| CfgRegexRewrite (find replace : string)
| CfgCelRewrite (expression : string).
Record RewriteConfig := mkRewriteConfig {
  cfg_mode : RewriteModeConfig;
  cfg_rule : option string;
}.

Definition validate (c : RewriteConfig) : result unit string :=
  match cfg_mode c with
  | CfgRegexRewrite find _ => guard_err (is_empty find)
                                "middleware rewrite.find cannot be empty"
  | CfgCelRewrite expression => guard_err (is_empty (trim expression))
                                  "middleware rewrite.expression cannot be empty"
  end.

Inductive RewriteMode :=
| RegexRewrite (regex : Regex) (replace : string)
| CelRewrite (program : Program).
Record RewriteMiddleware := mkRewrite {
  mode : RewriteMode;
  cel_program : option Program;
}.

Definition from_config (c : RewriteConfig) : result RewriteMiddleware string :=
  validate c ;?
  let? mode :=
    match cfg_mode c with
    | CfgRegexRewrite find replace =>
        let? regex := map_err (λ e, "middleware rewrite.find is invalid regex: " +:+ e)
                        (regex_new find) in
        Ok (RegexRewrite regex replace)
    | CfgCelRewrite expression =>
        let? p := compile_named "rewrite expression" expression in Ok (CelRewrite p)
    end in
  let? cel_program := transpose (compile_named "rewrite rule") (cfg_rule c) in
  Ok (mkRewrite mode cel_program).

Definition rewrite_path (m : RewriteMiddleware) (path_and_query : string) : M (option string) :=
  match mode m with
  | RegexRewrite regex replace =>
      mret (if regex_is_match regex path_and_query
            then Some (regex_replace regex path_and_query replace) else None)
  | CelRewrite p =>
      v ← execute p;
      mret (match v with Ok (VString v) => Some v | _ => None end)
  end.

Definition rooted (path : string) : string :=
  if starts_with "/" path then path else "/" +:+ path.

Definition request_filter (m : RewriteMiddleware) : M bool :=
  when_applies (cel_program m) false
    (s ← get;
     new_path ← rewrite_path m (path_and_query (st_session s));
     match new_path with
     | None => mret false
     | Some new_path =>
         let old_uri := req_uri (ses_req_header (st_session s)) in
         uri ← lift (map_err (middleware_internal_error "rewrite builds invalid uri")
                       (uri_build (uri_scheme_str old_uri)
                          (authority_as_str <$> uri_authority old_uri) (rooted new_path)));
         _ ← modify_session (λ ses, set_req_header (req_set_uri uri (ses_req_header ses)) ses);
         mret false
     end).

Definition hooks (m : RewriteMiddleware) : Hooks :=
  with_request_filter (request_filter m) default_hooks.

Lemma rewrite_framed m : hooks_framed (hooks m).
Proof.
  hooks_frame. unfold request_filter, rewrite_path.
  apply framed_when_applies. solve_framed.
Qed.

Lemma rewrite_path_state m p s c :
  ctx_session_cel_context (st_ctx s) = Some c →
  ∃ o, rewrite_path m p s = (Ok o, s).
Proof.
  intros Hc. unfold rewrite_path. destruct (mode m); [by eexists|].
  unfold mbind, M_bind. rewrite (execute_eq _ _ _ Hc). by eexists.
Qed.

Lemma rooted_slash p : starts_with "/" (rooted p) = true.
Proof. unfold rooted. by destruct (starts_with "/" p) eqn:E. Qed.

(** Rewriting changes the path and query of a request and nothing else: it
    never answers the request, never moves it to another scheme or
    authority, leaves method, headers and response untouched, the new path
    starts with a slash, and a rewrite that is refused (an invalid URI)
    leaves the request as it was. What rules see of the request stays what
    the client sent. *)
Theorem rewrite_keeps_origin `{!HttpLaws} m s c :
  ctx_session_cel_context (st_ctx s) = Some c →
  let '(r, s') := request_filter m s in
  let req := ses_req_header (st_session s) in
  let req' := ses_req_header (st_session s') in
  r ≠ Ok true ∧ (is_ok r = false → s' = s) ∧
  st_ctx s' = st_ctx s ∧ ses_written (st_session s') = ses_written (st_session s) ∧
  req_method req' = req_method req ∧ req_headers req' = req_headers req ∧
  uri_scheme_str (req_uri req') = uri_scheme_str (req_uri req) ∧
  authority_as_str <$> uri_authority (req_uri req')
    = authority_as_str <$> uri_authority (req_uri req) ∧
  (req' = req ∨ ∃ p, uri_path_and_query (req_uri req') = Some p ∧ starts_with "/" p = true).
Proof.
  intros Hc. unfold request_filter. rewrite (when_applies_read _ _ _ _ _ Hc).
  destruct (applies (cel_program m) s); [|split_and!; try done; by left].
  unfold mbind, M_bind, get.
  destruct (rewrite_path_state m (path_and_query (st_session s)) s c Hc) as [o ->].
  destruct o as [new_path|]; [|split_and!; try done; by left]. unfold lift.
  destruct (uri_build _ _ (rooted new_path)) as [uri|] eqn:E; simpl;
    [|split_and!; try done; by left].
  apply uri_build_Ok in E as (Es & Ea & Ep).
  split_and!; try done. right. exists (rooted new_path). split; [done|apply rooted_slash].
Qed.
End Rewrite.
End Rewrite.

(** ** Rewrite the method *)

(** [Method::from_bytes], with the method as its text. *)
Class MethodLib := { method_from_bytes : string → result string string }.

Module RewriteMethod.
Section RewriteMethod.
Context `{HttpLib, RegexLib, RuleLib, !CelLib, TlsLib, LbLib, MwTypes, !MethodLib}.

Record RewriteMethodConfig := mkRewriteMethodConfig {
  cfg_method : string;
  cfg_rule : option string;
}.

Definition invalid_method (e : string) : string :=
  "middleware rewrite_method.method is invalid: " +:+ e.
Definition validate (c : RewriteMethodConfig) : result unit string :=
  guard_err (is_empty (trim (cfg_method c)))
    "middleware rewrite_method.method cannot be empty" ;?
  map_err invalid_method (method_from_bytes (cfg_method c)) ;?
  Ok tt.

Record RewriteMethodMiddleware := mkRewriteMethod {
  method : string;
  cel_program : option Program;
}.

Definition from_config (c : RewriteMethodConfig) : result RewriteMethodMiddleware string :=
  validate c ;?
  let? method := map_err invalid_method (method_from_bytes (cfg_method c)) in
  let? cel_program := transpose (compile_named "rewrite_method rule") (cfg_rule c) in
  Ok (mkRewriteMethod method cel_program).

Definition request_filter (m : RewriteMethodMiddleware) : M bool :=
  when_applies (cel_program m) false
    (_ ← modify_session (λ ses, set_req_header (req_set_method (method m) (ses_req_header ses)) ses);
     mret false).

Definition hooks (m : RewriteMethodMiddleware) : Hooks :=
  with_request_filter (request_filter m) default_hooks.

Lemma rewrite_method_framed m : hooks_framed (hooks m).
Proof.
  hooks_frame. unfold request_filter. apply framed_when_applies.
  solve_framed.
Qed.
End RewriteMethod.
End RewriteMethod.

(** ** Witnesses *)

Section RequestWitnesses.
Import Demo RefLb RefPeer.

(** A cleartext request for [a.com:8080/x] whose context was read. *)
Definition http_state : St :=
  mkSt (set_session_cel_context (Some (ctx "a.com:8080" "/x")) (ProxyCtx_new Strict))
    (new_session (view "a.com:8080" "/x") None []) demo_shared.

Definition demo_https : RedirectHttps.RedirectHttpsMiddleware :=
  RedirectHttps.mkRedirectHttps 301 (Some 8443%Z) false None.

Example demo_https_runs :
  match RedirectHttps.request_filter demo_https http_state with
  | (Ok b, s') => b = true ∧
      match ses_written (st_session s') with
      | [WroteHeader h true] =>
          hm_get_all "location" (resp_headers h) = ["https://a.com:8443/x"]
      | _ => False
      end
  | _ => False
  end.
Proof. vm_compute. repeat split; reflexivity. Qed.

Lemma redirect_https_target_witness :
  RedirectHttps.from_config (RedirectHttps.mkRedirectHttpsConfig None (Some 8443%Z) None None)
    = Ok demo_https ∧
  match RedirectHttps.request_filter demo_https http_state with
  | (Ok b, s') => b = true ∧ ∃ h, ses_written (st_session s') = [WroteHeader h true]
  | _ => False
  end.
Proof.
  split; [reflexivity|]. pose proof demo_https_runs as Hd.
  destruct (RedirectHttps.request_filter demo_https http_state) as [[b|] s'] eqn:E;
    [|destruct Hd]. destruct Hd as [-> _]. split; [reflexivity|].
  destruct (RedirectHttps.redirect_https_target
              (RedirectHttps.mkRedirectHttpsConfig None (Some 8443%Z) None None)
              demo_https http_state (ctx "a.com:8080" "/x") true s' eq_refl eq_refl E)
    as (_ & _ & Ht).
  destruct (Ht eq_refl) as (_ & h & host & rest & _ & Hw & _). exists h. exact Hw.
Defined.

Lemma rewrite_keeps_origin_witness :
  let '(r, s') := Rewrite.request_filter
                    (Rewrite.mkRewrite (Rewrite.CelRewrite (Literal (LString "y"))) None)
                    http_state in
  r ≠ Ok true ∧
  req_headers (ses_req_header (st_session s'))
    = req_headers (ses_req_header (st_session http_state)).
Proof.
  pose proof (Rewrite.rewrite_keeps_origin
    (Rewrite.mkRewrite (Rewrite.CelRewrite (Literal (LString "y"))) None)
    http_state (ctx "a.com:8080" "/x") eq_refl) as Hk.
  destruct (Rewrite.request_filter _ http_state) as [r s'].
  destruct Hk as (Hr & _ & _ & _ & _ & Hh & _). exact (conj Hr Hh).
Defined.

Example demo_rewrite_runs :
  match Rewrite.request_filter
          (Rewrite.mkRewrite (Rewrite.CelRewrite (Literal (LString "y"))) None) http_state with
  | (Ok b, s') => b = false ∧ path_and_query (st_session s') = "/y"
  | _ => False
  end.
Proof. vm_compute. split; reflexivity. Qed.
End RequestWitnesses.
