(* ===== verification/MwHeaders.v ===== *)
(** * Middlewares that edit headers

    [src/middlewares/request_headers] and [src/middlewares/response_headers],
    which are the same code over the two kinds of header with another name in
    their messages: [HeaderRules] is that code, over the name and the header
    map, and the two modules after it are the hooks. Then
    [src/middlewares/cors]. *)

From S2P Require Import Prelude Text Http Config Cel CelSession CelRegex CelFunctions.
From S2P Require Import CelEngine CheapExpr Precheck Matcher RouteTable.
From S2P Require Import VjsSocket VjsRegistry LoadBalancer Pingora ErrorPages Ctx.
From S2P Require Import Upstream Response Frame Middleware.
From stdpp Require Import base tactics strings list gmap.
From Stdlib Require Import ZArith Lia.

Module HeaderRules.
Section HeaderRules.
Context `{HttpLib, RegexLib, RuleLib, !CelLib, TlsLib, LbLib, MwTypes, PeerLib}.
Context (label : string).

Inductive ActionConfig := CfgAppend | CfgSet | CfgSetDefault | CfgRemove.
Record HeadersConfig := mkHeadersConfig {
  cfg_name : string;
  cfg_action : ActionConfig;
  cfg_value : option string;
  cfg_expression : option string;
  cfg_rule : option string;
}.

Definition required : string :=
  "middleware " +:+ label +:+ ".value or " +:+ label +:+ ".expression is required".

Definition validate_source (c : HeadersConfig) : result unit string :=
  match cfg_value c, cfg_expression c with
  | Some _, Some _ =>
      Err ("middleware " +:+ label +:+ ".value and " +:+ label
           +:+ ".expression cannot both be set")
  | None, None => Err required
  | Some value, None =>
      guard_err (is_empty value) ("middleware " +:+ label +:+ ".value cannot be empty")
  | None, Some expression =>
      guard_err (is_empty (trim expression))
        ("middleware " +:+ label +:+ ".expression cannot be empty")
  end.

Definition validate (c : HeadersConfig) : result unit string :=
  guard_err (is_empty (trim (cfg_name c)))
    ("middleware " +:+ label +:+ ".name cannot be empty") ;?
  match cfg_action c with
  | CfgRemove =>
      guard_err (bool_decide (is_Some (cfg_value c)) || bool_decide (is_Some (cfg_expression c)))
        ("middleware " +:+ label +:+ ".value/expression is not allowed for remove action")
  | _ => validate_source c
  end.

Inductive HeaderValue := Value_ (v : string) | Expression (p : Program).
Inductive Action :=
| Append (value : HeaderValue)
| Set_ (value : HeaderValue)
| SetDefault (value : HeaderValue)
| Remove.
Record HeadersMiddleware := mkHeaders {
  name : string;
  action : Action;
  cel_program : option Program;
}.

Definition from_value_fields (value expression : option string) : result HeaderValue string :=
  match value, expression with
  | Some value, None => Ok (Value_ value)
  | None, Some expression =>
      let? p := compile_named (label +:+ " expression") expression in Ok (Expression p)
  | _, _ => Err required
  end.

Definition from_config (c : HeadersConfig) : result HeadersMiddleware string :=
  validate c ;?
  let value := from_value_fields (cfg_value c) (cfg_expression c) in
  let? action := match cfg_action c with
                 | CfgAppend => let? v := value in Ok (Append v)
                 | CfgSet => let? v := value in Ok (Set_ v)
                 | CfgSetDefault => let? v := value in Ok (SetDefault v)
                 | CfgRemove => Ok Remove
                 end in
  let? cel_program := transpose (compile_named (label +:+ " rule")) (cfg_rule c) in
  Ok (mkHeaders (cfg_name c) action cel_program).

Definition value_string (value : HeaderValue) : M string :=
  match value with
  | Value_ v => mret v
  | Expression p =>
      v ← execute p;
      lift (match v with
            | Err e => Err (middleware_internal_error
                              (label +:+ " expression execution failed") e)
            | Ok (VString s) => Ok s
            | Ok other => Err (middleware_internal_error
                                 (label +:+ " expression must return string")
                                 ("got " +:+ value_debug other))
            end)
  end.

Definition failed (what : string) : string → Error :=
  middleware_internal_error (label +:+ " " +:+ what +:+ " failed").

(** [apply], on the header map of the request or response. *)
Definition apply (m : HeadersMiddleware) (h : HM) : M HM :=
  match action m with
  | Append value =>
      v ← value_string value; lift (map_err (failed "append") (checked_append (name m) v h))
  | Set_ value =>
      v ← value_string value; lift (map_err (failed "set") (checked_insert (name m) v h))
  | SetDefault value =>
      match hm_get (name m) h with
      | Some _ => mret h
      | None =>
          v ← value_string value;
          lift (map_err (failed "set_default") (checked_insert (name m) v h))
      end
  | Remove => mret (hm_remove (name m) h)
  end.

Lemma framed_apply m h : framed (apply m h).
Proof. unfold apply, value_string. solve_framed. Qed.

(** *** The effect *)

Definition value_text (value : HeaderValue) (s : St) : option string :=
  match value with
  | Value_ v => Some v
  | Expression p =>
      match cel_execute p (sh_env (st_shared s)) (cel_context s) with
      | Ok (VString v) => Some v
      | _ => None
      end
  end.

(** The values of the configured name after the action. *)
Definition edited (m : HeadersMiddleware) (s : St) (old : list string) : option (list string) :=
  match action m with
  | Append v => (λ t, old ++ [t]) <$> value_text v s
  | Set_ v => (λ t, [t]) <$> value_text v s
  | SetDefault v => match old with [] => (λ t, [t]) <$> value_text v s | _ => Some old end
  | Remove => Some []
  end.

Lemma value_string_read v s c :
  ctx_session_cel_context (st_ctx s) = Some c →
  (value_string v s).2 = s ∧ result_ok (value_string v s).1 = value_text v s.
Proof.
  intros Hc. destruct v as [v|p]; [done|]. unfold value_string, value_text, mbind, M_bind.
  rewrite (execute_eq _ _ _ Hc). unfold cel_context. rewrite Hc. unfold lift. simpl.
  by destruct (cel_execute p _ c) as [[]|].
Qed.

(** A value is read, then one checked edit is made. *)
Lemma edit_run v s c (f : string → result HM Error) h' s' :
  ctx_session_cel_context (st_ctx s) = Some c →
  (value_string v ≫= λ t, lift (f t)) s = (Ok h', s') →
  s' = s ∧ ∃ t, value_text v s = Some t ∧ f t = Ok h'.
Proof.
  intros Hc. destruct (value_string_read v s c Hc) as [Es Et]. unfold mbind, M_bind, lift.
  destruct (value_string v s) as [[t|] s1]; simpl in *; [|done]. subst s1.
  destruct (f t) as [x|] eqn:E; [|done]. intros [= <- <-]. eauto.
Qed.

Lemma apply_effect `{!HttpLaws} m h s c h' s' :
  ctx_session_cel_context (st_ctx s) = Some c → apply m h s = (Ok h', s') →
  s' = s ∧ Some (hm_get_all (name m) h') = edited m s (hm_get_all (name m) h) ∧
  ∀ n, eq_ignore_ascii_case (name m) n = false → hm_get_all n h' = hm_get_all n h.
Proof.
  intros Hc. unfold apply, edited. destruct (action m) as [v|v|v|].
  - intros (-> & t & -> & Hf)%(edit_run _ _ _ _ _ _ Hc). split; [done|].
    destruct (checked_append (name m) t h) as [x|] eqn:E; [|done]. injection Hf as ->.
    split; [by rewrite (checked_append_get _ _ _ _ _ E), eq_ignore_ascii_case_refl|].
    intros n Hn. by rewrite (checked_append_get _ _ _ _ _ E), Hn.
  - intros (-> & t & -> & Hf)%(edit_run _ _ _ _ _ _ Hc). split; [done|].
    destruct (checked_insert (name m) t h) as [x|] eqn:E; [|done]. injection Hf as ->.
    split; [by rewrite (checked_insert_get _ _ _ _ E)|].
    intros n Hn. by rewrite (checked_insert_other _ _ _ _ _ E).
  - unfold hm_get. destruct (hm_get_all (name m) h) as [|o old] eqn:Eo; simpl;
      [|intros [= <- <-]; by rewrite Eo].
    intros (-> & t & -> & Hf)%(edit_run _ _ _ _ _ _ Hc). split; [done|].
    destruct (checked_insert (name m) t h) as [x|] eqn:E; [|done]. injection Hf as ->.
    split; [by rewrite (checked_insert_get _ _ _ _ E)|].
    intros n Hn. by rewrite (checked_insert_other _ _ _ _ _ E).
  - intros [= <- <-]. split; [done|]. rewrite hm_get_all_remove, eq_ignore_ascii_case_refl.
    split; [done|]. intros n Hn. by rewrite hm_get_all_remove, Hn.
Qed.
End HeaderRules.
End HeaderRules.

Module RequestHeaders.
Section RequestHeaders.
Context `{HttpLib, RegexLib, RuleLib, !CelLib, TlsLib, LbLib, MwTypes, PeerLib}.
Import HeaderRules.

Definition label : string := "request_headers".
Definition from_config := HeaderRules.from_config label.

Definition upstream_request_filter (m : HeadersMiddleware) (req : RequestHeader)
    : M RequestHeader :=
  when_applies (cel_program m) req
    (h ← apply label m (req_headers req);
     mret (mkRequestHeader (req_method req) (req_uri req) h)).

Definition hooks (m : HeadersMiddleware) : Hooks :=
  with_upstream_request (upstream_request_filter m) default_hooks.

Lemma request_headers_framed m : hooks_framed (hooks m).
Proof.
  hooks_frame. unfold upstream_request_filter. pose proof (framed_apply label).
  apply framed_when_applies. solve_framed.
Qed.

(** A request header rule edits exactly the header it names: an append adds
    the value behind the present ones, a set leaves the value alone, a default
    is used only when there is none, a removal leaves none; every other
    header, the method and the URI are untouched, and a rule that does not
    apply changes nothing. *)
Theorem request_headers_effect `{!HttpLaws} m req s c req' s' :
  ctx_session_cel_context (st_ctx s) = Some c →
  upstream_request_filter m req s = (Ok req', s') →
  s' = s ∧ req_method req' = req_method req ∧ req_uri req' = req_uri req ∧
  (applies (cel_program m) s = false → req' = req) ∧
  (applies (cel_program m) s = true →
     Some (hm_get_all (name m) (req_headers req'))
     = edited m s (hm_get_all (name m) (req_headers req))) ∧
  ∀ n, eq_ignore_ascii_case (name m) n = false →
    hm_get_all n (req_headers req') = hm_get_all n (req_headers req).
Proof.
  intros Hc. unfold upstream_request_filter. rewrite (when_applies_read _ _ _ _ _ Hc).
  destruct (applies (cel_program m) s); [|by intros [= <- <-]].
  unfold mbind, M_bind. destruct (apply label m (req_headers req) s) as [[h|] s1] eqn:E; [|done].
  intros [= <- <-]. apply (apply_effect label m _ _ _ _ _ Hc) in E as (-> & He & Hn).
  by split_and!.
Qed.
End RequestHeaders.
End RequestHeaders.

Module ResponseHeaders.
Section ResponseHeaders.
Context `{HttpLib, RegexLib, RuleLib, !CelLib, TlsLib, LbLib, MwTypes, PeerLib}.
Import HeaderRules.

(** The source repeats the code of [request_headers] under this label. *)
Definition label : string := "response_headers".
Definition validate : HeadersConfig → result unit string := HeaderRules.validate label.
Definition from_value_fields := HeaderRules.from_value_fields label.
Definition from_config := HeaderRules.from_config label.
Definition value_string := HeaderRules.value_string label.
Definition apply : HeadersMiddleware → HM → M HM := HeaderRules.apply label.

Definition response_filter (m : HeadersMiddleware) (resp : ResponseHeader)
    : M ResponseHeader :=
  when_applies (cel_program m) resp
    (h ← apply m (resp_headers resp); mret (mkResponseHeader (resp_status resp) h)).

Definition hooks (m : HeadersMiddleware) : Hooks :=
  with_response (response_filter m) default_hooks.

Lemma response_headers_framed m : hooks_framed (hooks m).
Proof.
  hooks_frame. unfold response_filter, apply. pose proof (framed_apply label).
  apply framed_when_applies. solve_framed.
Qed.

(** The same edit on the response, whose status it keeps. *)
Theorem response_headers_effect `{!HttpLaws} m resp s c resp' s' :
  ctx_session_cel_context (st_ctx s) = Some c →
  response_filter m resp s = (Ok resp', s') →
  s' = s ∧ resp_status resp' = resp_status resp ∧
  (applies (cel_program m) s = false → resp' = resp) ∧
  (applies (cel_program m) s = true →
     Some (hm_get_all (name m) (resp_headers resp'))
     = edited m s (hm_get_all (name m) (resp_headers resp))) ∧
  ∀ n, eq_ignore_ascii_case (name m) n = false →
    hm_get_all n (resp_headers resp') = hm_get_all n (resp_headers resp).
Proof.
  intros Hc. unfold response_filter. rewrite (when_applies_read _ _ _ _ _ Hc).
  destruct (applies (cel_program m) s); [|by intros [= <- <-]].
  unfold mbind, M_bind, apply.
  destruct (HeaderRules.apply label m (resp_headers resp) s) as [[h|] s1] eqn:E; [|done].
  intros [= <- <-]. apply (apply_effect label m _ _ _ _ _ Hc) in E as (-> & He & Hn).
  by split_and!.
Qed.
End ResponseHeaders.
End ResponseHeaders.

(** ** Cross-origin sharing *)

Module Cors.
Section Cors.
Context `{HttpLib, RegexLib, RuleLib, !CelLib, TlsLib, LbLib, MwTypes}.

Record CorsConfig := mkCorsConfig {
  cfg_allow_origin : option string;
  cfg_allow_methods : option string;
  cfg_allow_headers : option string;
  cfg_expose_headers : option string;
  cfg_allow_credentials : option bool;
  cfg_max_age_secs : option Z;
  cfg_reflect_host : option bool;
  cfg_rule : option string;
}.

Definition validate (c : CorsConfig) : result unit string :=
  match cfg_allow_origin c with
  | Some origin => guard_err (is_empty (trim origin))
                     "middleware cors.allow_origin cannot be empty"
  | None => Ok tt
  end.

Record CorsMiddleware := mkCors {
  allow_origin : string;
  allow_methods : string;
  allow_headers : string;
  expose_headers : option string;
  allow_credentials : bool;
  max_age_secs : option Z;
  reflect_host : bool;
  cel_program : option Program;
}.

Definition from_config (c : CorsConfig) : result CorsMiddleware string :=
  validate c ;?
  let? cel_program := transpose (compile_named "cors rule") (cfg_rule c) in
  Ok (mkCors (default "*" (cfg_allow_origin c))
        (default "GET,POST,PUT,PATCH,DELETE,OPTIONS" (cfg_allow_methods c))
        (default "*" (cfg_allow_headers c)) (cfg_expose_headers c)
        (default false (cfg_allow_credentials c)) (cfg_max_age_secs c)
        (default false (cfg_reflect_host c)) cel_program).

Definition resolve_allow_origin (m : CorsMiddleware) (ses : Session) : option string :=
  if decide (allow_origin m = "*") then
    if reflect_host m then
      let req := ses_req_header ses in
      (λ host, "https://" +:+ host) <$>
        match header_text "host" (req_headers req) with
        | Some h => Some h
        | None => authority_as_str <$> uri_authority (req_uri req)
        end
    else None
  else Some (allow_origin m).

(** A header that is inserted only under a condition. *)
Definition insert_if (o : option (string * string * string)) (resp : ResponseHeader)
    : result ResponseHeader Error :=
  match o with Some x => insert_each [x] resp | None => Ok resp end.

Definition apply_headers (m : CorsMiddleware) (ses : Session) (resp : ResponseHeader)
    : result ResponseHeader Error :=
  let origin := default "*" (resolve_allow_origin m ses) in
  let? resp := insert_each [("cors insert allow-origin failed",
                             "Access-Control-Allow-Origin", origin)] resp in
  let? resp := if reflect_host m
               then map_err (middleware_internal_error "cors append vary host failed")
                      (resp_append_header "vary" "host" resp)
               else Ok resp in
  let? resp := insert_each
    [("cors insert allow-methods failed", "Access-Control-Allow-Methods", allow_methods m);
     ("cors insert allow-headers failed", "Access-Control-Allow-Headers", allow_headers m)]
    resp in
  let? resp := insert_if ((λ v, ("cors insert expose-headers failed",
                                 "Access-Control-Expose-Headers", v)) <$> expose_headers m)
                 resp in
  let? resp := insert_if (if allow_credentials m
                          then Some ("cors insert allow-credentials failed",
                                     "Access-Control-Allow-Credentials", "true")
                          else None) resp in
  insert_if ((λ v, ("cors insert max-age failed", "Access-Control-Max-Age", to_string_Z v))
               <$> max_age_secs m) resp.

Definition request_filter (m : CorsMiddleware) : M bool :=
  when_applies (cel_program m) false
    (s ← get;
     if decide (req_method (ses_req_header (st_session s)) = "OPTIONS") then
       resp ← lift (let? resp := map_err (middleware_internal_error
                                            "cors create preflight response failed")
                                   (response_build 204) in
                    let? resp := apply_headers m (st_session s) resp in
                    insert_each [("cors insert content-length failed", "Content-Length", "0")]
                      resp);
       _ ← write_session "cors write preflight response failed" (WroteHeader resp true);
       mret true
     else mret false).

Definition response_filter (m : CorsMiddleware) (resp : ResponseHeader) : M ResponseHeader :=
  when_applies (cel_program m) resp
    (s ← get; lift (apply_headers m (st_session s) resp)).

Definition hooks (m : CorsMiddleware) : Hooks :=
  with_request_filter (request_filter m) (with_response (response_filter m) default_hooks).

Lemma cors_framed m : hooks_framed (hooks m).
Proof.
  hooks_frame; unfold request_filter, response_filter; apply framed_when_applies; solve_framed.
Qed.

(** *** The headers *)

Lemma insert_if_ok `{!HttpLaws} o r r' :
  insert_if o r = Ok r' →
  resp_status r' = resp_status r ∧
  ∀ n, match o with Some x => eq_ignore_ascii_case x.1.2 n = false | None => True end →
    hm_get_all n (resp_headers r') = hm_get_all n (resp_headers r).
Proof.
  destruct o as [x|]; cbn [insert_if]; [|by intros [= <-]].
  intros (Hs & Ho & _)%insert_each_ok. split; [done|]. intros n Hn. apply Ho. by constructor.
Qed.

Lemma apply_headers_origin `{!HttpLaws} m ses r r' :
  apply_headers m ses r = Ok r' →
  resp_status r' = resp_status r ∧
  hm_get_all "Access-Control-Allow-Origin" (resp_headers r')
    = [default "*" (resolve_allow_origin m ses)].
Proof.
  unfold apply_headers. intros Hr.
  destruct (insert_each _ r) as [r1|] eqn:E1; [|done]. cbn [result_bind] in Hr.
  destruct (if reflect_host m then _ else Ok r1) as [r2|] eqn:E2; [|done]. cbn [result_bind] in Hr.
  destruct (insert_each _ r2) as [r3|] eqn:E3; [|done]. cbn [result_bind] in Hr.
  destruct (insert_if _ r3) as [r4|] eqn:E4; [|done]. cbn [result_bind] in Hr.
  destruct (insert_if _ r4) as [r5|] eqn:E5; [|done]. cbn [result_bind] in Hr.
  apply insert_each_ok in E1 as (S1 & _ & G1), E3 as (S3 & G3 & _).
  apply insert_if_ok in E4 as (S4 & G4), E5 as (S5 & G5), Hr as (S6 & G6).
  assert (resp_status r2 = resp_status r1 ∧
    hm_get_all "Access-Control-Allow-Origin" (resp_headers r2)
    = hm_get_all "Access-Control-Allow-Origin" (resp_headers r1)) as [S2 G2].
  { destruct (reflect_host m); [|by simplify_eq]. unfold resp_append_header in E2.
    destruct (checked_append "vary" "host" _) as [h|] eqn:E; [|done]. simpl in E2.
    injection E2 as <-. simpl. split; [done|].
    by rewrite (checked_append_get _ _ _ _ _ E). }
  split; [congruence|].
  rewrite G6 by (destruct (max_age_secs m); done). rewrite G5 by (destruct (allow_credentials m); done).
  rewrite G4 by (destruct (expose_headers m); done). rewrite G3 by (repeat constructor).
  rewrite G2. by eapply (G1 []); [reflexivity|constructor].
Qed.

(** A preflight request is answered by the proxy itself, with exactly one
    [204] header that allows the configured origin; any other request passes
    on unchanged. With the origin [*] and host reflection, the origin
    allowed is the [https] origin of the host the request names; otherwise
    it is the configured one, verbatim. *)
Theorem cors_preflight `{!HttpLaws} m s c r s' :
  ctx_session_cel_context (st_ctx s) = Some c → applies (cel_program m) s = true →
  request_filter m s = (Ok r, s') →
  (r = false → s' = s ∧ req_method (ses_req_header (st_session s)) ≠ "OPTIONS") ∧
  (r = true → req_method (ses_req_header (st_session s)) = "OPTIONS" ∧
     ∃ h origin,
       ses_written (st_session s') = ses_written (st_session s) ++ [WroteHeader h true] ∧
       resp_status h = 204%Z ∧
       hm_get_all "Access-Control-Allow-Origin" (resp_headers h) = [origin] ∧
       (allow_origin m ≠ "*" ∨ reflect_host m = false → origin = allow_origin m) ∧
       (allow_origin m = "*" → reflect_host m = true →
          ∀ host, header_text "host" (req_headers (ses_req_header (st_session s))) = Some host →
            origin = "https://" +:+ host)).
Proof.
  intros Hc Ha. unfold request_filter. rewrite (when_applies_read _ _ _ _ _ Hc), Ha.
  unfold mbind, M_bind, get. case_decide as Ho; [|by intros [= <- <-]].
  unfold lift, response_build. destruct (status_from_u16 204) as [[]|]; [|done].
  cbn [result_bind map_err].
  destruct (apply_headers m _ _) as [r1|] eqn:E1; [|done]. cbn [result_bind].
  destruct (insert_each _ r1) as [h|] eqn:E2; [|done].
  destruct (write_session_run "cors write preflight response failed" (WroteHeader h true) s)
    as (s2 & [[-> (_ & _ & _ & _ & Hw)]|[[e ->] _]]); [|done]. intros [= <- <-].
  split; [done|]. intros _. split; [done|].
  apply apply_headers_origin in E1 as [S1 G1]. apply insert_each_ok in E2 as (S2 & G2 & _).
  exists h, (default "*" (resolve_allow_origin m (st_session s))). split_and!; [done| | | |].
  - by rewrite S2, S1.
  - by rewrite G2 by (repeat constructor).
  - unfold resolve_allow_origin. case_decide as Eo; [|done].
    intros [?|Hr]; [done|]. by rewrite Hr, Eo.
  - intros Eo Hr host Hh. unfold resolve_allow_origin. by rewrite decide_True, Hr, Hh.
Qed.
End Cors.
End Cors.

(** ** Witnesses *)

Section HeaderWitnesses.
Import Demo RefLb RefPeer.

Definition header_state (meth : string) : St :=
  mkSt (set_session_cel_context (Some (ctx "a.com" "/")) (ProxyCtx_new Strict))
    (new_session (mkSessionView
       (mkRequestHeader meth (mkUri None None (Some "/") "/" None)
          (hm_append "X-Tag" "one" (hm_insert "Host" "a.com" hm_empty))) None None)
       None []) demo_shared.
Definition demo_append : HeaderRules.HeadersMiddleware :=
  HeaderRules.mkHeaders "x-tag" (HeaderRules.Append (HeaderRules.Value_ "two")) None.
Definition demo_request : RequestHeader := ses_req_header (st_session (header_state "GET")).

Example demo_append_runs :
  match RequestHeaders.upstream_request_filter demo_append demo_request (header_state "GET") with
  | (Ok req, _) => hm_get_all "X-TAG" (req_headers req) = ["one"; "two"]
  | _ => False
  end.
Proof. vm_compute. reflexivity. Qed.

Lemma request_headers_effect_witness :
  match RequestHeaders.upstream_request_filter demo_append demo_request (header_state "GET") with
  | (Ok req, _) => Some (hm_get_all "x-tag" (req_headers req)) = Some ["one"; "two"]
  | _ => False
  end.
Proof.
  pose proof demo_append_runs as Hd.
  destruct (RequestHeaders.upstream_request_filter demo_append demo_request
              (header_state "GET")) as [[req|] s'] eqn:E; [|destruct Hd].
  destruct (RequestHeaders.request_headers_effect demo_append demo_request (header_state "GET")
              (ctx "a.com" "/") req s' eq_refl E) as (_ & _ & _ & _ & Ha & _).
  exact (Ha eq_refl).
Defined.

Definition demo_cors : Cors.CorsMiddleware :=
  Cors.mkCors "*" "GET" "*" None false None true None.

Example demo_cors_runs :
  match Cors.request_filter demo_cors (header_state "OPTIONS") with
  | (Ok b, s') => b = true ∧ length (ses_written (st_session s')) = 1
  | _ => False
  end.
Proof. vm_compute. split; reflexivity. Qed.

Lemma cors_preflight_witness :
  match Cors.request_filter demo_cors (header_state "OPTIONS") with
  | (Ok b, s') => ∃ h, ses_written (st_session s') = [WroteHeader h true] ∧
      hm_get_all "Access-Control-Allow-Origin" (resp_headers h) = ["https://a.com"]
  | _ => False
  end.
Proof.
  pose proof demo_cors_runs as Hd.
  destruct (Cors.request_filter demo_cors (header_state "OPTIONS")) as [[b|] s'] eqn:E;
    [|destruct Hd]. destruct Hd as [-> _].
  destruct (Cors.cors_preflight demo_cors (header_state "OPTIONS") (ctx "a.com" "/") true s'
              eq_refl eq_refl E) as [_ Ht].
  destruct (Ht eq_refl) as (_ & h & origin & Hw & _ & Ho & _ & Hr). exists h.
  split; [exact Hw|]. rewrite Ho. f_equal. apply (Hr eq_refl eq_refl). reflexivity.
Defined.
End HeaderWitnesses.
