(* ===== verification/MwContent.v ===== *)
(** * Middlewares that produce content

    [src/middlewares/respond], [set_variable] and [rewrite_error_page]. *)

From S2P Require Import Prelude Text Http Config Cel CelSession CelRegex CelFunctions.
From S2P Require Import CelEngine CheapExpr Precheck Matcher RouteTable.
From S2P Require Import VjsSocket VjsRegistry LoadBalancer Pingora ErrorPages Ctx.
From S2P Require Import Upstream Response Frame Proxy Middleware.
From stdpp Require Import base tactics strings list gmap.
From Stdlib Require Import ZArith Lia.

(** ** Respond *)

Module Respond.
Section Respond.
Context `{HttpLib, RegexLib, RuleLib, !CelLib, TlsLib, LbLib, MwTypes, PeerLib, FmtLib,
          !ProxyFmt}.

Record RespondConfig := mkRespondConfig {
  cfg_status : Z;
  cfg_content_type : option string;
  cfg_body : option string;
  cfg_body_expression : option string;
  cfg_rule : option string;
}.

Definition validate (c : RespondConfig) : result unit string :=
  guard_err ((cfg_status c <? 100) || (999 <? cfg_status c))%Z
    "middleware respond.status must be within [100, 999]" ;?
  guard_err (bool_decide (is_Some (cfg_body c)) && bool_decide (is_Some (cfg_body_expression c)))
    "middleware respond.body and respond.body_expression cannot both be set".

Record RespondMiddleware := mkRespond {
  status : Z;
  content_type : option string;
  body : option string;
  body_program : option Program;
  cel_program : option Program;
}.

Definition from_config (c : RespondConfig) : result RespondMiddleware string :=
  validate c ;?
  let? cel_program := transpose (compile_named "respond rule") (cfg_rule c) in
  let? body_program := transpose (compile_named "respond body_expression")
                         (cfg_body_expression c) in
  Ok (mkRespond (cfg_status c) (cfg_content_type c) (cfg_body c) body_program cel_program).

Definition eval_body_expression (m : RespondMiddleware) : M string :=
  match body_program m with
  | None => mret ""
  | Some p =>
      v ← execute p;
      lift (match v with
            | Err e => Err (middleware_internal_error
                              "respond evaluate body_expression failed" e)
            | Ok (VString v) => Ok v
            | Ok (VInt v) => Ok (to_string_Z v)
            | Ok (VUInt v) => Ok (to_string_Z v)
            | Ok (VFloat v) => Ok (float_to_string v)
            | Ok (VBool v) => Ok (to_string_bool v)
            | Ok other => Err (middleware_internal_error
                                 "respond body_expression returned unsupported value"
                                 ("expected scalar value, got " +:+ value_debug other))
            end)
  end.

(** The body to send; an empty one counts as none. *)
Definition body_text (m : RespondMiddleware) : M string :=
  match body_program m with
  | Some _ => eval_body_expression m
  | None => mret (default "" (body m))
  end.

Definition request_filter (m : RespondMiddleware) : M bool :=
  when_applies (cel_program m) false
    (body ← body_text m;
     _ ← map_m_err (λ e, middleware_internal_error "respond write response failed"
                           (error_display e))
           (write_response (status m) [] (if is_empty body then None else Some body)
              (content_type m));
     mret true).

Definition hooks (m : RespondMiddleware) : Hooks :=
  with_request_filter (request_filter m) default_hooks.

Lemma respond_framed m : hooks_framed (hooks m).
Proof.
  hooks_frame. unfold request_filter, body_text, eval_body_expression.
  apply framed_when_applies. solve_framed.
Qed.

(** A configured response is final: whenever the middleware applies it
    answers the request itself or fails, it never lets it pass. A body that
    is not empty is sent verbatim with the configured status, out of reach
    of the error pages. *)
Theorem respond_final `{!HttpLaws} m s c r s' :
  ctx_session_cel_context (st_ctx s) = Some c → applies (cel_program m) s = true →
  request_filter m s = (r, s') →
  r ≠ Ok false ∧
  (r = Ok true → ∃ st text h,
     ses_written (st_session s') = ses_written (st_session s) ++ wire st text h ∧
     resp_status h = st ∧
     (∀ b, (body_text m s).1 = Ok b → b ≠ "" → st = status m ∧ text = b)).
Proof.
  intros Hc Ha. unfold request_filter. rewrite (when_applies_read _ _ _ _ _ Hc), Ha.
  assert ((body_text m s).2 = s) as Es.
  { unfold body_text, eval_body_expression. destruct (body_program m); [|done].
    unfold mbind, M_bind. by rewrite (execute_eq _ _ _ Hc). }
  unfold mbind, M_bind. destruct (body_text m s) as [[b|e] s1]; simpl in Es; subst s1;
    [|by intros [= <- <-]].
  unfold map_m_err. destruct (write_response _ _ _ _ s) as [[[]|e] s2] eqn:E;
    [|by intros [= <- <-]].
  intros [= <- <-]. split; [done|]. intros _.
  apply write_response_run in E as (st & text & h & Hw & Hst & _ & _ & _ & Heb & _).
  exists st, text, h. split_and!; [done..|]. simpl. intros b' [= <-] Hne.
  destruct (is_empty b) eqn:Ee; [|by apply Heb]. destruct b; [done|discriminate Ee].
Qed.
End Respond.
End Respond.

(** ** Set a variable *)

Module SetVariable.
Section SetVariable.
Context `{HttpLib, RegexLib, RuleLib, !CelLib, TlsLib, LbLib, MwTypes}.

Inductive SetVariableStageConfig := Request | UpstreamResponse | Response.
#[export] Instance SetVariableStageConfig_eq_dec : EqDecision SetVariableStageConfig.
Proof. solve_decision. Defined.

Record SetVariableConfig := mkSetVariableConfig {
  cfg_name : string;
  cfg_expression : string;
  cfg_stage : SetVariableStageConfig;
  cfg_rule : option string;
}.

Definition validate (c : SetVariableConfig) : result unit string :=
  guard_err (is_empty (trim (cfg_name c)))
    "middleware set_variable.name cannot be empty" ;?
  guard_err (is_empty (trim (cfg_expression c)))
    "middleware set_variable.expression cannot be empty".

Record SetVariableMiddleware := mkSetVariable {
  name : string;
  stage : SetVariableStageConfig;
  value_program : Program;
  rule_program : option Program;
}.

Definition from_config (c : SetVariableConfig) : result SetVariableMiddleware string :=
  validate c ;?
  let? value_program := compile_named "set_variable expression" (cfg_expression c) in
  let? rule_program := transpose (compile_named "set_variable rule") (cfg_rule c) in
  Ok (mkSetVariable (cfg_name c) (cfg_stage c) value_program rule_program).

(** [ensure_context_mut(..).add_variable_from_value(..)]. *)
Definition set_variable (n : string) (v : Value) : M unit :=
  _ ← ensure_session_cel_context;
  modify_ctx (λ c, set_session_cel_context
                     (add_variable n v <$> ctx_session_cel_context c) c).

Definition apply (m : SetVariableMiddleware) : M unit :=
  when_applies (rule_program m) tt
    (v ← execute (value_program m);
     v ← lift (map_err (middleware_internal_error "set_variable expression execution failed") v);
     set_variable (name m) v).

Definition at_stage (st : SetVariableStageConfig) (m : SetVariableMiddleware) : M unit :=
  if decide (stage m = st) then apply m else mret tt.

Definition request_filter (m : SetVariableMiddleware) : M bool :=
  _ ← at_stage Request m; mret false.
Definition upstream_response_filter (m : SetVariableMiddleware) (resp : ResponseHeader)
    : M ResponseHeader :=
  _ ← at_stage UpstreamResponse m; mret resp.
Definition response_filter (m : SetVariableMiddleware) (resp : ResponseHeader)
    : M ResponseHeader :=
  _ ← at_stage Response m; mret resp.

Definition hooks (m : SetVariableMiddleware) : Hooks :=
  with_request_filter (request_filter m)
    (with_upstream_response (upstream_response_filter m)
       (with_response (response_filter m) default_hooks)).

Lemma framed_set_variable n v : framed (set_variable n v).
Proof.
  unfold set_variable. apply framed_bind; [auto with frame|]. intros _.
  by apply framed_modify_cel.
Qed.

Lemma framed_at_stage st m : framed (at_stage st m).
Proof.
  unfold at_stage, apply. pose proof framed_set_variable.
  case_match; [apply framed_when_applies|]; solve_framed.
Qed.

Lemma set_variable_framed m : hooks_framed (hooks m).
Proof.
  pose proof framed_at_stage.
  hooks_frame; unfold request_filter, upstream_response_filter, response_filter; solve_framed.
Qed.

(** After a variable was set, later expressions of the same request find the
    computed value under its name; every other variable keeps its value. The
    session stays visible to rule functions exactly when the name is not the
    reserved key of the session: a configuration with that name is accepted,
    and its variable hides the session from every later rule. *)
Theorem set_variable_effect m s c v s' :
  ctx_session_cel_context (st_ctx s) = Some c → applies (rule_program m) s = true →
  cel_execute (value_program m) (sh_env (st_shared s)) c = Ok v →
  session_visible c → v ≠ VOpaque "CelHttpSession" →
  apply m s = (Ok tt, s') →
  ∃ c', ctx_session_cel_context (st_ctx s') = Some c' ∧
    cel_http_session c' = cel_http_session c ∧
    cel_variables c' !! name m = Some v ∧
    (∀ n, n ≠ name m → cel_variables c' !! n = cel_variables c !! n) ∧
    (session_visible c' ↔ name m ≠ CEL_HTTP_SESSION_KEY).
Proof.
  intros Hc Ha Hv Hvis Hne. unfold apply. rewrite (when_applies_read _ _ _ _ _ Hc), Ha.
  unfold mbind, M_bind. rewrite (execute_eq _ _ _ Hc), Hv. unfold lift. cbn [map_err].
  unfold set_variable, mbind, M_bind. rewrite ensure_eq. intros [= <-].
  assert (cel_context s = c) as Ec by (unfold cel_context; by rewrite Hc).
  exists (add_variable (name m) v c). simpl. rewrite Ec. split_and!; [done..| | |].
  - apply lookup_insert_eq.
  - intros n Hn. by apply lookup_insert_ne.
  - split; [|intros Hn; by apply add_variable_visible].
    unfold session_visible. simpl. intros Hs Hn. rewrite Hn, lookup_insert_eq in Hs.
    by injection Hs.
Qed.
End SetVariable.
End SetVariable.

(** ** Rewrite error pages *)

Module RewriteErrorPage.
Section RewriteErrorPage.
Context `{HttpLib, RegexLib, RuleLib, !CelLib, TlsLib, LbLib, MwTypes, FmtLib}.

Inductive StatusSpecInput := Code (code : Z) | Ranges (spec : string).
Definition to_spec (i : StatusSpecInput) : string :=
  match i with Code code => to_string_Z code | Ranges spec => spec end.

Record RewriteErrorPageConfig := mkRewriteErrorPageConfig {
  cfg_status : option StatusSpecInput;
  cfg_rule : option string;
}.

Definition validate (c : RewriteErrorPageConfig) : result unit string :=
  match cfg_status c with
  | Some status => let? _ := parse_status_spec (to_spec status) in Ok tt
  | None => Ok tt
  end.

Record RewriteErrorPageMiddleware := mkRewriteErrorPage {
  statuses : list Z;
  cel_program : option Program;
}.

Definition from_config (c : RewriteErrorPageConfig)
    : result RewriteErrorPageMiddleware string :=
  validate c ;?
  let? statuses := match cfg_status c with
                   | Some status => parse_status_spec (to_spec status)
                   | None => Ok []
                   end in
  let? cel_program := transpose (compile_named "rewrite_error_page rule") (cfg_rule c) in
  Ok (mkRewriteErrorPage statuses cel_program).

(** [build_error_page_header]: the page's own headers are parsed already. *)
Definition build_error_page_header (page : RenderedErrorPage) (body_len : nat)
    : result ResponseHeader string :=
  let? resp := map_err (λ e, "build error page header: " +:+ e)
                 (response_build (rp_status page)) in
  let resp := insert_parsed (rp_headers page) resp in
  let? resp := match rp_content_type page with
               | Some ct => map_err (λ e, "invalid error page content-type: " +:+ e)
                              (resp_insert_header "content-type" ct resp)
               | None => Ok resp
               end in
  map_err (λ e, "invalid content-length: " +:+ e)
    (resp_insert_header "content-length" (to_string_Z (Z.of_nat body_len)) resp).

(** The statuses the middleware looks at. *)
Definition covers (m : RewriteErrorPageMiddleware) (status : Z) : bool :=
  bool_decide (statuses m = []) || bool_decide (status ∈ statuses m).

Definition bodiless (resp : ResponseHeader) : bool :=
  bool_decide (header_text "content-length" (resp_headers resp) = Some "0").

Definition upstream_response_filter (m : RewriteErrorPageMiddleware) (resp : ResponseHeader)
    : M ResponseHeader :=
  when_applies (cel_program m) resp
    (let status := resp_status resp in
     if (status <? 400)%Z then mret resp
     else if negb (covers m status) then mret resp
     else if bodiless resp then mret resp
     else
       page ← resolve_error_page status;
       match page with
       | None => mret resp
       | Some page =>
           resp ← lift (map_err
                          (middleware_internal_error "rewrite_error_page build response failed")
                          (build_error_page_header page (String.length (rp_body page))));
           _ ← modify_ctx (set_response_body_override (Some (Replace (rp_body page))));
           mret resp
       end).

Definition hooks (m : RewriteErrorPageMiddleware) : Hooks :=
  with_upstream_response (upstream_response_filter m) default_hooks.

Lemma rewrite_error_page_framed m : hooks_framed (hooks m).
Proof.
  hooks_frame. unfold upstream_response_filter. apply framed_when_applies. solve_framed.
Qed.

Lemma build_error_page_header_ok `{!HttpLaws} page n resp :
  build_error_page_header page n = Ok resp →
  resp_status resp = rp_status page ∧
  (∀ ct, rp_content_type page = Some ct → hm_get_all "content-type" (resp_headers resp) = [ct]) ∧
  hm_get_all "content-length" (resp_headers resp) = [to_string_Z (Z.of_nat n)].
Proof.
  unfold build_error_page_header, response_build. intros Hr.
  destruct (status_from_u16 (rp_status page)) as [[]|]; [|done]. cbn [result_bind map_err] in Hr.
  set (r1 := insert_parsed _ _) in Hr.
  assert (resp_status r1 = rp_status page) as E1 by (subst r1; by rewrite insert_parsed_status).
  destruct (match rp_content_type page with Some _ => _ | None => _ end) as [r2|] eqn:E2; [|done].
  assert (resp_status r2 = resp_status r1 ∧ ∀ ct, rp_content_type page = Some ct →
    hm_get_all "content-type" (resp_headers r2) = [ct]) as [E3 G3].
  { destruct (rp_content_type page) as [ct|]; [|by simplify_eq]. unfold resp_insert_header in E2.
    destruct (checked_insert _ _ (resp_headers r1)) as [h|] eqn:E4; [|done]. injection E2 as <-.
    split; [done|]. intros ? [= <-]. by apply checked_insert_get in E4. }
  cbn [result_bind] in Hr. unfold resp_insert_header in Hr.
  destruct (checked_insert "content-length" _ (resp_headers r2)) as [h|] eqn:E4; [|done].
  injection Hr as <-. simpl. split_and!; [congruence| |by apply checked_insert_get in E4].
  intros ct Hct. rewrite (checked_insert_other _ _ _ _ _ E4) by reflexivity. by apply G3.
Qed.

Lemma resolve_error_page_ctx status s r s' :
  resolve_error_page status s = (r, s') →
  ctx_response_body_override (st_ctx s') = ctx_response_body_override (st_ctx s).
Proof.
  unfold resolve_error_page, mbind, M_bind. rewrite lookup_error_page_eq.
  destruct (head _) as [e|]; [|by intros [= <- <-]]. unfold render_error_page_body.
  destruct (ep_body_program e) as [p|]; [|by intros [= <- <-]].
  unfold mbind, M_bind. rewrite (execute_eq p _ (error_context status s)) by done.
  by intros [= <- <-].
Qed.

(** C30: In a request whose context is set up and whose body was not replaced
    before, an upstream response is either passed on as it is or replaced
    whole by the page that the error page store resolves for its status: the
    replacement has the page's status and content type, its [Content-Length]
    is the length of the page's body, and that body, and nothing of the
    upstream's, is what the body filter sends for an upstream body of any
    chunks. Only error statuses the middleware covers, of responses that do
    not announce an empty body, are replaced, and such a response is passed on
    only if the rule does not apply or there is no page for it. *)
Theorem rewrite_error_page_whole `{!HttpLaws} m resp s c resp' s' :
  ctx_session_cel_context (st_ctx s) = Some c →
  ctx_response_body_override (st_ctx s) = None →
  upstream_response_filter m resp s = (Ok resp', s') →
  (resp' = resp ∧ ctx_response_body_override (st_ctx s') = None ∧
   (applies (cel_program m) s = true → (400 ≤ resp_status resp)%Z →
    covers m (resp_status resp) = true → bodiless resp = false →
    (resolve_error_page (resp_status resp) s).1 = Ok None)) ∨
  (∃ page, (400 ≤ resp_status resp)%Z ∧ covers m (resp_status resp) = true ∧
     bodiless resp = false ∧
     (resolve_error_page (resp_status resp) s).1 = Ok (Some page) ∧
     resp_status resp' = rp_status page ∧
     (∀ ct, rp_content_type page = Some ct →
        hm_get_all "content-type" (resp_headers resp') = [ct]) ∧
     hm_get_all "content-length" (resp_headers resp')
       = [to_string_Z (Z.of_nat (String.length (rp_body page)))] ∧
     ∀ chunks, chunks ≠ [] →
       ∃ out, (filter_body chunks s').1 = Ok out ∧ body_text out = rp_body page).
Proof.
  intros Hc Hno. unfold upstream_response_filter. rewrite (when_applies_read _ _ _ _ _ Hc).
  destruct (applies (cel_program m) s); [|intros [= <- <-]; by left].
  destruct (Z.ltb_spec (resp_status resp) 400).
  { intros [= <- <-]. left. split_and!; try done. lia. }
  destruct (covers m (resp_status resp)) eqn:Ecov; cbn [negb]; [|intros [= <- <-]; by left].
  destruct (bodiless resp) eqn:Eb; [intros [= <- <-]; by left|].
  unfold mbind, M_bind.
  destruct (resolve_error_page (resp_status resp) s) as [[[page|]|] s1] eqn:E; [| |done];
    apply resolve_error_page_ctx in E; [|intros [= <- <-]; left; by rewrite E].
  unfold lift. destruct (build_error_page_header page _) as [r|] eqn:Eh; [|done].
  intros [= <- <-]. apply build_error_page_header_ok in Eh as (Hst & Hct & Hl). right.
  exists page. split_and!; [done..|]. intros chunks Hne.
  edestruct filter_body_replace as (out & Ho & _ & Hb); [exact Hne| |by exists out]. done.
Qed.
End RewriteErrorPage.
End RewriteErrorPage.

(** ** Witnesses *)

Section ContentWitnesses.
Import Demo RefLb RefPeer RefFmt RefProxyFmt.

(** A request whose context was read, with the demo error pages. *)
Definition page_state : St :=
  mkSt (set_session_cel_context (Some (ctx "a.com" "/")) (ProxyCtx_new Strict))
    (st_session demo_error_state) (st_shared demo_error_state).

Definition demo_respond : Respond.RespondMiddleware :=
  Respond.mkRespond 418 None (Some "teapot") None None.

Example demo_respond_runs :
  match Respond.request_filter demo_respond page_state with
  | (Ok b, s') => b = true ∧ length (ses_written (st_session s')) = 2
  | _ => False
  end.
Proof. vm_compute. split; reflexivity. Qed.

Lemma respond_final_witness :
  match Respond.request_filter demo_respond page_state with
  | (Ok b, s') => b = true ∧
      ∃ h, ses_written (st_session s') = wire 418 "teapot" h ∧ resp_status h = 418%Z
  | _ => False
  end.
Proof.
  pose proof demo_respond_runs as Hd.
  destruct (Respond.request_filter demo_respond page_state) as [[b|] s'] eqn:E; [|destruct Hd].
  destruct Hd as [-> _]. split; [reflexivity|].
  destruct (Respond.respond_final demo_respond page_state (ctx "a.com" "/") (Ok true) s'
              eq_refl eq_refl E) as [_ Ht].
  destruct (Ht eq_refl) as (st & text & h & Hw & Hst & Hb).
  destruct (Hb "teapot" eq_refl ltac:(discriminate)) as [-> ->]. exists h.
  split; [exact Hw|exact Hst].
Defined.

Definition demo_variable (n : string) : SetVariable.SetVariableMiddleware :=
  SetVariable.mkSetVariable n SetVariable.Request (Literal (LString "blue")) None.

(** The reserved name is accepted by the validator. *)
Example demo_reserved_accepted :
  SetVariable.validate (SetVariable.mkSetVariableConfig CEL_HTTP_SESSION_KEY "x"
                          SetVariable.Request None) = Ok tt.
Proof. reflexivity. Qed.

Example demo_variable_runs :
  match SetVariable.apply (demo_variable CEL_HTTP_SESSION_KEY) page_state with
  | (Ok u, _) => u = tt
  | _ => False
  end.
Proof. vm_compute. reflexivity. Qed.

Lemma set_variable_effect_witness :
  match SetVariable.apply (demo_variable CEL_HTTP_SESSION_KEY) page_state with
  | (Ok _, s') => ∃ c', ctx_session_cel_context (st_ctx s') = Some c' ∧ ¬ session_visible c'
  | _ => False
  end.
Proof.
  assert (cel_execute (Literal (LString "blue")) (sh_env (st_shared page_state))
            (ctx "a.com" "/") = Ok (VString "blue")) as Hx by reflexivity.
  pose proof demo_variable_runs as Hd.
  destruct (SetVariable.apply (demo_variable CEL_HTTP_SESSION_KEY) page_state)
    as [[u|] s'] eqn:E; [|destruct Hd]. subst u.
  destruct (SetVariable.set_variable_effect (demo_variable CEL_HTTP_SESSION_KEY) page_state
              (ctx "a.com" "/") (VString "blue") s' eq_refl eq_refl Hx
              (read_session_visible _ _ _) ltac:(discriminate) E)
    as (c' & Hc & _ & _ & _ & Hs).
  exists c'. split; [exact Hc|]. intros Hv. apply Hs in Hv. apply Hv. reflexivity.
Defined.

Definition demo_upstream_404 (cl : string) : ResponseHeader :=
  mkResponseHeader 404 (hm_insert "Content-Length" cl hm_empty).

Example demo_rewritten :
  match RewriteErrorPage.upstream_response_filter
          (RewriteErrorPage.mkRewriteErrorPage [] None) (demo_upstream_404 "9") page_state with
  | (Ok r, s') => hm_get_all "content-length" (resp_headers r) = ["8"] ∧
      ctx_response_body_override (st_ctx s') = Some (Replace "page 404")
  | _ => False
  end.
Proof. vm_compute. split; reflexivity. Qed.

Lemma rewrite_error_page_whole_witness :
  match RewriteErrorPage.upstream_response_filter
          (RewriteErrorPage.mkRewriteErrorPage [] None) (demo_upstream_404 "9") page_state with
  | (Ok r, s') => ∃ page, resp_status r = rp_status page ∧
      hm_get_all "content-length" (resp_headers r)
        = [to_string_Z (Z.of_nat (String.length (rp_body page)))] ∧
      ∃ out, (filter_body [Some "not found"] s').1 = Ok out ∧ body_text out = rp_body page
  | _ => False
  end.
Proof.
  pose proof demo_rewritten as Hd.
  destruct (RewriteErrorPage.upstream_response_filter _ _ page_state) as [[r|] s'] eqn:E;
    [|destruct Hd]. destruct Hd as [_ Ho].
  destruct (RewriteErrorPage.rewrite_error_page_whole
              (RewriteErrorPage.mkRewriteErrorPage [] None) (demo_upstream_404 "9") page_state
              (ctx "a.com" "/") r s' eq_refl eq_refl E)
    as [(_ & Hn & _)|(page & _ & _ & _ & _ & Hs & _ & Hl & Hb)].
  - rewrite Ho in Hn. discriminate Hn.
  - exists page. split; [exact Hs|]. split; [exact Hl|]. apply Hb. discriminate.
Defined.
End ContentWitnesses.
