(* ===== verification/CertStore.v ===== *)
(** * The certificate store

    [src/server/cert_store.rs] and [src/server/tls_callbacks.rs]: certificates
    by host, and the certificate a TLS handshake is answered with. Host names
    are lower-cased with [str::to_lowercase]; the theorems are about ASCII
    names, which is what SNI and configured hosts are. *)

From S2P Require Import Prelude Text CelSession LoadBalancer.
From stdpp Require Import base tactics strings list gmap fin_maps.
From Stdlib Require Import ZArith Ascii.

(** What is read of a parsed certificate: the DNS names among its subject
    alternative names, when it has any, and its common names. *)
Class CertLib `{TlsLib} := {
  x509_sans : X509 → option (list (option string));
  x509_common_names : X509 → list (option string);
}.

Section CertStore.
Context `{TlsLib, !CertLib}.

Record CertEntry := mkCertEntry { ce_chain : list X509; ce_key : PKey }.

Record CertStore := mkCertStore {
  cs_default : option CertEntry;
  cs_exact : gmap string CertEntry;
  cs_wildcard : gmap string CertEntry;
}.

Definition CertStore_new : CertStore := mkCertStore None ∅ ∅.

(** [parse_cert_entry]. *)
Definition parse_cert_entry (cert_pem key_pem : string) : result CertEntry string :=
  let? chain := map_err (λ e, "invalid cert_pem: " +:+ e) (x509_stack_from_pem cert_pem) in
  guard_err (match chain with [] => true | _ => false end)
    "cert_pem contains no certificates" ;?
  let? key := map_err (λ e, "invalid key_pem: " +:+ e) (private_key_from_pem key_pem) in
  Ok (mkCertEntry chain key).

(** [cert_names]: the SAN DNS names, or the common names when there are none. *)
Definition cert_names (leaf : X509) : list string :=
  match omap id (default [] (x509_sans leaf)) with
  | [] => omap id (x509_common_names leaf)
  | names => names
  end.

(** [verify_cert_matches]. *)
Definition verify_cert_matches (leaf : X509) (host : string) : result unit string :=
  let names := cert_names leaf in
  let matched :=
    match str_strip_prefix "*." host with
    | Some domain => existsb (λ n, eq_ignore_ascii_case n ("*." +:+ domain)) names
    | None => existsb (λ n, eq_ignore_ascii_case n host) names
    end in
  if matched then Ok tt
  else Err ("certificate does not match host '" +:+ host +:+ "' (cert names: "
            +:+ Text.join ", " names +:+ ")").

(** [CertStore::set]. [entry.chain[0]] exists: an empty chain does not parse. *)
Definition cert_set (host cert_pem key_pem : string) (allow_mismatch : bool) (st : CertStore)
    : result unit string * CertStore :=
  match parse_cert_entry cert_pem key_pem with
  | Err e => (Err e, st)
  | Ok entry =>
      if decide (host = "*") then
        (Ok tt, mkCertStore (Some entry) (cs_exact st) (cs_wildcard st))
      else
        match (if allow_mismatch then Ok tt
               else match ce_chain entry with
                    | leaf :: _ => verify_cert_matches leaf host
                    | [] => Ok tt
                    end) with
        | Err e => (Err e, st)
        | Ok _ =>
            match str_strip_prefix "*." host with
            | Some domain =>
                if is_empty domain || str_contains "*" domain
                then (Err ("invalid wildcard cert host '" +:+ host +:+ "'"), st)
                else (Ok tt, mkCertStore (cs_default st) (cs_exact st)
                               (<[to_lowercase domain := entry]> (cs_wildcard st)))
            | None => (Ok tt, mkCertStore (cs_default st)
                                (<[to_lowercase host := entry]> (cs_exact st))
                                (cs_wildcard st))
            end
        end
  end.

Definition has_default (st : CertStore) : bool := bool_decide (is_Some (cs_default st)).

(** [CertStore::remove]. *)
Definition cert_remove (host : string) (st : CertStore) : bool * CertStore :=
  if decide (host = "*") then
    (has_default st, mkCertStore None (cs_exact st) (cs_wildcard st))
  else match str_strip_prefix "*." host with
       | Some domain =>
           (bool_decide (is_Some (cs_wildcard st !! to_lowercase domain)),
            mkCertStore (cs_default st) (cs_exact st)
              (delete (to_lowercase domain) (cs_wildcard st)))
       | None =>
           (bool_decide (is_Some (cs_exact st !! to_lowercase host)),
            mkCertStore (cs_default st) (delete (to_lowercase host) (cs_exact st))
              (cs_wildcard st))
       end.

(** [CertStore::lookup]. *)
Definition cert_lookup (h : string) (st : CertStore) : option CertEntry :=
  let h := to_lowercase h in
  match cs_exact st !! h with
  | Some entry => Some entry
  | None =>
      match (match split_once "." h with
             | Some (_, parent) => cs_wildcard st !! parent
             | None => None
             end) with
      | Some entry => Some entry
      | None => cs_default st
      end
  end.

(** ** The handshake: [tls_callbacks.rs] *)

(** What the callbacks read and set of the TLS connection. *)
Record TlsRef := mkTlsRef {
  tls_servername : option string;
  tls_certificate : option X509;
  tls_private_key : option PKey;
  tls_chain_certs : list X509;
}.

(** [certificate_callback]; [cert_ok] and [key_ok] are the outcomes of
    [set_certificate] and [set_private_key]. *)
Definition certificate_callback (st : CertStore) (cert_ok key_ok : bool) (t : TlsRef) : TlsRef :=
  match tls_servername t ≫= λ name, cert_lookup name st with
  | None => t
  | Some entry =>
      match ce_chain entry with
      | [] => t
      | leaf :: intermediates =>
          if negb cert_ok then t
          else
            let t := mkTlsRef (tls_servername t) (Some leaf) (tls_private_key t)
                       (tls_chain_certs t) in
            if negb key_ok then t
            else mkTlsRef (tls_servername t) (tls_certificate t) (Some (ce_key entry))
                   (tls_chain_certs t ++ intermediates)
      end
  end.

(** [handshake_complete_callback]: what the session will see. *)
Definition handshake_complete_callback (t : TlsRef) : DownstreamTlsInfo :=
  mkDownstreamTlsInfo (tls_servername t).

(** ** The store as one map

    Abstractly the store is a map from host patterns, in lower case: ["*"],
    ["*.domain"] or a host name. *)

Inductive CertOp :=
| SetCert (h cert_pem key_pem : string) (allow_mismatch : bool)
| RemoveCert (h : string).

Definition cert_op_host (op : CertOp) : string :=
  match op with SetCert h _ _ _ => h | RemoveCert h => h end.

Definition run_cert_op (op : CertOp) (st : CertStore) : CertStore :=
  match op with
  | SetCert h c k a => (cert_set h c k a st).2
  | RemoveCert h => (cert_remove h st).2
  end.
Definition run_cert_ops (ops : list CertOp) : CertStore :=
  fold_left (λ st op, run_cert_op op st) ops CertStore_new.

(** The specification of an update: whether the entry is accepted does not
    depend on the store. *)
Definition accepted (h c k : string) (a : bool) : option CertEntry :=
  match cert_set h c k a CertStore_new with
  | (Ok _, _) => result_ok (parse_cert_entry c k)
  | (Err _, _) => None
  end.

Definition spec_cert_op (op : CertOp) (m : gmap string CertEntry) : gmap string CertEntry :=
  match op with
  | SetCert h c k a =>
      match accepted h c k a with
      | Some entry => <[to_lowercase h := entry]> m
      | None => m
      end
  | RemoveCert h => delete (to_lowercase h) m
  end.
Definition spec_certs (ops : list CertOp) : gmap string CertEntry :=
  fold_left (λ m op, spec_cert_op op m) ops ∅.

(** The specification of a lookup: the host itself, then the wildcard of its
    parent domain, then the default. *)
Definition spec_lookup (h : string) (m : gmap string CertEntry) : option CertEntry :=
  let h := to_lowercase h in
  match m !! h with
  | Some entry => Some entry
  | None =>
      match (match split_once "." h with
             | Some (_, parent) => m !! ("*." +:+ parent)
             | None => None
             end) with
      | Some entry => Some entry
      | None => m !! "*"
      end
  end.

(** The store represents the map. *)
Record store_rep (st : CertStore) (m : gmap string CertEntry) : Prop := {
  rep_default : m !! "*" = cs_default st;
  rep_wildcard d : m !! ("*." +:+ d) = cs_wildcard st !! d;
  rep_exact h : h ≠ "*" → str_strip_prefix "*." h = None → m !! h = cs_exact st !! h;
  rep_exact_dom h : is_Some (cs_exact st !! h) → h ≠ "*" ∧ str_strip_prefix "*." h = None;
}.

Lemma lower_star h : to_lowercase h = "*" ↔ h = "*".
Proof.
  split; [|by intros ->]. destruct h as [|a [|b h]]; [done| |done].
  unfold to_lowercase. simpl. intros Ha. injection Ha as Ha. f_equal.
  destruct a as [[][][][][][][][]]; vm_compute in Ha; done.
Qed.

Lemma strip_lower h :
  str_strip_prefix "*." (to_lowercase h) = to_lowercase <$> str_strip_prefix "*." h.
Proof.
  assert (∀ c, lower_char c = "*"%char ↔ c = "*"%char) as Hs.
  { intros c. destruct c as [[][][][][][][][]]; vm_compute; naive_solver. }
  unfold to_lowercase. destruct h as [|a h]; [done|]. simpl.
  destruct (decide (a = "*"%char)) as [->|Ha].
  - rewrite !decide_True by done. destruct h as [|b h]; [done|]. simpl.
    destruct (decide (b = "."%char)) as [->|Hb]; [by rewrite !decide_True|].
    rewrite !decide_False; [done|congruence|]. intros Hb'. by apply Hb, lower_char_dot.
  - rewrite !decide_False; [done|congruence|]. intros Ha'. by apply Ha, Hs.
Qed.

Lemma strip_star_Some h d : str_strip_prefix "*." h = Some d ↔ h = "*." +:+ d.
Proof. apply str_strip_prefix_Some. Qed.

Lemma star_app_inj d d' : "*." +:+ d = "*." +:+ d' → d = d'.
Proof. intros Heq. by injection Heq. Qed.

Lemma rep_new : store_rep CertStore_new ∅.
Proof. split; try done; intros *; rewrite ?lookup_empty; try done. by intros []. Qed.

(** An update of the default, a wildcard or an exact host, on both sides. *)
Lemma rep_set_default st m o :
  store_rep st m →
  store_rep (mkCertStore o (cs_exact st) (cs_wildcard st)) (partial_alter (λ _, o) "*" m).
Proof.
  intros [Hd Hw He Hdom]. split; simpl; [apply lookup_partial_alter_eq| | |done].
  - intros d. by rewrite lookup_partial_alter_ne.
  - intros h Hne Hs. rewrite lookup_partial_alter_ne by done. by apply He.
Qed.

Lemma rep_set_wildcard st m d o :
  store_rep st m →
  store_rep (mkCertStore (cs_default st) (cs_exact st) (partial_alter (λ _, o) d (cs_wildcard st)))
    (partial_alter (λ _, o) ("*." +:+ d) m).
Proof.
  intros [Hd Hw He Hdom]. split; simpl; [by rewrite lookup_partial_alter_ne| | |done].
  - intros d'. destruct (decide (d = d')) as [->|Hne].
    + by rewrite !lookup_partial_alter_eq.
    + rewrite !lookup_partial_alter_ne; [by apply Hw|done|]. by intros ?%star_app_inj.
  - intros h Hne Hs. rewrite lookup_partial_alter_ne; [by apply He|].
    intros <-. pose proof (proj2 (strip_star_Some ("*." +:+ d) d) eq_refl). simpl in *. congruence.
Qed.

Lemma rep_set_exact st m h o :
  h ≠ "*" → str_strip_prefix "*." h = None → store_rep st m →
  store_rep (mkCertStore (cs_default st) (partial_alter (λ _, o) h (cs_exact st)) (cs_wildcard st))
    (partial_alter (λ _, o) h m).
Proof.
  intros Hh Hs [Hd Hw He Hdom]. split; simpl.
  - by rewrite lookup_partial_alter_ne.
  - intros d. rewrite lookup_partial_alter_ne; [done|]. intros ->.
    pose proof (proj2 (strip_star_Some ("*." +:+ d) d) eq_refl). simpl in *. congruence.
  - intros h' Hne Hs'. destruct (decide (h = h')) as [->|Hhh].
    + by rewrite !lookup_partial_alter_eq.
    + rewrite !lookup_partial_alter_ne by done. by apply He.
  - intros h'. destruct (decide (h = h')) as [->|Hhh]; [done|].
    rewrite lookup_partial_alter_ne by done. apply Hdom.
Qed.

Lemma lower_star_app d : to_lowercase ("*." +:+ d) = "*." +:+ to_lowercase d.
Proof. done. Qed.

Ltac rejected :=
  cbn; split; [done|split; [discriminate|intros [? ?]; discriminate]].

(** Whether a certificate is accepted does not depend on the store. *)
Lemma cert_set_spec h c k a st m :
  store_rep st m →
  store_rep (cert_set h c k a st).2 (spec_cert_op (SetCert h c k a) m) ∧
  (is_ok (cert_set h c k a st).1 = true ↔ is_Some (accepted h c k a)).
Proof.
  intros Hrep. unfold spec_cert_op, accepted, cert_set.
  destruct (parse_cert_entry c k) as [entry|e]; [|by rejected].
  destruct (decide (h = "*")) as [->|Hne].
  { simpl. split; [by apply (rep_set_default st m (Some entry))|by split; eauto]. }
  set (v := if a then Ok tt else _). destruct v as [[]|e]; [|by rejected].
  destruct (str_strip_prefix "*." h) as [d|] eqn:Es.
  - destruct (is_empty d || str_contains "*" d); [by rejected|].
    apply strip_star_Some in Es as ->. cbn [result_ok fst snd is_ok]. rewrite lower_star_app.
    split; [by apply (rep_set_wildcard st m _ (Some entry))|by split; eauto].
  - cbn [result_ok fst snd is_ok]. split; [|by split; eauto].
    apply (rep_set_exact st m _ (Some entry)); [by rewrite lower_star| |done].
    by rewrite strip_lower, Es.
Qed.

Lemma cert_remove_spec h st m :
  store_rep st m →
  store_rep (cert_remove h st).2 (spec_cert_op (RemoveCert h) m) ∧
  (cert_remove h st).1 = bool_decide (is_Some (m !! to_lowercase h)).
Proof.
  intros Hrep. unfold spec_cert_op, cert_remove. destruct (decide (h = "*")) as [->|Hne].
  { simpl. split; [by apply (rep_set_default st m None)|]. unfold has_default.
    by rewrite <-(rep_default st m Hrep). }
  destruct (str_strip_prefix "*." h) as [d|] eqn:Es.
  - apply strip_star_Some in Es as ->. cbn [fst snd]. rewrite lower_star_app.
    split; [by apply (rep_set_wildcard st m _ None)|]. by rewrite (rep_wildcard st m Hrep).
  - assert (to_lowercase h ≠ "*" ∧ str_strip_prefix "*." (to_lowercase h) = None) as [H1' H2'].
    { by rewrite lower_star, strip_lower, Es. }
    cbn [fst snd]. split; [by apply (rep_set_exact st m _ None)|].
    by rewrite (rep_exact st m Hrep).
Qed.

Lemma run_cert_ops_rep ops : store_rep (run_cert_ops ops) (spec_certs ops).
Proof.
  unfold run_cert_ops, spec_certs.
  assert (∀ st m, store_rep st m → store_rep (fold_left (λ st op, run_cert_op op st) ops st)
    (fold_left (λ m op, spec_cert_op op m) ops m)) as Hgen.
  { induction ops as [|op ops IH]; intros st m Hrep; [done|]. apply IH.
    destruct op; [by apply cert_set_spec|by apply cert_remove_spec]. }
  apply Hgen, rep_new.
Qed.

Lemma cert_lookup_spec h st m : store_rep st m → cert_lookup h st = spec_lookup h m.
Proof.
  intros Hrep. unfold cert_lookup, spec_lookup. set (l := to_lowercase h).
  destruct (decide (l = "*")) as [->|Hne].
  { destruct (cs_exact st !! "*") as [e|] eqn:Ee.
    { by destruct (rep_exact_dom st m Hrep "*") as [? _]; [eauto|]. }
    simpl. rewrite (rep_default st m Hrep). by destruct (cs_default st). }
  destruct (str_strip_prefix "*." l) as [d|] eqn:Es.
  - destruct (cs_exact st !! l) as [e|] eqn:Ee.
    { destruct (rep_exact_dom st m Hrep l) as [_ ?]; [eauto|]. congruence. }
    apply strip_star_Some in Es. rewrite Es, (rep_wildcard st m Hrep).
    change (split_once "." ("*." +:+ d)) with (Some ("*", d)). cbn match.
    rewrite (rep_wildcard st m Hrep), (rep_default st m Hrep). by destruct (cs_wildcard st !! d).
  - rewrite (rep_exact st m Hrep) by done. destruct (cs_exact st !! l); [done|].
    rewrite (rep_default st m Hrep).
    destruct (split_once "." l) as [[x parent]|]; [|done]. by rewrite (rep_wildcard st m Hrep).
Qed.

(** C16: The three tables of the certificate store behave as one map from host
    patterns, compared without case: after any sequence of updates and
    removals of ASCII hosts, a handshake for a name gets the certificate
    registered for the name itself, else the one for the wildcard of its
    immediate parent domain, else the default. *)
Theorem cert_store_refines_map ops h :
  Forall (λ op, is_ascii (cert_op_host op) = true) ops → is_ascii h = true →
  cert_lookup h (run_cert_ops ops) = spec_lookup h (spec_certs ops).
Proof. intros _ _. apply cert_lookup_spec, run_cert_ops_rep. Qed.

(** A removal takes exactly the entry of its pattern away and says whether
    it was there. *)
Theorem cert_remove_reports ops h :
  Forall (λ op, is_ascii (cert_op_host op) = true) ops → is_ascii h = true →
  (cert_remove h (run_cert_ops ops)).1 = bool_decide (is_Some (spec_certs ops !! to_lowercase h)) ∧
  ∀ h', cert_lookup h' (cert_remove h (run_cert_ops ops)).2
        = spec_lookup h' (delete (to_lowercase h) (spec_certs ops)).
Proof.
  intros _ _. destruct (cert_remove_spec h _ _ (run_cert_ops_rep ops)) as [Hrep Hb].
  split; [done|]. intros h'. by apply cert_lookup_spec.
Qed.

Lemma existsb_elem {A} (f : A → bool) l : existsb f l = true ↔ ∃ x, x ∈ l ∧ f x = true.
Proof.
  rewrite existsb_exists. split; intros (x & Hx & Hf); exists x; split; auto;
    by apply list_elem_of_In.
Qed.

(** C38: Without [allow_mismatch], a certificate is registered for a host
    other than the default only when one of its names is that host, compared
    without ASCII case; a wildcard host needs a certificate with that very
    wildcard name. *)
Theorem cert_set_matches_names h c k st :
  h ≠ "*" → is_ok (cert_set h c k false st).1 = true →
  ∃ entry leaf rest name, parse_cert_entry c k = Ok entry ∧ ce_chain entry = leaf :: rest ∧
    name ∈ cert_names leaf ∧ eq_ignore_ascii_case name h = true.
Proof.
  intros Hne. unfold cert_set.
  destruct (parse_cert_entry c k) as [entry|] eqn:Ep; [|done].
  rewrite decide_False by done.
  destruct (ce_chain entry) as [|leaf rest] eqn:Ec.
  { unfold parse_cert_entry in Ep. destruct (map_err _ (x509_stack_from_pem c)) as [ch|];
      [|done]. simpl in Ep. destruct ch as [|x ch]; [done|]. simpl in Ep.
    destruct (map_err _ (private_key_from_pem k)); [|done]. injection Ep as <-. done. }
  unfold verify_cert_matches. intros Hok. exists entry, leaf, rest.
  destruct (str_strip_prefix "*." h) as [d|] eqn:Es.
  - apply strip_star_Some in Es as ->. destruct (existsb _ _) eqn:Ex; [|done].
    apply existsb_elem in Ex as (n & Hn & Hf). by exists n.
  - destruct (existsb _ _) eqn:Ex; [|done].
    apply existsb_elem in Ex as (n & Hn & Hf). by exists n.
Qed.
End CertStore.
Arguments CertStore {_}.

(** ** Witnesses *)

Module RefCert.
Import RefLb.
#[export] Instance lib : CertLib :=
  {| x509_sans := λ c, Some [Some c]; x509_common_names := λ _, [] |}.
End RefCert.

Section CertWitnesses.
Import RefLb RefCert.

Definition demo_cert_ops : list CertOp :=
  [SetCert "*" "default" "k" false; SetCert "*.Example.com" "*.example.com" "k" false;
   SetCert "www.example.com" "www.example.com" "k" false;
   SetCert "bad.example.com" "other.example.com" "k" false].

Example demo_lookups :
  (λ h, ce_chain <$> cert_lookup h (run_cert_ops demo_cert_ops))
    <$> ["WWW.example.com"; "a.example.com"; "a.b.example.com"; "bad.example.com"]
  = [Some ["www.example.com"]; Some ["*.example.com"]; Some ["default"]; Some ["*.example.com"]].
Proof. vm_compute. reflexivity. Qed.

(** A name with an empty first label is covered by the wildcard of its
    parent. *)
Example demo_empty_label :
  ce_chain <$> cert_lookup ".example.com" (run_cert_ops demo_cert_ops) = Some ["*.example.com"].
Proof. vm_compute. reflexivity. Qed.

Lemma cert_store_refines_map_witness :
  cert_lookup "a.example.com" (run_cert_ops demo_cert_ops)
  = spec_lookup "a.example.com" (spec_certs demo_cert_ops).
Proof. apply cert_store_refines_map; [repeat constructor|reflexivity]. Defined.

Lemma cert_remove_reports_witness :
  (cert_remove "*.EXAMPLE.com" (run_cert_ops demo_cert_ops)).1
  = bool_decide (is_Some (spec_certs demo_cert_ops !! "*.example.com")).
Proof. apply (cert_remove_reports demo_cert_ops "*.EXAMPLE.com"); [repeat constructor|reflexivity]. Defined.

Lemma cert_set_matches_names_witness :
  ∃ entry leaf rest name, parse_cert_entry "www.example.com" "k" = Ok entry ∧
    ce_chain entry = leaf :: rest ∧ name ∈ cert_names leaf ∧
    eq_ignore_ascii_case name "WWW.example.com" = true.
Proof.
  apply (cert_set_matches_names "WWW.example.com" "www.example.com" "k" CertStore_new);
    [discriminate|reflexivity].
Defined.
End CertWitnesses.
