(* ===== verification/Server.v ===== *)
(** * The server object

    [src/server/server.rs], [src/bindings/server.rs] and
    [src/route/route.rs]: routes built from their configuration, the life cycle
    of the server thread, and the operations JavaScript calls. [stop] is
    asynchronous: it runs to the point where it waits for the thread, and
    finishes when the thread has ended. The thread can also die on its own: its
    set-up panics when a listener or a certificate file is unusable. *)

From S2P Require Import Prelude Text Http Config Cel CelSession CelRegex CelFunctions.
From S2P Require Import CelEngine CheapExpr Precheck Matcher RouteTable.
From S2P Require Import VjsSocket VjsRegistry LoadBalancer Pingora ErrorPages Ctx.
From S2P Require Import Upstream CertStore.
From stdpp Require Import base tactics strings list gmap relations.
From Stdlib Require Import ZArith Lia.

(** The middleware registry: a configuration, its validator, and
    [build_middleware], which may also change the middlewares' global state. *)
Class MwBuild `{MwTypes} := {
  MC : Type;
  mc_validate : MC → result unit string;
  build_middleware : MC → MwState → result MW string * MwState;
}.

Section Server.
Context `{HttpLib, RegexLib, RuleLib, !CelLib, TlsLib, !CertLib, LbLib, MwTypes, !MwBuild}.

(** ** Routes *)

(** The loop of [Route::from_config]: what the middlewares that were built did to
    the global state stays when a later one fails. *)
Fixpoint build_middlewares (cs : list MC) (g : MwState) : result (list MW) string * MwState :=
  match cs with
  | [] => (Ok [], g)
  | c :: cs' =>
      match build_middleware c g with
      | (Err e, g) => (Err e, g)
      | (Ok m, g) => let '(r, g) := build_middlewares cs' g in (let? ms := r in Ok (m :: ms), g)
      end
  end.

(** [Route::from_config]: the route with the shared state that has its pool,
    and the middlewares' global state it leaves, also when it fails. *)
Definition Route_from_config (cfg : RouteConfig MC) (sh : Shared)
    : result (Route * Shared) string * MwState :=
  match (RouteConfig_validate mc_validate cfg ;? from_cel (rmc_rule (rc_matcher cfg))) with
  | Err e => (Err e, sh_mw sh)
  | Ok matcher =>
      let '(built, g) := build_middlewares (rc_middlewares cfg) (sh_mw sh) in
      (let? middlewares := built in
       let? '(pool, sh) := UpstreamPool_from_config (rc_upstreams cfg) (rc_load_balancer cfg)
                             (set_mw g sh) in
       Ok (mkRoute (rc_id cfg) (effective_priority cfg) matcher middlewares pool, sh), g)
  end.

(** ** The runtime *)

(** The server thread holds the receiver of the shutdown channel while it
    lives. A runtime has a sender and a join handle until they are taken. *)
Inductive ThreadState := ThreadAlive | ThreadDead.

Record LonesomeRuntime := mkLonesomeRuntime {
  rt_startup : StartupConfig;
  rt_shutdown_tx : bool;
  rt_handle : bool;
  rt_thread : ThreadState;
}.

Definition tls_without_default (st : CertStore) (l : StartupListenerConfig) : bool :=
  match l with
  | ListenTls _ None _ => negb (has_default st)
  | _ => false
  end.

(** [LonesomeRuntime::start]; [spawn] is the outcome of spawning the thread. *)
Definition runtime_start (startup : StartupConfig) (certs : CertStore)
    (spawn : result unit string) : result LonesomeRuntime string :=
  StartupConfig_validate startup ;?
  guard_err (existsb (tls_without_default certs) (sc_listeners startup))
    "tls listener requires certPath/keyPath unless updateCert('*') has set a global default cert" ;?
  map_err (λ e, "failed to spawn pingora thread: " +:+ e) spawn ;?
  Ok (mkLonesomeRuntime startup true true ThreadAlive).

(** What the thread sets up from the configuration: the framework's
    configuration, the proxy's settings and the listeners, in order. *)
Record ServerConf := mkServerConf {
  conf_threads : Z;
  conf_work_stealing : bool;
  conf_grace_period_seconds : option Z;
  conf_graceful_shutdown_timeout_seconds : option Z;
  conf_upstream_keepalive_pool_size : Z;
  conf_max_retries : Z;
}.
Inductive ServiceListener :=
| AddTcp (addr : string)
| AddTls (addr : string) (static_cert : option (string * string)) (h2 : bool)
| AddUds (path : string).
Record Service := mkService {
  svc_conf : ServerConf;
  svc_sni_host_policy : SniHostPolicy;
  svc_downstream_read_timeout : option Z;
  svc_downstream_write_timeout : option Z;
  svc_h2c : bool;
  svc_listeners : list ServiceListener;
}.

Definition server_conf (startup : StartupConfig) (conf : ServerConf) : ServerConf :=
  mkServerConf (default (conf_threads conf) (sc_threads startup))
    (default (conf_work_stealing conf) (sc_work_stealing startup))
    (Some (default 1%Z (sc_grace_period_seconds startup)))
    (Some (default 1%Z (sc_graceful_shutdown_timeout_seconds startup)))
    (default (conf_upstream_keepalive_pool_size conf) (sc_upstream_keepalive_pool_size startup))
    (default (conf_max_retries conf) (sc_max_retries startup)).
Definition service_listener (l : StartupListenerConfig) : ServiceListener :=
  match l with
  | ListenTcp addr => AddTcp addr
  | ListenTls addr cert_path key_path =>
      AddTls addr (match cert_path, key_path with
                   | Some c, Some k => Some (c, k)
                   | _, _ => None
                   end) true
  | ListenUnix path => AddUds path
  end.
Definition thread_service (startup : StartupConfig) (conf : ServerConf) : Service :=
  mkService (server_conf startup conf) (sc_sni_host_policy startup)
    (sc_downstream_read_timeout_ms startup) (sc_downstream_write_timeout_ms startup)
    (default false (sc_enable_h2c_downstream startup))
    (service_listener <$> sc_listeners startup).

(** Sending the signal fails when the receiver is gone. *)
Definition send_shutdown (rt : LonesomeRuntime) : result unit string :=
  if rt_shutdown_tx rt then
    match rt_thread rt with
    | ThreadAlive => Ok tt
    | ThreadDead => Err "failed to send shutdown signal: sending on a closed channel"
    end
  else Ok tt.
(** [detach_shutdown]: the handle is taken from a runtime that has one, else the
    call panics. *)
Definition detach_shutdown (rt : LonesomeRuntime) : result unit string :=
  send_shutdown rt ;?
  (if rt_handle rt then Ok tt else Err "runtime handle present").

(** [LonesomeRuntime::stop]; [panicked] is the outcome of joining the thread. The
    sender is taken before it sends. *)
Definition runtime_stop (panicked : bool) (rt : LonesomeRuntime)
    : result unit string * LonesomeRuntime :=
  let taken := mkLonesomeRuntime (rt_startup rt) false (rt_handle rt) (rt_thread rt) in
  match send_shutdown rt with
  | Err e => (Err e, taken)
  | Ok _ =>
      if rt_handle rt then
        (if panicked then Err "pingora thread panicked while joining" else Ok tt,
         mkLonesomeRuntime (rt_startup rt) false false ThreadDead)
      else (Ok tt, taken)
  end.
(** [Drop]: the outcome is ignored. *)
Definition runtime_drop (panicked : bool) (rt : LonesomeRuntime) : LonesomeRuntime :=
  (runtime_stop panicked rt).2.
Definition is_running (rt : LonesomeRuntime) : bool := rt_handle rt.

(** [ChannelShutdownSignalWatch::recv]: a signal, or the end of the channel. *)
Inductive ShutdownSignal := GracefulUpgrade | GracefulTerminate | FastShutdown.
Definition watch_recv (received : option ShutdownSignal) : ShutdownSignal :=
  default GracefulTerminate received.

(** ** The server *)

Record LonesomeServer := mkServer {
  sv_routes : list Route;
  sv_runtime : option LonesomeRuntime;
  sv_certs : CertStore;
  sv_shared : Shared;
  sv_started : bool;
  sv_stopping : bool;
  (** A [stop] is waiting for the thread to end. *)
  sv_draining : bool;
}.

Definition set_runtime (rt : option LonesomeRuntime) (started stopping draining : bool)
    (s : LonesomeServer) : LonesomeServer :=
  mkServer (sv_routes s) rt (sv_certs s) (sv_shared s) started stopping draining.

Definition server_new (sh : Shared) : LonesomeServer :=
  mkServer [] None CertStore_new sh false false false.

(** [LonesomeServer::start]. *)
Definition server_start (startup : StartupConfig) (spawn : result unit string)
    (s : LonesomeServer) : result unit string * LonesomeServer :=
  match sv_runtime s with
  | Some _ => (Err "lonesome server already started", s)
  | None =>
      if sv_stopping s then (Err "lonesome server is stopping", s)
      else match runtime_start startup (sv_certs s) spawn with
           | Err e => (Err e, s)
           | Ok rt => (Ok tt, set_runtime (Some rt) true (sv_stopping s) (sv_draining s) s)
           end
  end.

(** [LonesomeServer::stop], up to its first wait: [Some r] when it has
    returned already, [None] when it waits for the thread. *)
Definition stop_begin (s : LonesomeServer) : option (result unit string) * LonesomeServer :=
  match sv_runtime s with
  | None => (Some (Ok tt), s)
  | Some rt =>
      let s := set_runtime None (sv_started s) true (sv_draining s) s in
      match detach_shutdown rt with
      | Err e => (Some (Err e), s)
      | Ok _ => (None, set_runtime None (sv_started s) true true s)
      end
  end.

(** The rest of [stop], when the thread has ended. *)
Definition stop_finish (s : LonesomeServer) : LonesomeServer :=
  set_runtime (sv_runtime s) (sv_started s) false false s.

(** The thread ends on its own. *)
Definition thread_dies (s : LonesomeServer) : LonesomeServer :=
  match sv_runtime s with
  | None => s
  | Some rt => set_runtime (Some (mkLonesomeRuntime (rt_startup rt) (rt_shutdown_tx rt) (rt_handle rt) ThreadDead))
                 (sv_started s) (sv_stopping s) (sv_draining s) s
  end.

(** The middlewares' global state is replaced. *)
Definition with_mw (g : MwState) (s : LonesomeServer) : LonesomeServer :=
  mkServer (sv_routes s) (sv_runtime s) (sv_certs s) (set_mw g (sv_shared s)) (sv_started s)
    (sv_stopping s) (sv_draining s).

(** [add_or_update], [validate], [remove]. *)
Definition add_or_update (cfg : RouteConfig MC) (s : LonesomeServer)
    : result unit string * LonesomeServer :=
  match Route_from_config cfg (sv_shared s) with
  | (Err e, g) => (Err e, with_mw g s)
  | (Ok (route, sh), _) =>
      (Ok tt, mkServer (upsert_route route (sv_routes s)) (sv_runtime s) (sv_certs s) sh
                (sv_started s) (sv_stopping s) (sv_draining s))
  end.
Definition server_validate (cfg : RouteConfig MC) (s : LonesomeServer)
    : result unit string * LonesomeServer :=
  let '(r, g) := Route_from_config cfg (sv_shared s) in
  (let? _ := r in Ok tt, with_mw g s).
Definition server_remove (id : string) (s : LonesomeServer) : bool * LonesomeServer :=
  let '(routes, removed) := remove_route id (sv_routes s) in
  (removed, mkServer routes (sv_runtime s) (sv_certs s) (sv_shared s) (sv_started s)
              (sv_stopping s) (sv_draining s)).

(** [update_error_page], [remove_error_page], [update_cert], [remove_cert]. *)
Definition set_pages (es : list ErrorPageEntry) (s : LonesomeServer) : LonesomeServer :=
  let sh := sv_shared s in
  mkServer (sv_routes s) (sv_runtime s) (sv_certs s)
    (mkShared' (sh_health sh) (sh_lbs sh) (sh_vjs sh) es (sh_mw sh) (sh_env sh))
    (sv_started s) (sv_stopping s) (sv_draining s).
Definition update_error_page (c : ErrorPageConfig) (s : LonesomeServer)
    : result unit string * LonesomeServer :=
  let '(r, es) := update_page c (sh_pages (sv_shared s)) in (r, set_pages es s).
Definition remove_error_page (id : string) (s : LonesomeServer) : bool * LonesomeServer :=
  let '(r, es) := remove_page id (sh_pages (sv_shared s)) in (r, set_pages es s).
Definition set_certs (c : CertStore) (s : LonesomeServer) : LonesomeServer :=
  mkServer (sv_routes s) (sv_runtime s) c (sv_shared s) (sv_started s) (sv_stopping s)
    (sv_draining s).
Definition update_cert (h cert_pem key_pem : string) (allow_mismatch : option bool)
    (s : LonesomeServer) : result unit string * LonesomeServer :=
  let '(r, c) := cert_set h cert_pem key_pem (default false allow_mismatch) (sv_certs s) in
  (r, set_certs c s).
Definition remove_cert (h : string) (s : LonesomeServer) : bool * LonesomeServer :=
  let '(r, c) := cert_remove h (sv_certs s) in (r, set_certs c s).

(** ** Status *)

Definition listener_status (l : StartupListenerConfig) : ListenerStatus :=
  match l with
  | ListenTcp addr => mkListenerStatus "tcp" addr
  | ListenTls addr _ _ => mkListenerStatus "tls" addr
  | ListenUnix path => mkListenerStatus "unix" path
  end.

Definition running (s : LonesomeServer) : bool :=
  match sv_runtime s with Some rt => is_running rt | None => false end.
Definition server_state (s : LonesomeServer) : ServerState :=
  if negb (sv_started s) then Idle
  else if sv_stopping s then Stopping
  else if running s then Running
  else Stopped.

Definition route_status (sh : Shared) (r : Route) : RouteStatus :=
  mkRouteStatus (r_id r) (m_source (r_matcher r)) (r_priority r)
    (load_balancer_status (r_upstream_pool r)) (upstream_pool_status (r_upstream_pool r) sh).

(** [status]: the counts go through [as u32]. *)
Definition server_status (s : LonesomeServer) : ServerStatus :=
  let routes := route_status (sv_shared s) <$> sv_routes s in
  let running := running s in
  let route_count := wrap_unsigned 32 (route_count (sv_routes s)) in
  match sv_runtime s with
  | Some rt =>
      let startup := rt_startup rt in
      mkServerStatus running (server_state s) route_count
        (wrap_unsigned 32 (default 0%Z (sc_threads startup)))
        (default false (sc_work_stealing startup)) (sc_sni_host_policy startup)
        (page_count (sh_pages (sv_shared s))) (listener_status <$> sc_listeners startup) routes
  | None =>
      mkServerStatus running (server_state s) route_count 0 false SniHostPolicy_default 0 [] routes
  end.

(** ** The life cycle *)

Inductive server_step : LonesomeServer → LonesomeServer → Prop :=
| step_start startup spawn s : server_step s (server_start startup spawn s).2
| step_stop s : server_step s (stop_begin s).2
| step_stopped s : sv_draining s = true → server_step s (stop_finish s)
| step_thread_dies s : server_step s (thread_dies s)
| step_add_or_update cfg s : server_step s (add_or_update cfg s).2
| step_remove id s : server_step s (server_remove id s).2
| step_update_page c s : server_step s (update_error_page c s).2
| step_remove_page id s : server_step s (remove_error_page id s).2
| step_update_cert h c k a s : server_step s (update_cert h c k a s).2
| step_remove_cert h s : server_step s (remove_cert h s).2.

(** Every operation but the four of the life cycle leaves it alone. *)
Definition same_life (s s' : LonesomeServer) : Prop :=
  sv_runtime s' = sv_runtime s ∧ sv_started s' = sv_started s ∧
  sv_stopping s' = sv_stopping s ∧ sv_draining s' = sv_draining s.

Lemma config_step_same_life s s' :
  server_step s s' →
  same_life s s' ∨ (∃ c sp, s' = (server_start c sp s).2) ∨ s' = (stop_begin s).2 ∨
  (sv_draining s = true ∧ s' = stop_finish s) ∨ s' = thread_dies s.
Proof.
  destruct 1 as [c sp s|s|s|s|cfg s|id s|c s|id s|h c k a s|h s]; eauto 7; left.
  - unfold add_or_update. by destruct (Route_from_config cfg (sv_shared s)) as [[[? ?]|] ?].
  - unfold server_remove. by destruct (remove_route id (sv_routes s)).
  - unfold update_error_page. by destruct (update_page c _).
  - unfold remove_error_page. by destruct (remove_page id _).
  - unfold update_cert. by destruct (cert_set h c k _ _).
  - unfold remove_cert. by destruct (cert_remove h _).
Qed.

(** The invariant of the life cycle. *)
Record life_inv (s : LonesomeServer) : Prop := {
  life_idle : sv_started s = false → sv_runtime s = None ∧ sv_stopping s = false;
  life_stopping : sv_stopping s = true → sv_runtime s = None;
  life_draining : sv_draining s = true → sv_stopping s = true;
  life_handle : ∀ rt, sv_runtime s = Some rt → rt_handle rt = true;
}.

Lemma life_inv_new sh : life_inv (server_new sh).
Proof. by split. Qed.

(** A runtime that was just started holds its thread's handle. *)
Lemma runtime_start_handle c certs spawn rt :
  runtime_start c certs spawn = Ok rt → rt_handle rt = true.
Proof.
  unfold runtime_start. destruct (StartupConfig_validate c); [|done]. cbn [result_bind].
  destruct (guard_err _ _); [|done]. cbn [result_bind]. destruct spawn; [|done].
  by intros [= <-].
Qed.

Lemma life_inv_step s s' : server_step s s' → life_inv s → life_inv s'.
Proof.
  intros Hstep Hinv. pose proof Hinv as [Hi Hs Hd Hh].
  destruct (config_step_same_life s s' Hstep)
    as [(E1 & E2 & E3 & E4)|[(c & sp & ->)|[->|[[Hdr ->]| ->]]]].
  - split; rewrite ?E1, ?E2, ?E3, ?E4; auto.
  - unfold server_start. destruct (sv_runtime s) eqn:Er; [done|].
    destruct (sv_stopping s) eqn:Es; [done|].
    destruct (runtime_start c (sv_certs s) sp) eqn:Ert; [|done].
    apply runtime_start_handle in Ert. split; simpl; auto; congruence.
  - unfold stop_begin. destruct (sv_runtime s) as [rt|] eqn:Er; [|done].
    destruct (detach_shutdown rt); split; simpl; auto; try congruence; intros Hst;
      destruct (Hi Hst); congruence.
  - unfold stop_finish. split; simpl; try done. intros Hst. destruct (Hi Hst). auto.
  - unfold thread_dies. destruct (sv_runtime s) as [rt|] eqn:Er; [|done].
    split; simpl; auto; [intros Hst; destruct (Hi Hst); congruence| |].
    + intros Hst. specialize (Hs Hst). congruence.
    + intros rt' [= <-]. simpl. by apply Hh.
Qed.

Lemma life_inv_reachable sh s : rtc server_step (server_new sh) s → life_inv s.
Proof.
  intros Hr. pose proof (life_inv_new sh) as Hinv.
  induction Hr as [|x y z Hxy _ IH]; [done|]. by apply IH, (life_inv_step x).
Qed.

(** The transitions the documentation draws. *)
Definition may_follow (a b : ServerState) : Prop :=
  a = b ∨ (a = Idle ∧ b = Running) ∨ (a = Running ∧ b = Stopping) ∨
  (a = Stopping ∧ b = Stopped) ∨ (a = Stopped ∧ b = Running).

Lemma running_spec s : life_inv s → running s = true ↔ is_Some (sv_runtime s).
Proof.
  intros Hinv. unfold running, is_running. destruct (sv_runtime s) as [rt|] eqn:E.
  - by rewrite (life_handle s Hinv rt E).
  - by split; [|intros []].
Qed.

Lemma server_step_follows s s' :
  life_inv s → server_step s s' → may_follow (server_state s) (server_state s').
Proof.
  intros Hinv Hstep. pose proof Hinv as [Hi Hs Hd Hh]. unfold may_follow.
  destruct (config_step_same_life s s' Hstep) as
    [(E1 & E2 & E3 & E4)|[(c & sp & ->)|[->|[[Hdr ->]| ->]]]].
  - left. unfold server_state, running. by rewrite E1, E2, E3.
  - unfold server_start. destruct (sv_runtime s) eqn:Er; [by left|].
    destruct (sv_stopping s) eqn:Es; [by left|].
    destruct (runtime_start c (sv_certs s) sp) as [rt|] eqn:Ert; [|by left].
    apply runtime_start_handle in Ert. unfold server_state, running, is_running. simpl.
    rewrite Es, Er, Ert. destruct (sv_started s); simpl; auto 6.
  - unfold stop_begin. destruct (sv_runtime s) as [rt|] eqn:Er; [|by left].
    assert (sv_started s = true) as Hst.
    { destruct (sv_started s); [done|]. destruct (Hi eq_refl). congruence. }
    assert (sv_stopping s = false) as Hns.
    { destruct (sv_stopping s); [|done]. specialize (Hs eq_refl). congruence. }
    right. right. left. unfold server_state, running, is_running.
    rewrite Hst, Hns, Er, (Hh rt eq_refl). by destruct (detach_shutdown rt).
  - specialize (Hd Hdr). specialize (Hs Hd). unfold server_state, running, stop_finish. simpl.
    rewrite Hd, Hs. destruct (sv_started s); simpl; auto 6.
  - left. unfold thread_dies, server_state, running.
    by destruct (sv_runtime s) eqn:Er; rewrite ?Er.
Qed.

(** C36: The state reported for a server only ever moves along idle to running
    to stopping to stopped to running again, whatever operations, failures and
    waits interleave. The status says that the server runs exactly when a
    runtime is installed, and exactly when that state is running; while the
    server stops, no runtime is installed. *)
Theorem server_lifecycle sh s s' :
  rtc server_step (server_new sh) s → server_step s s' →
  may_follow (server_state s) (server_state s') ∧
  (st_running (server_status s) = true ↔ is_Some (sv_runtime s)) ∧
  (server_state s = Running ↔ is_Some (sv_runtime s)) ∧
  (server_state s = Stopping → sv_runtime s = None).
Proof.
  intros Hr Hstep. pose proof (life_inv_reachable sh s Hr) as Hinv.
  split; [by apply server_step_follows|]. pose proof (running_spec s Hinv) as Hrun.
  destruct Hinv as [Hi Hs _ _].
  assert (st_running (server_status s) = running s) as ->
    by (unfold server_status; by destruct (sv_runtime s)).
  split; [done|]. unfold server_state. destruct (sv_started s).
  - simpl. destruct (sv_stopping s); [rewrite (Hs eq_refl); split; [split; [done|by intros []]|done]|].
    rewrite <-Hrun. by destruct (running s).
  - destruct (Hi eq_refl) as [Hn _]. rewrite Hn. split; [split; [done|by intros []]|done].
Qed.

(** Stopping a runtime twice: after the second call, however the first ended,
    the thread has been joined; a first call that succeeded leaves nothing to
    do. A runtime that is stopped and then dropped is therefore never leaked. *)
Lemma runtime_stop_twice p q rt :
  let r1 := runtime_stop p rt in
  let r2 := runtime_stop q r1.2 in
  is_running r2.2 = false ∧ (rt_handle rt = true → rt_thread r2.2 = ThreadDead) ∧
  (r1.1 = Ok tt → r2 = (Ok tt, r1.2)).
Proof.
  destruct rt as [c [] [] []], p, q; cbn; split_and!; congruence || done.
Qed.

(** ** A stop that fails *)

Definition stuck (s : LonesomeServer) : Prop :=
  sv_stopping s = true ∧ sv_runtime s = None ∧ sv_draining s = false.

Lemma stuck_step s s' : server_step s s' → stuck s → stuck s'.
Proof.
  intros Hstep (Hs & Hr & Hd). unfold stuck. destruct (config_step_same_life s s' Hstep) as
    [(E1 & E2 & E3 & E4)|[(c & sp & ->)|[->|[[Hdr _]| ->]]]]; [by rewrite E1, E3, E4| | | |].
  - unfold server_start. by rewrite Hr, Hs.
  - unfold stop_begin. by rewrite Hr.
  - congruence.
  - unfold thread_dies. by rewrite Hr.
Qed.

(** C37: When the server thread has died on its own, [stop] fails, and from
    then on the server is unusable for good: whatever happens later, it
    reports stopping and every [start] is refused. *)
Theorem failed_stop_is_final sh s rt s' :
  rtc server_step (server_new sh) s → sv_runtime s = Some rt → sv_draining s = false →
  rt_shutdown_tx rt = true → rt_thread rt = ThreadDead →
  (∃ e, (stop_begin s).1 = Some (Err e)) ∧
  (rtc server_step (stop_begin s).2 s' →
     server_state s' = Stopping ∧
     ∀ startup spawn, (server_start startup spawn s').1 = Err "lonesome server is stopping").
Proof.
  intros Hreach Hrt Hdr Htx Hth. pose proof (life_inv_reachable sh s Hreach) as [Hi _ _ _].
  assert (sv_started s = true) as Hst.
  { destruct (sv_started s); [done|]. destruct (Hi eq_refl). congruence. }
  unfold stop_begin. rewrite Hrt. unfold detach_shutdown, send_shutdown. rewrite Htx, Hth. simpl.
  split; [by eexists|]. intros Hr.
  assert (stuck s' ∧ sv_started s' = true) as [(Hs & Hn & _) Hst'].
  { remember (set_runtime None (sv_started s) true (sv_draining s) s) as x eqn:Ex.
    assert (stuck x ∧ sv_started x = true) as Hx by (subst x; by split).
    clear Ex. induction Hr as [|x y z Hxy _ IH]; [done|]. apply IH. destruct Hx as [Hx Hsx].
    split; [by eapply stuck_step|].
    destruct (config_step_same_life x y Hxy) as
      [(_ & E2 & _)|[(c & sp & ->)|[->|[[Hdx ->]| ->]]]]; [by rewrite E2| | | |];
      destruct Hx as (? & Hnx & ?).
    - unfold server_start. rewrite Hnx. by repeat case_match.
    - unfold stop_begin. by rewrite Hnx.
    - done.
    - unfold thread_dies. by rewrite Hnx. }
  split.
  - unfold server_state. by rewrite Hst', Hs.
  - intros startup spawn. unfold server_start. by rewrite Hn, Hs.
Qed.

(** ** The system invariant *)

Section System.
Context `{!LbLaws}.

(** Heaps only grow. *)
Definition heap_le (sh sh' : Shared) : Prop :=
  (∃ l, sh_lbs sh' = sh_lbs sh ++ l) ∧ length (sh_health sh) ≤ length (sh_health sh') ∧
  sh_pages sh' = sh_pages sh ∧ sh_vjs sh' = sh_vjs sh.

Lemma pool_ok_mono p sh sh' : heap_le sh sh' → pool_ok p sh → pool_ok p sh'.
Proof.
  intros ([l Hl] & Hh & _) (Hne & loc & lb & base & H1' & H2' & H3' & H4' & H5').
  split; [done|]. exists loc, lb, base. split_and!; try done; [|lia].
  rewrite Hl. by apply lookup_app_l_Some.
Qed.

Lemma from_config_heap_le ups cfg sh p sh' :
  UpstreamPool_from_config ups cfg sh = Ok (p, sh') → heap_le sh sh'.
Proof.
  unfold UpstreamPool_from_config. destruct ups as [|u ups]; [done|]. intros Hf.
  destruct (try_map endpoint_of_config (u :: ups)) as [es|]; [|done].
  cbn [result_bind] in Hf. set (c := default _ cfg) in Hf.
  destruct (build_load_balancer es c (sh_health sh)) as [[lb health]|] eqn:Elb; [|done].
  cbn [result_bind] in Hf. apply build_load_balancer_ok in Elb as [-> _].
  destruct (transpose _ (lb_hash_key_rule c)); [|done]. cbn [result_bind] in Hf.
  destruct lb; injection Hf as _ <-; unfold heap_le; cbn; rewrite length_app;
    (split; [|split; [lia|done]]); [by eexists|exists []; by rewrite app_nil_r].
Qed.

(** A route that was built: its fields, and its pool. *)
Lemma build_middlewares_ok cs g ms g' :
  build_middlewares cs g = (Ok ms, g') →
  Forall2 (λ c m, ∃ g1 g2, build_middleware c g1 = (Ok m, g2)) cs ms.
Proof.
  revert g ms. induction cs as [|c cs IH]; simpl; intros g ms Hb; [by simplify_eq|].
  destruct (build_middleware c g) as [[m|] g1] eqn:Ec; [|done].
  destruct (build_middlewares cs g1) as [[ms1|] g2] eqn:Es; simplify_eq/=. constructor; eauto.
Qed.

(** The steps of a construction that succeeded. *)
Lemma route_from_config_inv cfg sh r sh' g :
  Route_from_config cfg sh = (Ok (r, sh'), g) →
  ∃ matcher ms pool, RouteConfig_validate mc_validate cfg = Ok tt ∧
    from_cel (rmc_rule (rc_matcher cfg)) = Ok matcher ∧
    build_middlewares (rc_middlewares cfg) (sh_mw sh) = (Ok ms, g) ∧
    UpstreamPool_from_config (rc_upstreams cfg) (rc_load_balancer cfg) (set_mw g sh)
      = Ok (pool, sh') ∧
    r = mkRoute (rc_id cfg) (effective_priority cfg) matcher ms pool.
Proof.
  unfold Route_from_config. intros Hf.
  destruct (RouteConfig_validate mc_validate cfg) as [[]|]; cbn [result_bind] in Hf; [|done].
  destruct (from_cel _) as [m|]; [|done].
  destruct (build_middlewares _ _) as [[ms|] g1]; cbn [result_bind] in Hf; [|done].
  destruct (UpstreamPool_from_config _ _ _) as [[p sh1]|] eqn:Ep; [|done].
  cbn [result_bind] in Hf. injection Hf as <- <- <-. by exists m, ms, p.
Qed.

Lemma route_from_config_ok cfg sh r sh' g :
  Route_from_config cfg sh = (Ok (r, sh'), g) →
  RouteConfig_validate mc_validate cfg = Ok tt ∧ r_id r = rc_id cfg ∧
  r_priority r = effective_priority cfg ∧ m_source (r_matcher r) = rmc_rule (rc_matcher cfg) ∧
  length (r_middlewares r) = length (rc_middlewares cfg) ∧
  length (up_endpoints (r_upstream_pool r)) = length (rc_upstreams cfg) ∧
  pool_ok (r_upstream_pool r) sh' ∧ heap_le sh sh'.
Proof.
  intros (m & ms & p & Ev & Em & Eb & Ep & ->)%route_from_config_inv.
  assert (heap_le sh sh') as Hle by exact (from_config_heap_le _ _ _ _ _ Ep).
  apply from_config_facts in Ep as (Hok & Hes & _). apply try_map_length in Hes.
  apply build_middlewares_ok, Forall2_length in Eb.
  unfold from_cel in Em. destruct (map_err _ _); [|done]. injection Em as <-. by split_and!.
Qed.

Record system_inv (s : LonesomeServer) : Prop := {
  sys_routes : table_wf (sv_routes s);
  sys_pages : store_wf (sh_pages (sv_shared s));
  sys_pools : Forall (λ r, pool_ok (r_upstream_pool r) (sv_shared s)) (sv_routes s);
}.

Lemma system_inv_same s s' :
  sv_routes s' = sv_routes s → sv_shared s' = sv_shared s → system_inv s → system_inv s'.
Proof. intros Er Es []. by split; rewrite ?Er, ?Es. Qed.

Lemma system_inv_new sh : sh_pages sh = [] → system_inv (server_new sh).
Proof.
  intros Hpages. split; cbn; [apply wf_nil| |constructor]. rewrite Hpages. split_and!; constructor.
Qed.

Lemma with_mw_inv g s : system_inv s → system_inv (with_mw g s).
Proof. intros [Hr Hp Ho]. by split. Qed.

Lemma set_pages_inv es s : store_wf es → system_inv s → system_inv (set_pages es s).
Proof.
  intros Hes [Hr Hp Ho]. by split.
Qed.

(** What a step does to the routes and the shared state: nothing, or one of the
    three kinds of update. *)
Lemma server_step_data s s' :
  server_step s s' →
  (sv_routes s' = sv_routes s ∧ sv_shared s' = sv_shared s) ∨
  (∃ cfg, s' = (add_or_update cfg s).2) ∨ (∃ id, s' = (server_remove id s).2) ∨
  (∃ op, s' = set_pages (run_page_op op (sh_pages (sv_shared s))) s).
Proof.
  destruct 1 as [c sp s|s|s _|s|cfg s|id s|c s|id s|h c k a s|h s]; eauto.
  - left. unfold server_start. by repeat case_match.
  - left. unfold stop_begin. by repeat case_match.
  - left. unfold thread_dies. by case_match.
  - right. right. right. exists (PageUpdate c). unfold update_error_page, run_page_op.
    by destruct (update_page c _).
  - right. right. right. exists (PageRemove id). unfold remove_error_page, run_page_op.
    by destruct (remove_page id _).
  - left. unfold update_cert. by destruct (cert_set h c k _ _).
  - left. unfold remove_cert. by destruct (cert_remove h _).
Qed.

Lemma system_inv_step s s' : server_step s s' → system_inv s → system_inv s'.
Proof.
  intros [[Er Es]|[[cfg ->]|[[id ->]|[op ->]]]]%server_step_data Hinv.
  - by apply (system_inv_same s).
  - unfold add_or_update.
    destruct (Route_from_config cfg (sv_shared s)) as [[[r sh]|] g] eqn:E;
      [|by apply with_mw_inv].
    apply route_from_config_ok in E as (_ & _ & _ & _ & _ & _ & Hpool & Hle).
    destruct Hinv as [Hr Hp Ho]. split; cbn; [by apply upsert_wf| |].
    { destruct Hle as (_ & _ & -> & _). done. }
    rewrite upsert_perm by apply Hr. apply Forall_cons. split; [done|].
    apply Forall_filter_keep. eapply Forall_impl; [exact Ho|].
    intros x. by apply pool_ok_mono.
  - unfold server_remove. destruct Hinv as [Hr Hp Ho]. pose proof (remove_wf id _ Hr) as Hr'.
    destruct (remove_route id (sv_routes s)) as [t b] eqn:E. split; cbn; try done.
    injection E as <- _. by apply Forall_filter_keep.
  - apply set_pages_inv; [|done]. apply run_page_op_wf, Hinv.
Qed.

(** Adding a route is all or nothing, but for the middlewares' global state: a
    configuration that does not validate, compile or build is refused and
    changes nothing else; an accepted one installs a route with the configured
    id, rule, middlewares and upstreams and the effective priority, replacing
    the route of that id and no other. [validate] gives the same verdict and
    leaves the same global state, without the route. *)
Theorem add_or_update_atomic cfg s :
  (add_or_update cfg s).1 = (server_validate cfg s).1 ∧
  (∃ g, (server_validate cfg s).2 = with_mw g s) ∧
  match add_or_update cfg s with
  | (Err _, s') => s' = (server_validate cfg s).2
  | (Ok _, s') =>
      ∃ r sh, RouteConfig_validate mc_validate cfg = Ok tt ∧
        r_id r = rc_id cfg ∧ r_priority r = effective_priority cfg ∧
        m_source (r_matcher r) = rmc_rule (rc_matcher cfg) ∧
        length (r_middlewares r) = length (rc_middlewares cfg) ∧
        length (up_endpoints (r_upstream_pool r)) = length (rc_upstreams cfg) ∧
        s' = mkServer (upsert_route r (sv_routes s)) (sv_runtime s) (sv_certs s) sh
               (sv_started s) (sv_stopping s) (sv_draining s) ∧ heap_le (sv_shared s) sh
  end.
Proof.
  unfold add_or_update, server_validate.
  destruct (Route_from_config cfg (sv_shared s)) as [[[r sh]|e] g] eqn:E;
    (split; [done|]); (split; [by eexists|]); [|done].
  apply route_from_config_ok in E. exists r, sh. naive_solver.
Qed.

(** ** The middlewares of installed routes *)

(** What holds of every middleware that can be built keeps holding of the
    middlewares of the installed routes. *)
Section Installed.
Context (P : MW → Prop) (HP : ∀ c g m g', build_middleware c g = (Ok m, g') → P m).
Definition routes_satisfy (s : LonesomeServer) : Prop :=
  Forall (λ r, Forall P (r_middlewares r)) (sv_routes s).

Lemma routes_satisfy_step s s' :
  server_step s s' → system_inv s → routes_satisfy s → routes_satisfy s'.
Proof.
  unfold routes_satisfy.
  intros [[-> _]|[[cfg ->]|[[id ->]|[op ->]]]]%server_step_data Hinv Hs; [done| | |done].
  - unfold add_or_update.
    destruct (Route_from_config cfg (sv_shared s)) as [[[r sh]|] g] eqn:E; [|done].
    cbn. rewrite upsert_perm by apply Hinv.
    apply Forall_cons. split; [|by apply Forall_filter_keep].
    apply route_from_config_inv in E as (m & ms & p & _ & _ & Eb & _ & ->). cbn.
    apply build_middlewares_ok in Eb.
    induction Eb as [|c x cs xs (g1 & g2 & Hx) _ IH]; constructor; eauto.
  - unfold server_remove. destruct (remove_route id (sv_routes s)) as [t b] eqn:E.
    injection E as <- _. by apply Forall_filter_keep.
Qed.

End Installed.
End System.

Lemma start_outcome startup spawn s :
  (is_ok (server_start startup spawn s).1 = true ↔
     sv_runtime s = None ∧ sv_stopping s = false ∧ StartupConfig_validate startup = Ok tt ∧
     (∀ addr key, ListenTls addr None key ∈ sc_listeners startup → is_Some (cs_default (sv_certs s))) ∧
     spawn = Ok tt) ∧
  (is_ok (server_start startup spawn s).1 = false → (server_start startup spawn s).2 = s).
Proof.
  unfold server_start. destruct (sv_runtime s) as [rt|] eqn:Er; [split; [split; naive_solver|done]|].
  destruct (sv_stopping s); [split; [split; naive_solver|done]|].
  unfold runtime_start. destruct (StartupConfig_validate startup) as [[]|e]; cbn [result_bind];
    [|split; [split; naive_solver|done]].
  destruct (existsb _ _) eqn:Ex; cbn [guard_err result_bind].
  { split; [|done]. split; [done|]. intros (_ & _ & _ & Hd & _).
    apply existsb_elem in Ex as (l & Hin & Hl). destruct l as [|addr [|] key|]; try done.
    cbn in Hl. unfold has_default in Hl. by rewrite bool_decide_true in Hl by eauto. }
  destruct spawn as [[]|e]; cbn; [|split; [split; naive_solver|done]].
  split; [|done]. split; [|done]. intros _. split_and!; try done.
  intros addr key Hin. destruct (cs_default (sv_certs s)) eqn:Ed; [eauto|].
  assert (existsb (tls_without_default (sv_certs s)) (sc_listeners startup) = true) as Hc;
    [|congruence].
  apply existsb_elem. exists (ListenTls addr None key). split; [done|]. cbn.
  unfold has_default. by rewrite Ed.
Qed.

Lemma start_conditions startup spawn s :
  is_ok (server_start startup spawn s).1 = true →
  sv_runtime s = None ∧ sv_stopping s = false ∧ StartupConfig_validate startup = Ok tt ∧
  (∀ addr key, ListenTls addr None key ∈ sc_listeners startup → is_Some (cs_default (sv_certs s))) ∧
  spawn = Ok tt.
Proof. apply start_outcome. Qed.

(** A server starts exactly when it is neither running nor stopping, its
    configuration is valid, every TLS listener without a certificate file
    finds a default certificate in the store, and the thread can be spawned;
    a refused start changes nothing. *)
Theorem start_exactly_when startup spawn s :
  (is_ok (server_start startup spawn s).1 = true ↔
     sv_runtime s = None ∧ sv_stopping s = false ∧ StartupConfig_validate startup = Ok tt ∧
     (∀ addr key, ListenTls addr None key ∈ sc_listeners startup → is_Some (cs_default (sv_certs s))) ∧
     spawn = Ok tt) ∧
  (is_ok (server_start startup spawn s).1 = false → (server_start startup spawn s).2 = s).
Proof. apply start_outcome. Qed.

Lemma try_iter_elem {A E} (f : A → result unit E) l x :
  try_iter f l = Ok tt → x ∈ l → f x = Ok tt.
Proof.
  induction l as [|y l IH]; simpl; [by intros _ ?%elem_of_nil|]. intros Hl Hx.
  destruct (f y) as [[]|] eqn:Ey; [|done]. simpl in Hl.
  by apply elem_of_cons in Hx as [->|Hx]; [|apply IH].
Qed.

(** In a server that started, the thread sets up one listener per configured
    one, in order, and no TLS listener is without a certificate: each has a
    certificate file with its key, or the store held a default when the
    server started. *)
Theorem started_tls_has_cert startup spawn s conf :
  is_ok (server_start startup spawn s).1 = true →
  let svc := thread_service startup conf in
  length (svc_listeners svc) = length (sc_listeners startup) ∧
  svc_listeners svc ≠ [] ∧
  ∀ addr cert h2, AddTls addr cert h2 ∈ svc_listeners svc →
    is_Some cert ∨ is_Some (cs_default (sv_certs s)).
Proof.
  intros (_ & _ & Hv & Hd & _)%start_conditions. cbn. rewrite length_fmap. split; [done|].
  assert (sc_listeners startup ≠ [] ∧ try_iter validate_listener (sc_listeners startup) = Ok tt)
    as [Hne Hall].
  { unfold StartupConfig_validate in Hv. destruct (sc_listeners startup); [done|].
    by destruct (zero_timeout _), (zero_timeout _). }
  split; [by intros ?%fmap_nil_inv|].
  intros addr cert h2 ([|a c k|] & Heq & Hin)%list_elem_of_fmap; simplify_eq/=.
  destruct c as [c|]; [|right; by apply (Hd a k)].
  apply (try_iter_elem _ _ _ Hall) in Hin. simpl in Hin.
  destruct k; [by left; eauto|]. by destruct (guard_err _ _).
Qed.
End Server.

(** ** Witnesses *)

Module RefServer.
Import RefPeer.
#[export] Instance build : MwBuild :=
  {| MC := unit; mc_validate := λ _, Ok tt; build_middleware := λ _ g, (Ok tt, g) |}.
End RefServer.

Section ServerWitnesses.
Import Demo RefLb RefPeer RefCert RefServer.

Definition demo_startup : StartupConfig :=
  mkStartupConfig (Some 2%Z) None [ListenTcp "0.0.0.0:80"] Strict None None None None None None None.
Definition demo_server : LonesomeServer := server_new demo_shared.
Definition demo_started : LonesomeServer := (server_start demo_startup (Ok tt) demo_server).2.
Definition demo_crashed : LonesomeServer := thread_dies demo_started.

Lemma demo_crashed_reachable : rtc server_step demo_server demo_crashed.
Proof.
  eapply rtc_l; [apply (step_start demo_startup (Ok tt))|].
  eapply rtc_l; [apply step_thread_dies|]. apply rtc_refl.
Qed.

Lemma server_lifecycle_witness :
  may_follow (server_state demo_crashed) (server_state (stop_begin demo_crashed).2).
Proof.
  apply (server_lifecycle demo_shared demo_crashed _ demo_crashed_reachable).
  apply step_stop.
Defined.

Lemma failed_stop_is_final_witness :
  (server_start demo_startup (Ok tt) (stop_begin demo_crashed).2).1
    = Err "lonesome server is stopping".
Proof.
  apply (failed_stop_is_final demo_shared demo_crashed
           (mkLonesomeRuntime demo_startup true true ThreadDead) (stop_begin demo_crashed).2
           demo_crashed_reachable eq_refl eq_refl eq_refl eq_refl).
  apply rtc_refl.
Defined.

Definition demo_route_config : RouteConfig MC :=
  mkRouteConfig "r1" (mkRouteMatcherConfig "api.example.com" None) [tt] demo_two None.

Example demo_added : is_ok (add_or_update demo_route_config demo_server).1 = true ∧
  (λ r, (r_id r, r_priority r)) <$> sv_routes (add_or_update demo_route_config demo_server).2
    = [("r1", 15%Z)].
Proof. vm_compute. split; reflexivity. Qed.

Lemma started_tls_has_cert_witness :
  is_ok (server_start demo_startup (Ok tt) demo_server).1 = true ∧
  length (svc_listeners (thread_service demo_startup (mkServerConf 1 true None None 128 3))) = 1.
Proof.
  split; [reflexivity|].
  exact (proj1 (started_tls_has_cert demo_startup (Ok tt) demo_server
                  (mkServerConf 1 true None None 128 3) eq_refl)).
Defined.
End ServerWitnesses.
