(* ===== verification/System.v ===== *)
(** * The running system

    A server, the requests it is serving and the program that configures it,
    interleaved: [src/server/server.rs] builds the proxy over the shared route
    table, so an update takes effect for the requests that arrive after it,
    while those in flight keep the route they were given. The operations of the
    server, the callbacks of every request and the rest of the process take
    steps in any order. *)

From S2P Require Import Prelude Text Http Config Cel CelSession CelRegex CelFunctions.
From S2P Require Import CelEngine CheapExpr Precheck Matcher RouteTable.
From S2P Require Import VjsSocket VjsRegistry LoadBalancer Pingora ErrorPages Ctx.
From S2P Require Import Cache Upstream Response Frame Proxy Request Filter CertStore Server.
From stdpp Require Import base tactics strings list gmap relations.
From Stdlib Require Import ZArith Lia.

Section System.
Context `{HttpLib, RegexLib, RuleLib, !CelLib, TlsLib, !CertLib, LbLib, MwTypes, !MwBuild,
          PeerLib, FmtLib, !ProxyFmt, !Middleware, !CacheLib, !CacheOps}.

(** The proxy a server thread runs: [LonesomeProxy::new] over the server's
    route table, which is shared, and the settings the thread was started
    with. *)
Definition proxy_for (c : StartupConfig) (s : LonesomeServer) : LonesomeProxy :=
  mkLonesomeProxy (sv_routes s) (sc_sni_host_policy c) (sc_downstream_read_timeout_ms c)
    (sc_downstream_write_timeout_ms c).

(** [new_ctx]. *)
Definition new_ctx (px : LonesomeProxy) : ProxyCtx := ProxyCtx_new (px_sni_host_policy px).

(** A connection that is being served, by a thread started with [rq_startup].
    [rq_filter] says where [request_filter] is. For the statements only,
    [rq_arrived] remembers the proxy and the state the request on it arrived in,
    and [rq_passed] the middlewares that have let it pass, and when. *)
Record InFlight := mkInFlight {
  rq_startup : StartupConfig;
  rq_ctx : ProxyCtx;
  rq_session : Session;
  rq_arrived : option (LonesomeProxy * St);
  rq_filter : FilterState;
  rq_passed : list (MW * Z);
}.
Record System := mkSystem {
  sy_server : LonesomeServer;
  sy_requests : list InFlight;
}.

Definition set_shared (sh : Shared) (s : LonesomeServer) : LonesomeServer :=
  mkServer (sv_routes s) (sv_runtime s) (sv_certs s) sh (sv_started s) (sv_stopping s)
    (sv_draining s).

(** The state a callback runs in, and what it leaves. *)
Definition st_of (rq : InFlight) (s : LonesomeServer) : St :=
  mkSt (rq_ctx rq) (rq_session rq) (sv_shared s).
Definition moved (rq : InFlight) (st : St) : InFlight :=
  mkInFlight (rq_startup rq) (st_ctx st) (st_session st) (rq_arrived rq) (rq_filter rq)
    (rq_passed rq).
Definition arrived (px : LonesomeProxy) (s0 : St) (rq : InFlight) (st : St) : InFlight :=
  mkInFlight (rq_startup rq) (st_ctx st) (st_session st) (Some (px, s0)) FilterIdle [].
Definition filtered (pc : FilterState) (rq : InFlight) (now : Z) (st : St) : InFlight :=
  mkInFlight (rq_startup rq) (st_ctx st) (st_session st) (rq_arrived rq) pc
    (match rq_filter rq, pc with
     | FilterHooks (m :: _), FilterHooks _ => rq_passed rq ++ [(m, now)]
     | _, _ => rq_passed rq
     end).
Definition leave (i : nat) (rq : InFlight) (sh : Shared) (y : System) : System :=
  mkSystem (set_shared sh (sy_server y)) (<[i := rq]> (sy_requests y)).

(** What the rest of the process changes: the state the middlewares share with
    JavaScript, the environment (time), and the JavaScript listeners and their
    connections. *)
Definition set_outside (m : MwState) (e : EvalEnv) (sh : Shared) : Shared :=
  mkShared' (sh_health sh) (sh_lbs sh) (sh_vjs sh) (sh_pages sh) m e.
Definition set_vjs (w : VjsRegistry.World) (sh : Shared) : Shared :=
  mkShared' (sh_health sh) (sh_lbs sh) w (sh_pages sh) (sh_mw sh) (sh_env sh).

Inductive system_step : System → System → Prop :=
| sys_server s s' rqs : server_step s s' → system_step (mkSystem s rqs) (mkSystem s' rqs)
| sys_outside s rqs m e :
    system_step (mkSystem s rqs) (mkSystem (set_shared (set_outside m e (sv_shared s)) s) rqs)
(** Fewer than 2^64 connections are opened. *)
| sys_listeners s rqs op :
    let w := sh_vjs (sv_shared s) in
    (∀ l, op = VjsRegistry.OpConnectOpen l → (VjsRegistry.seq (VjsRegistry.reg w) + 1 < 2 ^ 64)%Z) →
    system_step (mkSystem s rqs)
      (mkSystem (set_shared (set_vjs (VjsRegistry.run_reg_op op w) (sv_shared s)) s) rqs)
(** A connection is accepted. *)
| sys_accept s rqs rt ses :
    sv_runtime s = Some rt → rt_thread rt = ThreadAlive →
    system_step (mkSystem s rqs)
      (mkSystem s (rqs ++ [mkInFlight (rt_startup rt)
         (new_ctx (proxy_for (rt_startup rt) s)) ses None FilterIdle []]))
(** A request arrives on it. *)
| sys_arrive y i rq ses :
    sy_requests y !! i = Some rq →
    let px := proxy_for (rq_startup rq) (sy_server y) in
    let s0 := mkSt (rq_ctx rq) ses (sv_shared (sy_server y)) in
    let st := (early_request_filter px s0).2 in
    system_step y (leave i (arrived px s0 rq st) (st_shared st) y)
(** [request_filter] does its next step. *)
| sys_filter y i rq pc st :
    sy_requests y !! i = Some rq →
    filter_step (proxy_for (rq_startup rq) (sy_server y)) (rq_filter rq)
      (st_of rq (sy_server y)) = (pc, st) →
    let now := env_now (sh_env (sv_shared (sy_server y))) in
    system_step y (leave i (filtered pc rq now st) (st_shared st) y)
(** The framework runs another of its callbacks, or a hook of a callback that is
    suspended between two of them, or moves on with the session. *)
| sys_callback y i rq cb :
    sy_requests y !! i = Some rq → cb ≠ CbRequestFilter →
    let st := run_callback (proxy_for (rq_startup rq) (sy_server y)) cb
                (st_of rq (sy_server y)) in
    system_step y (leave i (moved rq st) (st_shared st) y)
| sys_hook y i rq r m hk :
    sy_requests y !! i = Some rq → ctx_current_route (rq_ctx rq) = Some r →
    m ∈ r_middlewares r →
    let st := run_hook m hk (st_of rq (sy_server y)) in
    system_step y (leave i (moved rq st) (st_shared st) y)
| sys_session y i rq ses :
    sy_requests y !! i = Some rq → same_wire (rq_session rq) ses →
    let st := mkSt (rq_ctx rq) ses (sv_shared (sy_server y)) in
    system_step y (leave i (moved rq st) (st_shared st) y)
| sys_close s rqs i : system_step (mkSystem s rqs) (mkSystem s (delete i rqs)).

(** The next step of the filters of a request, as a function. *)
Definition filter_once (i : nat) (y : System) : System :=
  match sy_requests y !! i with
  | None => y
  | Some rq =>
      let x := filter_step (proxy_for (rq_startup rq) (sy_server y)) (rq_filter rq)
                 (st_of rq (sy_server y)) in
      leave i (filtered x.1 rq (env_now (sh_env (sv_shared (sy_server y)))) x.2)
        (st_shared x.2) y
  end.
Lemma filter_once_run n i y : rtc system_step y (Nat.iter n (filter_once i) y).
Proof.
  induction n as [|n IH]; [apply rtc_refl|]. etransitivity; [exact IH|]. simpl.
  generalize (Nat.iter n (filter_once i) y). intros z. unfold filter_once.
  destruct (sy_requests z !! i) as [rq|] eqn:Hi; [|apply rtc_refl].
  by apply rtc_once, sys_filter; [|apply surjective_pairing].
Qed.

Lemma filter_once_same n i y rq :
  sy_requests y !! i = Some rq →
  ∃ rq', sy_requests (Nat.iter n (filter_once i) y) !! i = Some rq' ∧
    rq_arrived rq' = rq_arrived rq ∧ rq_startup rq' = rq_startup rq.
Proof.
  intros Hi. induction n as [|n IH]; [by exists rq|]. simpl.
  destruct IH as (rq1 & Hi1 & <- & <-). revert Hi1.
  generalize (Nat.iter n (filter_once i) y). intros z Hz. unfold filter_once. rewrite Hz.
  eexists. split; [simpl; by apply list_lookup_insert_eq, (lookup_lt_Some _ _ _ Hz)|done].
Qed.

(** A process starts without error pages and listeners. *)
Definition system_new (sh : Shared) : System := mkSystem (server_new sh) [].
Definition reachable_system (y : System) : Prop :=
  ∃ sh, sh_pages sh = [] ∧ sh_vjs sh = VjsRegistry.World_new ∧
    rtc system_step (system_new sh) y.

Lemma reachable_run y y' : reachable_system y → rtc system_step y y' → reachable_system y'.
Proof. intros (sh & ? & ? & ?) Hr. exists sh. split_and!; [done..|]. by etransitivity. Qed.

Section Props.
Context `{!MiddlewareLaws, !CacheFramed, !LbLaws}.

(** ** Pools survive everything *)

Lemma lb_steps_hold st st' bs : rtc lb_step st st' → lb_holds st bs → lb_holds st' bs.
Proof.
  induction 1 as [|x y z Hxy _ IH]; [done|]. intros Hx. apply IH.
  destruct Hxy as [st key n|st key n accept].
  - destruct (lb_select st key n) eqn:E. by destruct (lb_select_holds _ _ _ _ _ _ Hx E).
  - destruct (lb_select_with st key n accept) eqn:E.
    by destruct (lb_select_with_holds _ _ _ _ _ _ _ Hx E).
Qed.

(** Balancers are asked and new ones are added. *)
Definition lbs_moved (l l' : list DynLoadBalancer) : Prop :=
  ∃ l1 l2, l' = l1 ++ l2 ∧ Forall2 lb_moved l l1.
Lemma lbs_moved_asked l l' : Forall2 lb_moved l l' → lbs_moved l l'.
Proof. exists l', []. by rewrite app_nil_r. Qed.
Lemma lbs_moved_trans l l' l'' : Forall2 lb_moved l l' → lbs_moved l' l'' → lbs_moved l l''.
Proof. intros Hl (l1 & l2 & -> & Hm). exists l1, l2. split; [done|]. by etransitivity. Qed.

(** That leaves a pool its backends and their health states. *)
Lemma pool_at_moved p sh sh' loc lb base :
  lbs_moved (sh_lbs sh) (sh_lbs sh') → length (sh_health sh) ≤ length (sh_health sh') →
  pool_at p sh loc lb base → ∃ lb', pool_at p sh' loc lb' base.
Proof.
  intros (l1 & l2 & El & Hl) Hh (Hne & H1' & H2' & H3' & H4' & H5').
  destruct (Forall2_lookup_l _ _ _ _ _ Hl H2') as (lb' & Hlb' & Hb & Hs).
  exists lb'. unfold pool_at. rewrite Hb, El. split_and!; try done; [|by eapply lb_steps_hold|lia].
  by apply lookup_app_l_Some.
Qed.

(** What a request does to the shared state keeps every pool well formed. *)
Lemma pool_ok_frame p sh sh' : shared_frame sh sh' → pool_ok p sh → pool_ok p sh'.
Proof.
  intros [_ _ _ Hh Hl] (loc & lb & base & Hat)%pool_ok_at.
  destruct (pool_at_moved _ _ _ _ _ _ (lbs_moved_asked _ _ Hl) (Nat.eq_le_incl _ _ (eq_sym Hh)) Hat)
    as (lb' & Hne & Hat').
  split; [done|]. by exists loc, lb', base.
Qed.

(** So does what the server does. *)
Lemma pool_ok_server p s s' :
  server_step s s' → pool_ok p (sv_shared s) → pool_ok p (sv_shared s').
Proof.
  intros [[_ ->]|[[cfg ->]|[[id ->]|[op ->]]]]%server_step_data Hp; [done| | |done].
  - unfold add_or_update.
    destruct (Route_from_config cfg (sv_shared s)) as [[[r sh]|] g] eqn:E; [|done].
    apply route_from_config_ok in E as (_ & _ & _ & _ & _ & _ & _ & Hle).
    by eapply pool_ok_mono.
  - unfold server_remove. by destruct (remove_route id (sv_routes s)).
Qed.

(** ** The invariant *)

(** How far [request_filter] is: past the gate, the host policy had nothing
    against the request as it arrived; the middlewares of the route are those
    that have let it pass, in order, and those that are left. Each of them let
    pass a request that was still the one that arrived. *)
Definition let_pass (px : LonesomeProxy) (s0 : St) (p : MW * Z) : Prop :=
  ∃ s1 s2, mw_request_filter p.1 s1 = (Ok false, s2) ∧ identity px s0 s1 ∧
    env_now (sh_env (st_shared s1)) = p.2.
Definition filter_at (px : LonesomeProxy) (s0 : St) (policy : SniHostPolicy)
    (route : option Route) (passed : list MW) (pc : FilterState) : Prop :=
  let open := gate_open policy (cel_http_session (fresh_context px s0)) in
  match pc with
  | FilterIdle | FilterGate => passed = []
  | FilterHooks ms => open ∧ ∃ r, route = Some r ∧ r_middlewares r = passed ++ ms
  | FilterDone (Ok false) => open ∧ ∀ r, route = Some r → r_middlewares r = passed
  | FilterDone _ => True
  end.
Record filter_ok (px : LonesomeProxy) (s0 : St) (rq : InFlight) : Prop := {
  fo_at : filter_at px s0 (sc_sni_host_policy (rq_startup rq)) (ctx_current_route (rq_ctx rq))
            (fst <$> rq_passed rq) (rq_filter rq);
  fo_passed : Forall (let_pass px s0) (rq_passed rq);
}.

(** A connection: its host policy is that of its thread; the request on it was
    given the best route of a well-formed table and has kept it, and the pool of
    that route is well formed, installed or not. *)
Record request_ok (sh : Shared) (rq : InFlight) : Prop := {
  rk_policy : ctx_sni_host_policy (rq_ctx rq) = sc_sni_host_policy (rq_startup rq);
  rk_fresh : rq_arrived rq = None → ctx_current_route (rq_ctx rq) = None;
  rk_pool : ∀ r, ctx_current_route (rq_ctx rq) = Some r → pool_ok (r_upstream_pool r) sh;
  rk_arrived : ∀ px s0, rq_arrived rq = Some (px, s0) →
    table_wf (px_routes px) ∧ px_sni_host_policy px = sc_sni_host_policy (rq_startup rq) ∧
    ctx_sni_host_policy (st_ctx s0) = sc_sni_host_policy (rq_startup rq) ∧
    identity px s0 (mkSt (rq_ctx rq) (rq_session rq) sh);
  rk_filter : ∀ px s0, rq_arrived rq = Some (px, s0) → filter_ok px s0 rq;
}.

Record running_inv (y : System) : Prop := {
  ri_life : life_inv (sy_server y);
  ri_server : system_inv (sy_server y);
  ri_listeners : VjsRegistry.reg_inv (sh_vjs (sv_shared (sy_server y)));
  ri_requests : Forall (request_ok (sv_shared (sy_server y))) (sy_requests y);
}.

Lemma server_step_vjs s s' :
  server_step s s' → sh_vjs (sv_shared s') = sh_vjs (sv_shared s).
Proof.
  intros [[_ ->]|[[cfg ->]|[[id ->]|[op ->]]]]%server_step_data; [done| | |done].
  - unfold add_or_update.
    destruct (Route_from_config cfg (sv_shared s)) as [[[r sh]|] g] eqn:E; [|done].
    by apply route_from_config_ok in E as (_ & _ & _ & _ & _ & _ & _ & _ & _ & _ & ?).
  - unfold server_remove. by destruct (remove_route id (sv_routes s)).
Qed.

(** A request looks at the shared state only for its pool. *)
Lemma request_ok_shared sh sh' rq :
  (∀ p, pool_ok p sh → pool_ok p sh') → request_ok sh rq → request_ok sh' rq.
Proof.
  intros Hp [R1 R2 R3 R4 R5]. split; [done..|eauto| |done]. intros px s0 Ha.
  destruct (R4 px s0 Ha) as (? & ? & ? & []). by split_and!; [..|split].
Qed.

Lemma system_inv_shared sh s :
  shared_frame (sv_shared s) sh → system_inv s → system_inv (set_shared sh s).
Proof.
  intros Hf [Hr Hp Ho]. split; cbn; [done|by rewrite (sf_pages _ _ Hf)|].
  eapply Forall_impl; [exact Ho|]. intros r. by apply pool_ok_frame.
Qed.

Lemma life_inv_shared sh s : life_inv s → life_inv (set_shared sh s).
Proof. by intros []. Qed.

(** One request moves on. *)
Lemma leave_inv y i rq rq' sh :
  running_inv y → sy_requests y !! i = Some rq → shared_frame (sv_shared (sy_server y)) sh →
  (request_ok (sv_shared (sy_server y)) rq → request_ok sh rq') →
  running_inv (leave i rq' sh y).
Proof.
  intros [Hl Hs Hv Hr] Hi Hf Hok. split; cbn.
  - by apply life_inv_shared.
  - by apply system_inv_shared.
  - by rewrite (sf_vjs _ _ Hf).
  - apply Forall_insert; [|apply Hok; by apply (Forall_lookup_1 _ _ _ _ Hr Hi)].
    eapply Forall_impl; [exact Hr|]. intros x. apply request_ok_shared.
    intros p. by apply pool_ok_frame.
Qed.

(** The route given to a request that arrives is installed. *)
Lemma chosen_route_installed px s r :
  chosen_route px s = Some r → r ∈ px_routes px.
Proof.
  intros Hc. pose proof (find_first_match_find route_matches _ _ (px_routes px)
    (routed_state px s) (route_matches_stable px s) eq_refl) as Hf.
  unfold chosen_route in Hc. rewrite Hc in Hf. destruct Hf as (t1 & t2 & -> & _). set_solver.
Qed.

Lemma arrive_ok rq s ses :
  system_inv s → ctx_sni_host_policy (rq_ctx rq) = sc_sni_host_policy (rq_startup rq) →
  let px := proxy_for (rq_startup rq) s in
  let s0 := mkSt (rq_ctx rq) ses (sv_shared s) in
  let st := (early_request_filter px s0).2 in
  request_ok (st_shared st) (arrived px s0 rq st).
Proof.
  intros [Hr _ Ho] Hpol px s0 st.
  destruct (early_route px s0) as (Hroute & _ & Hpolicy & _ & Hsh & _).
  split; cbn; [by transitivity (ctx_sni_host_policy (rq_ctx rq))|done| | |].
  - fold st in Hroute. rewrite Hroute. intros r Hin%chosen_route_installed.
    rewrite Forall_forall in Ho. by eapply pool_ok_frame, Ho.
  - intros ? ? [= <- <-]. split_and!; [done..|]. destruct (identity_early px s0). by split.
  - intros ? ? [= <- <-]. split; [done|constructor].
Qed.

(** A request moves on within its frame; where its filters are may change. *)
Lemma framed_ok rq rq' s st :
  keeps_frame (st_of rq s) st → rq_startup rq' = rq_startup rq → rq_ctx rq' = st_ctx st →
  rq_session rq' = st_session st → rq_arrived rq' = rq_arrived rq →
  (∀ px s0, rq_arrived rq = Some (px, s0) → identity px s0 (st_of rq s) →
     filter_ok px s0 rq → filter_ok px s0 rq') →
  request_ok (sv_shared s) rq → request_ok (st_shared st) rq'.
Proof.
  intros Hk E1 E2 E3 E4 Hfo [R1 R2 R3 R4 R5]. pose proof Hk as [K1 _ K3 _ K5 _]. cbn in K1, K3.
  split; rewrite ?E1, ?E2, ?E3, ?E4, ?K1, ?K3; auto.
  - intros r Hc. by eapply pool_ok_frame, R3.
  - intros px s0 Ha. destruct (R4 px s0 Ha) as (? & ? & ? & Hid). split_and!; [done..|].
    destruct (identity_frame px s0 _ _ Hk Hid). by split.
  - intros px s0 Ha. apply Hfo; [done| |by apply R5]. apply (R4 px s0 Ha).
Qed.

Lemma moved_ok rq s st :
  keeps_frame (st_of rq s) st → request_ok (sv_shared s) rq →
  request_ok (st_shared st) (moved rq st).
Proof.
  intros Hk. apply framed_ok; [done..|]. intros px s0 _ _ [Fa Fp]. split; [|done].
  simpl. by rewrite (kf_route _ _ Hk).
Qed.

(** The next step of the filters. *)
Lemma filter_at_step px0 s0 px passed pc pc' s s' :
  identity px0 s0 s → filter_step px pc s = (pc', s') →
  filter_at px0 s0 (px_sni_host_policy px) (ctx_current_route (st_ctx s)) passed pc →
  filter_at px0 s0 (px_sni_host_policy px) (ctx_current_route (st_ctx s))
    (match pc, pc' with
     | FilterHooks (m :: _), FilterHooks _ => passed ++ [m]
     | _, _ => passed
     end) pc'.
Proof.
  intros Hid%identity_context. destruct pc as [| |[|m rest]|res]; simpl.
  - by intros [= <- <-].
  - intros Hg%filter_gate_passed ->.
    destruct pc' as [| |ms|[[]|]]; try done; simpl; rewrite Hid.
    + destruct Hg as (Ho & r & Hr & ->). split; [done|]. by exists r.
    + destruct Hg as [Ho ->]. by split.
  - intros [= <- <-] (Ho & r & -> & Hms). rewrite app_nil_r in Hms.
    split; [done|]. by intros r' [= <-].
  - unfold filter_hook. destruct (mw_request_filter m s) as [[[]|e] s1]; intros [= <- <-]; try done.
    intros (Ho & r & Hr & Hms). split; [done|]. exists r. by rewrite <-app_assoc.
  - by intros [= <- <-].
Qed.

Lemma filter_passed_step px pc pc' s s' :
  filter_step px pc s = (pc', s') →
  match pc, pc' with
  | FilterHooks (m :: _), FilterHooks _ => mw_request_filter m s = (Ok false, s')
  | _, _ => True
  end.
Proof.
  destruct pc as [| |[|m rest]|res]; simpl; try done. unfold filter_hook.
  destruct (mw_request_filter m s) as [[[]|e] s1]; by intros [= <- <-].
Qed.

Lemma filtered_ok rq s pc st :
  filter_step (proxy_for (rq_startup rq) s) (rq_filter rq) (st_of rq s) = (pc, st) →
  request_ok (sv_shared s) rq →
  request_ok (st_shared st) (filtered pc rq (env_now (sh_env (sv_shared s))) st).
Proof.
  intros Hs. pose proof (filter_step_framed (proxy_for (rq_startup rq) s) (rq_filter rq)
                           (st_of rq s)) as Hk.
  rewrite Hs in Hk. cbn [snd] in Hk. apply framed_ok; [done..|].
  intros px s0 _ Hid [Fa Fp]. pose proof (filter_at_step _ _ _ _ _ _ _ _ Hid Hs Fa) as Fa'.
  pose proof (filter_passed_step _ _ _ _ _ Hs) as Hp. unfold filtered. split; simpl.
  - rewrite (kf_route _ _ Hk). simpl in *.
    destruct (rq_filter rq) as [| |[|m rest]|res], pc; try exact Fa'. by rewrite fmap_app.
  - destruct (rq_filter rq) as [| |[|m rest]|res], pc; try exact Fp.
    apply Forall_app. split; [exact Fp|]. apply Forall_singleton. by exists (st_of rq s), st.
Qed.

Lemma running_inv_step y y' : system_step y y' → running_inv y → running_inv y'.
Proof.
  destruct 1 as [s s' rqs Hs|s rqs m e|s rqs op w Hop|s rqs rt ses Hrt Hth
                |y i rq ses Hi px s0 st|y i rq pc st Hi Hpc now|y i rq cb Hi Hcb st|y i rq r m hk Hi Hr Hm st
                |y i rq ses Hi Hw st|s rqs i]; intros Hinv; pose proof Hinv as [L S V R].
  - split; cbn in *; [by eapply life_inv_step|by eapply system_inv_step
                     |by rewrite (server_step_vjs s s')|].
    eapply Forall_impl; [exact R|]. intros x. apply request_ok_shared.
    intros p. by apply pool_ok_server.
  - split; cbn in *; [by apply life_inv_shared|by destruct S|done|].
    eapply Forall_impl; [exact R|]. intros x. by apply request_ok_shared.
  - split; cbn in *; [by apply life_inv_shared|by destruct S
                     |by apply VjsRegistry.run_reg_op_keeps|].
    eapply Forall_impl; [exact R|]. intros x. by apply request_ok_shared.
  - split; cbn in *; [done..|]. apply Forall_app. split; [done|]. apply Forall_singleton.
    by split.
  - destruct (early_route px s0) as (_ & _ & _ & _ & Hf & _).
    apply (leave_inv y i rq); [done..|]. intros [R1 _ _ _ _]. by apply arrive_ok.
  - pose proof (filter_step_framed (proxy_for (rq_startup rq) (sy_server y)) (rq_filter rq)
                  (st_of rq (sy_server y))) as [_ _ _ _ Hf _]. rewrite Hpc in Hf.
    apply (leave_inv y i rq); [done..|]. by apply filtered_ok.
  - pose proof (run_callback_framed (proxy_for (rq_startup rq) (sy_server y)) cb
                  (st_of rq (sy_server y))) as Hk.
    apply (leave_inv y i rq); [done..|apply Hk|]. by apply moved_ok.
  - pose proof (run_hook_framed m hk (st_of rq (sy_server y))) as Hk.
    apply (leave_inv y i rq); [done..|apply Hk|]. by apply moved_ok.
  - apply (leave_inv y i rq); [done..|]. by apply moved_ok, keeps_frame_ctx.
  - split; cbn in *; [done..|]. by apply Forall_delete.
Qed.

Lemma running_inv_reachable y : reachable_system y → running_inv y.
Proof.
  intros (sh & Hp & Hv & Hr).
  assert (running_inv (system_new sh)) as Hnew.
  { split; cbn; [apply life_inv_new|by apply system_inv_new| |constructor].
    rewrite Hv. apply VjsRegistry.reg_inv_new. }
  induction Hr as [|x z w Hxz _ IH]; [done|]. by apply IH, (running_inv_step x).
Qed.

(** What holds of every middleware that can be built holds of every middleware
    of every installed route and of the route of every request in flight. *)
Section Installed.
Context (P : MW → Prop) (HP : ∀ c g m g', build_middleware c g = (Ok m, g') → P m).

Record satisfied (y : System) : Prop := {
  sat_installed : routes_satisfy P (sy_server y);
  sat_in_flight : Forall (λ rq, ∀ r, ctx_current_route (rq_ctx rq) = Some r →
                            Forall P (r_middlewares r)) (sy_requests y);
}.

Lemma satisfied_step y y' :
  system_step y y' → running_inv y → satisfied y → satisfied y'.
Proof.
  destruct 1 as [s s' rqs Hs|s rqs m e|s rqs op w Hop|s rqs rt ses Hrt Hth
                |y i rq ses Hi px s0 st|y i rq pc st Hi Hpc now|y i rq cb Hi Hcb st
                |y i rq r m hk Hi Hr Hm st|y i rq ses Hi Hw st|s rqs i]; intros [_ S _ _] [I R];
    split; cbn in *; try done;
    try (apply Forall_insert; [done|]; cbn; pose proof (Forall_lookup_1 _ _ _ _ R Hi) as Hrq).
  - by eapply routes_satisfy_step.
  - apply Forall_app. split; [done|]. by apply Forall_singleton.
  - subst st. destruct (early_route px s0) as (-> & _). intros r Hin%chosen_route_installed.
    unfold routes_satisfy in I. rewrite Forall_forall in I. by apply I.
  - pose proof (filter_step_framed (proxy_for (rq_startup rq) (sy_server y)) (rq_filter rq)
                  (st_of rq (sy_server y))) as Hk.
    rewrite Hpc in Hk. cbn in Hk. by rewrite (kf_route _ _ Hk).
  - subst st. by rewrite (kf_route _ _ (run_callback_framed _ cb (st_of rq (sy_server y)))).
  - subst st. by rewrite (kf_route _ _ (run_hook_framed m hk (st_of rq (sy_server y)))).
  - exact Hrq.
  - by apply Forall_delete.
Qed.

Lemma satisfied_reachable y : reachable_system y → satisfied y.
Proof.
  intros (sh & Hp & Hv & Hr). revert y Hr.
  apply rtc_ind_r; [split; constructor|]. intros z w Hz Hzw IH.
  eapply satisfied_step; [exact Hzw| |done]. apply running_inv_reachable. by exists sh.
Qed.
End Installed.

(** What holds of a connection of a running system. *)
Lemma in_flight_ok y rq :
  reachable_system y → rq ∈ sy_requests y → request_ok (sv_shared (sy_server y)) rq.
Proof.
  intros [_ _ _ Hr]%running_inv_reachable Hin. rewrite Forall_forall in Hr. auto.
Qed.

(** C5: However the program's operations, the callbacks of the requests in
    flight and the rest of the process interleave, the installed routes have
    unique ids and are in priority order, the error pages are well formed and
    ordered, the pool of every installed route has a balancer that covers its
    endpoints, and so has the pool of the route of every request in flight,
    also of one that has been replaced or removed since. *)
Theorem system_invariant y :
  reachable_system y →
  table_wf (sv_routes (sy_server y)) ∧ store_wf (sh_pages (sv_shared (sy_server y))) ∧
  (∀ r, r ∈ sv_routes (sy_server y) → pool_ok (r_upstream_pool r) (sv_shared (sy_server y))) ∧
  (∀ rq r, rq ∈ sy_requests y → ctx_current_route (rq_ctx rq) = Some r →
     pool_ok (r_upstream_pool r) (sv_shared (sy_server y))).
Proof.
  intros Hr. pose proof (in_flight_ok y) as Hok.
  destruct (running_inv_reachable y Hr) as [_ [Ht Hs Ho] _ _].
  rewrite Forall_forall in Ho. split_and!; [done..|]. intros rq r Hin. by apply Hok.
Qed.

(** C2: A request in a running system is served by a route whose rule held for
    it when it arrived and which no other such route of the table of that time
    precedes in priority order; it is unrouted, and gets 404, only when no
    rule held. It keeps that route whatever its callbacks and middlewares do
    and however routes are updated meanwhile. Asking for its peer never takes
    an internal-error path (no balancer, a bad endpoint index): once the hash
    key is known, the result is that of building the peer of one of the
    endpoints of that route, or 502. *)
Theorem in_flight_served y rq px s0 :
  reachable_system y →
  rq ∈ sy_requests y → rq_arrived rq = Some (px, s0) →
  let s := st_of rq (sy_server y) in
  match ctx_current_route (rq_ctx rq) with
  | Some r => r ∈ px_routes px ∧ rule_holds px s0 r = true ∧
      (∀ x, x ∈ px_routes px → rule_holds px s0 x = true → x = r ∨ route_le r x) ∧
      ∀ key, (selection_key (r_upstream_pool r) s).1 = Ok key →
        (∃ e, e ∈ up_endpoints (r_upstream_pool r) ∧
           (upstream_peer s).1 = peer_from_endpoint e (sh_vjs (st_shared s))) ∨
        (∃ cause, (upstream_peer s).1 = Err (selection_failed (HTTPStatus 502) cause))
  | None => (∀ x, x ∈ px_routes px → rule_holds px s0 x = false) ∧
      (upstream_peer s).1 = Err (error_explain (HTTPStatus 404) "no route matched")
  end.
Proof.
  intros Hr Hin Ha s. destruct (in_flight_ok y rq Hr Hin) as [_ _ Hpool Harr _].
  destruct (Harr px s0 Ha) as (Hwf & _ & _ & Hid).
  pose proof (identity_served px s0 s Hwf Hid) as Hb. cbn in Hb.
  destruct (ctx_current_route (rq_ctx rq)) as [r|];
    [|destruct Hb as [? ->]; by split].
  destruct Hb as (? & ? & ? & _ & ->). split_and!; [done..|]. intros key Hkey.
  pose proof (select_peer_sound (r_upstream_pool r) (r_id r) s key (Hpool r eq_refl) Hkey) as Hs.
  by destruct (select_peer _ _ s) as [res s'], Hs.
Qed.

(** C9: With several endpoints and the health check active, the peer of a
    request in a running system, once its hash key is known, is that of an
    endpoint of its route; the backend of that endpoint, and no other, is
    recorded on the request, where the health check will find it, and its
    passive health allows it at that moment. *)
Theorem in_flight_peer_healthy y rq r key peer s' :
  reachable_system y → rq ∈ sy_requests y →
  let s := st_of rq (sy_server y) in
  ctx_current_route (rq_ctx rq) = Some r →
  (selection_key (r_upstream_pool r) s).1 = Ok key → gated (r_upstream_pool r) s →
  upstream_peer s = (Ok peer, s') →
  ∃ idx e st b, up_endpoints (r_upstream_pool r) !! idx = Some e ∧
    peer_from_endpoint e (sh_vjs (st_shared s)) = Ok peer ∧
    ctx_upstream_state (st_ctx s') = Some st ∧
    us_last_endpoint_index st = Some idx ∧ us_last_backend st = Some b ∧
    be_index b = Some idx ∧
    ∃ h, health_of b (sh_health (st_shared s)) = Some h ∧
         Health.is_healthy (env_now (sh_env (st_shared s))) h = true.
Proof.
  intros Hr Hin s Hc Hkey Hg Hsel.
  destruct (in_flight_ok y rq Hr Hin) as [_ _ Hpool _ _].
  apply (select_peer_healthy _ (r_id r) s key); [by apply Hpool|done..|].
  unfold upstream_peer, mbind, M_bind, current_route in Hsel. subst s. cbn in Hsel.
  by rewrite Hc in Hsel.
Qed.

(** A peer with a custom connector is that of a JavaScript endpoint whose key is
    registered. *)
Lemma peer_listener e w peer l :
  peer_from_endpoint e w = Ok peer → po_custom_l4 (peer_options peer) = Some l →
  ep_kind e = "virtual_js" ∧
  VjsRegistry.listeners (VjsRegistry.reg w) !! ep_address e = Some l.
Proof.
  destruct e as [a tls h2c n wt tn|a tls h2c n wt tn|k tls h2c n wt tn];
    cbn [peer_from_endpoint ep_kind ep_address].
  - intros [= <-]. unfold with_h2c. destruct (negb tls && h2c); intros [=].
  - destruct (map_err _ _); [|done]. simpl. intros [= <-]. unfold with_h2c.
    destruct (negb tls && h2c); intros [=].
  - destruct (synthetic_backend_addr _); [|done]. simpl. unfold virtual_open_connection.
    destruct (VjsRegistry.listener k w) as [l'|] eqn:E; [|done]. simpl. intros [= <-].
    intros [= ->]. split; [done|]. unfold VjsRegistry.listener in E.
    destruct (VjsRegistry.listeners (VjsRegistry.reg w) !! k); [|done]. by injection E as ->.
Qed.

(** A peer is only selected under a known hash key. *)
Lemma select_peer_key p rid s peer s' :
  select_peer p rid s = (Ok peer, s') → ∃ key, (selection_key p s).1 = Ok key.
Proof.
  unfold select_peer, mbind, M_bind. destruct (selection_key p s) as [[key|] s1]; [|done]. eauto.
Qed.


(** C4: No domain fronting on a server started with [strict]: a request of a
    TLS connection with a server name that [request_filter] has let past its
    host policy, whatever else runs meanwhile, was routed by a host that
    equals that name, whenever it names a host at all, and its [:authority]
    and [Host] do not contradict one another. *)
Theorem strict_no_fronting y rq px s0 name :
  reachable_system y →
  rq ∈ sy_requests y → rq_arrived rq = Some (px, s0) →
  sc_sni_host_policy (rq_startup rq) = Strict → past_gate (rq_filter rq) = true →
  let cs := cel_http_session (fresh_context px s0) in
  sni cs = Some name →
  authority_conflict cs = false ∧
  (∀ a, http_authority cs = Some a → host cs = a ∧ hostname_eq name (host cs) = true).
Proof.
  intros Hr Hin Ha Hpol Hg. destruct (in_flight_ok y rq Hr Hin) as [_ _ _ Harr Hf].
  destruct (Harr px s0 Ha) as (_ & _ & Hctx & _). destruct (Hf px s0 Ha) as [Fa _].
  apply strict_routed; [by rewrite Hctx|]. rewrite <-Hpol.
  destruct (rq_filter rq) as [| |ms|[[]|]]; try done; apply Fa.
Qed.

(** C12: On a server started with [strict_rewrite_header], whatever a client
    or a middleware put there, every request of a matched route that is
    forwarded for a TLS connection with a server name that is a valid header
    value bears that name, and no other, as its [Host] header, and also as the
    authority of its URI, unless no URI can be built of that name with the
    scheme and the path the forwarded request has. *)
Theorem rewrite_header_forwards_sni `{!HttpLaws} y rq px s0 req req' s' name :
  reachable_system y →
  rq ∈ sy_requests y → rq_arrived rq = Some (px, s0) →
  sc_sni_host_policy (rq_startup rq) = StrictRewriteHeader →
  is_Some (ctx_current_route (rq_ctx rq)) →
  sni (cel_http_session (fresh_context px s0)) = Some name → hv_from_str name = Ok name →
  upstream_request_filter (proxy_for (rq_startup rq) (sy_server y)) req
    (st_of rq (sy_server y)) = (Ok req', s') →
  hm_get_all "host" (req_headers req') = [name] ∧
  (authority_as_str <$> uri_authority (req_uri req') = Some name ∨ no_uri_for name req').
Proof.
  intros Hr Hin Ha Hpol Hroute Hsni Hv Hf.
  destruct (in_flight_ok y rq Hr Hin) as [_ _ _ Harr _].
  destruct (Harr px s0 Ha) as (_ & _ & _ & Hid).
  eapply identity_forwards_sni; [|exact Hid|exact Hroute|exact Hsni|exact Hv|exact Hf]. done.
Qed.
End Props.
End System.

(** ** Witnesses *)

(** A middleware that asks for the health of upstreams, as the health check
    does, and leaves the other hooks to the trait's defaults. *)
Module RefSystem.
Import Demo RefLb RefPeer RefFmt RefCache.
#[export] Instance mw : Middleware := {|
  mw_early_request_filter _ :=
    modify_ctx (set_upstream_state (Some (mkUpstreamState 0 None None)));
  mw_request_filter _ := mret false;
  mw_proxy_upstream_filter _ := mret true;
  mw_upstream_request_filter _ h := mret h;
  mw_connected_to_upstream _ _ _ := mret tt;
  mw_fail_to_connect _ _ e := mret e;
  mw_upstream_response_filter _ h := mret h;
  mw_response_filter _ h := mret h;
  mw_error_while_proxy _ _ e _ := mret e;
  mw_fail_to_proxy _ _ := mret None;
  mw_logging _ _ := mret tt;
|}.
#[export] Instance laws : MiddlewareLaws.
Proof. split; intros; try apply framed_ret. by apply framed_modify_ctx. Qed.
End RefSystem.

Section SystemWitnesses.
Import Demo RefLb RefPeer RefFmt RefProxyFmt RefCache RefProxy RefCert RefServer RefSystem.

Definition startup_with (policy : SniHostPolicy) : StartupConfig :=
  mkStartupConfig (Some 2%Z) None [ListenTcp "0.0.0.0:80"] policy None None None None None None None.

(** A server with one route that is started and accepts a connection. *)
Definition sys_ready (policy : SniHostPolicy) : LonesomeServer :=
  (server_start (startup_with policy) (Ok tt)
     (add_or_update demo_route_config demo_server).2).2.
Definition sys_idle (policy : SniHostPolicy) (h name : string) : InFlight :=
  mkInFlight (startup_with policy) (ProxyCtx_new policy)
    (st_session (tls_state policy h name)) None FilterIdle [].

(** A request arrives, its route is removed, and its peer is asked for. *)
Definition sys_arrival (policy : SniHostPolicy) (h name : string) : St :=
  mkSt (ProxyCtx_new policy) (st_session (tls_state policy h name)) (sv_shared (sys_ready policy)).
Definition sys_px (policy : SniHostPolicy) : LonesomeProxy :=
  proxy_for (startup_with policy) (sys_ready policy).
Definition sys_served (policy : SniHostPolicy) (h name : string) : System :=
  let st := (early_request_filter (sys_px policy) (sys_arrival policy h name)).2 in
  leave 0 (arrived (sys_px policy) (sys_arrival policy h name) (sys_idle policy h name) st)
    (st_shared st) (mkSystem (sys_ready policy) [sys_idle policy h name]).
Definition sys_removed (policy : SniHostPolicy) (h name : string) : System :=
  mkSystem (server_remove "r1" (sy_server (sys_served policy h name))).2
    (sy_requests (sys_served policy h name)).
Definition sys_request (policy : SniHostPolicy) (h name : string) : InFlight :=
  let st := (early_request_filter (sys_px policy) (sys_arrival policy h name)).2 in
  mkInFlight (startup_with policy) (st_ctx st) (st_session st)
    (Some (sys_px policy, sys_arrival policy h name)) FilterIdle [].

Lemma sys_removed_run policy h name : reachable_system (sys_removed policy h name).
Proof.
  exists demo_shared. split_and!; [reflexivity..|].
  eapply rtc_l; [apply sys_server, (step_add_or_update demo_route_config)|].
  eapply rtc_l; [apply sys_server, (step_start (startup_with policy) (Ok tt))|].
  eapply rtc_l.
  { apply (sys_accept (sys_ready policy) [] (mkLonesomeRuntime (startup_with policy) true true ThreadAlive)
             (st_session (tls_state policy h name))); reflexivity. }
  eapply rtc_l.
  { apply (sys_arrive (mkSystem (sys_ready policy) [sys_idle policy h name]) 0
             (sys_idle policy h name) (st_session (tls_state policy h name))). reflexivity. }
  apply rtc_once. apply sys_server, step_remove.
Qed.
Lemma sys_request_in policy h name :
  sys_request policy h name ∈ sy_requests (sys_removed policy h name).
Proof. apply list_elem_of_singleton. reflexivity. Qed.

Definition sys_host : string := "api.example.com".

(** The request is served by its route, which is gone from the table, and its
    peer is found among its endpoints. *)
Example sys_runs :
  let rq := sys_request Strict sys_host sys_host in
  let y := sys_removed Strict sys_host sys_host in
  let s := st_of rq (sy_server y) in
  length (sv_routes (sy_server y)) = 0 ∧
  match ctx_current_route (rq_ctx rq), upstream_peer s with
  | Some r, (Ok _, _) =>
      r_id r = "r1" ∧ length (up_endpoints (r_upstream_pool r)) = 2 ∧
      result_ok (selection_key (r_upstream_pool r) s).1 = Some "" ∧
      us_retries <$> ctx_upstream_state (st_ctx s) = Some 0%Z
  | _, _ => False
  end.
Proof. split; vm_compute; [reflexivity|]. repeat split; reflexivity. Qed.

Lemma system_invariant_witness :
  match ctx_current_route (rq_ctx (sys_request Strict sys_host sys_host)) with
  | Some r => pool_ok (r_upstream_pool r)
                (sv_shared (sy_server (sys_removed Strict sys_host sys_host)))
  | None => False
  end.
Proof.
  destruct sys_runs as [_ Hd].
  destruct (system_invariant _ (sys_removed_run Strict sys_host sys_host))
    as (_ & _ & _ & Hp).
  destruct (ctx_current_route _) as [r|] eqn:E; [|destruct Hd].
  exact (Hp _ r (sys_request_in Strict sys_host sys_host) E).
Defined.

Lemma in_flight_served_witness :
  match ctx_current_route (rq_ctx (sys_request Strict sys_host sys_host)) with
  | Some r => rule_holds (sys_px Strict) (sys_arrival Strict sys_host sys_host) r = true
  | None => False
  end.
Proof.
  destruct sys_runs as [_ Hd].
  pose proof (in_flight_served _ _ _ _
    (sys_removed_run Strict sys_host sys_host) (sys_request_in Strict sys_host sys_host)
    eq_refl) as Hb. cbv zeta in Hb.
  destruct (ctx_current_route _) as [r|]; [|destruct Hd]. exact (proj1 (proj2 Hb)).
Defined.

Lemma in_flight_peer_healthy_witness :
  ∃ idx st, ctx_upstream_state (st_ctx (upstream_peer
    (st_of (sys_request Strict sys_host sys_host)
       (sy_server (sys_removed Strict sys_host sys_host)))).2) = Some st ∧
    us_last_endpoint_index st = Some idx.
Proof.
  destruct sys_runs as [_ Hd]. cbv zeta in Hd.
  destruct (ctx_current_route _) as [r|] eqn:Er; [|destruct Hd].
  destruct (upstream_peer _) as [[peer|] s'] eqn:Ep; [|destruct Hd].
  destruct Hd as (_ & Hlen & Hkey & Hst).
  destruct (in_flight_peer_healthy _ _ r "" peer s'
    (sys_removed_run Strict sys_host sys_host) (sys_request_in Strict sys_host sys_host)
    Er) as (idx & e & st & b' & _ & _ & ? & ? & _); [| |exact Ep|by exists idx, st].
  - destruct (selection_key _ _).1; [|discriminate]. by injection Hkey as ->.
  - split; [by rewrite Hlen|]. destruct (ctx_upstream_state _); [eauto|discriminate].
Defined.

(** Its filters run, while the route is gone. *)
Definition sys_filtered (n : nat) : System :=
  Nat.iter n (filter_once 0) (sys_removed Strict sys_host sys_host).
Example sys_filters :
  match sy_requests (sys_filtered 4) !! 0 with
  | Some rq => past_gate (rq_filter rq) = true ∧ length (rq_passed rq) = 1
  | _ => False
  end.
Proof. vm_compute. split; reflexivity. Qed.

Lemma strict_no_fronting_witness :
  hostname_eq sys_host (host (cel_http_session
    (fresh_context (sys_px Strict) (sys_arrival Strict sys_host sys_host)))) = true.
Proof.
  pose proof sys_filters as Hd.
  destruct (filter_once_same 4 0 (sys_removed Strict sys_host sys_host) _ eq_refl)
    as (rq & Hrq & Ha & Hs).
  unfold sys_filtered in Hd. rewrite Hrq in Hd. destruct Hd as [Hg _].
  apply list_elem_of_lookup_2 in Hrq as Hin.
  destruct (strict_no_fronting _ rq _ _ sys_host
    (reachable_run _ _ (sys_removed_run Strict sys_host sys_host) (filter_once_run 4 0 _))
    Hin Ha (f_equal sc_sni_host_policy Hs) Hg eq_refl) as [_ Hn].
  apply (Hn sys_host). vm_compute. reflexivity.
Defined.

(** A route to a listener implemented in JavaScript. *)
Definition js_config : RouteConfig MC :=
  mkRouteConfig "r1" (mkRouteMatcherConfig "api.example.com" None) [tt]
    [mkUpstreamConfig (AddrVirtualJs "app") false None None 1 None None None None None None None
       None] None.
Definition js_added : LonesomeServer := (add_or_update js_config demo_server).2.
Definition js_listening : LonesomeServer :=
  set_shared (set_vjs (VjsRegistry.run_reg_op (VjsRegistry.OpRegister "app" (Ok tt))
                         (sh_vjs (sv_shared js_added))) (sv_shared js_added)) js_added.
Definition js_ready : LonesomeServer := (server_start (startup_with Strict) (Ok tt) js_listening).2.
Definition js_early : St :=
  (early_request_filter (proxy_for (startup_with Strict) js_ready)
     (mkSt (ProxyCtx_new Strict) (st_session (tls_state Strict sys_host sys_host))
        (sv_shared js_ready))).2.
Definition js_request : InFlight :=
  mkInFlight (startup_with Strict) (st_ctx js_early) (st_session js_early)
    (Some (proxy_for (startup_with Strict) js_ready,
           mkSt (ProxyCtx_new Strict) (st_session (tls_state Strict sys_host sys_host))
             (sv_shared js_ready))) FilterIdle [].
Definition js_system : System := mkSystem (set_shared (st_shared js_early) js_ready) [js_request].

Lemma js_system_run : reachable_system js_system.
Proof.
  exists demo_shared. split_and!; [reflexivity..|].
  eapply rtc_l; [apply sys_server, (step_add_or_update js_config)|].
  eapply rtc_l.
  { apply (sys_listeners js_added [] (VjsRegistry.OpRegister "app" (Ok tt))). by intros l [=]. }
  eapply rtc_l; [apply sys_server, (step_start (startup_with Strict) (Ok tt))|].
  eapply rtc_l.
  { apply (sys_accept js_ready [] (mkLonesomeRuntime (startup_with Strict) true true ThreadAlive)
             (st_session (tls_state Strict sys_host sys_host))); reflexivity. }
  apply rtc_once.
  apply (sys_arrive (mkSystem js_ready [sys_idle Strict sys_host sys_host]) 0
           (sys_idle Strict sys_host sys_host) (st_session (tls_state Strict sys_host sys_host))).
  reflexivity.
Qed.

Example js_runs :
  match ctx_current_route (rq_ctx js_request),
        upstream_peer (st_of js_request (sy_server js_system)) with
  | Some r, (Ok peer, _) => r_id r = "r1" ∧ po_custom_l4 (peer_options peer) = Some 0
  | _, _ => False
  end.
Proof. vm_compute. split; reflexivity. Qed.


Definition sys_forwarded : result RequestHeader Error * St :=
  upstream_request_filter
    (proxy_for (startup_with StrictRewriteHeader)
       (sy_server (sys_removed StrictRewriteHeader "victim.com" sys_host)))
    (sv_req_header (view "victim.com" "/x"))
    (st_of (sys_request StrictRewriteHeader "victim.com" sys_host)
       (sy_server (sys_removed StrictRewriteHeader "victim.com" sys_host))).

Example sys_forwards :
  is_ok sys_forwarded.1 = true ∧
  r_id <$> ctx_current_route (rq_ctx (sys_request StrictRewriteHeader "victim.com" sys_host))
    = Some "r1".
Proof. split; vm_compute; reflexivity. Qed.

Lemma rewrite_header_forwards_sni_witness :
  match sys_forwarded with
  | (Ok req', _) => hm_get_all "host" (req_headers req') = [sys_host]
  | _ => False
  end.
Proof.
  destruct sys_forwards as [Hd Hroute]. unfold sys_forwarded in *.
  destruct (upstream_request_filter _ _ _) as [[req'|] s'] eqn:E; [|discriminate Hd].
  assert (is_Some (ctx_current_route (rq_ctx
    (sys_request StrictRewriteHeader "victim.com" sys_host)))) as Hr.
  { destruct (ctx_current_route _); [eauto|discriminate]. }
  exact (proj1 (rewrite_header_forwards_sni _ _ _ _ _ req' s' sys_host
    (sys_removed_run StrictRewriteHeader "victim.com" sys_host)
    (sys_request_in StrictRewriteHeader "victim.com" sys_host)
    eq_refl eq_refl Hr eq_refl eq_refl E)).
Defined.
End SystemWitnesses.
