(* ===== verification/Bindings.v ===== *)
(** * JavaScript objects

    [src/bindings/]: the objects JavaScript passes and gets back, and their
    conversion to and from the configuration and status records. A [u32] or
    [i32] field is a [Z] of that range; the casts between widths are written
    out. The deserializer of a middleware's configuration is [serde]. *)

From S2P Require Import Prelude Text Http Config Cel CelSession CelRegex CelFunctions.
From S2P Require Import CelEngine CheapExpr Precheck Matcher RuleEval RouteTable.
From S2P Require Import VjsSocket VjsRegistry LoadBalancer Pingora ErrorPages Ctx.
From S2P Require Import Upstream CertStore Server.
From stdpp Require Import base tactics strings list gmap relations.
From Stdlib Require Import ZArith Lia Ascii.

(** ** Upstreams: [bindings/upstream_config.rs] *)

Record JsLoadBalancerConfig := mkJsLoadBalancerConfig {
  jl_algorithm : option string;
  jl_max_iterations : option Z;
  jl_hash_key_rule : option string;
}.

Record JsUpstreamConfig := mkJsUpstreamConfig {
  ju_kind : option string;
  ju_address : string;
  ju_tls : option bool;
  ju_h2c : option bool;
  ju_sni : option string;
  ju_weight : option Z;
  ju_connect_timeout_ms : option Z;
  ju_read_timeout_ms : option Z;
  ju_write_timeout_ms : option Z;
  ju_idle_timeout_ms : option Z;
  ju_verify_cert : option bool;
  ju_client_cert_pem : option string;
  ju_client_key_pem : option string;
  ju_ca_cert_pem : option string;
}.

Definition parse_algorithm (s : string) : result LoadBalancerAlgorithm string :=
  if decide (s ∈ ["round_robin"; "rr"]) then Ok RoundRobin
  else if decide (s ∈ ["consistent_hash"; "consistent"; "ch"]) then Ok ConsistentHash
  else Err ("unsupported lb.algorithm '" +:+ s +:+ "'").

(** [TryFrom<LoadBalancerConfig>]. *)
Definition load_balancer_try_from (v : JsLoadBalancerConfig) : result LoadBalancerConfig string :=
  let? algorithm := parse_algorithm (default "round_robin" (jl_algorithm v)) in
  Ok (mkLoadBalancerConfig algorithm (default 32%Z (jl_max_iterations v))
        (match jl_hash_key_rule v with
         | Some s => if blank s then None else Some s
         | None => None
         end)).

(** [TryFrom<UpstreamConfig>]. *)
Definition upstream_address (kind address : string) : result UpstreamAddressConfig string :=
  if decide (kind = "tcp") then Ok (AddrTcp address)
  else if decide (kind = "unix") then Ok (AddrUnix address)
  else if decide (kind = "virtual_js") then Ok (AddrVirtualJs address)
  else Err ("unsupported upstream kind '" +:+ kind +:+ "'").
Definition upstream_try_from (v : JsUpstreamConfig) : result UpstreamConfig string :=
  let? address := upstream_address (default "tcp" (ju_kind v)) (ju_address v) in
  Ok (mkUpstreamConfig address (default false (ju_tls v)) (ju_h2c v) (ju_sni v)
        (default 1%Z (ju_weight v)) (ju_connect_timeout_ms v) (ju_read_timeout_ms v)
        (ju_write_timeout_ms v) (ju_idle_timeout_ms v) (ju_verify_cert v)
        (ju_client_cert_pem v) (ju_client_key_pem v) (ju_ca_cert_pem v)).

(** ** Middlewares and routes: [middleware_config.rs], [route_config.rs] *)

Record JsMiddlewareConfig := mkJsMiddlewareConfig { jm_type : string; jm_config : JsonValue }.

(** [serde_json::from_value] at the type of middleware configurations. *)
Class MwJson `{MwBuild} := { mw_from_value : JsonValue → result MC string }.

Record JsRouteMatcherConfig := mkJsRouteMatcherConfig {
  jrm_rule : string;
  jrm_priority : option Z;
}.
Record JsRouteConfig := mkJsRouteConfig {
  jr_id : string;
  jr_matcher : JsRouteMatcherConfig;
  jr_middlewares : list JsMiddlewareConfig;
  jr_upstreams : list JsUpstreamConfig;
  jr_load_balancer : option JsLoadBalancerConfig;
}.

Section Routes.
Context `{MwJson}.

(** [middleware_type_from_json] of [src/config/middleware_config.rs]. *)
Definition middleware_type_from_json (kind : string) (config : JsonValue) : result MC string :=
  match config with
  | JObject obj =>
      map_err (λ e : string, "invalid middleware config payload for '" +:+ kind +:+ "': " +:+ e)
        (mw_from_value (JObject (object_insert "type" (JString kind) obj)))
  | _ => Err ("invalid middleware config json for '" +:+ kind +:+ "': expected JSON object")
  end.
Definition middleware_try_from (v : JsMiddlewareConfig) : result MC string :=
  middleware_type_from_json (jm_type v) (jm_config v).

(** [TryFrom<RouteConfig>]. *)
Definition route_try_from (v : JsRouteConfig) : result (RouteConfig MC) string :=
  let? middlewares := try_map middleware_try_from (jr_middlewares v) in
  let? upstreams := try_map upstream_try_from (jr_upstreams v) in
  let? load_balancer := transpose load_balancer_try_from (jr_load_balancer v) in
  Ok (mkRouteConfig (jr_id v)
        (mkRouteMatcherConfig (jrm_rule (jr_matcher v)) (jrm_priority (jr_matcher v)))
        middlewares upstreams load_balancer).
End Routes.

(** ** Startup: [startup_config.rs] *)

Record JsListenerConfig := mkJsListenerConfig {
  jc_kind : string;
  jc_addr : string;
  jc_cert_path : option string;
  jc_key_path : option string;
}.
Record JsStartupConfig := mkJsStartupConfig {
  js_threads : option Z;
  js_work_stealing : option bool;
  js_listeners : list JsListenerConfig;
  js_sni_host_policy : option string;
  js_downstream_read_timeout_ms : option Z;
  js_downstream_write_timeout_ms : option Z;
  js_grace_period_seconds : option Z;
  js_graceful_shutdown_timeout_seconds : option Z;
  js_upstream_keepalive_pool_size : option Z;
  js_max_retries : option Z;
  js_enable_h2c_downstream : option bool;
}.

Definition listener_try_from (item : JsListenerConfig) : result StartupListenerConfig string :=
  if decide (jc_kind item = "tcp") then Ok (ListenTcp (jc_addr item))
  else if decide (jc_kind item = "tls")
  then Ok (ListenTls (jc_addr item) (jc_cert_path item) (jc_key_path item))
  else if decide (jc_kind item = "unix") then Ok (ListenUnix (jc_addr item))
  else Err ("unsupported startup listener kind '" +:+ jc_kind item +:+ "'").

Definition policy_try_from (p : option string) : result SniHostPolicy string :=
  match p with
  | None => Ok Strict
  | Some p =>
      if decide (p = "strict") then Ok Strict
      else if decide (p = "loose_by_sni") then Ok LooseBySni
      else if decide (p = "loose_by_header") then Ok LooseByHeader
      else if decide (p = "strict_rewrite_header") then Ok StrictRewriteHeader
      else Err ("unsupported startup sniHostPolicy '" +:+ p +:+
        "' (expected 'loose_by_sni' | 'loose_by_header' | 'strict' | 'strict_rewrite_header')")
  end.

(** [TryFrom<StartupConfig>]. *)
Definition startup_try_from (v : JsStartupConfig) : result StartupConfig string :=
  let? listeners := try_map listener_try_from (js_listeners v) in
  let? sni_host_policy := policy_try_from (js_sni_host_policy v) in
  Ok (mkStartupConfig (js_threads v) (js_work_stealing v) listeners sni_host_policy
        (js_downstream_read_timeout_ms v) (js_downstream_write_timeout_ms v)
        (js_grace_period_seconds v) (js_graceful_shutdown_timeout_seconds v)
        (js_upstream_keepalive_pool_size v) (js_max_retries v) (js_enable_h2c_downstream v)).

(** ** Error pages: [error_page.rs] *)

(** [Either<u32, String>]. *)
Inductive JsStatus := StatusCode (code : Z) | StatusSpec (spec : string).
Record JsErrorPageOptions := mkJsErrorPageOptions {
  jp_id : string;
  jp_status : option JsStatus;
  jp_matcher : option string;
  jp_body : option string;
  jp_body_expression : option string;
  jp_content_type : option string;
  jp_headers : option (list (string * string));
  jp_status_override : option Z;
  jp_priority : option Z;
}.

(** [TryFrom<ErrorPageOptions>]: the override is cast [as u16]; the headers come
    in the order in which the hash map yields them. *)
Definition error_page_try_from (v : JsErrorPageOptions) : ErrorPageConfig :=
  mkErrorPageConfig (jp_id v)
    ((λ s, match s with StatusCode code => to_string_Z code | StatusSpec spec => spec end)
       <$> jp_status v)
    (jp_matcher v) (jp_body v) (jp_body_expression v) (jp_content_type v)
    (default [] (jp_headers v)) (wrap_unsigned 16 <$> jp_status_override v)
    (default 0%Z (jp_priority v)).

(** ** Status: [status.rs] *)

Record JsRouteStatus := mkJsRouteStatus {
  jrs_id : string;
  jrs_rule : string;
  jrs_priority : Z;
  jrs_load_balancer : LoadBalancerStatus;
  jrs_upstreams : list UpstreamStatus;
}.
Record JsServerStatus := mkJsServerStatus {
  jss_running : bool;
  jss_state : string;
  jss_route_count : Z;
  jss_threads : Z;
  jss_work_stealing : bool;
  jss_sni_host_policy : string;
  jss_error_page_count : Z;
  jss_listeners : list ListenerStatus;
  jss_routes : list JsRouteStatus;
}.

Definition load_balancer_from (v : LoadBalancerStatus) : LoadBalancerStatus :=
  mkLoadBalancerStatus (lbs_algorithm v) (wrap_unsigned 32 (lbs_max_iterations v))
    (lbs_hash_key_rule v).
Definition upstream_health_from (v : UpstreamHealthStatus) : UpstreamHealthStatus :=
  mkUpstreamHealthStatus (uhs_healthy v) (uhs_tolerance v).
Definition upstream_from (v : UpstreamStatus) : UpstreamStatus :=
  mkUpstreamStatus (us_kind v) (us_address v) (us_weight v)
    (upstream_health_from <$> us_health v).
Definition route_from (v : RouteStatus) : JsRouteStatus :=
  mkJsRouteStatus (rs_id v) (rs_rule v) (rs_priority v) (load_balancer_from (rs_load_balancer v))
    (upstream_from <$> rs_upstreams v).
Definition listener_from (v : ListenerStatus) : ListenerStatus :=
  mkListenerStatus (ls_kind v) (ls_addr v).
Definition status_from (v : ServerStatus) : JsServerStatus :=
  mkJsServerStatus (st_running v) (ServerState_as_str (st_state v))
    (wrap_unsigned 32 (st_route_count v)) (wrap_unsigned 32 (st_threads v)) (st_work_stealing v)
    (SniHostPolicy_as_str (st_sni_host_policy v)) (wrap_unsigned 32 (st_error_page_count v))
    (listener_from <$> st_listeners v) (route_from <$> st_routes v).

(** ** The exported functions: [server.rs], [rule_analysis.rs],
    [rule_evaluation.rs] *)

Record RequestOptions := mkRequestOptions {
  ro_method : string;
  ro_path : string;
  ro_headers : option (list (string * string));
}.
Record JsRuleEvaluation := mkJsRuleEvaluation { jre_precheck : string; jre_matches : bool }.

Section Exports.
Context `{HttpLib, RegexLib, RuleLib, !CelLib, TlsLib, !CertLib, LbLib, MwTypes, !MwBuild, !MwJson}.
Context `{JsonLib}.

(** [LonesomeServer::start], from the conversion on. *)
Definition js_start (startup : JsStartupConfig) (spawn : result unit string)
    (s : LonesomeServer) : result unit string * LonesomeServer :=
  match startup_try_from startup with
  | Err e => (Err e, s)
  | Ok startup_cfg => server_start startup_cfg spawn s
  end.
(** [update_error_page]. *)
Definition js_update_error_page (options : JsErrorPageOptions) (s : LonesomeServer)
    : result unit string * LonesomeServer :=
  update_error_page (error_page_try_from options) s.
(** [add_or_update] and [validate] through [build_route]. *)
Definition js_add_or_update (route : JsRouteConfig) (s : LonesomeServer)
    : result unit string * LonesomeServer :=
  match route_try_from route with
  | Err e => (Err e, s)
  | Ok cfg => add_or_update cfg s
  end.
Definition js_validate (route : JsRouteConfig) (s : LonesomeServer)
    : result unit string * LonesomeServer :=
  match route_try_from route with
  | Err e => (Err e, s)
  | Ok cfg => server_validate cfg s
  end.
Definition js_status (s : LonesomeServer) : JsServerStatus := status_from (server_status s).

Definition analyze_rule (rule : string) : result RuleConstraints string :=
  let? program := map_err (λ e, "failed to compile rule '" +:+ rule +:+ "': " +:+ e)
                    (cel_compile rule) in
  Ok (analyze program).
Definition js_evaluate_rule (rule : string) (request : RequestOptions) (env : EvalEnv)
    : result JsRuleEvaluation string :=
  let? r := evaluate_rule rule (ro_method request) (ro_path request) (ro_headers request) env in
  Ok (mkJsRuleEvaluation
        (match re_precheck r with TTrue => "true" | TFalse => "false" | TUnknown => "unknown" end)
        (re_matches r)).
Definition js_evaluate_expression (expression : string) (request : option RequestOptions)
    (env : EvalEnv) : result JsonValue string :=
  let '(method, path, headers) :=
    match request with
    | Some r => (ro_method r, ro_path r, ro_headers r)
    | None => ("GET", "/", None)
    end in
  evaluate_expression expression method path headers env.

(** ** Round trips *)

Definition is_u32 (n : Z) : Prop := (0 ≤ n < 2 ^ 32)%Z.
Lemma wrap_u32_id n : is_u32 n → wrap_unsigned 32 n = n.
Proof. unfold is_u32, wrap_unsigned. intros. by apply Z.mod_small. Qed.
Lemma wrap_u32_twice n : wrap_unsigned 32 (wrap_unsigned 32 n) = wrap_unsigned 32 n.
Proof. unfold wrap_unsigned. by rewrite Zmod_mod. Qed.

Lemma listener_roundtrip l c :
  listener_try_from l = Ok c →
  listener_from (listener_status c) = mkListenerStatus (jc_kind l) (jc_addr l).
Proof.
  destruct l. unfold listener_try_from. cbn. repeat case_decide; intros; by simplify_eq/=.
Qed.

Lemma policy_roundtrip p q :
  policy_try_from p = Ok q → SniHostPolicy_as_str q = default "strict" p.
Proof.
  unfold policy_try_from. destruct p; [|by intros [= <-]].
  repeat case_decide; intros; by simplify_eq/=.
Qed.

Lemma try_map_fmap {A B C E} (f : A → result B E) (g : B → C) (h : A → C) l l' :
  (∀ x y, f x = Ok y → g y = h x) → try_map f l = Ok l' → g <$> l' = h <$> l.
Proof.
  intros Hf. revert l'. induction l as [|x l IH]; simpl; intros l' Hl; [by simplify_eq|].
  destruct (f x) eqn:Ef; [|done]. simpl in Hl. destruct (try_map f l) eqn:El; [|done].
  simplify_eq/=. f_equal; auto.
Qed.

Lemma startup_try_from_fields v c :
  startup_try_from v = Ok c →
  try_map listener_try_from (js_listeners v) = Ok (sc_listeners c) ∧
  policy_try_from (js_sni_host_policy v) = Ok (sc_sni_host_policy c) ∧
  sc_threads c = js_threads v ∧ sc_work_stealing c = js_work_stealing v.
Proof.
  unfold startup_try_from. intros Hc.
  destruct (try_map _ _); [|done]. cbn [result_bind] in Hc.
  destruct (policy_try_from _); [|done]. by injection Hc as <-.
Qed.

Lemma server_start_ok c spawn s :
  (server_start c spawn s).1 = Ok tt →
  ∃ rt, rt_startup rt = c ∧ is_running rt = true ∧ sv_stopping s = false ∧
    (server_start c spawn s).2 = set_runtime (Some rt) true (sv_stopping s) (sv_draining s) s.
Proof.
  unfold server_start. destruct (sv_runtime s); [done|]. destruct (sv_stopping s) eqn:Es; [done|].
  unfold runtime_start. destruct (StartupConfig_validate c); [|done]. cbn [result_bind].
  destruct (guard_err _ _); [|done]. cbn [result_bind]. destruct spawn; [|done]. cbn.
  intros _. exists (mkLonesomeRuntime c true true ThreadAlive). by split_and!.
Qed.

(** C33: What JavaScript starts the server with is what the status reports: a
    start that succeeds is reported as running, with the kind and address of
    every listener in order, the SNI policy ([strict] when none was given),
    the thread count and the work-stealing flag of the configuration. *)
Theorem startup_roundtrip v spawn s :
  (∀ n, js_threads v = Some n → is_u32 n) → (js_start v spawn s).1 = Ok tt →
  let st := js_status (js_start v spawn s).2 in
  jss_running st = true ∧ jss_state st = "running" ∧
  jss_listeners st = (λ l, mkListenerStatus (jc_kind l) (jc_addr l)) <$> js_listeners v ∧
  jss_sni_host_policy st = default "strict" (js_sni_host_policy v) ∧
  jss_threads st = default 0%Z (js_threads v) ∧
  jss_work_stealing st = default false (js_work_stealing v) ∧
  jss_routes st = jss_routes (js_status s).
Proof.
  intros Hu. unfold js_start. destruct (startup_try_from v) as [c|] eqn:Ec; [|done].
  apply startup_try_from_fields in Ec as (Hl & Hp & Ht & Hw).
  intros (rt & Hrt & Hrun & Hs & ->)%server_start_ok.
  unfold js_status, server_status, server_state, running. cbn.
  rewrite Hrt, Hrun, Hs, Ht, Hw. cbn. split_and!; try done.
  - rewrite <-list_fmap_compose. 
    apply (try_map_fmap _ (listener_from ∘ listener_status) _ _ _ listener_roundtrip Hl).
  - by apply policy_roundtrip.
  - rewrite wrap_u32_twice. destruct (js_threads v) as [n|]; [|done]. by apply wrap_u32_id, Hu.
  - by destruct (sv_runtime s).
Qed.

(** The canonical name of an algorithm alias. *)
Definition algorithm_name (s : string) : string :=
  if decide (s ∈ ["round_robin"; "rr"]) then "round_robin" else "consistent_hash".

Lemma load_balancer_roundtrip v c :
  load_balancer_try_from v = Ok c →
  lb_algorithm c = (if decide (default "round_robin" (jl_algorithm v) ∈ ["round_robin"; "rr"])
                    then RoundRobin else ConsistentHash) ∧
  lb_max_iterations c = default 32%Z (jl_max_iterations v) ∧
  lb_hash_key_rule c = (jl_hash_key_rule v ≫= λ r, if blank r then None else Some r).
Proof.
  unfold load_balancer_try_from, parse_algorithm. intros Hv.
  case_decide; [|case_decide; [|done]]; cbn [result_bind] in Hv; injection Hv as <-;
    (split_and!; [done..|by destruct (jl_hash_key_rule v)]).
Qed.

Lemma upstream_roundtrip v c e :
  upstream_try_from v = Ok c → endpoint_of_config c = Ok e →
  (ep_kind e, ep_address e, ep_weight e)
    = (default "tcp" (ju_kind v), ju_address v, default 1%Z (ju_weight v)).
Proof.
  unfold upstream_try_from, upstream_address. intros Hv He.
  set (k := default "tcp" (ju_kind v)) in *.
  repeat case_decide; try done; cbn [result_bind] in Hv; injection Hv as <-;
    unfold endpoint_of_config in He; destruct (PeerTunables_from_config _); try done;
    cbn in He; injection He as <-; cbn; congruence.
Qed.

Lemma route_try_from_fields v cfg :
  route_try_from v = Ok cfg →
  rc_id cfg = jr_id v ∧ rmc_rule (rc_matcher cfg) = jrm_rule (jr_matcher v) ∧
  rmc_priority (rc_matcher cfg) = jrm_priority (jr_matcher v) ∧
  try_map upstream_try_from (jr_upstreams v) = Ok (rc_upstreams cfg) ∧
  transpose load_balancer_try_from (jr_load_balancer v) = Ok (rc_load_balancer cfg).
Proof.
  unfold route_try_from. intros Hv.
  destruct (try_map middleware_try_from _); [|done]. cbn [result_bind] in Hv.
  destruct (try_map upstream_try_from _); [|done]. cbn [result_bind] in Hv.
  destruct (transpose _ _); [|done]. by injection Hv as <-.
Qed.

Lemma try_map_fmap2 {A B C D E} (f : A → result B E) (f' : B → result C E) (g : C → D) (h : A → D)
    l l1 l2 :
  (∀ x y z, f x = Ok y → f' y = Ok z → g z = h x) →
  try_map f l = Ok l1 → try_map f' l1 = Ok l2 → g <$> l2 = h <$> l.
Proof.
  intros Hf. revert l1 l2. induction l as [|x l IH]; simpl; intros l1 l2 Hl1 Hl2; [by simplify_eq/=|].
  destruct (f x) as [y|] eqn:Ef; [|done]. simpl in Hl1.
  destruct (try_map f l) as [l1'|] eqn:El; [|done]. simplify_eq/=.
  destruct (f' y) as [z|] eqn:Ef'; [|done]. simpl in Hl2.
  destruct (try_map f' l1') as [l2'|] eqn:El'; [|done]. simplify_eq/=.
  f_equal; [by eapply Hf|by eapply IH].
Qed.

Section Installed.
Context `{!LbLaws}.

(** The balancer and the endpoints that the status of a built route shows. *)
Lemma built_pool cfg sh r sh' g :
  Route_from_config cfg sh = (Ok (r, sh'), g) →
  try_map endpoint_of_config (rc_upstreams cfg) = Ok (up_endpoints (r_upstream_pool r)) ∧
  (∀ c, rc_load_balancer cfg = Some c → up_lb_cfg (r_upstream_pool r) = c).
Proof.
  intros (m & ms & p & _ & _ & _ & Ep & ->)%route_from_config_inv. cbn.
  by apply from_config_facts in Ep as (_ & ? & ? & _).
Qed.

Lemma upstream_status_fields p sh :
  (λ u, (us_kind u, us_address u, us_weight u)) <$> (upstream_from <$> upstream_pool_status p sh)
    = (λ e, (ep_kind e, ep_address e, ep_weight e)) <$> up_endpoints p.
Proof.
  rewrite <-list_fmap_compose. unfold upstream_pool_status. rewrite fmap_imap.
  unfold compose. cbn. generalize (up_endpoints p). intros l. rewrite <-(imap_const _ l).
  by apply imap_ext.
Qed.

Lemma add_or_update_ok cfg s :
  (add_or_update cfg s).1 = Ok tt → NoDup (r_id <$> sv_routes s) →
  ∃ r sh g, Route_from_config cfg (sv_shared s) = (Ok (r, sh), g) ∧
    sv_shared (add_or_update cfg s).2 = sh ∧
    ∀ x, x ∈ sv_routes (add_or_update cfg s).2 ↔
         x = r ∨ x ∈ sv_routes s ∧ r_id x ≠ r_id r.
Proof.
  unfold add_or_update. destruct (Route_from_config cfg (sv_shared s)) as [[[r sh]|] g]; [|done].
  cbn. intros _ Hnd. exists r, sh, g. split_and!; [done..|]. intros x.
  rewrite upsert_perm, elem_of_cons, list_elem_of_filter by exact Hnd.
  cbn. tauto.
Qed.

(** C32: A route that JavaScript adds comes back in the status: exactly one
    reported route has its id, and that one shows its rule, its priority (the
    length of the rule when none was given), the kind, address and weight of
    every upstream in order with the defaults [tcp] and 1, and, when a load
    balancer was configured, its algorithm by canonical name, its iteration
    bound (32 by default) and its non-blank hash rule. *)
Theorem route_roundtrip v s :
  NoDup (r_id <$> sv_routes s) →
  (∀ lb n, jr_load_balancer v = Some lb → jl_max_iterations lb = Some n → is_u32 n) →
  (js_add_or_update v s).1 = Ok tt →
  ∃ r, r ∈ jss_routes (js_status (js_add_or_update v s).2) ∧
    (∀ r', r' ∈ jss_routes (js_status (js_add_or_update v s).2) → jrs_id r' = jr_id v → r' = r) ∧
    jrs_id r = jr_id v ∧ jrs_rule r = jrm_rule (jr_matcher v) ∧
    jrs_priority r = default (wrap_i32 (Z.of_nat (String.length (jrm_rule (jr_matcher v)))))
                       (jrm_priority (jr_matcher v)) ∧
    (λ u, (us_kind u, us_address u, us_weight u)) <$> jrs_upstreams r
      = (λ u, (default "tcp" (ju_kind u), ju_address u, default 1%Z (ju_weight u)))
          <$> jr_upstreams v ∧
    (∀ lb, jr_load_balancer v = Some lb →
       jrs_load_balancer r = mkLoadBalancerStatus
         (algorithm_name (default "round_robin" (jl_algorithm lb)))
         (default 32%Z (jl_max_iterations lb))
         (jl_hash_key_rule lb ≫= λ h, if blank h then None else Some h)).
Proof.
  intros Hnd Hu. unfold js_add_or_update.
  destruct (route_try_from v) as [cfg|] eqn:Ev; [|done]. intros Hok.
  apply route_try_from_fields in Ev as (Hid & Hrule & Hprio & Hups & Hlb).
  destruct (add_or_update_ok cfg s Hok Hnd) as (r & sh & g & Hr & Hsh & Hin).
  set (s' := (add_or_update cfg s).2) in *.
  assert (∀ x, x ∈ jss_routes (js_status s') ↔
               ∃ y, x = route_from (route_status sh y) ∧ y ∈ sv_routes s') as Hst.
  { intros x. rewrite <-Hsh, <-list_elem_of_fmap. unfold js_status, server_status.
    destruct (sv_runtime s'); cbn; by rewrite <-list_fmap_compose. }
  pose proof (route_from_config_ok _ _ _ _ _ Hr) as (_ & Eid & Eprio & Esrc & _).
  pose proof (built_pool _ _ _ _ _ Hr) as [Heps Hcfg].
  exists (route_from (route_status sh r)). split_and!.
  - apply Hst. exists r. split; [done|]. apply Hin. by left.
  - intros r' (y & -> & [->|[_ Hne]]%Hin)%Hst Hy; [done|]. cbn in Hy. congruence.
  - cbn. congruence.
  - cbn. congruence.
  - cbn. rewrite Eprio. unfold effective_priority. by rewrite Hrule, Hprio.
  - cbn. rewrite upstream_status_fields.
    exact (try_map_fmap2 _ _ _ _ _ _ _ upstream_roundtrip Hups Heps).
  - intros lb Hl. rewrite Hl in Hlb. cbn in Hlb.
    destruct (load_balancer_try_from lb) as [c|] eqn:El; [|done]. cbn in Hlb.
    injection Hlb as Hlb. symmetry in Hlb. specialize (Hcfg c Hlb).
    apply load_balancer_roundtrip in El as (Ha & Hm & Hh). cbn.
    unfold load_balancer_from, load_balancer_status. cbn. rewrite Hcfg, Ha, Hm, Hh.
    f_equal; [unfold algorithm_name; by case_decide|].
    destruct (jl_max_iterations lb) as [n|] eqn:En; [|done]. by apply wrap_u32_id, (Hu lb).
Qed.
End Installed.
End Exports.

(** ** Error pages given by number *)

Lemma numeric_status_exact code :
  (400 ≤ code ≤ 599)%Z → parse_status_spec (to_string_Z code) = Ok [code].
Proof.
  intros Hc.
  assert (forallb (λ c, match parse_status_spec (to_string_Z c) with
                        | Ok [x] => (x =? c)%Z | _ => false end) (seqZ 400 200) = true) as Hall
    by (vm_compute; reflexivity).
  rewrite forallb_forall in Hall.
  assert (In code (seqZ 400 200)) as Hin by (apply list_elem_of_In, elem_of_seqZ; lia).
  specialize (Hall code Hin). destruct (parse_status_spec _) as [[|x [|? ?]]|]; try done.
  apply Z.eqb_eq in Hall. by subst.
Qed.

Definition with_override (n : Z) (v : JsErrorPageOptions) : JsErrorPageOptions :=
  mkJsErrorPageOptions (jp_id v) (jp_status v) (jp_matcher v) (jp_body v) (jp_body_expression v)
    (jp_content_type v) (jp_headers v) (Some n) (jp_priority v).

(** A status override is taken modulo 65536 before it is validated: 65736 is
    accepted as 200. *)
Lemma override_truncated v n :
  error_page_try_from (with_override n v)
    = error_page_try_from (with_override (wrap_unsigned 16 n) v) ∧
  epc_status_override (error_page_try_from (with_override 65736 v)) = Some 200%Z.
Proof.
  split; [|done]. unfold error_page_try_from. cbn. do 2 f_equal. unfold wrap_unsigned.
  by rewrite Zmod_mod.
Qed.

(** ** Witnesses *)

Module RefBindings.
Import RefServer RefPeer.
#[export] Instance json : MwJson := {| mw_from_value := λ _, Ok tt |}.
End RefBindings.

Section BindingsWitnesses.
Import Demo RefLb RefPeer RefCert RefServer RefBindings RefJson.

Definition demo_js_startup : JsStartupConfig :=
  mkJsStartupConfig (Some 4%Z) None
    [mkJsListenerConfig "tcp" "0.0.0.0:80" None None; mkJsListenerConfig "unix" "/tmp/s" None None]
    (Some "loose_by_sni") None None None None None None None.

Lemma startup_roundtrip_witness :
  (js_start demo_js_startup (Ok tt) demo_server).1 = Ok tt ∧
  jss_sni_host_policy (js_status (js_start demo_js_startup (Ok tt) demo_server).2) = "loose_by_sni".
Proof.
  split; [reflexivity|].
  apply (startup_roundtrip demo_js_startup (Ok tt) demo_server); [|reflexivity].
  intros n [= <-]. unfold is_u32. lia.
Defined.

Definition demo_js_upstream (kind : option string) (address : string) : JsUpstreamConfig :=
  mkJsUpstreamConfig kind address None None None None None None None None None None None None.
Definition demo_js_route : JsRouteConfig :=
  mkJsRouteConfig "r1" (mkJsRouteMatcherConfig "api.example.com" None)
    [mkJsMiddlewareConfig "respond" (JObject [])]
    [demo_js_upstream None "10.0.0.1:80"; demo_js_upstream (Some "tcp") "10.0.0.2:80"]
    (Some (mkJsLoadBalancerConfig (Some "ch") None (Some " "))).

Lemma route_roundtrip_witness :
  (js_add_or_update demo_js_route demo_server).1 = Ok tt ∧
  ∃ r, r ∈ jss_routes (js_status (js_add_or_update demo_js_route demo_server).2) ∧
       jrs_priority r = 15%Z ∧
       jrs_load_balancer r = mkLoadBalancerStatus "consistent_hash" 32 None.
Proof.
  assert (Hok : (js_add_or_update demo_js_route demo_server).1 = Ok tt) by reflexivity.
  split; [exact Hok|].
  destruct (route_roundtrip demo_js_route demo_server) as (r & Hr & _ & _ & _ & Hp & _ & Hl).
  - constructor.
  - by intros lb n [= <-].
  - exact Hok.
  - exists r. split_and!; [exact Hr|exact Hp|exact (Hl _ eq_refl)].
Defined.
End BindingsWitnesses.
