(* ===== verification/MwRegistry.v ===== *)
(** * The middleware registry

    [src/middlewares/registry.rs] and [src/config/middleware_config.rs]: the
    configuration of a middleware, its validation and its construction. The
    middlewares of the previous files become one instance of the interfaces the
    proxy and the server are verified against, with the cache handler behind
    the proxy's cache callbacks. *)

From S2P Require Import Prelude Text Http Config Cel CelSession CelRegex CelFunctions.
From S2P Require Import CelEngine CheapExpr Precheck Matcher RouteTable.
From S2P Require Import VjsSocket VjsRegistry LoadBalancer Pingora ErrorPages Ctx.
From S2P Require Import Cache Upstream Response Frame Proxy Request CertStore Server System Middleware.
From S2P Require Import MwCache MwGuards MwJwt MwInterceptor MwAccessLog MwCompression.
From S2P Require Import MwRequest MwHeaders MwContent.
From stdpp Require Import base tactics strings list gmap relations.
From Stdlib Require Import ZArith Lia.

(** What the middlewares keep in statics: the rate estimator, the purge times
    of the cache, the interceptors, and the sinks of the access log. *)
Record MwGlobals `{RateLib} := mkGlobals {
  g_rate : Rate;
  g_purge : gmap string Z;
  g_interceptors : InterceptorMap;
  g_sinks : gmap string Sink.AccessLogSink;
}.
Arguments mkGlobals {_}.

(** What building a middleware does to the global state: an access log creates
    its sink. *)
Class BuildLogs `{LogState, !MwBuild} := {
  build_logs c g : logs_added g (build_middleware c g).2;
}.

Lemma build_all_logs `{BuildLogs} cs g : logs_added g (build_middlewares cs g).2.
Proof.
  revert g. induction cs as [|c cs IH]; intros g; simpl; [apply logs_added_refl|].
  pose proof (build_logs c g) as Hc. destruct (build_middleware c g) as [[m|] g1]; [|done].
  specialize (IH g1). destruct (build_middlewares cs g1) as [r g2].
  by eapply logs_added_trans.
Qed.

Section Registry.
Context `{HttpLib, RegexLib, RuleLib, !CelLib, TlsLib, !CertLib, LbLib, PeerLib, FmtLib,
          !ProxyFmt, !RateLib, !AuthLib, !MethodLib, !CacheLib, !JoseLib, !JsCalls, !LogLib}.

(** The configurations. *)
Inductive MiddlewareType :=
| TAccessLog (c : AccessLog.AccessLogConfig)
| TBasicAuth (c : BasicAuth.BasicAuthConfig)
| TCache (c : CacheMw.CacheConfig)
| TCompression (c : Compression.CompressionConfig)
| TCors (c : Cors.CorsConfig)
| THealthCheck (c : HealthCheck.HealthCheckConfig)
| TInterceptor (c : InterceptorMw.InterceptorConfig)
| TJwt (c : Jwt.JwtConfig)
| TRateLimit (c : RateLimit.RateLimitConfig)
| TRedirect (c : Redirect.RedirectConfig)
| TRedirectHttps (c : RedirectHttps.RedirectHttpsConfig)
| TRequestHeaders (c : HeaderRules.HeadersConfig)
| TRespond (c : Respond.RespondConfig)
| TResponseHeaders (c : HeaderRules.HeadersConfig)
| TRewrite (c : Rewrite.RewriteConfig)
| TRewriteErrorPage (c : RewriteErrorPage.RewriteErrorPageConfig)
| TRewriteMethod (c : RewriteMethod.RewriteMethodConfig)
| TSetVariable (c : SetVariable.SetVariableConfig).

(** [MiddlewareConfig::validate]. *)
Definition middleware_validate (t : MiddlewareType) : result unit string :=
  match t with
  | TAccessLog c => AccessLog.validate c
  | TBasicAuth c => BasicAuth.validate c
  | TCache c => CacheMw.validate c
  | TCompression c => Compression.validate c
  | TCors c => Cors.validate c
  | THealthCheck c => HealthCheck.validate c
  | TInterceptor c => InterceptorMw.validate c
  | TJwt c => Jwt.validate c
  | TRateLimit c => RateLimit.validate c
  | TRedirect c => Redirect.validate c
  | TRedirectHttps c => RedirectHttps.validate c
  | TRequestHeaders c => HeaderRules.validate RequestHeaders.label c
  | TRespond c => Respond.validate c
  | TResponseHeaders c => ResponseHeaders.validate c
  | TRewrite c => Rewrite.validate c
  | TRewriteErrorPage c => RewriteErrorPage.validate c
  | TRewriteMethod c => RewriteMethod.validate c
  | TSetVariable c => SetVariable.validate c
  end.

(** [Box<dyn Middleware>]: which middleware the object is. *)
Inductive AnyMiddleware :=
| MAccessLog (m : AccessLog.AccessLogMiddleware)
| MBasicAuth (m : BasicAuth.BasicAuthMiddleware)
| MCache (m : CacheMw.CacheMiddleware)
| MCompression (m : Compression.CompressionMiddleware)
| MCors (m : Cors.CorsMiddleware)
| MHealthCheck (m : HealthCheck.HealthCheckMiddleware)
| MInterceptor (m : InterceptorMw.InterceptorMiddleware)
| MJwt (m : Jwt.JwtMiddleware)
| MRateLimit (m : RateLimit.RateLimitMiddleware)
| MRedirect (m : Redirect.RedirectMiddleware)
| MRedirectHttps (m : RedirectHttps.RedirectHttpsMiddleware)
| MRequestHeaders (m : HeaderRules.HeadersMiddleware)
| MRespond (m : Respond.RespondMiddleware)
| MResponseHeaders (m : HeaderRules.HeadersMiddleware)
| MRewrite (m : Rewrite.RewriteMiddleware)
| MRewriteErrorPage (m : RewriteErrorPage.RewriteErrorPageMiddleware)
| MRewriteMethod (m : RewriteMethod.RewriteMethodMiddleware)
| MSetVariable (m : SetVariable.SetVariableMiddleware).

(** [build_middleware], which creates the sink of an access log. *)
Definition build (t : MiddlewareType) (g : MwGlobals) : result AnyMiddleware string * MwGlobals :=
  match t with
  | TAccessLog c =>
      let '(r, sinks) := AccessLog.from_config c (g_sinks g) in
      (let? m := r in Ok (MAccessLog m),
       mkGlobals (g_rate g) (g_purge g) (g_interceptors g) sinks)
  | TBasicAuth c => (let? m := BasicAuth.from_config c in Ok (MBasicAuth m), g)
  | TCache c => (let? m := CacheMw.from_config c in Ok (MCache m), g)
  | TCompression c => (let? m := Compression.from_config c in Ok (MCompression m), g)
  | TCors c => (let? m := Cors.from_config c in Ok (MCors m), g)
  | THealthCheck c => (let? m := HealthCheck.from_config c in Ok (MHealthCheck m), g)
  | TInterceptor c => (let? m := InterceptorMw.from_config c in Ok (MInterceptor m), g)
  | TJwt c => (let? m := Jwt.from_config c in Ok (MJwt m), g)
  | TRateLimit c => (let? m := RateLimit.from_config c in Ok (MRateLimit m), g)
  | TRedirect c => (let? m := Redirect.from_config c in Ok (MRedirect m), g)
  | TRedirectHttps c => (let? m := RedirectHttps.from_config c in Ok (MRedirectHttps m), g)
  | TRequestHeaders c => (let? m := RequestHeaders.from_config c in Ok (MRequestHeaders m), g)
  | TRespond c => (let? m := Respond.from_config c in Ok (MRespond m), g)
  | TResponseHeaders c => (let? m := ResponseHeaders.from_config c in Ok (MResponseHeaders m), g)
  | TRewrite c => (let? m := Rewrite.from_config c in Ok (MRewrite m), g)
  | TRewriteErrorPage c => (let? m := RewriteErrorPage.from_config c in Ok (MRewriteErrorPage m), g)
  | TRewriteMethod c => (let? m := RewriteMethod.from_config c in Ok (MRewriteMethod m), g)
  | TSetVariable c => (let? m := SetVariable.from_config c in Ok (MSetVariable m), g)
  end.

(** A middleware that builds had a valid configuration. *)
Lemma access_log_validates c m x m' :
  AccessLog.from_config c m = (Ok x, m') → AccessLog.validate c = Ok tt.
Proof. unfold AccessLog.from_config. by destruct (AccessLog.validate c) as [[]|]. Qed.
Lemma build_validates t g m g' : build t g = (Ok m, g') → middleware_validate t = Ok tt.
Proof.
  intros Hb. destruct t as [c| | | | | | | | | | | | | | | | |].
  { simpl in *. destruct (AccessLog.from_config c (g_sinks g)) as [[x|] k] eqn:E; [|done].
    by apply access_log_validates in E. }
  all: injection Hb as Hb _; simpl in *; unfold ResponseHeaders.validate; invert_ok; simplify_eq;
    match goal with E : _ = Ok _ |- ?v = Ok tt =>
      unfold BasicAuth.from_config, CacheMw.from_config,
        Compression.from_config, Cors.from_config, HealthCheck.from_config,
        InterceptorMw.from_config, Jwt.from_config, RateLimit.from_config, Redirect.from_config,
        RedirectHttps.from_config, RequestHeaders.from_config, Respond.from_config,
        ResponseHeaders.from_config, Rewrite.from_config, RewriteErrorPage.from_config,
        RewriteMethod.from_config, SetVariable.from_config, HeaderRules.from_config in E;
      by destruct v as [[]|] end.
Qed.

(** ** The instance *)

#[local] Instance registry_types : MwTypes :=
  {| MW := AnyMiddleware; CacheHandler := CacheMw.Handler; MwState := MwGlobals |}.
#[local] Instance rate_state : @RateState registry_types _ :=
  {| get_rate := λ s : @MwState registry_types, g_rate s;
     put_rate := λ r s, mkGlobals r (g_purge s) (g_interceptors s) (g_sinks s);
     get_put_rate := λ _ _, eq_refl |}.
#[local] Instance purge_state : @PurgeState registry_types :=
  {| get_purge := λ s : @MwState registry_types, g_purge s;
     put_purge := λ p s, mkGlobals (g_rate s) p (g_interceptors s) (g_sinks s);
     get_put_purge := λ _ _, eq_refl |}.
#[local] Instance intercept_state : @InterceptState registry_types :=
  {| get_interceptors := λ s : @MwState registry_types, g_interceptors s;
     put_interceptors := λ i s, mkGlobals (g_rate s) (g_purge s) i (g_sinks s);
     get_put_interceptors := λ _ _, eq_refl;
     put_get_interceptors := λ s, match s with mkGlobals _ _ _ _ => eq_refl end |}.
#[local] Instance log_state : @LogState registry_types :=
  {| get_sinks := λ s : @MwState registry_types, g_sinks s;
     put_sinks := λ k s, mkGlobals (g_rate s) (g_purge s) (g_interceptors s) k;
     get_put_sinks := λ _ _, eq_refl;
     put_get_sinks := λ s, match s with mkGlobals _ _ _ _ => eq_refl end;
     put_put_sinks := λ _ _ _, eq_refl |}.
#[local] Instance mw_build : MwBuild :=
  {| MC := MiddlewareType; mc_validate := middleware_validate; build_middleware := build |}.

(** Building an access log creates its sink; no other middleware touches the
    global state when it is built. *)
#[local] Instance registry_build_logs : BuildLogs.
Proof.
  split. intros c g. destruct c as [c| | | | | | | | | | | | | | | | |];
    [|simpl; apply logs_added_refl..].
  exists (AccessLog.from_config c (get_sinks g)).2. simpl.
  pose proof (AccessLog.from_config_added c (g_sinks g)) as Ha.
  by destruct (AccessLog.from_config c (g_sinks g)).
Qed.

(** The handler behind [Arc<dyn ProxyCacheHandler>]: what it does not override
    are the trait's default methods. *)
#[local] Instance cache_ops : CacheOps := {|
  ch_request_cache_filter h := CacheMw.request_cache_filter h;
  ch_cache_key_callback _ := CacheMw.cache_key_callback;
  ch_cache_miss _ := default_cache_miss;
  ch_cache_hit_filter _ meta _ := CacheMw.cache_hit_filter meta;
  ch_response_cache_filter h := CacheMw.response_cache_filter h;
  ch_response_filter h := CacheMw.response_filter h;
  ch_cache_vary_filter _ meta req _ := CacheMw.cache_vary_filter meta req;
  ch_cache_not_modified_filter _ := default_cache_not_modified_filter;
  ch_should_serve_stale _ := default_should_serve_stale;
  ch_is_purge _ _ := default_is_purge;
|}.

(** Dynamic dispatch. *)
Definition hooks_of (m : AnyMiddleware) : Hooks :=
  match m with
  | MAccessLog m => AccessLog.hooks m
  | MBasicAuth m => BasicAuth.hooks m
  | MCache m => CacheMw.hooks id m
  | MCompression m => Compression.hooks m
  | MCors m => Cors.hooks m
  | MHealthCheck m => HealthCheck.hooks m
  | MInterceptor m => InterceptorMw.hooks m
  | MJwt m => Jwt.hooks m
  | MRateLimit m => RateLimit.hooks m
  | MRedirect m => Redirect.hooks m
  | MRedirectHttps m => RedirectHttps.hooks m
  | MRequestHeaders m => RequestHeaders.hooks m
  | MRespond m => Respond.hooks m
  | MResponseHeaders m => ResponseHeaders.hooks m
  | MRewrite m => Rewrite.hooks m
  | MRewriteErrorPage m => RewriteErrorPage.hooks m
  | MRewriteMethod m => RewriteMethod.hooks m
  | MSetVariable m => SetVariable.hooks m
  end.

#[local] Instance registry : Ctx.Middleware := {|
  mw_early_request_filter m := h_early_request_filter (hooks_of m);
  mw_request_filter m := h_request_filter (hooks_of m);
  mw_proxy_upstream_filter m := h_proxy_upstream_filter (hooks_of m);
  mw_upstream_request_filter m := h_upstream_request_filter (hooks_of m);
  mw_connected_to_upstream m := h_connected_to_upstream (hooks_of m);
  mw_fail_to_connect m := h_fail_to_connect (hooks_of m);
  mw_upstream_response_filter m := h_upstream_response_filter (hooks_of m);
  mw_response_filter m := h_response_filter (hooks_of m);
  mw_error_while_proxy m := h_error_while_proxy (hooks_of m);
  mw_fail_to_proxy m := h_fail_to_proxy (hooks_of m);
  mw_logging m := h_logging (hooks_of m);
|}.

Lemma hooks_of_framed m : hooks_framed (hooks_of m).
Proof.
  destruct m; simpl;
    eauto using AccessLog.access_log_framed, BasicAuth.basic_auth_framed, CacheMw.cache_framed,
      Compression.compression_framed, Cors.cors_framed, HealthCheck.health_check_framed,
      InterceptorMw.interceptor_framed, Jwt.jwt_framed, RateLimit.rate_limit_framed,
      Redirect.redirect_framed, RedirectHttps.redirect_https_framed,
      RequestHeaders.request_headers_framed, Respond.respond_framed,
      ResponseHeaders.response_headers_framed, Rewrite.rewrite_framed,
      RewriteErrorPage.rewrite_error_page_framed, RewriteMethod.rewrite_method_framed,
      SetVariable.set_variable_framed.
Qed.

(** The interface the proxy is verified against is implemented. *)
#[local] Instance registry_laws : MiddlewareLaws.
Proof. split; intros m; by apply hooks_of_framed. Qed.

#[local] Instance registry_cache_framed : CacheFramed.
Proof.
  split; intros; simpl;
    unfold CacheMw.request_cache_filter, CacheMw.cache_key_callback, CacheMw.cache_hit_filter,
      CacheMw.response_cache_filter, CacheMw.response_filter;
    first [by apply framed_pure|by apply keeps_frame_ctx|solve_framed].
Qed.

(** Whatever middlewares a route has, and whatever they do to the request they
    forward, no callback can change the route it was matched to, the host
    policy, the header fields it arrived with, or what rules see of it: host,
    path, method, query and headers as the client sent them. Of the shared
    state it moves balancers only by asking them, and adds or removes no
    health state, error page or listener. *)
Theorem registry_request_framed (px : LonesomeProxy) (cb : Callback) s :
  keeps_frame s (run_callback px cb s).
Proof. apply run_callback_framed. Qed.

(** ** Well-formed middlewares *)

(** What a built middleware is known to be. *)
Definition mw_wf (m : AnyMiddleware) : Prop :=
  match m with
  | MAccessLog m => blank (AccessLog.sink m) = false
  | MBasicAuth m => BasicAuth.users m ≠ ∅
  | MCache m => (0 < CacheMw.max_ttl_secs (CacheMw.handler m))%Z
  | MCompression m =>
      ∀ a n, Compression.configured (Compression.cfg m) a = Some n → (0 ≤ n ≤ 11)%Z
  | MCors m => blank (Cors.allow_origin m) = false
  | MHealthCheck m => (0 ≤ HealthCheck.retries m)%Z ∧ (0 < HealthCheck.failure_window_ms m)%Z ∧
                      (0 ≤ HealthCheck.max_attempts m)%Z
  | MInterceptor m => blank (InterceptorMw.key m) = false
  | MJwt m => keys (Jwt.jwks_pool m) ≠ [] ∧ blank (Jwt.header_name m) = false
  | MRateLimit m => (0 ≤ RateLimit.max_requests_per_observe m)%Z ∧
                    (100 ≤ RateLimit.status m ≤ 999)%Z
  | MRedirect m => redirect_code (Redirect.code m) = true
  | MRedirectHttps m => redirect_code (RedirectHttps.code m) = true
  | MRequestHeaders m | MResponseHeaders m => blank (HeaderRules.name m) = false
  | MRespond m => (100 ≤ Respond.status m ≤ 999)%Z
  | MRewrite _ | MRewriteMethod _ => True
  | MRewriteErrorPage m => NoDup (RewriteErrorPage.statuses m) ∧
                           Forall (λ c, 400 ≤ c ≤ 599)%Z (RewriteErrorPage.statuses m)
  | MSetVariable m => blank (SetVariable.name m) = false
  end.

Lemma user_map_nonempty us : us ≠ [] → BasicAuth.user_map us ≠ ∅.
Proof.
  destruct us as [|u us _] using rev_ind; [done|]. intros _. unfold BasicAuth.user_map.
  rewrite foldl_app. simpl. apply insert_non_empty.
Qed.

(** What a check against a configuration leaves, in each constructor. *)
Lemma access_log_wf c k m k' : AccessLog.from_config c k = (Ok m, k') → mw_wf (MAccessLog m).
Proof.
  intros Hb. pose proof (access_log_validates _ _ _ _ Hb) as Hv. revert Hb Hv.
  unfold AccessLog.from_config, AccessLog.validate.
  destruct (_ ;? _) as [ext|]; [|done]. destruct (sink_for _ k) as [[x|] k1]; [|done].
  intros [= <- _] Hv. invert_ok. done.
Qed.
Lemma basic_auth_wf c m : BasicAuth.from_config c = Ok m → mw_wf (MBasicAuth m).
Proof.
  unfold BasicAuth.from_config, BasicAuth.validate. intros Hb. invert_ok. simplify_eq/=.
  apply user_map_nonempty. intros Hu. by rewrite Hu in *.
Qed.
Lemma cache_wf c m : CacheMw.from_config c = Ok m → mw_wf (MCache m).
Proof.
  unfold CacheMw.from_config, CacheMw.validate. intros Hb. invert_ok. simplify_eq/=.
  destruct (CacheMw.cfg_max_ttl_secs c) as [ttl|]; simpl; [|done].
  match goal with Hg : guard_err _ _ = Ok _ |- _ => unfold guard_err in Hg end.
  destruct (N.eqb_spec ttl 0); [done|]. lia.
Qed.
Lemma cors_wf c m : Cors.from_config c = Ok m → mw_wf (MCors m).
Proof.
  unfold Cors.from_config, Cors.validate. intros Hb. invert_ok. simplify_eq/=.
  destruct (Cors.cfg_allow_origin c) as [o|]; [|done]. invert_ok. done.
Qed.
Lemma health_check_wf c m : HealthCheck.from_config c = Ok m → mw_wf (MHealthCheck m).
Proof.
  unfold HealthCheck.from_config, HealthCheck.validate. intros Hb. invert_ok. simplify_eq/=.
  repeat match goal with
  | Hg : guard_err _ _ = Ok _ |- _ => unfold guard_err in Hg
  end.
  repeat match goal with
  | Hg : (if ?b then _ else _) = _ |- _ => destruct b eqn:?; [discriminate|]
  end. lia.
Qed.
Lemma jwt_wf c m : Jwt.from_config c = Ok m → mw_wf (MJwt m).
Proof.
  unfold Jwt.from_config, Jwt.validate, from_jwks. intros Hb. invert_ok. simplify_eq/=.
  destruct (map_err _ _) as [[|k ks]|]; simplify_eq/=. done.
Qed.
Lemma rate_limit_wf c m : RateLimit.from_config c = Ok m → mw_wf (MRateLimit m).
Proof.
  intros Hb. split; [by eapply RateLimit.limit_nonneg|]. revert Hb.
  unfold RateLimit.from_config, RateLimit.validate. intros Hb. invert_ok. simplify_eq/=.
  destruct (RateLimit.cfg_status c) as [st|]; simpl; [|lia].
  match goal with Hg : guard_err ?b _ = Ok _ |- _ => destruct b eqn:E'; [discriminate|] end. lia.
Qed.
Lemma respond_wf c m : Respond.from_config c = Ok m → mw_wf (MRespond m).
Proof.
  unfold Respond.from_config, Respond.validate. intros Hb. invert_ok. simplify_eq/=. lia.
Qed.
Lemma redirect_wf c m : Redirect.from_config c = Ok m → mw_wf (MRedirect m).
Proof.
  unfold Redirect.from_config, Redirect.validate. intros Hb. invert_ok. simplify_eq/=.
  by apply negb_false_iff.
Qed.
Lemma redirect_https_wf c m : RedirectHttps.from_config c = Ok m → mw_wf (MRedirectHttps m).
Proof.
  unfold RedirectHttps.from_config, RedirectHttps.validate. intros Hb. invert_ok. simplify_eq/=.
  destruct (RedirectHttps.cfg_code c); simpl in *; [|done]. invert_ok. by apply negb_false_iff.
Qed.
Lemma headers_wf l c m : HeaderRules.from_config l c = Ok m → blank (HeaderRules.name m) = false.
Proof.
  unfold HeaderRules.from_config, HeaderRules.validate. intros Hb. invert_ok. by simplify_eq/=.
Qed.
Lemma rewrite_error_page_wf c m :
  RewriteErrorPage.from_config c = Ok m → mw_wf (MRewriteErrorPage m).
Proof.
  unfold RewriteErrorPage.from_config. intros Hb. invert_ok. simplify_eq/=.
  destruct (RewriteErrorPage.cfg_status c); [by eapply parse_status_spec_range|].
  simplify_eq/=. split; constructor.
Qed.
Lemma compression_wf c m : Compression.from_config c = Ok m → mw_wf (MCompression m).
Proof.
  unfold Compression.from_config. intros Hb. invert_ok. simplify_eq/=.
  apply Compression.validate_levels. by destruct a.
Qed.

(** The same, whatever the constructor. *)
Lemma build_wf t g m g' : build t g = (Ok m, g') → mw_wf m.
Proof.
  destruct t as [c| | | | | | | | | | | | | | | | |]; simpl.
  { destruct (AccessLog.from_config c (g_sinks g)) as [[x|] k] eqn:E; [|done].
    intros [= <- _]. by eapply access_log_wf. }
  all: intros [= Hb _]; invert_ok; simplify_eq;
    eauto using basic_auth_wf, cache_wf, compression_wf, cors_wf, health_check_wf,
      jwt_wf, rate_limit_wf, redirect_wf, redirect_https_wf, headers_wf, respond_wf,
      rewrite_error_page_wf.
  - unfold InterceptorMw.from_config, InterceptorMw.validate in *. invert_ok. by simplify_eq/=.
  - by eapply headers_wf.
  - by eapply headers_wf.
  - done.
  - done.
  - unfold SetVariable.from_config, SetVariable.validate in *. invert_ok. by simplify_eq/=.
Qed.

(** C31: However the operations of a server and its requests interleave, every
    middleware of every installed route, and of the route of every request in
    flight, is well formed ([mw_wf]): response statuses are between 100 and
    999 and redirects have a redirect code; the statuses of replaced pages are
    distinct and between 400 and 599; the failure window of a health check and
    the time to live of a cache are positive, and its retries and attempts and
    the limit of a rate limiter are not negative; compression levels are
    between 0 and 11; names, keys, origins and log files are not blank; and
    basic authentication has a user and JWT a key to check against. *)
Theorem installed_middlewares_wf `{!LbLaws} y :
  reachable_system y →
  Forall (λ r, Forall mw_wf (r_middlewares r)) (sv_routes (sy_server y)) ∧
  (∀ rq r, rq ∈ sy_requests y → ctx_current_route (rq_ctx rq) = Some r →
     Forall mw_wf (r_middlewares r)).
Proof.
  intros Hr.
  assert (satisfied mw_wf y) as [Hi Hf]
    by (eapply satisfied_reachable; [exact build_wf|exact Hr]).
  rewrite Forall_forall in Hf. by split; [|intros rq r Hin; apply Hf].
Qed.
End Registry.

(** ** Witnesses *)

Module RefRegistry.
#[export] Instance methods : MethodLib := {| method_from_bytes := Ok |}.
End RefRegistry.

Section RegistryWitnesses.
Import Demo RefLb RefPeer RefFmt RefProxyFmt RefRate RefAuth RefCache RefJose RefIntercept.
Import RefLog RefCert RefRegistry.
#[local] Existing Instance registry_types | 0.
#[local] Existing Instance rate_state | 0.
#[local] Existing Instance purge_state | 0.
#[local] Existing Instance intercept_state | 0.
#[local] Existing Instance log_state | 0.
#[local] Existing Instance mw_build | 0.
#[local] Existing Instance registry | 0.
#[local] Existing Instance cache_ops | 0.

Definition demo_headers : MiddlewareType :=
  TRequestHeaders (HeaderRules.mkHeadersConfig "X-Via" HeaderRules.CfgSet (Some "lonesome")
                     None None).
(** A limit of one request in ten seconds. *)
Definition demo_rate : MiddlewareType :=
  TRateLimit (RateLimit.mkRateLimitConfig RateLimit.CfgRemoteIp
                (SpecFloat.S754_finite false 3602879701896397 (-55)) None None None).
Definition demo_cache : MiddlewareType :=
  TCache (CacheMw.mkCacheConfig (Some 60%N) None None None).

Definition demo_chain : list AnyMiddleware :=
  default [] (result_ok (build_middlewares
    ([demo_headers; demo_rate; demo_cache] : list (@MC _ mw_build))
    (mkGlobals (∅, 0%Z) ∅ ∅ ∅)).1).
Example demo_chain_built : length demo_chain = 3.
Proof. vm_compute. reflexivity. Qed.

Definition chain_route : Route :=
  mkRoute "r" 0 (mkMatcher "" (OtherExpr "") None) demo_chain
    (mkUpstreamPool [] None LoadBalancerConfig_default None).
Definition chain_state (window : gmap string Z * Z) : St :=
  mkSt (set_route chain_route
          (set_session_cel_context (Some (ctx "a.com" "/")) (ProxyCtx_new Strict)))
    (new_session (view "a.com" "/") None [])
    (mkShared' [] [] VjsRegistry.World_new [] (mkGlobals window ∅ ∅ ∅) env).
Definition chain_proxy : LonesomeProxy := mkLonesomeProxy [] Strict None None.

(** The first request of the interval passes, the next is refused. *)
Example demo_chain_limits :
  (request_filter chain_proxy (chain_state (∅, 0%Z))).1 = Ok false ∧
  (request_filter chain_proxy (chain_state ({[ "10.0.0.1" := 1%Z ]}, 0%Z))).1 = Ok true.
Proof. vm_compute. split; reflexivity. Qed.

(** After the early hooks the request has a key in its route's namespace. *)
Example demo_chain_key :
  (cache_key_callback (on_route tt (run_hooks mw_early_request_filter)
                         (chain_state (∅, 0%Z))).2).1 = Ok (CacheKey_new "r" "a.com/" "").
Proof. vm_compute. reflexivity. Qed.

Definition wf_config : RouteConfig MiddlewareType :=
  mkRouteConfig "r1" (mkRouteMatcherConfig "api.example.com" None) [demo_headers; demo_rate]
    demo_two None.
Definition wf_shared : Shared :=
  mkShared' [] [] VjsRegistry.World_new [] (mkGlobals (∅, 0%Z) ∅ ∅ ∅) env.
Example wf_installed :
  (λ r, length (r_middlewares r)) <$> sv_routes (add_or_update wf_config (server_new wf_shared)).2
    = [2].
Proof. vm_compute. reflexivity. Qed.

Lemma installed_middlewares_wf_witness :
  Forall (λ r, Forall mw_wf (r_middlewares r))
    (sv_routes (add_or_update wf_config (server_new wf_shared)).2).
Proof.
  refine (proj1 (installed_middlewares_wf (mkSystem _ []) _)).
  exists wf_shared. split_and!; [reflexivity..|].
  apply rtc_once, sys_server, step_add_or_update.
Defined.
End RegistryWitnesses.
