(* ===== verification/Protected.v ===== *)
(** * Guarded routes

    The middlewares of the registry behind the proxy of a running server: what a
    request that is about to be forwarded must have carried, when its route is
    guarded. [src/server/server.rs], [src/proxy/proxy.rs] and the request
    filters of [src/middlewares/] composed. *)

From S2P Require Import Prelude Text Http Config Cel CelSession CelRegex CelFunctions.
From S2P Require Import CelEngine CheapExpr Precheck Matcher RouteTable.
From S2P Require Import VjsSocket VjsRegistry LoadBalancer Pingora ErrorPages Ctx.
From S2P Require Import Cache Upstream Response Frame Proxy Request Filter CertStore Server System.
From S2P Require Import Middleware MwCache MwGuards MwJwt MwInterceptor MwAccessLog.
From S2P Require Import MwCompression MwRequest MwHeaders MwContent MwRegistry.
From stdpp Require Import base tactics strings list gmap relations.
From Stdlib Require Import ZArith Lia.

#[local] Existing Instance registry_types | 0.
#[local] Existing Instance rate_state | 0.
#[local] Existing Instance purge_state | 0.
#[local] Existing Instance intercept_state | 0.
#[local] Existing Instance log_state | 0.
#[local] Existing Instance mw_build | 0.
#[local] Existing Instance registry | 0.
#[local] Existing Instance cache_ops | 0.
#[local] Existing Instance registry_laws | 0.
#[local] Existing Instance registry_cache_framed | 0.

Section Protected.
Context `{HttpLib, RegexLib, RuleLib, !CelLib, TlsLib, !CertLib, LbLib, PeerLib, FmtLib,
          !ProxyFmt, !RateLib, !AuthLib, !MethodLib, !CacheLib, !JoseLib, !JsCalls, !LogLib}.

(** What a middleware without a rule asks of a request it lets pass: the
    credentials of a user, a token (in the mode [deny]). A fixed response lets
    none pass. *)
Definition admits (m : AnyMiddleware) (now : Z) (ses : Session) : Prop :=
  match m with
  | MBasicAuth m => BasicAuth.cel_program m = None → BasicAuth.credentials m ses
  | MJwt m => Jwt.rule_program m = None → Jwt.on_error m = Jwt.Deny →
      Jwt.token_admits m now ses
  | MRespond m => Respond.cel_program m ≠ None
  | _ => True
  end.

Lemma admits_wire m now ses ses' : same_wire ses ses' → admits m now ses' → admits m now ses.
Proof.
  intros (Hh & _ & _). destruct m; simpl; try done;
    unfold BasicAuth.credentials, BasicAuth.authorization, Jwt.token_admits, Jwt.extract_token;
    by rewrite Hh.
Qed.

Lemma request_filter_admits m s s' :
  mw_request_filter m s = (Ok false, s') →
  admits m (env_now (sh_env (st_shared s))) (st_session s).
Proof.
  destruct m as [m|m|m|m|m|m|m|m|m|m|m|m|m|m|m|m|m|m]; try done; simpl.
  - unfold BasicAuth.request_filter, when_applies, should_apply. intros Hf Hrule.
    rewrite Hrule in Hf. by apply BasicAuth.authenticate_passed in Hf as [].
  - intros Hf Hrule Ho. by eapply Jwt.jwt_passed.
  - unfold Respond.request_filter, when_applies, should_apply. intros Hf Hrule.
    rewrite Hrule in Hf. unfold mbind, M_bind, mret, M_ret, map_m_err in Hf.
    destruct (Respond.body_text m s) as [[body|] s1]; [|done].
    by destruct (write_response _ _ _ _ s1) as [[]].
Qed.

(** C3: [request_filter] lets a request of a running server through only if
    every middleware of its route has let it pass, at a time that is recorded,
    and only if the header the request arrived with satisfies every
    unconditional guard among them: the credentials of a configured user for
    basic authentication, a verified token that was in time for JWT in the
    mode [deny]; and never past an unconditional fixed response. Neither the
    other middlewares of the route, in whatever order, nor other requests,
    other callbacks and route updates that run between two middlewares can
    change that. *)
Theorem guarded_route_admits `{!LbLaws} y rq px s0 r m :
  reachable_system y →
  rq ∈ sy_requests y → rq_arrived rq = Some (px, s0) →
  ctx_current_route (rq_ctx rq) = Some r → m ∈ r_middlewares r →
  rq_filter rq = FilterDone (Ok false) →
  ∃ now, (m, now) ∈ rq_passed rq ∧ admits m now (st_session s0).
Proof.
  intros Hr Hin Ha Hc Hm Hf.
  destruct (in_flight_ok y rq Hr Hin) as [_ _ _ _ Hok].
  destruct (Hok px s0 Ha) as [Fa Fp]. rewrite Hf in Fa. destruct Fa as [_ Hall].
  rewrite (Hall r Hc) in Hm. apply list_elem_of_fmap in Hm as ([m' now] & -> & Hp).
  exists now. split; [done|]. rewrite Forall_forall in Fp.
  destruct (Fp _ Hp) as (s1 & s2 & He & [_ _ Hw _] & Hnow). cbn in He, Hnow. subst now.
  apply request_filter_admits in He. by eapply admits_wire.
Qed.
End Protected.

(** ** Witnesses *)

Section ProtectedWitnesses.
Import Demo RefLb RefPeer RefFmt RefProxyFmt RefRate RefAuth RefCache RefJose RefIntercept.
Import RefLog RefCert RefRegistry.
#[local] Existing Instance registry_types | 0.
#[local] Existing Instance rate_state | 0.
#[local] Existing Instance purge_state | 0.
#[local] Existing Instance intercept_state | 0.
#[local] Existing Instance log_state | 0.
#[local] Existing Instance mw_build | 0.
#[local] Existing Instance registry | 0.
#[local] Existing Instance cache_ops | 0.
#[local] Existing Instance registry_laws | 0.
#[local] Existing Instance registry_cache_framed | 0.

(** A server with a route behind some middlewares, and a request that has
    arrived at it. *)
Definition behind (mws : list MiddlewareType) : RouteConfig MiddlewareType :=
  mkRouteConfig "r1" (mkRouteMatcherConfig "api.example.com" None) mws demo_two None.
Definition behind_server (mws : list MiddlewareType) : LonesomeServer :=
  (server_start demo_startup (Ok tt)
     (add_or_update (behind mws) (server_new wf_shared)).2).2.
Definition behind_session (auth : string) : Session :=
  let req := sv_req_header (view "api.example.com" "/") in
  new_session (mkSessionView
    (mkRequestHeader (req_method req) (req_uri req)
       (hm_insert "Authorization" auth (req_headers req)))
    (Some (Inet "10.0.0.1" 4000)) None) None [].
Definition behind_px (mws : list MiddlewareType) : LonesomeProxy :=
  proxy_for demo_startup (behind_server mws).
Definition behind_arrival (mws : list MiddlewareType) (auth : string) : St :=
  mkSt (ProxyCtx_new Strict) (behind_session auth) (sv_shared (behind_server mws)).
Definition behind_early (mws : list MiddlewareType) (auth : string) : St :=
  (early_request_filter (behind_px mws) (behind_arrival mws auth)).2.
Definition behind_request (mws : list MiddlewareType) (auth : string) : InFlight :=
  mkInFlight demo_startup (st_ctx (behind_early mws auth)) (st_session (behind_early mws auth))
    (Some (behind_px mws, behind_arrival mws auth)) FilterIdle [].
Definition behind_system (mws : list MiddlewareType) (auth : string) : System :=
  mkSystem (set_shared (st_shared (behind_early mws auth)) (behind_server mws))
    [behind_request mws auth].

Lemma behind_run mws auth :
  sv_runtime (behind_server mws)
    = Some (mkLonesomeRuntime demo_startup true true ThreadAlive) →
  reachable_system (behind_system mws auth).
Proof.
  intros Hrt. exists wf_shared. split_and!; [reflexivity..|].
  eapply rtc_l; [apply sys_server, (step_add_or_update (behind mws : RouteConfig (@MC _ mw_build)))|].
  eapply rtc_l; [apply sys_server, (step_start demo_startup (Ok tt))|].
  eapply rtc_l.
  { apply (sys_accept (behind_server mws) [] (mkLonesomeRuntime demo_startup true true ThreadAlive)
             (behind_session auth)); [exact Hrt|reflexivity]. }
  apply rtc_once.
  apply (sys_arrive (mkSystem (behind_server mws)
           [mkInFlight demo_startup (ProxyCtx_new Strict) (behind_session auth) None
              FilterIdle []]) 0
           (mkInFlight demo_startup (ProxyCtx_new Strict) (behind_session auth) None
              FilterIdle [])
           (behind_session auth)).
  reflexivity.
Qed.

(** A header rule, a rate limit and basic authentication. *)
Definition guards : list MiddlewareType := [demo_headers; demo_rate; TBasicAuth demo_auth].
(** The filters run to their end: the gate, three middlewares, and the return. *)
Definition guarded_filtered (auth : string) : System :=
  Nat.iter 6 (filter_once 0) (behind_system guards auth).
Definition outcome_of (y : System) : option (bool * list Z) :=
  match sy_requests y !! 0 with
  | Some rq => match rq_filter rq with
               | FilterDone (Ok b) => Some (b, snd <$> rq_passed rq)
               | _ => None
               end
  | None => None
  end.
Definition guards_of (y : System) : list AnyMiddleware :=
  match sy_requests y !! 0 with
  | Some rq => match ctx_current_route (rq_ctx rq) with
               | Some r => r_middlewares r
               | None => []
               end
  | None => []
  end.

(** The right password passes, a wrong one does not. *)
Example guarded_runs :
  outcome_of (guarded_filtered "Basic ann:secret") = Some (false, [1000; 1000; 1000]%Z) ∧
  outcome_of (guarded_filtered "Basic ann:old") = Some (true, [1000; 1000]%Z) ∧
  length (guards_of (guarded_filtered "Basic ann:secret")) = 3.
Proof. vm_compute. repeat split; reflexivity. Qed.

Lemma guarded_filtered_run auth : reachable_system (guarded_filtered auth).
Proof. exact (reachable_run _ _ (behind_run guards auth eq_refl) (filter_once_run 6 0 _)). Qed.
Lemma guarded_filtered_rq auth :
  ∃ rq, sy_requests (guarded_filtered auth) !! 0 = Some rq ∧
    rq_arrived rq = Some (behind_px guards, behind_arrival guards auth).
Proof.
  destruct (filter_once_same 6 0 (behind_system guards auth) (behind_request guards auth) eq_refl)
    as (rq & Hrq & Ha & _).
  by exists rq.
Qed.

Lemma guarded_route_admits_witness :
  match guards_of (guarded_filtered "Basic ann:secret") with
  | [_; _; m] => ∃ now, admits m now (behind_session "Basic ann:secret")
  | _ => False
  end.
Proof.
  generalize (guarded_filtered_run "Basic ann:secret") (guarded_filtered_rq "Basic ann:secret")
    (proj1 guarded_runs) (proj2 (proj2 guarded_runs)).
  generalize (guarded_filtered "Basic ann:secret"). intros y Hr (rq & Hrq & Ha).
  unfold outcome_of, guards_of. rewrite Hrq. intros Hd Hl.
  apply list_elem_of_lookup_2 in Hrq as Hin.
  destruct (rq_filter rq) as [| |ms|[b|e]] eqn:Ef; try discriminate Hd. injection Hd as -> _.
  destruct (ctx_current_route (rq_ctx rq)) as [r|] eqn:Er; [|discriminate Hl].
  pose proof (λ m Hm, guarded_route_admits y rq _ _ r m Hr Hin Ha Er Hm Ef) as Hg.
  destruct (r_middlewares r) as [|m1 [|m2 [|m [|]]]]; try discriminate Hl.
  destruct (Hg m) as (now & _ & Had); [by rewrite !elem_of_cons; auto|]. by exists now.
Defined.
End ProtectedWitnesses.
