(* ===== verification/Breaker.v ===== *)
(** * The circuit breaker

    The pool of a route, its passive health and the health check of the
    registry behind the proxy of a running server: what a failed connection
    does to later selections. [src/upstream/upstream.rs], [src/upstream/lb.rs],
    [src/proxy/proxy.rs] and [src/middlewares/health_check/mod.rs] composed. *)

From S2P Require Import Prelude Text Http Config Cel CelSession CelRegex CelFunctions.
From S2P Require Import CelEngine CheapExpr Precheck Matcher RouteTable.
From S2P Require Import VjsSocket VjsRegistry LoadBalancer Pingora ErrorPages Ctx.
From S2P Require Import Cache Upstream Response Frame Proxy Request Filter CertStore Server System.
From S2P Require Import Middleware MwCache MwGuards MwJwt MwInterceptor MwAccessLog.
From S2P Require Import MwCompression MwRequest MwHeaders MwContent MwRegistry Protected.
From stdpp Require Import base tactics strings list gmap relations.
From Stdlib Require Import ZArith Lia.

#[local] Existing Instance registry_types | 0.
#[local] Existing Instance rate_state | 0.
#[local] Existing Instance purge_state | 0.
#[local] Existing Instance intercept_state | 0.
#[local] Existing Instance log_state | 0.
#[local] Existing Instance mw_build | 0.
#[local] Existing Instance registry | 0.
#[local] Existing Instance cache_ops | 0.
#[local] Existing Instance registry_laws | 0.
#[local] Existing Instance registry_cache_framed | 0.

Section Breaker.
Context `{HttpLib, RegexLib, RuleLib, !CelLib, TlsLib, !CertLib, LbLib, PeerLib, FmtLib,
          !ProxyFmt, !RateLib, !AuthLib, !MethodLib, !CacheLib, !JoseLib, !JsCalls, !LogLib}.

(** The health checks of a route, and the endpoint recorded for a request. *)
Definition health_checks (ms : list AnyMiddleware) : list HealthCheck.HealthCheckMiddleware :=
  omap (λ m, match m with MHealthCheck m => Some m | _ => None end) ms.
Definition chosen_endpoint (s : St) : option nat :=
  ctx_upstream_state (st_ctx s) ≫= us_last_endpoint_index.
Definition chosen_backend (s : St) : option Backend :=
  ctx_upstream_state (st_ctx s) ≫= us_last_backend.
Definition chosen_health (s : St) : option Health.PassiveHealthState :=
  match chosen_backend s with
  | Some b => health_of b (sh_health (st_shared s))
  | None => None
  end.

(** Of the middlewares only a health check looks at a failed connection. *)
Lemma run_errors_quiet c peer ms e s :
  health_checks ms = [] →
  run_errors c (λ m, mw_fail_to_connect m peer) ms e s = (Ok e, s).
Proof. induction ms as [|m ms IH]; [done|]. destruct m; try exact IH. done. Qed.
Lemma run_errors_checked c peer ms m e s e' s' :
  health_checks ms = [m] → HealthCheck.fail_to_connect m e s = (Ok e', s') →
  run_errors c (λ m, mw_fail_to_connect m peer) ms e s = (Ok e', s').
Proof.
  intros Hm Hf. induction ms as [|x ms IH]; [done|]. destruct x; try exact (IH Hm).
  injection Hm as -> Hm. simpl. rewrite Hf. by apply run_errors_quiet.
Qed.

(** The health check marks the backend recorded for the request, and grants a
    retry while there are some left. *)
Lemma fail_to_connect_marks m e s st b loc :
  ctx_upstream_state (st_ctx s) = Some st → us_last_backend st = Some b →
  be_health b = Some loc →
  ∃ s', HealthCheck.fail_to_connect m e s =
      (Ok (if (us_retries st <? HealthCheck.retries m)%Z then set_retry true e else e), s') ∧
    st_shared s' = set_health
      (alter (Health.observe false (env_now (sh_env (st_shared s)))
                (HealthCheck.failure_window_ms m) (HealthCheck.max_attempts m)) loc
         (sh_health (st_shared s))) (st_shared s).
Proof.
  intros Hst Hb Hloc.
  unfold HealthCheck.fail_to_connect, HealthCheck.mark_failure, HealthCheck.mark, mbind, M_bind,
    get, observe_backend_health.
  rewrite Hst. cbn. rewrite Hb, Hloc. cbn. rewrite Hst.
  destruct (us_retries st <? HealthCheck.retries m)%Z; by eexists.
Qed.

Context `{!LbLaws}.

(** The backend whose failure was recorded is not selected in its window. *)
Lemma tripped_not_selected p rid s key peer s' loc lb base idx h :
  pool_at p (st_shared s) loc lb base → (selection_key p s).1 = Ok key → gated p s →
  sh_health (st_shared s) !! (base + idx) = Some h →
  Health.is_healthy (env_now (sh_env (st_shared s))) h = false →
  select_peer p rid s = (Ok peer, s') → chosen_endpoint s' ≠ Some idx.
Proof.
  intros Hat Hkey Hg Hh Hbad Hsel Hc.
  destruct (select_peer_gated p rid s key peer s' loc lb base Hat Hkey Hg Hsel)
    as (i & e & st & b & h' & _ & _ & _ & Hst & _ & _ & Hh' & Hok & _).
  unfold chosen_endpoint in Hc. rewrite Hst in Hc. injection Hc as ->. congruence.
Qed.

Lemma upstream_peer_routed s r :
  ctx_current_route (st_ctx s) = Some r →
  upstream_peer s = select_peer (r_upstream_pool r) (r_id r) s.
Proof. intros Hc. unfold upstream_peer, mbind, M_bind, current_route. by rewrite Hc. Qed.

Lemma marked_not_selected s s3 r loc lb base idx h peer s' :
  pool_at (r_upstream_pool r) (st_shared s) loc lb base →
  lbs_moved (sh_lbs (st_shared s)) (sh_lbs (st_shared s3)) →
  length (sh_health (st_shared s)) ≤ length (sh_health (st_shared s3)) →
  ctx_current_route (st_ctx s3) = Some r → gated (r_upstream_pool r) s3 →
  sh_health (st_shared s3) !! (base + idx) = Some h →
  Health.is_healthy (env_now (sh_env (st_shared s3))) h = false →
  upstream_peer s3 = (Ok peer, s') → chosen_endpoint s' ≠ Some idx.
Proof.
  intros Hat Hl Hlen Hc Hg Hh Hbad Hu. rewrite (upstream_peer_routed s3 r Hc) in Hu.
  destruct (select_peer_key _ _ _ _ _ Hu) as [key Hkey].
  destruct (pool_at_moved _ _ _ _ _ _ Hl Hlen Hat) as [lb3 Hat3].
  by eapply tripped_not_selected.
Qed.

(** Failing to connect keeps the route. *)
Lemma failed_route s peer s1 e r2 s2 :
  upstream_peer s = (Ok peer, s1) → Proxy.fail_to_connect peer e s1 = (r2, s2) →
  ctx_current_route (st_ctx s2) = ctx_current_route (st_ctx s).
Proof.
  intros Hu Hf. pose proof (run_callback_framed (mkLonesomeProxy [] Strict None None)
    CbUpstreamPeer s) as [Hr _ _ _ _ _].
  pose proof (run_callback_framed (mkLonesomeProxy [] Strict None None)
    (CbFailToConnect peer e) s1) as [Hr2 _ _ _ _ _].
  cbn in Hr, Hr2. rewrite Hu in Hr. rewrite Hf in Hr2. cbn in Hr, Hr2. congruence.
Qed.

(** C10: The circuit breaker of a route with one health check and several
    endpoints, for a request whose health check is active: when connecting to
    the endpoint chosen for the request fails, and the endpoint has no failure
    left to spend, the attempt is marked for retry as long as the request has
    retries left. Until the failure window has elapsed no request of that
    route with an active health check, the retry included, is sent to that
    endpoint, as long as no other outcome of that endpoint is recorded:
    neither asking the balancers nor the outcomes of other endpoints nor new
    routes with their pools change that. (The end of the window is a 64-bit
    time; a route with a single endpoint keeps using it.) *)
Theorem failed_endpoint_avoided y rq r m peer s1 e h :
  reachable_system y → rq ∈ sy_requests y →
  let s := st_of rq (sy_server y) in
  let until := (env_now (sh_env (st_shared s)) + HealthCheck.failure_window_ms m)%Z in
  ctx_current_route (rq_ctx rq) = Some r → health_checks (r_middlewares r) = [m] →
  gated (r_upstream_pool r) s → in_i64 until →
  upstream_peer s = (Ok peer, s1) →
  chosen_health s1 = Some h → (- 2 ^ 63 < Health.tolerance h ≤ 0)%Z →
  ∃ idx st b s2, chosen_endpoint s1 = Some idx ∧ chosen_backend s1 = Some b ∧
    ctx_upstream_state (st_ctx s) = Some st ∧
    Proxy.fail_to_connect peer e s1 =
      (Ok (if (us_retries st <? HealthCheck.retries m)%Z then set_retry true e else e), s2) ∧
    ∀ s3 peer' s4, ctx_current_route (st_ctx s3) = Some r → gated (r_upstream_pool r) s3 →
      health_of b (sh_health (st_shared s3)) = health_of b (sh_health (st_shared s2)) →
      length (sh_health (st_shared s2)) ≤ length (sh_health (st_shared s3)) →
      lbs_moved (sh_lbs (st_shared s2)) (sh_lbs (st_shared s3)) →
      (env_now (sh_env (st_shared s3)) < until)%Z →
      upstream_peer s3 = (Ok peer', s4) → chosen_endpoint s4 ≠ Some idx.
Proof.
  intros Hr Hin s until Hc Hms Hg Hi Hu Hch Ht.
  rewrite (upstream_peer_routed s r Hc) in Hu.
  pose proof (framed_select_peer (r_upstream_pool r) (r_id r) s) as Hf. rewrite Hu in Hf.
  destruct Hf as [Hrt _ _ _ [_ _ Henv _ Hlbs] _]. cbn [snd] in Hrt, Henv, Hlbs.
  destruct (in_flight_ok y rq Hr Hin) as [_ _ Hpool _ _].
  destruct (pool_ok_at _ _ (Hpool r Hc)) as (loc & lb & base & Hat).
  destruct (select_peer_key _ _ _ _ _ Hu) as [key Hkey].
  destruct (select_peer_gated _ _ s key peer s1 loc lb base Hat Hkey Hg Hu)
    as (idx & ep & st & b & h' & _ & _ & Hst & Hst1 & _ & Hb & Hh & _ & Hsame).
  destruct (fail_to_connect_marks m e s1 _ b _ Hst1 eq_refl Hb) as (s2 & Hfc & Hs2).
  assert (h' = h) as ->.
  { unfold chosen_health, chosen_backend, health_of in Hch. rewrite Hst1 in Hch. cbn in Hch.
    rewrite Hb in Hch. cbn in Hch. rewrite Hsame in Hch. congruence. }
  exists idx, st, b, s2.
  split_and!; [unfold chosen_endpoint; by rewrite Hst1|unfold chosen_backend; by rewrite Hst1
              |done| |].
  { unfold Proxy.fail_to_connect, on_route, mbind, M_bind, current_route. rewrite Hrt.
    cbn. rewrite Hc. by eapply run_errors_checked. }
  intros s3 peer' s4 Hc3 Hg3 Hh3 Hlen3 Hl3 Hnow Hu3. unfold health_of in Hh3.
  rewrite Hb, Hs2 in Hh3. rewrite Hs2 in Hlen3, Hl3. cbn in Hh3, Hlen3, Hl3.
  rewrite list_lookup_alter_eq, Hsame, Hh in Hh3. rewrite length_alter, Hsame in Hlen3.
  eapply (marked_not_selected s s3); [exact Hat|exact (lbs_moved_trans _ _ _ Hlbs Hl3)
    |exact Hlen3|exact Hc3|exact Hg3|exact Hh3| |exact Hu3].
  rewrite Henv. by apply Health.failure_trips.
Qed.
End Breaker.

(** ** Witness: two endpoints, the first one refuses *)

Section BreakerWitness.
Import Demo RefLb RefPeer RefFmt RefProxyFmt RefRate RefAuth RefCache RefJose RefIntercept.
Import RefLog RefCert RefRegistry.
#[local] Existing Instance registry_types | 0.
#[local] Existing Instance rate_state | 0.
#[local] Existing Instance purge_state | 0.
#[local] Existing Instance intercept_state | 0.
#[local] Existing Instance log_state | 0.
#[local] Existing Instance mw_build | 0.
#[local] Existing Instance registry | 0.
#[local] Existing Instance cache_ops | 0.

Definition checked : list MiddlewareType :=
  [demo_headers; THealthCheck (HealthCheck.mkHealthCheckConfig (Some 2%Z) None None None)].
Definition checked_state : St :=
  st_of (behind_request checked "") (sy_server (behind_system checked "")).
Definition refused : Error := error_explain ConnectError "refused".
Definition peer_of (s : St) : option HttpPeer := result_ok (upstream_peer s).1.

(** The first attempt, its failure, and the retry. *)
Definition attempt : St := (upstream_peer checked_state).2.
Definition failure : option (Error * St) :=
  match peer_of checked_state with
  | Some peer => match Proxy.fail_to_connect peer refused attempt with
                 | (Ok e, s) => Some (e, s)
                 | (Err _, _) => None
                 end
  | None => None
  end.
Definition retried : option nat :=
  match failure with
  | Some (_, s) => chosen_endpoint (upstream_peer s).2
  | None => None
  end.

Example breaker_runs :
  chosen_endpoint attempt = Some 0 ∧ retried = Some 1 ∧
  (λ es, err_retry es.1) <$> failure = Some (Decided true).
Proof. vm_compute. repeat split; reflexivity. Qed.
(** What is known of the route and of the two states. *)
Definition checked_route : option Route := ctx_current_route (st_ctx checked_state).
Definition checked_ms : option (list HealthCheck.HealthCheckMiddleware * nat) :=
  (λ r, (health_checks (r_middlewares r), length (up_endpoints (r_upstream_pool r))))
    <$> checked_route.
Example breaker_facts :
  checked_ms = Some ([HealthCheck.mkHealthCheck 2 10000 1 false], 2) ∧
  (λ h, Health.tolerance h) <$> chosen_health attempt = Some 0%Z ∧
  us_retries <$> ctx_upstream_state (st_ctx checked_state) = Some 0%Z ∧
  env_now (sh_env (st_shared checked_state)) = 1000%Z ∧
  match failure with
  | Some (_, s) =>
      us_retries <$> ctx_upstream_state (st_ctx s) = Some 1%Z ∧
      env_now (sh_env (st_shared s)) = 1000%Z
  | None => False
  end.
Proof. vm_compute. repeat split; reflexivity. Qed.

Lemma checked_in : behind_request checked "" ∈ sy_requests (behind_system checked "").
Proof. by apply list_elem_of_singleton. Qed.

Lemma failed_endpoint_avoided_witness :
  match failure with
  | Some (e, s) => e = set_retry true refused ∧
      ∀ peer s', upstream_peer s = (Ok peer, s') → chosen_endpoint s' ≠ Some 0
  | None => False
  end.
Proof.
  generalize breaker_facts (proj1 breaker_runs)
    (λ r m peer s1 h, failed_endpoint_avoided (behind_system checked "")
       (behind_request checked "") r m peer s1 refused h (behind_run checked "" eq_refl) checked_in).
  unfold checked_ms, checked_route, failure, peer_of, attempt. cbv zeta.
  change (st_of (behind_request checked "") (sy_server (behind_system checked "")))
    with checked_state.
  change (rq_ctx (behind_request checked "")) with (st_ctx checked_state).
  generalize checked_state. intros s (Hms & Ht & Hst & Hnow & Hf) Hc Hthm.
  destruct (ctx_current_route (st_ctx s)) as [r|] eqn:Er; [|discriminate Hms].
  destruct (upstream_peer s) as [[peer|] s1] eqn:Ep; [|destruct Hf]. cbn [fst snd result_ok] in *.
  injection Hms as Hms Hlen.
  destruct (chosen_health s1) as [h|] eqn:Eh; [|discriminate Ht]. injection Ht as Ht.
  destruct (ctx_upstream_state (st_ctx s)) as [st0|] eqn:Es; [|discriminate Hst].
  injection Hst as Hst.
  destruct (Hthm r (HealthCheck.mkHealthCheck 2 10000 1 false) peer s1 h eq_refl Hms)
    as (idx & st & b & s2 & Hi & _ & [= <-] & Hfc & Hav); [|rewrite Hnow|done|done|rewrite Ht|].
  - split; [by rewrite Hlen|]. rewrite Es. eauto.
  - split; vm_compute; congruence.
  - split; vm_compute; congruence.
  - rewrite Hst in Hfc. cbn in Hfc. rewrite Hfc in Hf |- *.
    destruct Hf as (Hst2 & Hnow2). split; [done|]. intros peer' s' Hu.
    assert (idx = 0) as -> by congruence.
    apply (Hav s2 peer' s');
      [exact (eq_trans (failed_route _ _ _ _ _ _ Ep Hfc) Er)| |done|done|by apply lbs_moved_asked| |exact Hu].
    + split; [by rewrite Hlen|]. destruct (ctx_upstream_state (st_ctx s2)); [eauto|discriminate Hst2].
    + rewrite Hnow2, Hnow. reflexivity.
Defined.
End BreakerWitness.
