(* ===== verification/JsApi.v ===== *)
(** * The interface to JavaScript

    [src/bindings/]: every exported function that changes something, as one type
    of calls on the server and on the state the process shares (the JavaScript
    listeners, the interceptors and the cache purges are statics). An error is
    the text of the exception, [to_napi_error]. *)

From S2P Require Import Prelude Text Http Config Cel CelSession CelRegex CelFunctions.
From S2P Require Import CelEngine CheapExpr Precheck Matcher RuleEval RouteTable.
From S2P Require Import VjsSocket VjsRegistry LoadBalancer Pingora ErrorPages Ctx.
From S2P Require Import Cache Upstream Response Frame Proxy Request CertStore Server System.
From S2P Require Import Bindings Middleware MwCache MwGuards MwJwt MwInterceptor MwAccessLog.
From S2P Require Import MwCompression MwRequest MwHeaders MwContent MwRegistry Protected.
From stdpp Require Import base tactics strings list gmap relations.
From Stdlib Require Import ZArith Lia.

Section JsApi.
Context `{HttpLib, RegexLib, RuleLib, !CelLib, TlsLib, !CertLib, LbLib, MwTypes, !MwBuild,
          !MwJson, PeerLib, FmtLib, !ProxyFmt, !Ctx.Middleware, !CacheLib, !CacheOps,
          !PurgeState, !InterceptState, !LogState, !BuildLogs}.

(** ** The functions outside the server object *)

Definition with_vjs (w : VjsRegistry.World) (s : LonesomeServer) : LonesomeServer :=
  set_shared (set_vjs w (sv_shared s)) s.

(** [purge_route_cache]. *)
Definition purge_route_cache (route_id : string) (s : LonesomeServer)
    : result unit string * LonesomeServer :=
  let mw := sh_mw (sv_shared s) in
  (Ok tt, with_mw (put_purge (CacheMw.purge_route_namespace route_id (env_now (sh_env (sv_shared s)))
                                (get_purge mw)) mw) s).

(** [register_interceptor], [unregister_interceptor]. *)
Definition js_register_interceptor (key : string) (tsfn : result nat string) (s : LonesomeServer)
    : result unit string * LonesomeServer :=
  let mw := sh_mw (sv_shared s) in
  let '(r, m) := register_interceptor key tsfn (get_interceptors mw) in
  (r, with_mw (put_interceptors m mw) s).
Definition js_unregister_interceptor (key : string) (s : LonesomeServer)
    : result bool string * LonesomeServer :=
  let mw := sh_mw (sv_shared s) in
  let '(r, m) := unregister_interceptor key (get_interceptors mw) in
  (r, with_mw (put_interceptors m mw) s).

(** [register_virtual_listener], [unregister_virtual_listener],
    [virtual_push_event]. *)
Definition js_register_virtual_listener (key : string) (built : result unit string)
    (s : LonesomeServer) : result unit string * LonesomeServer :=
  let '(r, w) := VjsRegistry.register_virtual_listener key built (sh_vjs (sv_shared s)) in
  (r, with_vjs w s).
Definition js_unregister_virtual_listener (key : string) (s : LonesomeServer)
    : result bool string * LonesomeServer :=
  let '(r, w) := VjsRegistry.unregister_virtual_listener key (sh_vjs (sv_shared s)) in
  (r, with_vjs w s).
Definition virtual_push_event (kind conn_id : string) (data : option bytes)
    (message : option string) (s : LonesomeServer) : result unit string * LonesomeServer :=
  let '(r, w) := VjsRegistry.push_event kind conn_id data message (sh_vjs (sv_shared s)) in
  (r, with_vjs w s).

(** ** Calls *)

Inductive JsCall :=
| JsStart (startup : JsStartupConfig) (spawn : result unit string)
| JsStop
| JsAddOrUpdate (route : JsRouteConfig)
| JsValidate (route : JsRouteConfig)
| JsRemove (id : string)
| JsUpdateErrorPage (options : JsErrorPageOptions)
| JsRemoveErrorPage (id : string)
| JsUpdateCert (h cert_pem key_pem : string) (allow_mismatch : option bool)
| JsRemoveCert (h : string)
| JsPurgeRouteCache (route_id : string)
| JsRegisterInterceptor (key : string) (tsfn : result nat string)
| JsUnregisterInterceptor (key : string)
| JsRegisterVirtualListener (key : string) (built : result unit string)
| JsUnregisterVirtualListener (key : string)
| JsPushEvent (kind conn_id : string) (data : option bytes) (message : option string).

(** What a call gives back: nothing, a flag, or a promise that is pending (a
    [stop] that waits for the thread). *)
Inductive JsAnswer := ADone | AFlag (b : bool) | APending.

Definition done_with {S} (x : result unit string * S) : result JsAnswer string * S :=
  (let? _ := x.1 in Ok ADone, x.2).
Definition flag_with {S} (x : result bool string * S) : result JsAnswer string * S :=
  (let? b := x.1 in Ok (AFlag b), x.2).

Definition js_call (c : JsCall) (s : LonesomeServer) : result JsAnswer string * LonesomeServer :=
  match c with
  | JsStart startup spawn => done_with (js_start startup spawn s)
  | JsStop =>
      match stop_begin s with
      | (None, s') => (Ok APending, s')
      | (Some r, s') => done_with (r, s')
      end
  | JsAddOrUpdate route => done_with (js_add_or_update route s)
  | JsValidate route => done_with (js_validate route s)
  | JsRemove id => flag_with (Ok (server_remove id s).1, (server_remove id s).2)
  | JsUpdateErrorPage options => done_with (js_update_error_page options s)
  | JsRemoveErrorPage id => flag_with (Ok (remove_error_page id s).1, (remove_error_page id s).2)
  | JsUpdateCert h c k a => done_with (update_cert h c k a s)
  | JsRemoveCert h => flag_with (Ok (remove_cert h s).1, (remove_cert h s).2)
  | JsPurgeRouteCache id => done_with (purge_route_cache id s)
  | JsRegisterInterceptor key tsfn => done_with (js_register_interceptor key tsfn s)
  | JsUnregisterInterceptor key => flag_with (js_unregister_interceptor key s)
  | JsRegisterVirtualListener key built => done_with (js_register_virtual_listener key built s)
  | JsUnregisterVirtualListener key => flag_with (js_unregister_virtual_listener key s)
  | JsPushEvent kind id data message => done_with (virtual_push_event kind id data message s)
  end.

(** ** Calls are steps of the system *)

Lemma with_mw_step m s rqs :
  system_step (mkSystem s rqs) (mkSystem (with_mw m s) rqs).
Proof.
  pose proof (sys_outside s rqs m (sh_env (sv_shared s))) as Hs.
  destruct s as [? ? ? [] ? ? ?]. exact Hs.
Qed.
Lemma with_vjs_step op s rqs :
  (∀ l, op ≠ VjsRegistry.OpConnectOpen l) →
  system_step (mkSystem s rqs)
    (mkSystem (with_vjs (VjsRegistry.run_reg_op op (sh_vjs (sv_shared s))) s) rqs).
Proof. intros Hop. apply sys_listeners. intros l Hl. by destruct (Hop l). Qed.

Lemma js_call_step c s rqs :
  rtc system_step (mkSystem s rqs) (mkSystem (js_call c s).2 rqs).
Proof.
  pose proof (λ s', with_mw_step s' s rqs) as Hm. pose proof (λ op, with_vjs_step op s rqs) as Hw.
  destruct c; simpl.
  - unfold js_start. destruct (startup_try_from startup); [|done].
    apply rtc_once, sys_server, step_start.
  - pose proof (step_stop s) as Hs. destruct (stop_begin s) as [[r|] s'];
      by apply rtc_once, sys_server.
  - unfold js_add_or_update. destruct (route_try_from route); [|done].
    apply rtc_once, sys_server, step_add_or_update.
  - unfold js_validate. destruct (route_try_from route) as [cfg|]; [|done].
    unfold server_validate. destruct (Route_from_config cfg _) as [r g]. apply rtc_once, Hm.
  - apply rtc_once, sys_server, step_remove.
  - apply rtc_once, sys_server, step_update_page.
  - apply rtc_once, sys_server, step_remove_page.
  - apply rtc_once, sys_server, step_update_cert.
  - apply rtc_once, sys_server, step_remove_cert.
  - apply rtc_once, Hm.
  - unfold js_register_interceptor. destruct (register_interceptor _ _ _). apply rtc_once, Hm.
  - unfold js_unregister_interceptor. destruct (unregister_interceptor _ _). apply rtc_once, Hm.
  - specialize (Hw (VjsRegistry.OpRegister key built)). simpl in Hw.
    unfold js_register_virtual_listener.
    destruct (VjsRegistry.register_virtual_listener _ _ _). by apply rtc_once, Hw.
  - specialize (Hw (VjsRegistry.OpUnregister key)). simpl in Hw.
    unfold js_unregister_virtual_listener.
    destruct (VjsRegistry.unregister_virtual_listener _ _). by apply rtc_once, Hw.
  - specialize (Hw (VjsRegistry.OpPush kind conn_id data message)). simpl in Hw.
    unfold virtual_push_event.
    destruct (VjsRegistry.push_event _ _ _ _ _). by apply rtc_once, Hw.
Qed.

(** ** Failed calls *)

Lemma with_mw_id s : with_mw (sh_mw (sv_shared s)) s = s.
Proof. by destruct s as [? ? ? [] ? ? ?]. Qed.
Lemma with_vjs_id s : with_vjs (sh_vjs (sv_shared s)) s = s.
Proof. by destruct s as [? ? ? [] ? ? ?]. Qed.
Lemma set_pages_id s : set_pages (sh_pages (sv_shared s)) s = s.
Proof. by destruct s as [? ? ? [] ? ? ?]. Qed.
Lemma set_certs_id s : set_certs (sv_certs s) s = s.
Proof. by destruct s. Qed.

Lemma register_interceptor_err key tsfn m e :
  (register_interceptor key tsfn m).1 = Err e → (register_interceptor key tsfn m).2 = m.
Proof. unfold register_interceptor, registry_register. by repeat case_match. Qed.
Lemma unregister_interceptor_err key m e :
  (unregister_interceptor key m).1 = Err e → (unregister_interceptor key m).2 = m.
Proof. unfold unregister_interceptor, registry_unregister. by repeat case_match. Qed.
Lemma register_listener_err key built w e :
  (VjsRegistry.register_virtual_listener key built w).1 = Err e →
  (VjsRegistry.register_virtual_listener key built w).2 = w.
Proof.
  unfold VjsRegistry.register_virtual_listener, VjsRegistry.register_listener.
  by repeat case_match.
Qed.
Lemma unregister_listener_err key w e :
  (VjsRegistry.unregister_virtual_listener key w).1 = Err e →
  (VjsRegistry.unregister_virtual_listener key w).2 = w.
Proof.
  unfold VjsRegistry.unregister_virtual_listener, VjsRegistry.unregister_listener.
  by repeat case_match.
Qed.

Lemma push_data_err data st e :
  (VjsSocket.push_data data st).1 = Err e → (VjsSocket.push_data data st).2 = st.
Proof. unfold VjsSocket.push_data. by repeat case_match. Qed.
Lemma push_event_err kind id data message w e :
  (VjsRegistry.push_event kind id data message w).1 = Err e →
  (VjsRegistry.push_event kind id data message w).2 = w.
Proof.
  unfold VjsRegistry.push_event, VjsRegistry.on_socket.
  destruct (decide (kind = "data")).
  { destruct data as [payload|]; [|done].
    destruct (VjsRegistry.socket_state id w) as [loc|]; [|done].
    pose proof (push_data_err payload (default VjsSocket.new (VjsRegistry.sheap w !! loc)) e) as Hp.
    destruct (VjsSocket.push_data payload _) as [r st]. simpl in *. intros Hr. rewrite (Hp Hr).
    destruct (VjsRegistry.sheap w !! loc) as [x|] eqn:E; simpl.
    - rewrite list_insert_id by done. by destruct w.
    - rewrite list_insert_ge by (by apply lookup_ge_None). by destruct w. }
  unfold VjsSocket.push_eof, VjsSocket.push_error. by repeat case_match; simplify_eq/=.
Qed.

Lemma update_page_err c es e : (update_page c es).1 = Err e → (update_page c es).2 = es.
Proof. unfold update_page. by destruct (build_entry c). Qed.
Lemma cert_set_err h c k a st e : (cert_set h c k a st).1 = Err e → (cert_set h c k a st).2 = st.
Proof. unfold cert_set. by repeat case_match. Qed.
Lemma done_with_err {S} (x : result unit string * S) e :
  (done_with x).1 = Err e → ∃ e', x.1 = Err e'.
Proof. destruct x as [[]]; simpl; [done|eauto]. Qed.
Lemma flag_with_err {S} (x : result bool string * S) e :
  (flag_with x).1 = Err e → ∃ e', x.1 = Err e'.
Proof. destruct x as [[]]; simpl; [done|eauto]. Qed.
Lemma server_start_err c spawn s e :
  (server_start c spawn s).1 = Err e → (server_start c spawn s).2 = s.
Proof. unfold server_start. by repeat case_match. Qed.
(** At most new sinks. *)
Definition only_logs (s s' : LonesomeServer) : Prop :=
  ∃ g, s' = with_mw g s ∧ logs_added (sh_mw (sv_shared s)) g.
Lemma only_logs_refl s : only_logs s s.
Proof. exists (sh_mw (sv_shared s)). rewrite with_mw_id. split; [done|apply logs_added_refl]. Qed.

Lemma route_from_config_logs cfg sh : logs_added (sh_mw sh) (Route_from_config cfg sh).2.
Proof.
  unfold Route_from_config. destruct (_ ;? _); [|apply logs_added_refl].
  pose proof (build_all_logs (rc_middlewares cfg) (sh_mw sh)) as Hb.
  by destruct (build_middlewares _ _).
Qed.
Lemma add_or_update_err cfg s e :
  (add_or_update cfg s).1 = Err e → only_logs s (add_or_update cfg s).2.
Proof.
  pose proof (route_from_config_logs cfg (sv_shared s)) as Hl. unfold add_or_update.
  destruct (Route_from_config _ _) as [[[]|] g]; [done|]. intros _. by exists g.
Qed.
Lemma server_validate_logs cfg s : only_logs s (server_validate cfg s).2.
Proof.
  pose proof (route_from_config_logs cfg (sv_shared s)) as Hl. unfold server_validate.
  destruct (Route_from_config _ _) as [r g]. by exists g.
Qed.

(** The calls that build a route. *)
Definition builds (c : JsCall) : bool :=
  match c with JsAddOrUpdate _ | JsValidate _ => true | _ => false end.

Lemma js_build_err c s e :
  (js_call c s).1 = Err e → builds c = true → only_logs s (js_call c s).2.
Proof.
  destruct c; simpl; intros He Hc; try done; apply done_with_err in He as [e' He].
  - unfold js_add_or_update in *. destruct (route_try_from route); [|apply only_logs_refl].
    by eapply add_or_update_err.
  - unfold js_validate in *. destruct (route_try_from route); [|apply only_logs_refl].
    apply server_validate_logs.
Qed.

Lemma js_call_err c s e :
  (js_call c s).1 = Err e → c ≠ JsStop → builds c = false → (js_call c s).2 = s.
Proof.
  destruct c; simpl; intros He Hc Hb;
    try (apply done_with_err in He as [e' He]); try (apply flag_with_err in He as [e' He]);
    try done.
  - unfold js_start in *. destruct (startup_try_from startup); [|done].
    by eapply server_start_err.
  - unfold js_update_error_page, update_error_page in *.
    set (c := error_page_try_from options) in *.
    pose proof (update_page_err c (sh_pages (sv_shared s)) e') as Hp.
    destruct (update_page c _) as [r es]. simpl in *. rewrite (Hp He). apply set_pages_id.
  - unfold update_cert in *.
    pose proof (cert_set_err h cert_pem key_pem (default false allow_mismatch) (sv_certs s) e') as Hp.
    destruct (cert_set _ _ _ _ _) as [r st]. simpl in *. rewrite (Hp He). apply set_certs_id.
  - unfold js_register_interceptor in *.
    pose proof (register_interceptor_err key tsfn (get_interceptors (sh_mw (sv_shared s))) e') as Hp.
    destruct (register_interceptor _ _ _) as [r m]. simpl in *.
    rewrite (Hp He), put_get_interceptors. apply with_mw_id.
  - unfold js_unregister_interceptor in *.
    pose proof (unregister_interceptor_err key (get_interceptors (sh_mw (sv_shared s))) e') as Hp.
    destruct (unregister_interceptor _ _) as [r m]. simpl in *.
    rewrite (Hp He), put_get_interceptors. apply with_mw_id.
  - unfold js_register_virtual_listener in *.
    pose proof (register_listener_err key built (sh_vjs (sv_shared s)) e') as Hp.
    destruct (VjsRegistry.register_virtual_listener _ _ _) as [r w]. simpl in *.
    rewrite (Hp He). apply with_vjs_id.
  - unfold js_unregister_virtual_listener in *.
    pose proof (unregister_listener_err key (sh_vjs (sv_shared s)) e') as Hp.
    destruct (VjsRegistry.unregister_virtual_listener _ _) as [r w]. simpl in *.
    rewrite (Hp He). apply with_vjs_id.
  - unfold virtual_push_event in *.
    pose proof (push_event_err kind conn_id data message (sh_vjs (sv_shared s)) e') as Hp.
    destruct (VjsRegistry.push_event _ _ _ _ _) as [r w]. simpl in *.
    rewrite (Hp He). apply with_vjs_id.
Qed.

(** C6: JavaScript cannot bring a running system into a bad state: after any
    call of the exported interface, whatever its arguments, in any reachable
    state and with any requests in flight, the invariants of the system hold;
    and a call that throws has changed nothing, [stop] apart, but that a call
    which builds a route ([addOrUpdate], [validate]) may have created the log
    files and sinks, still unused, of the access logs it built before it
    failed. *)
Theorem js_calls_safe `{!MiddlewareLaws, !CacheFramed, !LbLaws} y c :
  reachable_system y →
  let '(r, s') := js_call c (sy_server y) in
  running_inv (mkSystem s' (sy_requests y)) ∧
  (∀ e, r = Err e → c ≠ JsStop →
     (builds c = false → s' = sy_server y) ∧
     ∃ g, s' = with_mw g (sy_server y) ∧ logs_added (sh_mw (sv_shared (sy_server y))) g).
Proof.
  intros Hr. pose proof (js_call_step c (sy_server y) (sy_requests y)) as Hs.
  pose proof (js_call_err c (sy_server y)) as He. pose proof (js_build_err c (sy_server y)) as Hb.
  destruct y as [s rqs]. simpl in *.
  destruct (js_call c s) as [r s']. simpl in *. split.
  2:{ intros e -> Hc. specialize (He e eq_refl Hc). specialize (Hb e eq_refl).
      split; [done|]. destruct (builds c); [by apply Hb|]. rewrite He by done.
      apply only_logs_refl. }
  apply running_inv_reachable. by eapply reachable_run.
Qed.
End JsApi.

(** ** Witnesses *)

Module RefJsApi.
Import Demo RefLb RefPeer RefFmt RefProxyFmt RefRate RefAuth RefCache RefJose RefIntercept.
Import RefLog RefRegistry.
#[local] Existing Instance registry_types | 0.
#[local] Existing Instance mw_build | 0.
#[export] Instance json : MwJson := {| mw_from_value := λ _, Ok demo_headers |}.
End RefJsApi.

Section JsApiWitnesses.
Import Demo RefLb RefPeer RefFmt RefProxyFmt RefRate RefAuth RefCache RefJose RefIntercept.
Import RefLog RefCert RefRegistry RefJsApi.
#[local] Existing Instance registry_types | 0.
#[local] Existing Instance rate_state | 0.
#[local] Existing Instance purge_state | 0.
#[local] Existing Instance intercept_state | 0.
#[local] Existing Instance log_state | 0.
#[local] Existing Instance mw_build | 0.
#[local] Existing Instance registry | 0.
#[local] Existing Instance cache_ops | 0.
#[local] Existing Instance registry_build_logs | 0.
#[local] Existing Instance registry_laws | 0.
#[local] Existing Instance registry_cache_framed | 0.

(** A second interceptor under the same key is refused. *)
Definition js_first : LonesomeServer :=
  (js_call (JsRegisterInterceptor "k" (Ok 1)) (behind_server guards)).2.
Example js_second_refused :
  (js_call (JsRegisterInterceptor "k" (Ok 2)) js_first).1 = Err "interceptor 'k' already exists".
Proof. vm_compute. reflexivity. Qed.

Lemma js_calls_safe_witness :
  (js_call (JsRegisterInterceptor "k" (Ok 2)) js_first).2 = js_first.
Proof.
  assert (reachable_system (mkSystem js_first [])) as Hr.
  { exists wf_shared. split_and!; [reflexivity..|].
    eapply rtc_l; [apply sys_server,
      (step_add_or_update (behind guards : RouteConfig (@MC _ mw_build)))|].
    eapply rtc_l; [apply sys_server, (step_start demo_startup (Ok tt))|].
    apply js_call_step. }
  pose proof (js_calls_safe (mkSystem js_first [])
    (JsRegisterInterceptor "k" (Ok 2)) Hr) as Hs.
  pose proof js_second_refused as Hd. cbn [sy_server] in Hs.
  destruct (js_call (JsRegisterInterceptor "k" (Ok 2)) js_first) as [r s'].
  apply (proj2 Hs _ Hd); [discriminate|reflexivity].
Defined.

(** A route whose second log cannot be opened: the route is refused, and the
    sink of the first log stays. *)
Definition log_then_bad : RouteConfig (@MC _ mw_build) :=
  mkRouteConfig "r2" (mkRouteMatcherConfig "api.example.com" None)
    [TAccessLog (AccessLog.mkAccessLogConfig None (Some "a.log") None);
     TAccessLog (AccessLog.mkAccessLogConfig None (Some "/root/b.log") None)] demo_two None.
Example sink_outlives_refusal :
  is_ok (add_or_update log_then_bad js_first).1 = false ∧
  size (get_sinks (sh_mw (sv_shared js_first))) = 0 ∧
  size (get_sinks (sh_mw (sv_shared (add_or_update log_then_bad js_first).2))) = 1.
Proof. vm_compute. split_and!; reflexivity. Qed.
End JsApiWitnesses.
